(** * BaseCT: the dynamic-schema data layer, embedded in Rocq

    A shallow embedding of [repo.py] (class [MetaRepository]) and of the
    record-level parts of [app.py] (class [TableView], [AddFieldDialog]),
    followed by the properties of the specification that were settled
    against it.

    Conventions.
    - Python integers are [Z]; Python strings are [string]; a Python value
      of type [Any] is a [PyVal].
    - The SQLite database is an explicit store ([World]): one finite map
      per catalog table, keyed by the [id] primary key, and one physical
      table [data_<table_id>] per logical table.
    - Every method is a computation in the monad [M]: it threads the store
      and either returns or raises.  A write that was committed before an
      exception is raised stays in the store, as in the code.
    - [now_iso()] reads the wall clock; the store carries the sequence of
      readings the clock will give. *)

From Stdlib Require Import Ascii String.
From stdpp Require Import gmap strings list sorting pretty.

Set Warnings "-register-all".
Local Open Scope string_scope.
Local Open Scope Z_scope.

(** ** Python values and built-ins *)

Module Py.

(** A value of type [Any].  A float is carried by its binary64 bit
    pattern: the code stores and compares floats but never computes with
    them. *)
Inductive PyVal : Type :=
| PNone
| PBool (b : bool)
| PInt (z : Z)
| PFloat (bits : Z)
| PStr (s : string)
| PList (xs : list PyVal)
| PDict (kvs : list (string * PyVal)).

(** Exceptions the modelled code raises or lets through. *)
Inductive Exn : Type :=
| ValueError
| KeyError
| TypeError
| AttributeError
| IndexError
| RecursionError
| IntegrityError
| OperationalError
| OverflowError.

Global Instance Exn_eq_dec : EqDecision Exn.
Proof. solve_decision. Defined.

(** The built-ins of the interpreter that the code calls on strings and
    floats.  They are not code of the repository; the development is
    parametric in them.  [None] stands for the exception the built-in
    raises ([ValueError], [OverflowError]). *)
Class Builtins : Type := {
  str_strip : string → string;
  str_lower : string → string;
  str_upper : string → string;
  str_splitlines : string → list string;
  str_split_comma : string → list string;
  str_commas_to_dots : string → string;
  int_of_str : string → option Z;
  float_of_str : string → option Z;
  float_of_int : Z → option Z;
  int_of_float : Z → option Z;
  float_eqb_int : Z → Z → bool;
  float_truthy : Z → bool;
  repr : PyVal → string;
}.

Section WithBuiltins.
Context `{B : Builtins}.

(** [bool(v)] *)
Definition truthy (v : PyVal) : bool :=
  match v with
  | PNone => false
  | PBool b => b
  | PInt z => negb (z =? 0)
  | PFloat f => float_truthy f
  | PStr s => negb (String.eqb s "")
  | PList xs => match xs with [] => false | _ => true end
  | PDict kvs => match kvs with [] => false | _ => true end
  end.

(** [a or b] *)
Definition py_or (a b : PyVal) : PyVal := if truthy a then a else b.

(** [v == n] for an integer literal [n] *)
Definition eqb_int (v : PyVal) (n : Z) : bool :=
  match v with
  | PInt z => z =? n
  | PBool b => (if b then 1 else 0) =? n
  | PFloat f => float_eqb_int f n
  | _ => false
  end.

(** [v == s] for a string literal [s] *)
Definition eqb_str (v : PyVal) (s : string) : bool :=
  match v with
  | PStr t => String.eqb t s
  | _ => false
  end.

(** [v is None] *)
Definition is_none (v : PyVal) : bool :=
  match v with PNone => true | _ => false end.

(** [isinstance(v, int)]: [bool] is a subclass of [int]. *)
Definition isinstance_int (v : PyVal) : bool :=
  match v with PInt _ | PBool _ => true | _ => false end.

Definition isinstance_str (v : PyVal) : bool :=
  match v with PStr _ => true | _ => false end.

Definition isinstance_list (v : PyVal) : bool :=
  match v with PList _ => true | _ => false end.

Definition isinstance_dict (v : PyVal) : bool :=
  match v with PDict _ => true | _ => false end.

(** [int(v)] *)
Definition py_int (v : PyVal) : Exn + Z :=
  match v with
  | PInt z => inr z
  | PBool b => inr (if b then 1 else 0)
  | PFloat f => match int_of_float f with Some z => inr z | None => inl ValueError end
  | PStr s => match int_of_str s with Some z => inr z | None => inl ValueError end
  | PNone | PList _ | PDict _ => inl TypeError
  end.

(** [float(v)] *)
Definition py_float (v : PyVal) : Exn + Z :=
  match v with
  | PInt z => match float_of_int z with Some f => inr f | None => inl ValueError end
  | PBool b => match float_of_int (if b then 1 else 0) with Some f => inr f | None => inl ValueError end
  | PFloat f => inr f
  | PStr s => match float_of_str s with Some f => inr f | None => inl ValueError end
  | PNone | PList _ | PDict _ => inl TypeError
  end.

(** [str(v)] *)
Definition py_str (v : PyVal) : string :=
  match v with
  | PStr s => s
  | PInt z => pretty z
  | PNone => "None"
  | PBool b => if b then "True" else "False"
  | _ => repr v
  end.

(** [d.get(k, default)] and [k in d] on a dictionary with string keys *)
Fixpoint assoc {A : Type} (k : string) (kvs : list (string * A)) : option A :=
  match kvs with
  | [] => None
  | (k', v) :: rest => if String.eqb k' k then Some v else assoc k rest
  end.

Definition dict_get (d : list (string * PyVal)) (k : string) (dflt : PyVal) : PyVal :=
  match assoc k d with Some v => v | None => dflt end.

Definition dict_has (d : list (string * PyVal)) (k : string) : bool :=
  match assoc k d with Some _ => true | None => false end.

End WithBuiltins.
End Py.

(** ** The store: SQLite tables and the clock *)

Module Store.
Import Py.

(** A row of [meta_projects], keyed by [id]. *)
Record ProjectRow : Type := {
  p_name : string;
  p_parent_id : option Z;
  p_color : string;
  p_created_at : string;
  p_updated_at : string;
}.

(** A row of [meta_tables], keyed by [id]. *)
Record TableRow : Type := {
  t_name : string;
  t_project_id : option Z;
  t_created_at : string;
  t_updated_at : string;
}.

(** A row of [meta_fields], keyed by [id].  [options_json] holds the JSON
    document itself: [json.dumps] and [json.loads] are inverse on the
    documents the code stores. *)
Record FieldRow : Type := {
  f_table_id : Z;
  f_name : string;
  f_ftype : string;
  f_required : Z;
  f_active : Z;
  f_position : option Z;
  f_options_json : PyVal;
  f_created_at : string;
  f_updated_at : string;
}.

(** The three column declarations [_ddl_for_field] produces. *)
Inductive Ddl : Type :=
| TEXT_NOT_NULL_DEFAULT_EMPTY
| REAL_NOT_NULL_DEFAULT_0
| INTEGER_NOT_NULL_DEFAULT_0.

Global Instance Ddl_eq_dec : EqDecision Ddl.
Proof. solve_decision. Defined.

(** The value a column of that declaration takes when an INSERT does not
    list it, and that ALTER TABLE ADD COLUMN gives to the existing rows. *)
Definition ddl_default (d : Ddl) : PyVal :=
  match d with
  | TEXT_NOT_NULL_DEFAULT_EMPTY => PStr ""
  | REAL_NOT_NULL_DEFAULT_0 => PFloat 0
  | INTEGER_NOT_NULL_DEFAULT_0 => PInt 0
  end.

(** Column names of a physical table [data_<table_id>]: the three system
    columns and [f_<field_id>]. *)
Inductive Col : Type :=
| c_id
| c_created_at
| c_updated_at
| c_f (fid : Z).

Global Instance Col_eq_dec : EqDecision Col.
Proof. solve_decision. Defined.

(** A row of [data_<table_id>], keyed by [id]; [r_cells] maps a field id
    [k] to the value of column [f_<k>]. *)
Record DataRow : Type := {
  r_created_at : string;
  r_updated_at : string;
  r_cells : gmap Z PyVal;
}.

(** A physical table [data_<table_id>]: its [f_<k>] columns with their
    declarations, its rows, and the AUTOINCREMENT counter SQLite keeps in
    [sqlite_sequence]. *)
Record DataTable : Type := {
  dt_columns : gmap Z Ddl;
  dt_rows : gmap Z DataRow;
  dt_seq : Z;
}.

Record World : Type := {
  clock : nat → string;
  ticks : nat;
  meta_projects : gmap Z ProjectRow;
  meta_tables : gmap Z TableRow;
  meta_fields : gmap Z FieldRow;
  meta_fields_seq : Z;
  data : gmap Z DataTable;
}.

Definition set_ticks (n : nat) (w : World) : World :=
  {| clock := clock w; ticks := n; meta_projects := meta_projects w;
     meta_tables := meta_tables w; meta_fields := meta_fields w;
     meta_fields_seq := meta_fields_seq w; data := data w |}.

Definition set_meta_projects (m : gmap Z ProjectRow) (w : World) : World :=
  {| clock := clock w; ticks := ticks w; meta_projects := m;
     meta_tables := meta_tables w; meta_fields := meta_fields w;
     meta_fields_seq := meta_fields_seq w; data := data w |}.

Definition set_meta_tables (m : gmap Z TableRow) (w : World) : World :=
  {| clock := clock w; ticks := ticks w; meta_projects := meta_projects w;
     meta_tables := m; meta_fields := meta_fields w;
     meta_fields_seq := meta_fields_seq w; data := data w |}.

Definition set_meta_fields (m : gmap Z FieldRow) (seq : Z) (w : World) : World :=
  {| clock := clock w; ticks := ticks w; meta_projects := meta_projects w;
     meta_tables := meta_tables w; meta_fields := m;
     meta_fields_seq := seq; data := data w |}.

Definition set_data (d : gmap Z DataTable) (w : World) : World :=
  {| clock := clock w; ticks := ticks w; meta_projects := meta_projects w;
     meta_tables := meta_tables w; meta_fields := meta_fields w;
     meta_fields_seq := meta_fields_seq w; data := d |}.

(** *** The state-and-exception monad *)

Inductive Res (A : Type) : Type :=
| Ok (a : A)
| Raise (e : Exn).
Global Arguments Ok {A} a.
Global Arguments Raise {A} e.

Definition M (S A : Type) : Type := S → Res A * S.

Definition ret {S A : Type} (a : A) : M S A := λ s, (Ok a, s).

Definition raise {S A : Type} (e : Exn) : M S A := λ s, (Raise e, s).

Definition bind {S A B : Type} (m : M S A) (k : A → M S B) : M S B :=
  λ s, match m s with
       | (Ok a, s') => k a s'
       | (Raise e, s') => (Raise e, s')
       end.

Definition get {S : Type} : M S S := λ s, (Ok s, s).
Definition put {S : Type} (s : S) : M S unit := λ _, (Ok tt, s).
Definition modify {S : Type} (f : S → S) : M S unit := λ s, (Ok tt, f s).

(** [try: m except Exception: h] *)
Definition try_except {S A : Type} (m : M S A) (h : Exn → M S A) : M S A :=
  λ s, match m s with
       | (Ok a, s') => (Ok a, s')
       | (Raise e, s') => h e s'
       end.

(** [try: m finally: f] *)
Definition try_finally {S A : Type} (m : M S A) (f : S → S) : M S A :=
  λ s, match m s with (r, s') => (r, f s') end.

(** Lifting a built-in's outcome. *)
Definition of_sum {S A : Type} (x : Exn + A) : M S A :=
  match x with inl e => raise e | inr a => ret a end.

Declare Scope m_scope.
Delimit Scope m_scope with M.
Notation "x <- m ;; k" := (bind m (λ x, k))
  (at level 100, m at next level, right associativity) : m_scope.
Notation "m ;; k" := (bind m (λ _, k))
  (at level 100, right associativity) : m_scope.
Local Open Scope m_scope.

(** [for x in xs: body x] *)
Fixpoint for_each {S A : Type} (xs : list A) (body : A → M S unit) : M S unit :=
  match xs with
  | [] => ret tt
  | x :: rest => body x ;; for_each rest body
  end.

(** [now_iso()] *)
Definition now_iso : M World string :=
  λ w, (Ok (clock w (ticks w)), set_ticks (S (ticks w)) w).

End Store.

(** ** [repo.py]: class [MetaRepository] *)

Module Repo.
Import Py Store.
Local Open Scope m_scope.

Definition FIELD_TYPES : list string :=
  ["text"; "number"; "date"; "bool"; "file"; "select"; "relation"; "path"; "image"].

Definition str_in (s : string) (l : list string) : bool :=
  existsb (String.eqb s) l.

(** *** Data tables *)

Definition empty_data_table : DataTable :=
  {| dt_columns := ∅; dt_rows := ∅; dt_seq := 0 |}.

(** [_ensure_data_table]: CREATE TABLE IF NOT EXISTS data_<table_id> *)
Definition _ensure_data_table (table_id : Z) : M World unit :=
  λ w, match data w !! table_id with
       | Some _ => (Ok tt, w)
       | None => (Ok tt, set_data (<[table_id := empty_data_table]> (data w)) w)
       end.

(** [_table_columns]: the column set PRAGMA table_info reports, as its
    characteristic function; a table that does not exist has none. *)
Definition _table_columns (table_id : Z) : M World (Col → bool) :=
  λ w, (Ok (λ c, match data w !! table_id with
                 | None => false
                 | Some t => match c with
                             | c_f k => bool_decide (is_Some (dt_columns t !! k))
                             | _ => true
                             end
                 end), w).

(** ALTER TABLE data_<table_id> ADD COLUMN col ddl: the existing rows
    take the column's default. *)
Definition sql_add_column (table_id : Z) (col : Col) (ddl : Ddl) : M World unit :=
  λ w, match data w !! table_id, col with
       | Some t, c_f k =>
           match dt_columns t !! k with
           | Some _ => (Raise OperationalError, w)
           | None =>
               let t' := {| dt_columns := <[k := ddl]> (dt_columns t);
                            dt_rows := (λ r, {| r_created_at := r_created_at r;
                                                r_updated_at := r_updated_at r;
                                                r_cells := <[k := ddl_default ddl]> (r_cells r) |})
                                       <$> dt_rows t;
                            dt_seq := dt_seq t |} in
               (Ok tt, set_data (<[table_id := t']> (data w)) w)
           end
       | _, _ => (Raise OperationalError, w)
       end.

(** [_ensure_column] *)
Definition _ensure_column (table_id : Z) (col : Col) (ddl_type : Ddl) : M World unit :=
  cols <- _table_columns table_id ;;
  if cols col then ret tt
  else sql_add_column table_id col ddl_type.

(** [_ddl_for_field] *)
Definition _ddl_for_field (ftype : string) : M World Ddl :=
  if String.eqb ftype "text" then ret TEXT_NOT_NULL_DEFAULT_EMPTY
  else if String.eqb ftype "number" then ret REAL_NOT_NULL_DEFAULT_0
  else if String.eqb ftype "date" then ret TEXT_NOT_NULL_DEFAULT_EMPTY
  else if String.eqb ftype "bool" then ret INTEGER_NOT_NULL_DEFAULT_0
  else if String.eqb ftype "file" then ret TEXT_NOT_NULL_DEFAULT_EMPTY
  else if String.eqb ftype "image" then ret TEXT_NOT_NULL_DEFAULT_EMPTY
  else if String.eqb ftype "path" then ret TEXT_NOT_NULL_DEFAULT_EMPTY
  else if String.eqb ftype "select" then ret TEXT_NOT_NULL_DEFAULT_EMPTY
  else if String.eqb ftype "relation" then ret INTEGER_NOT_NULL_DEFAULT_0
  else raise ValueError.


(** *** Row-level SQL on a data table *)

(** Largest rowid present (0 for an empty table). *)
Definition max_rowid {A : Type} (rows : gmap Z A) : Z :=
  map_fold (λ k _ acc, Z.max k acc) 0 rows.

(** The rowid AUTOINCREMENT picks: one more than the largest rowid that
    ever existed in the table. *)
Definition next_rowid {A : Type} (seq : Z) (rows : gmap Z A) : Z :=
  Z.max seq (max_rowid rows) + 1.

(** An integer SQLite can hold: 64 bits, signed.  Binding another one to
    a statement raises [OverflowError]. *)
Definition int64 (z : Z) : bool := (- 2 ^ 63 <=? z) && (z <? 2 ^ 63).

(** The largest rowid, [2^63 - 1], was in use: AUTOINCREMENT has no rowid
    left and the INSERT fails with SQLITE_FULL, an [OperationalError]. *)
Definition rowids_used_up {A : Type} (seq : Z) (rows : gmap Z A) : bool :=
  2 ^ 63 - 1 <=? Z.max seq (max_rowid rows).

(** The cells of an inserted row: the listed columns take the bound
    values, the others their default.  A bound NULL violates NOT NULL:
    plain INSERT aborts, INSERT OR REPLACE stores the default instead. *)
Definition insert_cells (or_replace : bool) (columns : gmap Z Ddl)
    (values : gmap Z PyVal) : Exn + gmap Z PyVal :=
  if negb (bool_decide (map_Forall (λ k _, is_Some (columns !! k)) values))
  then inl OperationalError
  else if negb or_replace
          && negb (bool_decide (map_Forall (λ _ v, is_none v = false) values))
  then inl IntegrityError
  else inr (map_imap (λ k ddl,
              match values !! k with
              | Some PNone | None => Some (ddl_default ddl)
              | Some v => Some v
              end) columns).

Definition with_table {A : Type} (table_id : Z)
    (f : DataTable → Exn + (A * DataTable)) : M World A :=
  λ w, match data w !! table_id with
       | None => (Raise OperationalError, w)
       | Some t => match f t with
                   | inl e => (Raise e, w)
                   | inr (a, t') => (Ok a, set_data (<[table_id := t']> (data w)) w)
                   end
       end.

(** INSERT INTO data_<table_id>(created_at, updated_at, f_..) VALUES (..):
    the rowid is picked before the NOT NULL constraints are checked. *)
Definition sql_insert (created_at updated_at : string) (values : gmap Z PyVal)
    (t : DataTable) : Exn + (Z * DataTable) :=
  if rowids_used_up (dt_seq t) (dt_rows t) then inl OperationalError
  else
  match insert_cells false (dt_columns t) values with
  | inl e => inl e
  | inr cells =>
      let rid := next_rowid (dt_seq t) (dt_rows t) in
      inr (rid, {| dt_columns := dt_columns t;
                   dt_rows := <[rid := {| r_created_at := created_at;
                                          r_updated_at := updated_at;
                                          r_cells := cells |}]> (dt_rows t);
                   dt_seq := rid |})
  end.

(** INSERT OR REPLACE INTO data_<table_id>(id, created_at, updated_at, f_..)
    VALUES (..): a row of that id, if any, is replaced as a whole. *)
Definition sql_insert_or_replace (record_id : Z) (created_at updated_at : string)
    (values : gmap Z PyVal) (t : DataTable) : Exn + (unit * DataTable) :=
  match insert_cells true (dt_columns t) values with
  | inl e => inl e
  | inr cells =>
      inr (tt, {| dt_columns := dt_columns t;
                  dt_rows := <[record_id := {| r_created_at := created_at;
                                                r_updated_at := updated_at;
                                                r_cells := cells |}]> (dt_rows t);
                  dt_seq := Z.max (dt_seq t) record_id |})
  end.

(** UPDATE data_<table_id> SET updated_at=?, f_..=? WHERE id=? *)
Definition sql_update (record_id : Z) (updated_at : string) (values : gmap Z PyVal)
    (t : DataTable) : Exn + (unit * DataTable) :=
  if negb (bool_decide (map_Forall (λ k _, is_Some (dt_columns t !! k)) values))
  then inl OperationalError
  else match dt_rows t !! record_id with
       | None => inr (tt, t)
       | Some r =>
           if negb (bool_decide (map_Forall (λ _ v, is_none v = false) values))
           then inl IntegrityError
           else inr (tt, {| dt_columns := dt_columns t;
                            dt_rows := <[record_id := {| r_created_at := r_created_at r;
                                                          r_updated_at := updated_at;
                                                          r_cells := values ∪ r_cells r |}]>
                                       (dt_rows t);
                            dt_seq := dt_seq t |})
       end.

(** DELETE FROM data_<table_id> WHERE id=? *)
Definition sql_delete (record_id : Z) (t : DataTable) : Exn + (unit * DataTable) :=
  inr (tt, {| dt_columns := dt_columns t;
              dt_rows := delete record_id (dt_rows t);
              dt_seq := dt_seq t |}).

(** [get_record_by_id] *)
Definition get_record_by_id (table_id record_id : Z) : M World (option DataRow) :=
  _ensure_data_table table_id ;;
  with_table table_id (λ t, inr (dt_rows t !! record_id, t)).

(** [add_record] *)
Definition add_record (table_id : Z) (values_by_field_id : gmap Z PyVal) : M World Z :=
  _ensure_data_table table_id ;;
  created <- now_iso ;;
  updated <- now_iso ;;
  with_table table_id (sql_insert created updated values_by_field_id).

(** [created_at or now_iso()] *)
Definition or_now (ts : option string) : M World string :=
  match ts with
  | Some s => if String.eqb s "" then now_iso else ret s
  | None => now_iso
  end.

(** [add_record_with_id] *)
Definition add_record_with_id (table_id record_id : Z)
    (values_by_field_id : gmap Z PyVal)
    (created_at updated_at : option string) : M World Z :=
  _ensure_data_table table_id ;;
  created <- or_now created_at ;;
  updated <- or_now updated_at ;;
  with_table table_id
    (sql_insert_or_replace record_id created updated values_by_field_id) ;;
  ret record_id.

(** [update_record] *)
Definition update_record (table_id record_id : Z)
    (values_by_field_id : gmap Z PyVal) : M World unit :=
  if bool_decide (values_by_field_id = ∅) then ret tt
  else
    _ensure_data_table table_id ;;
    ts <- now_iso ;;
    with_table table_id (sql_update record_id ts values_by_field_id).

(** [delete_record] *)
Definition delete_record (table_id record_id : Z) : M World unit :=
  _ensure_data_table table_id ;;
  with_table table_id (sql_delete record_id).

(** *** Projects and tables *)

(** Ascending list of the keys of a catalog table that satisfy [p]: the
    order in which SQLite returns rowids. *)
Definition select_ids {A : Type} (p : Z → A → bool) (m : gmap Z A) : list Z :=
  merge_sort Z.le (fst <$> filter (λ kv, p kv.1 kv.2 = true) (map_to_list m)).

Definition option_Z_eqb (o : option Z) (z : Z) : bool :=
  match o with Some y => y =? z | None => false end.

(** UPDATE meta_tables SET project_id=NULL, updated_at=? WHERE project_id=? *)
Definition sql_orphan_tables (ts : string) (project_id : Z)
    (tables : gmap Z TableRow) : gmap Z TableRow :=
  (λ t, if option_Z_eqb (t_project_id t) project_id
        then {| t_name := t_name t; t_project_id := None;
                t_created_at := t_created_at t; t_updated_at := ts |}
        else t) <$> tables.

(** The ON DELETE SET NULL action of [meta_tables.project_id]. *)
Definition fk_tables_set_null (project_id : Z)
    (tables : gmap Z TableRow) : gmap Z TableRow :=
  (λ t, if option_Z_eqb (t_project_id t) project_id
        then {| t_name := t_name t; t_project_id := None;
                t_created_at := t_created_at t; t_updated_at := t_updated_at t |}
        else t) <$> tables.

(** The ON DELETE SET NULL action of [meta_projects.parent_id]. *)
Definition fk_projects_set_null (project_id : Z)
    (projects : gmap Z ProjectRow) : gmap Z ProjectRow :=
  (λ p, if option_Z_eqb (p_parent_id p) project_id
        then {| p_name := p_name p; p_parent_id := None; p_color := p_color p;
                p_created_at := p_created_at p; p_updated_at := p_updated_at p |}
        else p) <$> projects.

(** DELETE FROM meta_projects WHERE id=?, with its foreign-key actions. *)
Definition sql_delete_project (project_id : Z) : M World unit :=
  modify (λ w,
    match meta_projects w !! project_id with
    | None => w
    | Some _ =>
        set_meta_tables (fk_tables_set_null project_id (meta_tables w))
          (set_meta_projects
             (fk_projects_set_null project_id (delete project_id (meta_projects w))) w)
    end).

(** [delete_project].  The recursion is on the call depth: [fuel] is the
    interpreter's recursion limit, and running out of it is
    [RecursionError]. *)
Fixpoint delete_project (fuel : nat) (project_id : Z) : M World unit :=
  match fuel with
  | O => raise RecursionError
  | S fuel' =>
      w <- get ;;
      let children :=
        select_ids (λ _ p, option_Z_eqb (p_parent_id p) project_id) (meta_projects w) in
      for_each children (λ cid, delete_project fuel' cid) ;;
      ts <- now_iso ;;
      modify (λ w, set_meta_tables (sql_orphan_tables ts project_id (meta_tables w)) w) ;;
      sql_delete_project project_id
  end.

(** *** Fields *)

(** [COALESCE(position, id)] *)
Definition sort_key (kv : Z * FieldRow) : Z :=
  match f_position kv.2 with Some p => p | None => kv.1 end.

(** ORDER BY COALESCE(position, id) ASC, id ASC *)
Definition field_le (a b : Z * FieldRow) : Prop :=
  sort_key a < sort_key b ∨ (sort_key a = sort_key b ∧ a.1 ≤ b.1).

Global Instance field_le_dec a b : Decision (field_le a b).
Proof. unfold field_le. apply _. Defined.

(** [list_fields] *)
Definition list_fields (table_id : Z) (active_only : bool) : M World (list (Z * FieldRow)) :=
  w <- get ;;
  ret (merge_sort field_le
         (filter (λ kv, f_table_id kv.2 = table_id
                        ∧ (active_only = true → f_active kv.2 = 1))
                 (map_to_list (meta_fields w)))).

(** [_next_field_position] *)
Definition _next_field_position (table_id : Z) : M World Z :=
  w <- get ;;
  let keys := sort_key <$> filter (λ kv, f_table_id kv.2 = table_id)
                                  (map_to_list (meta_fields w)) in
  let m := match keys with
           | [] => 0
           | k :: rest => foldr Z.max k rest
           end in
  ret (m + 1).

(** INSERT INTO meta_fields(...): [table_id] must reference a row of
    [meta_tables] (foreign keys are ON). *)
Definition sql_insert_field (row : FieldRow) : M World Z :=
  λ w, match meta_tables w !! f_table_id row with
       | None => (Raise IntegrityError, w)
       | Some _ =>
           let fid := next_rowid (meta_fields_seq w) (meta_fields w) in
           (Ok fid, set_meta_fields (<[fid := row]> (meta_fields w)) fid w)
       end.

Section WithBuiltins.
Context `{B : Builtins}.

(** The two option checks of [add_field]. *)
Definition select_options_ok (options : list (string * PyVal)) : bool :=
  match dict_get options "options" (PList []) with
  | PList xs => forallb isinstance_str xs
  | _ => false
  end.

Definition relation_target_bad (options : list (string * PyVal)) : M World bool :=
  let t := dict_get options "target_table_id" PNone in
  if negb (isinstance_int t) then ret true
  else n <- of_sum (py_int (py_or t (PInt 0))) ;; ret (n <=? 0).

(** [add_field] *)
Definition add_field (table_id : Z) (name : string) (ftype : string)
    (required : bool) (options : option (list (string * PyVal))) : M World Z :=
  let name := str_strip name in
  if String.eqb name "" then raise ValueError
  else if negb (str_in ftype FIELD_TYPES) then raise ValueError
  else
    let options := match options with Some ((_ :: _) as d) => d | _ => [] end in
    (if String.eqb ftype "select"
     then if negb (select_options_ok options) then raise ValueError else ret tt
     else ret tt) ;;
    (if String.eqb ftype "relation"
     then bad <- relation_target_bad options ;;
          if bad then raise ValueError
          else if dict_has options "display_field_id"
                  && negb (isinstance_int (dict_get options "display_field_id" PNone))
          then raise ValueError
          else ret tt
     else ret tt) ;;
    ts <- now_iso ;;
    pos <- _next_field_position table_id ;;
    field_id <- sql_insert_field
      {| f_table_id := table_id; f_name := name; f_ftype := ftype;
         f_required := if required then 1 else 0; f_active := 1;
         f_position := Some pos; f_options_json := PDict options;
         f_created_at := ts; f_updated_at := ts |} ;;
    _ensure_data_table table_id ;;
    ddl <- _ddl_for_field ftype ;;
    _ensure_column table_id (c_f field_id) ddl ;;
    ret field_id.

End WithBuiltins.

(** UPDATE meta_fields SET position=?, updated_at=? WHERE id=? AND table_id=? *)
Definition sql_set_position (position : Z) (ts : string) (field_id table_id : Z)
    (fields : gmap Z FieldRow) : gmap Z FieldRow :=
  match fields !! field_id with
  | Some f =>
      if f_table_id f =? table_id
      then <[field_id := {| f_table_id := f_table_id f; f_name := f_name f;
                            f_ftype := f_ftype f; f_required := f_required f;
                            f_active := f_active f; f_position := Some position;
                            f_options_json := f_options_json f;
                            f_created_at := f_created_at f;
                            f_updated_at := ts |}]> fields
      else fields
  | None => fields
  end.

(** [enumerate(ids, start)] *)
Fixpoint enumerate {A : Type} (start : Z) (xs : list A) : list (Z * A) :=
  match xs with
  | [] => []
  | x :: rest => (start, x) :: enumerate (start + 1) rest
  end.

(** [reorder_fields] *)
Definition reorder_fields (table_id : Z) (ordered_field_ids : list Z) : M World unit :=
  let ids := filter (λ x, 0 < x) ordered_field_ids in
  match ids with
  | [] => ret tt
  | _ =>
      for_each (enumerate 1 ids) (λ '(i, fid),
        ts <- now_iso ;;
        modify (λ w, set_meta_fields
                       (sql_set_position i ts fid table_id (meta_fields w))
                       (meta_fields_seq w) w))
  end.

(** *** Queries *)

(** The conditions [list_records] writes into a WHERE clause, each with
    the parameter it binds. *)
Inductive Cond : Type :=
| CCastIdLike (pat : string)          (* CAST(id AS TEXT) LIKE ? *)
| CLike (c : Col) (pat : string)     (* col LIKE ? *)
| CEq (c : Col) (v : PyVal)          (* col = ? *)
| CEqLit (c : Col) (n : Z)           (* col = 1, col = 0 *)
| CGe (c : Col) (v : PyVal)          (* col >= ? *)
| CLe (c : Col) (v : PyVal)          (* col <= ? *)
| CAnyOf (cs : list Cond).            (* (c1 OR c2 OR ..) *)

(** SELECT * FROM data_<sel_table> WHERE w1 AND w2 AND ..
    ORDER BY col dir, .. LIMIT ?; an empty [sel_where] is no WHERE. *)
Record Select : Type := {
  sel_table : Z;
  sel_where : list Cond;
  sel_order : list (Col * string);
  sel_limit : Z;
}.

(** What the storage engine decides: whether a row satisfies an atomic
    condition, how it orders two values, and whether it gives up while it
    runs a statement over the rows of a table, as SQLite does when it
    comes to evaluate a LIKE whose pattern is longer than it accepts. *)
Class SqlEngine : Type := {
  atom_holds : Z → DataRow → Cond → bool;
  val_cmp : PyVal → PyVal → comparison;
  gives_up : Select → gmap Z DataRow → bool;
}.

Section WithEngine.
Context `{B : Builtins} `{E : SqlEngine}.

Fixpoint cond_holds (rid : Z) (r : DataRow) (c : Cond) : bool :=
  match c with
  | CAnyOf cs => existsb (cond_holds rid r) cs
  | _ => atom_holds rid r c
  end.

(** WHERE w1 AND w2 AND .. *)
Definition where_holds (conds : list Cond) (row : Z * DataRow) : bool :=
  forallb (cond_holds row.1 row.2) conds.

Definition col_exists (t : DataTable) (c : Col) : bool :=
  match c with
  | c_f k => bool_decide (is_Some (dt_columns t !! k))
  | _ => true
  end.

Fixpoint cond_cols_exist (t : DataTable) (c : Cond) : bool :=
  match c with
  | CCastIdLike _ => true
  | CLike c _ | CEq c _ | CEqLit c _ | CGe c _ | CLe c _ => col_exists t c
  | CAnyOf cs => forallb (cond_cols_exist t) cs
  end.

Definition col_value (c : Col) (row : Z * DataRow) : PyVal :=
  match c with
  | c_id => PInt row.1
  | c_created_at => PStr (r_created_at row.2)
  | c_updated_at => PStr (r_updated_at row.2)
  | c_f k => match r_cells row.2 !! k with Some v => v | None => PNone end
  end.

(** ORDER BY: the first term on which two rows differ decides. *)
Fixpoint order_cmp (order : list (Col * string)) (a b : Z * DataRow) : comparison :=
  match order with
  | [] => Eq
  | (c, dir) :: rest =>
      match val_cmp (col_value c a) (col_value c b) with
      | Eq => order_cmp rest a b
      | x => if String.eqb dir "ASC" then x else CompOpp x
      end
  end.

Definition order_le (order : list (Col * string)) (a b : Z * DataRow) : Prop :=
  order_cmp order a b ≠ Gt.

Global Instance order_le_dec order a b : Decision (order_le order a b).
Proof. unfold order_le. apply _. Defined.

(** LIMIT ?: a negative limit is no limit. *)
Definition sql_limit {A : Type} (n : Z) (l : list A) : list A :=
  if n <? 0 then l else take (Z.to_nat n) l.

(** A parameter [sqlite3] can bind: an [int] must fit 64 bits. *)
Definition bindable (v : PyVal) : bool :=
  match v with PInt z => int64 z | _ => true end.

Fixpoint cond_bindable (c : Cond) : bool :=
  match c with
  | CCastIdLike _ | CLike _ _ | CEqLit _ _ => true
  | CEq _ v | CGe _ v | CLe _ v => bindable v
  | CAnyOf cs => forallb cond_bindable cs
  end.

(** The parameters of the statement, the limit included, can be bound. *)
Definition select_bindable (s : Select) : bool :=
  forallb cond_bindable (sel_where s) && int64 (sel_limit s).

(** [cur.execute(sql, params); cur.fetchall()]: the statement is prepared,
    which fails for a column the table does not have, then the parameters
    are bound, which fails for an integer beyond 64 bits, then it runs,
    which fails when the engine gives up. *)
Definition exec_select (s : Select) : M World (list (Z * DataRow)) :=
  with_table (sel_table s) (λ t,
    if negb (forallb (cond_cols_exist t) (sel_where s)
             && forallb (λ o, col_exists t o.1) (sel_order s))
    then inl OperationalError
    else if negb (select_bindable s) then inl OverflowError
    else if gives_up s (dt_rows t) then inl OperationalError
    else inr (sql_limit (sel_limit s)
                (merge_sort (order_le (sel_order s))
                   (filter (λ row, where_holds (sel_where s) row = true)
                           (map_to_list (dt_rows t)))), t)).

(** The free-text clause of [list_records]: what one field adds to
    [where_or]. *)
Definition search_terms (q like : string) (f : Z * FieldRow) : list Cond :=
  let col := c_f f.1 in
  let ftype := f_ftype f.2 in
  if str_in ftype ["text"; "date"; "file"; "select"; "path"] then [CLike col like]
  else if String.eqb ftype "number" then
    match float_of_str (str_commas_to_dots q) with
    | Some num => [CEq col (PFloat num)]
    | None => []
    end
  else if String.eqb ftype "bool" then
    if str_in (str_lower q) ["si"; "sí"; "true"; "1"; "yes"] then [CEqLit col 1]
    else if str_in (str_lower q) ["no"; "false"; "0"] then [CEqLit col 0]
    else []
  else if String.eqb ftype "relation" then
    match int_of_str q with
    | Some rid => [CEq col (PInt rid)]
    | None => []
    end
  else [].

Definition search_clause (query : string) (fields : list (Z * FieldRow)) : list Cond :=
  let q := str_strip query in
  if String.eqb q "" then []
  else
    let like := "%" +:+ q +:+ "%" in
    [CAnyOf (CCastIdLike like :: concat (search_terms q like <$> fields))].

(** [fields_by_id]: [fid in fields_by_id] and [fields_by_id[fid]] *)
Definition fields_by_id (fields : list (Z * FieldRow)) (fid : Z) : option FieldRow :=
  snd <$> find (λ f, f.1 =? fid) (reverse fields).

(** The body of the filter loop for a known field: the conditions one
    entry appends to [where], or the exception it raises. *)
Definition filter_terms (fid : Z) (f : FieldRow) (fval : list (string * PyVal))
    : Exn + list Cond :=
  let col := c_f fid in
  let ftype := f_ftype f in
  if str_in ftype ["text"; "file"; "select"; "path"] then
    if dict_has fval "equals"
       && negb (String.eqb (str_strip (py_str (dict_get fval "equals" PNone))) "")
    then inr [CEq col (PStr (py_str (dict_get fval "equals" PNone)))]
    else if dict_has fval "contains"
            && negb (String.eqb (str_strip (py_str (dict_get fval "contains" PNone))) "")
    then inr [CLike col ("%" +:+ py_str (dict_get fval "contains" PNone) +:+ "%")]
    else inr []
  else if String.eqb ftype "number" then
    match (if is_none (dict_get fval "min" PNone) then inr []
           else match py_float (dict_get fval "min" PNone) with
                | inl e => inl e
                | inr x => inr [CGe col (PFloat x)]
                end) with
    | inl e => inl e
    | inr lo =>
        if is_none (dict_get fval "max" PNone) then inr lo
        else match py_float (dict_get fval "max" PNone) with
             | inl e => inl e
             | inr x => inr (lo ++ [CLe col (PFloat x)])%list
             end
    end
  else if String.eqb ftype "date" then
    inr ((if negb (String.eqb (str_strip (py_str (dict_get fval "from" (PStr "")))) "")
          then [CGe col (PStr (py_str (dict_get fval "from" PNone)))] else [])
         ++ (if negb (String.eqb (str_strip (py_str (dict_get fval "to" (PStr "")))) "")
             then [CLe col (PStr (py_str (dict_get fval "to" PNone)))] else []))%list
  else if String.eqb ftype "bool" then
    if dict_has fval "is"
       && (eqb_int (dict_get fval "is" PNone) 0 || eqb_int (dict_get fval "is" PNone) 1)
    then match py_int (dict_get fval "is" PNone) with
         | inl e => inl e
         | inr n => inr [CEq col (PInt n)]
         end
    else inr []
  else if String.eqb ftype "relation" then
    if dict_has fval "is"
    then match py_int (py_or (dict_get fval "is" PNone) (PInt 0)) with
         | inl e => inl e
         | inr n =>
             if 0 <? n
             then match py_int (dict_get fval "is" PNone) with
                  | inl e => inl e
                  | inr m => inr [CEq col (PInt m)]
                  end
             else inr []
         end
    else inr []
  else inr [].

(** One iteration of [for fid_str, fval in filters.items()]. *)
Definition filter_entry (fields : list (Z * FieldRow)) (entry : PyVal * PyVal)
    : Exn + list Cond :=
  match py_int entry.1 with
  | inl _ => inr []
  | inr fid =>
      match fields_by_id fields fid with
      | None => inr []
      | Some f =>
          match entry.2 with
          | PDict fval => filter_terms fid f fval
          | _ => inr []
          end
      end
  end.

(** The whole filter loop: the conditions appended to [where], in order. *)
Fixpoint filter_clauses (fields : list (Z * FieldRow)) (filters : list (PyVal * PyVal))
    : Exn + list Cond :=
  match filters with
  | [] => inr []
  | entry :: rest =>
      match filter_entry fields entry with
      | inl e => inl e
      | inr cs =>
          match filter_clauses fields rest with
          | inl e => inl e
          | inr cs' => inr (cs ++ cs')%list
          end
      end
  end.

(** [order_col] *)
Definition order_col (fields : list (Z * FieldRow)) (sort_field_id : option Z) : Col :=
  match sort_field_id with
  | Some sfid => match fields_by_id fields sfid with
                 | Some _ => c_f sfid
                 | None => c_id
                 end
  | None => c_id
  end.

(** [sort_dir = (sort_dir or "DESC").upper()], then the check against
    ("ASC", "DESC"). *)
Definition normalize_sort_dir (sort_dir : string) : string :=
  let d := str_upper (if String.eqb sort_dir "" then "DESC" else sort_dir) in
  if str_in d ["ASC"; "DESC"] then d else "DESC".

(** The statement [list_records] builds. *)
Definition list_records_sql (table_id : Z) (fields : list (Z * FieldRow))
    (query : string) (limit : Z) (filters : list (PyVal * PyVal))
    (sort_field_id : option Z) (sort_dir : string) : Exn + Select :=
  match filter_clauses fields filters with
  | inl e => inl e
  | inr cs =>
      inr {| sel_table := table_id;
             sel_where := (search_clause query fields ++ cs)%list;
             sel_order := [(order_col fields sort_field_id, normalize_sort_dir sort_dir);
                           (c_id, "DESC")];
             sel_limit := limit |}
  end.

(** [list_records] *)
Definition list_records (table_id : Z) (query : string) (limit : Z)
    (filters : list (PyVal * PyVal)) (sort_field_id : option Z) (sort_dir : string)
    : M World (list (Z * DataRow)) :=
  _ensure_data_table table_id ;;
  fields <- list_fields table_id true ;;
  s <- of_sum (list_records_sql table_id fields query limit filters sort_field_id sort_dir) ;;
  exec_select s.

End WithEngine.

(** *** Relation labels *)

Definition rowid_le (a b : Z * DataRow) : Prop := a.1 ≤ b.1.

Global Instance rowid_le_dec a b : Decision (rowid_le a b).
Proof. unfold rowid_le. apply _. Defined.

(** [f"#{i}"] *)
Definition hash_label (i : Z) : string := "#" +:+ pretty i.

Section WithBuiltins.
Context `{B : Builtins}.

(** [str(label or f"#{rid}")] *)
Definition label_or_hash (rid : Z) (label : PyVal) : string :=
  py_str (py_or label (PStr (hash_label rid))).

(** [get_display_map] *)
Definition get_display_map (table_id display_field_id : Z) (record_ids : list Z)
    : M World (gmap Z string) :=
  let ids := filter (λ x, 0 < x) record_ids in
  match ids with
  | [] => ret ∅
  | _ =>
      if display_field_id =? 0
      then ret (list_to_map ((λ i, (i, hash_label i)) <$> ids))
      else
        _ensure_data_table table_id ;;
        rows <- with_table table_id (λ t,
          match dt_columns t !! display_field_id with
          | None => inl OperationalError
          | Some _ => inr (filter (λ r, r.1 ∈ ids) (map_to_list (dt_rows t)), t)
          end) ;;
        let out : gmap Z string :=
          list_to_map ((λ r, (r.1, label_or_hash r.1
                                     (col_value (c_f display_field_id) r))) <$> rows) in
        ret (out ∪ list_to_map ((λ i, (i, hash_label i)) <$> ids))
  end.

(** Rows of a data table, ORDER BY id DESC. *)
Definition rows_desc (t : DataTable) : list (Z * DataRow) :=
  reverse (merge_sort rowid_le (map_to_list (dt_rows t))).

(** [list_relation_options] *)
Definition list_relation_options (target_table_id display_field_id limit : Z)
    : M World (list (Z * string)) :=
  _ensure_data_table target_table_id ;;
  if display_field_id =? 0
  then
    rows <- with_table target_table_id
              (λ t, if int64 limit then inr (sql_limit limit (rows_desc t), t)
                    else inl OverflowError) ;;
    ret ((λ r, (r.1, hash_label r.1)) <$> rows)
  else
    rows <- with_table target_table_id (λ t,
      match dt_columns t !! display_field_id with
      | None => inl OperationalError
      | Some _ => if int64 limit then inr (sql_limit limit (rows_desc t), t)
                  else inl OverflowError
      end) ;;
    ret ((λ r, (r.1, label_or_hash r.1 (col_value (c_f display_field_id) r))) <$> rows).

End WithBuiltins.

End Repo.

(** ** [app.py]: [AddFieldDialog] and [TableView] *)

Module App.
Import Py Store Repo.
Local Open Scope m_scope.

(** *** [AddFieldDialog.get_data] *)




Section WithBuiltins.
Context `{B : Builtins}.




End WithBuiltins.

(** *** [TableView]: state *)

(** The closures the record handlers push on the undo stack, with the
    variables each one captures. *)
Inductive Closure : Type :=
| FnDeleteRecord (table_id rid : Z)
| FnAddRecordWithId (table_id rid : Z) (values : gmap Z PyVal)
    (created_at updated_at : option string)
| FnUpdateRecord (table_id rid : Z) (values : gmap Z PyVal).

(** Calling a closure. *)
Definition call (c : Closure) : M World unit :=
  match c with
  | FnDeleteRecord table_id rid => delete_record table_id rid
  | FnAddRecordWithId table_id rid values created_at updated_at =>
      add_record_with_id table_id rid values created_at updated_at ;; ret tt
  | FnUpdateRecord table_id rid values => update_record table_id rid values
  end.

(** An entry of [self._undo]: [{"label":.., "undo":.., "redo":..}] *)
Record Cmd : Type := {
  cmd_label : string;
  cmd_undo : Closure;
  cmd_redo : Closure;
}.

Record TableView : Type := {
  repo : World;
  table_id : Z;
  fields : list (Z * FieldRow);
  search_text : string;
  view_filters : list (PyVal * PyVal);
  sort_field_id : option Z;
  sort_dir : string;
  _undo : list Cmd;
  _undo_idx : Z;
  _in_undo_redo : bool;
  _relation_cache : gmap Z (list (Z * string));
}.

Definition set_repo (w : World) (v : TableView) : TableView :=
  {| repo := w; table_id := table_id v; fields := fields v;
     search_text := search_text v; view_filters := view_filters v;
     sort_field_id := sort_field_id v; sort_dir := sort_dir v;
     _undo := _undo v; _undo_idx := _undo_idx v;
     _in_undo_redo := _in_undo_redo v; _relation_cache := _relation_cache v |}.

Definition set_history (l : list Cmd) (i : Z) (v : TableView) : TableView :=
  {| repo := repo v; table_id := table_id v; fields := fields v;
     search_text := search_text v; view_filters := view_filters v;
     sort_field_id := sort_field_id v; sort_dir := sort_dir v;
     _undo := l; _undo_idx := i;
     _in_undo_redo := _in_undo_redo v; _relation_cache := _relation_cache v |}.

Definition set_in_undo_redo (b : bool) (v : TableView) : TableView :=
  {| repo := repo v; table_id := table_id v; fields := fields v;
     search_text := search_text v; view_filters := view_filters v;
     sort_field_id := sort_field_id v; sort_dir := sort_dir v;
     _undo := _undo v; _undo_idx := _undo_idx v;
     _in_undo_redo := b; _relation_cache := _relation_cache v |}.

Definition set_relation_cache (c : gmap Z (list (Z * string))) (v : TableView) : TableView :=
  {| repo := repo v; table_id := table_id v; fields := fields v;
     search_text := search_text v; view_filters := view_filters v;
     sort_field_id := sort_field_id v; sort_dir := sort_dir v;
     _undo := _undo v; _undo_idx := _undo_idx v;
     _in_undo_redo := _in_undo_redo v; _relation_cache := c |}.

Definition set_fields (fs : list (Z * FieldRow)) (v : TableView) : TableView :=
  {| repo := repo v; table_id := table_id v; fields := fs;
     search_text := search_text v; view_filters := view_filters v;
     sort_field_id := sort_field_id v; sort_dir := sort_dir v;
     _undo := _undo v; _undo_idx := _undo_idx v;
     _in_undo_redo := _in_undo_redo v; _relation_cache := _relation_cache v |}.

(** A call [self.repo.method(..)] *)
Definition on_repo {A : Type} (m : M World A) : M TableView A :=
  λ v, match m (repo v) with (r, w) => (r, set_repo w v) end.

(** [l[:i]] and [l[i]] with Python's reading of negative indices *)
Definition py_slice_to {A : Type} (l : list A) (i : Z) : list A :=
  if i <? 0 then take (Z.to_nat (Z.of_nat (length l) + i)) l
  else take (Z.to_nat i) l.

Definition py_index {A : Type} (l : list A) (i : Z) : Exn + A :=
  let j := if i <? 0 then Z.of_nat (length l) + i else i in
  if j <? 0 then inl IndexError
  else match l !! Z.to_nat j with
       | Some x => inr x
       | None => inl IndexError
       end.

(** [TableView.__init__]: a view opens with an empty history. *)
Definition new_view (w : World) (tid : Z) : TableView :=
  {| repo := w; table_id := tid; fields := [];
     search_text := ""; view_filters := []; sort_field_id := None; sort_dir := "DESC";
     _undo := []; _undo_idx := 0; _in_undo_redo := false; _relation_cache := ∅ |}.

(** *** Undo / redo *)

(** [push_cmd] *)
Definition push_cmd (label : string) (undo_fn redo_fn : Closure) : M TableView unit :=
  v <- get ;;
  if _in_undo_redo v then ret tt
  else
    modify (λ v, set_history
                   (py_slice_to (_undo v) (_undo_idx v)
                    ++ [{| cmd_label := label; cmd_undo := undo_fn; cmd_redo := redo_fn |}])%list
                   (_undo_idx v + 1) v).

Section WithEngine.
Context `{B : Builtins} `{E : SqlEngine}.

(** [refresh]: the query behind the grid; filling the widget is left to
    the presentation layer. *)
Definition refresh : M TableView unit :=
  v <- get ;;
  on_repo (list_records (table_id v) (str_strip (search_text v)) 5000
             (view_filters v) (sort_field_id v) (sort_dir v)) ;;
  ret tt.

(** [reload], as far as the record handlers depend on it. *)
Definition reload : M TableView unit :=
  v <- get ;;
  fs <- on_repo (list_fields (table_id v) true) ;;
  modify (set_fields fs) ;;
  refresh.

(** [undo] *)
Definition undo : M TableView unit :=
  v <- get ;;
  if _undo_idx v <=? 0 then ret tt
  else
    modify (set_in_undo_redo true) ;;
    try_finally
      (modify (λ v, set_history (_undo v) (_undo_idx v - 1) v) ;;
       v <- get ;;
       cmd <- of_sum (py_index (_undo v) (_undo_idx v)) ;;
       on_repo (call (cmd_undo cmd)))
      (set_in_undo_redo false) ;;
    refresh.

(** [redo] *)
Definition redo : M TableView unit :=
  v <- get ;;
  if Z.of_nat (length (_undo v)) <=? _undo_idx v then ret tt
  else
    modify (set_in_undo_redo true) ;;
    try_finally
      (v <- get ;;
       cmd <- of_sum (py_index (_undo v) (_undo_idx v)) ;;
       on_repo (call (cmd_redo cmd)) ;;
       modify (λ v, set_history (_undo v) (_undo_idx v + 1) v))
      (set_in_undo_redo false) ;;
    refresh.

End WithEngine.

Section WithEngine2.
Context `{B : Builtins} `{E : SqlEngine}.

(** *** Record handlers *)

(** The snapshot loop of [edit_record] and [delete_record]:
    [old_vals[fid] = old_row[f"f_{fid}"] if f"f_{fid}" in old_row.keys() else None] *)
Definition snapshot (fs : list (Z * FieldRow)) (old_row : DataRow) : gmap Z PyVal :=
  list_to_map ((λ f, (f.1, match r_cells old_row !! f.1 with
                           | Some x => x
                           | None => PNone
                           end)) <$> fs).

(** [add_record]; [dialog] is what the record dialog returned, [None]
    when it was cancelled. *)
Definition add_record (dialog : option (gmap Z PyVal)) : M TableView unit :=
  match dialog with
  | None => ret tt
  | Some data =>
      v <- get ;;
      r <- try_except (rid <- on_repo (Repo.add_record (table_id v) data) ;; ret (Some rid))
                      (λ _, ret None) ;;
      match r with
      | None => ret tt
      | Some rid =>
          push_cmd "Añadir registro"
            (FnDeleteRecord (table_id v) rid)
            (FnAddRecordWithId (table_id v) rid data None None) ;;
          refresh
      end
  end.

(** [edit_record]; [selected] is [_selected_record_id()]. *)
Definition edit_record (selected : option Z) (dialog : option (gmap Z PyVal))
    : M TableView unit :=
  match selected with
  | None => ret tt
  | Some rid =>
      v <- get ;;
      old_row <- on_repo (get_record_by_id (table_id v) rid) ;;
      match old_row with
      | None => match fields v with
                | [] => match dialog with
                        | None => ret tt
                        | Some data =>
                            r <- try_except
                                   (on_repo (update_record (table_id v) rid data) ;; ret true)
                                   (λ _, ret false) ;;
                            if r then
                              push_cmd "Editar registro"
                                (FnUpdateRecord (table_id v) rid ∅)
                                (FnUpdateRecord (table_id v) rid data) ;;
                              refresh
                            else ret tt
                        end
                | _ => raise AttributeError
                end
      | Some row =>
          let old_vals := snapshot (fields v) row in
          match dialog with
          | None => ret tt
          | Some data =>
              r <- try_except
                     (on_repo (update_record (table_id v) rid data) ;; ret true)
                     (λ _, ret false) ;;
              if r then
                push_cmd "Editar registro"
                  (FnUpdateRecord (table_id v) rid old_vals)
                  (FnUpdateRecord (table_id v) rid data) ;;
                refresh
              else ret tt
          end
      end
  end.

(** [delete_record]; [confirmed] is the answer to the question box. *)
Definition delete_record (selected : option Z) (confirmed : bool) : M TableView unit :=
  match selected with
  | None => ret tt
  | Some rid =>
      if negb confirmed then ret tt
      else
        v <- get ;;
        old_row <- on_repo (get_record_by_id (table_id v) rid) ;;
        match old_row with
        | None => raise AttributeError
        | Some row =>
            let old_vals := snapshot (fields v) row in
            let created_at := Some (r_created_at row) in
            let updated_at := Some (r_updated_at row) in
            r <- try_except
                   (on_repo (Repo.delete_record (table_id v) rid) ;; ret true)
                   (λ _, ret false) ;;
            if r then
              push_cmd "Borrar registro"
                (FnAddRecordWithId (table_id v) rid old_vals created_at updated_at)
                (FnDeleteRecord (table_id v) rid) ;;
              refresh
            else ret tt
        end
  end.

(** *** Relation labels *)

(** [label_fid]: the first field of type text, select or path. *)
Definition label_field (rel_fields : list (Z * FieldRow)) : option Z :=
  fst <$> find (λ f, str_in (f_ftype f.2) ["text"; "select"; "path"]) rel_fields.

(** The label [get_relation_options] gives a row. *)
Definition option_label (label_fid : option Z) (r : Z * DataRow) : string :=
  let label :=
    match label_fid with
    | Some k =>
        if negb (k =? 0)
        then match r_cells r.2 !! k with
             | Some x => py_str x
             | None => pretty r.1
             end
        else pretty r.1
    | None => pretty r.1
    end in
  if String.eqb label "" then pretty r.1 else label.

(** [get_relation_options] *)
Definition get_relation_options (rel_table_id : Z) : M TableView (list (Z * string)) :=
  v <- get ;;
  match _relation_cache v !! rel_table_id with
  | Some opts => ret opts
  | None =>
      opts <- try_except
        (rows <- on_repo (list_records rel_table_id "" 5000 [] None "ASC") ;;
         rel_fields <- on_repo (list_fields rel_table_id true) ;;
         ret ((λ r, (r.1, option_label (label_field rel_fields) r)) <$> rows))
        (λ _, ret []) ;;
      modify (λ v, set_relation_cache (<[rel_table_id := opts]> (_relation_cache v)) v) ;;
      ret opts
  end.

(** The loop of [_relation_label] over the option list. *)
Definition find_label (rid : Z) (opts : list (Z * string)) : option string :=
  snd <$> find (λ o, o.1 =? rid) opts.

(** [_relation_label] *)
Definition _relation_label (field : list (string * PyVal)) (rid : PyVal)
    : M TableView string :=
  if is_none rid || eqb_str rid "" || eqb_int rid 0 then ret ""
  else
    match py_int rid with
    | inl _ => ret (py_str rid)
    | inr rid =>
        match py_or (dict_get field "options" PNone) (PDict []) with
        | PDict options =>
            let rel_table_id := dict_get options "table_id" PNone in
            if negb (truthy rel_table_id) then ret (pretty rid)
            else
              tid <- of_sum (py_int rel_table_id) ;;
              opts <- get_relation_options tid ;;
              match find_label rid opts with
              | Some label => ret label
              | None => ret (pretty rid)
              end
        | _ => raise AttributeError
        end
    end.

(** [dict(r)] for a row [r] of [list_fields]: the dictionaries that
    [reload] stores in [self.fields]. *)
Definition field_dict (f : Z * FieldRow) : list (string * PyVal) :=
  [("id", PInt f.1); ("table_id", PInt (f_table_id f.2)); ("name", PStr (f_name f.2));
   ("ftype", PStr (f_ftype f.2)); ("required", PInt (f_required f.2));
   ("active", PInt (f_active f.2));
   ("position", match f_position f.2 with Some p => PInt p | None => PNone end);
   ("options_json", f_options_json f.2);
   ("created_at", PStr (f_created_at f.2)); ("updated_at", PStr (f_updated_at f.2))].

End WithEngine2.

End App.

(** ** Built-ins and engine for the examples

    The examples below need the built-ins at concrete inputs.  On ASCII
    text and on integers [ascii_builtins] computes what the interpreter
    computes; it has no floats (every conversion to or from a float
    raises), and no example uses one.  [plain_engine] compares integers,
    strings and NULL as SQLite orders them and evaluates [=] and LIKE on
    values of one storage class. *)

Module Fixtures.
Import Py Store Repo.

Definition is_space (c : ascii) : bool :=
  let n := nat_of_ascii c in
  ((9 <=? n)%nat && (n <=? 13)%nat) || ((28 <=? n)%nat && (n <=? 32)%nat).

Fixpoint lstrip (s : string) : string :=
  match s with
  | String c rest => if is_space c then lstrip rest else s
  | EmptyString => EmptyString
  end.

Fixpoint rstrip (s : string) : string :=
  match s with
  | String c rest =>
      match rstrip rest with
      | EmptyString => if is_space c then EmptyString else String c EmptyString
      | r => String c r
      end
  | EmptyString => EmptyString
  end.

Definition strip (s : string) : string := rstrip (lstrip s).

Definition map_string (f : ascii → ascii) : string → string :=
  fix go s := match s with
              | String c rest => String (f c) (go rest)
              | EmptyString => EmptyString
              end.

Definition upper_ascii (c : ascii) : ascii :=
  let n := nat_of_ascii c in
  if (97 <=? n)%nat && (n <=? 122)%nat then ascii_of_nat (n - 32) else c.

Definition lower_ascii (c : ascii) : ascii :=
  let n := nat_of_ascii c in
  if (65 <=? n)%nat && (n <=? 90)%nat then ascii_of_nat (n + 32) else c.

(** [s.split(sep)] for a one-character separator: the pieces, the last
    one being [cur] reversed. *)
Fixpoint split_on (sep : ascii) (cur : string) (s : string) : list string :=
  match s with
  | EmptyString => [cur]
  | String c rest =>
      if Ascii.eqb c sep then cur :: split_on sep "" rest
      else split_on sep (cur +:+ String c "") rest
  end.

Definition is_linebreak (c : ascii) : bool :=
  let n := nat_of_ascii c in
  ((10 <=? n)%nat && (n <=? 13)%nat) || ((28 <=? n)%nat && (n <=? 30)%nat).

(** [s.splitlines()]: CR LF is one break, and a final break opens no
    empty line. *)
Fixpoint splitlines_go (cur : string) (s : string) : list string :=
  match s with
  | EmptyString => if String.eqb cur "" then [] else [cur]
  | String c rest =>
      if is_linebreak c then
        match rest with
        | String c' rest' =>
            if Ascii.eqb c "013" && Ascii.eqb c' "010"
            then cur :: splitlines_go "" rest'
            else cur :: splitlines_go "" rest
        | EmptyString => [cur]
        end
      else splitlines_go (cur +:+ String c "") rest
  end.

Definition digit_of (c : ascii) : option Z :=
  let n := nat_of_ascii c in
  if (48 <=? n)%nat && (n <=? 57)%nat then Some (Z.of_nat (n - 48)) else None.

(** Digits with single underscores between them. *)
Fixpoint parse_digits (acc : Z) (after_digit : bool) (s : string) : option Z :=
  match s with
  | EmptyString => if after_digit then Some acc else None
  | String c rest =>
      match digit_of c with
      | Some d => parse_digits (10 * acc + d) true rest
      | None => if Ascii.eqb c "_" && after_digit
                then match rest with
                     | EmptyString => None
                     | String c' _ => match digit_of c' with
                                      | Some _ => parse_digits acc false rest
                                      | None => None
                                      end
                     end
                else None
      end
  end.

(** [int(s)] in base 10 *)
Definition parse_int (s : string) : option Z :=
  match strip s with
  | String "-" rest => Z.opp <$> parse_digits 0 false rest
  | String "+" rest => parse_digits 0 false rest
  | t => parse_digits 0 false t
  end.

#[export] Instance ascii_builtins : Builtins := {|
  str_strip := strip;
  str_lower := map_string lower_ascii;
  str_upper := map_string upper_ascii;
  str_splitlines := splitlines_go "";
  str_split_comma := split_on "," "";
  str_commas_to_dots := map_string (λ c, if Ascii.eqb c "," then "."%char else c);
  int_of_str := parse_int;
  float_of_str := λ _, None;
  float_of_int := λ _, None;
  int_of_float := λ _, None;
  float_eqb_int := λ _ _, false;
  float_truthy := λ _, true;
  repr := λ _, "";
|}.

(** LIKE: [%] matches any run, [_] one character, letters match without
    regard to ASCII case. *)
Fixpoint like (pat : string) : string → bool :=
  match pat with
  | EmptyString => λ s, String.eqb s ""
  | String p pat' =>
      if Ascii.eqb p "%" then
        fix any (s : string) : bool :=
          like pat' s || match s with
                         | String _ s' => any s'
                         | EmptyString => false
                         end
      else λ s,
        match s with
        | String c s' =>
            (Ascii.eqb p "_" || Ascii.eqb (lower_ascii p) (lower_ascii c)) && like pat' s'
        | EmptyString => false
        end
  end.

Definition plain_cmp (a b : PyVal) : comparison :=
  match a, b with
  | PNone, PNone => Eq
  | PNone, _ => Lt
  | _, PNone => Gt
  | PInt x, PInt y => Z.compare x y
  | PInt _, _ => Lt
  | _, PInt _ => Gt
  | PStr s, PStr t => String.compare s t
  | _, _ => Eq
  end.

Definition plain_atom (rid : Z) (r : DataRow) (c : Cond) : bool :=
  match c with
  | CCastIdLike pat => like pat (pretty rid)
  | CLike col pat => match col_value col (rid, r) with
                     | PStr s => like pat s
                     | PInt z => like pat (pretty z)
                     | _ => false
                     end
  | CEq col v => match plain_cmp (col_value col (rid, r)) v with Eq => true | _ => false end
  | CEqLit col n => match plain_cmp (col_value col (rid, r)) (PInt n) with Eq => true | _ => false end
  | CGe col v => match plain_cmp (col_value col (rid, r)) v with Lt => false | _ => true end
  | CLe col v => match plain_cmp (col_value col (rid, r)) v with Gt => false | _ => true end
  | CAnyOf _ => false
  end.

(** A LIKE pattern of more than 50000 bytes, the length SQLite accepts. *)
Fixpoint long_pattern (c : Cond) : bool :=
  match c with
  | CCastIdLike pat | CLike _ pat => 50000 <? Z.of_nat (String.length pat)
  | CAnyOf cs => existsb long_pattern cs
  | _ => false
  end.

(** The engine gives up on a statement with such a pattern when the table
    has a row to try it on. *)
Definition plain_gives_up (s : Select) (rows : gmap Z DataRow) : bool :=
  match map_to_list rows with
  | [] => false
  | _ :: _ => existsb long_pattern (sel_where s)
  end.

#[export] Instance plain_engine : SqlEngine := {|
  atom_holds := plain_atom;
  val_cmp := plain_cmp;
  gives_up := plain_gives_up;
|}.

End Fixtures.

(** ** Notions the properties are stated with *)

Module Spec.
Import Py Store Repo App.
Local Open Scope m_scope.
Local Open Scope list_scope.

Section WithEngine.
Context `{B : Builtins} `{E : SqlEngine}.


(** Two rows of [meta_fields] that differ at most in [position] and
    [updated_at]. *)
Definition same_field (f f' : FieldRow) : Prop :=
  f_table_id f' = f_table_id f ∧ f_name f' = f_name f ∧ f_ftype f' = f_ftype f
  ∧ f_required f' = f_required f ∧ f_active f' = f_active f
  ∧ f_options_json f' = f_options_json f ∧ f_created_at f' = f_created_at f.

(** What [reorder_fields] leaves alone outside [meta_fields]. *)
Definition same_outside_fields (w w' : World) : Prop :=
  meta_projects w' = meta_projects w ∧ meta_tables w' = meta_tables w
  ∧ data w' = data w ∧ meta_fields_seq w' = meta_fields_seq w.

(** The loop of [reorder_fields], from rank [start] on. *)
Definition reorder_loop (tid : Z) (start : Z) (ids : list Z) : M World unit :=
  for_each (enumerate start ids) (λ '(i, fid),
    ts <- now_iso ;;
    modify (λ w, set_meta_fields
                   (sql_set_position i ts fid tid (meta_fields w))
                   (meta_fields_seq w) w)).

(** The live fields of a table: what [list_fields(table_id)] returns. *)
Definition live_fields (w : World) (tid : Z) : list (Z * FieldRow) :=
  match fst (list_fields tid true w) with
  | Ok l => l
  | Raise _ => []
  end.

(** The row of [fid] when it is a live field of the table: it exists,
    belongs to the table and is active. *)
Definition live_field (w : World) (tid fid : Z) : option FieldRow :=
  match meta_fields w !! fid with
  | Some f => if bool_decide (f_table_id f = tid ∧ f_active f = 1) then Some f else None
  | None => None
  end.

(** A filter entry whose key is the id of a live field of the table. *)
Definition known_entry (w : World) (tid : Z) (e : PyVal * PyVal) : bool :=
  match py_int e.1 with
  | inr fid => bool_decide (is_Some (live_field w tid fid))
  | inl _ => false
  end.

(** A single comparison, which the engine decides, not a disjunction. *)
Definition is_atom (c : Cond) : bool :=
  match c with CAnyOf _ => false | _ => true end.

(** A row passes a filter entry: the engine finds every comparison the
    entry asks for true of the row. *)
Definition entry_satisfied (fields : list (Z * FieldRow)) (row : Z * DataRow)
    (e : PyVal * PyVal) : bool :=
  match filter_entry fields e with
  | inr cs => forallb (atom_holds row.1 row.2) cs
  | inl _ => true
  end.

(** A row passes the free-text search: there is no text, or the engine
    finds the text in the id of the row or in one of its fields. *)
Definition search_satisfied (query : string) (fields : list (Z * FieldRow))
    (row : Z * DataRow) : bool :=
  let q := str_strip query in
  let like := "%" +:+ q +:+ "%" in
  String.eqb q ""
  || existsb (atom_holds row.1 row.2)
       (CCastIdLike like :: concat (search_terms q like <$> fields)).


(** [options or {}] *)
Definition options_or_empty (options : option (list (string * PyVal)))
    : list (string * PyVal) :=
  match options with Some d => d | None => [] end.

(** What [add_field] accepts as the options of a relation field:
    [target_table_id] is an [int] greater than 0 and [display_field_id],
    when present, is an [int]. *)
Definition relation_options_ok (options : list (string * PyVal)) : bool :=
  match dict_get options "target_table_id" PNone with
  | PInt z => 0 <? z
  | PBool b => b
  | _ => false
  end
  && (negb (dict_has options "display_field_id")
      || isinstance_int (dict_get options "display_field_id" PNone)).

(** The checks [add_field] makes before it writes. *)
Definition add_field_valid (name ftype : string) (options : list (string * PyVal)) : bool :=
  negb (String.eqb (str_strip name) "")
  && str_in ftype FIELD_TYPES
  && (if String.eqb ftype "select" then select_options_ok options else true)
  && (if String.eqb ftype "relation" then relation_options_ok options else true).

(** The row [add_field] inserts. *)
Definition new_field_row (w : World) (table_id : Z) (name ftype : string)
    (required : bool) (options : list (string * PyVal)) : FieldRow :=
  {| f_table_id := table_id; f_name := str_strip name; f_ftype := ftype;
     f_required := if required then 1 else 0; f_active := 1;
     f_position := Some (match fst (_next_field_position table_id w) with
                         | Ok p => p
                         | Raise _ => 0
                         end);
     f_options_json := PDict options;
     f_created_at := clock w (ticks w); f_updated_at := clock w (ticks w) |}.

(** [rid in (None, "", 0)] *)
Definition is_blank (rid : PyVal) : bool :=
  is_none rid || eqb_str rid "" || eqb_int rid 0.

(** [(field.get("options") or {}).get("table_id")]; [None] when the
    options are no dictionary. *)
Definition rel_table_id (field : list (string * PyVal)) : option PyVal :=
  match py_or (dict_get field "options" PNone) (PDict []) with
  | PDict options => Some (dict_get options "table_id" PNone)
  | _ => None
  end.

(** What can happen to an open [TableView]: a command is recorded, the
    user undoes or redoes, adds, edits or deletes a record, or the view
    reloads. *)
Inductive Event : Type :=
| EvRecord (label : string) (undo_fn redo_fn : Closure)
| EvUndo
| EvRedo
| EvAdd (dialog : option (gmap Z PyVal))
| EvEdit (selected : option Z) (dialog : option (gmap Z PyVal))
| EvDelete (selected : option Z) (confirmed : bool)
| EvReload.

Definition handle (e : Event) : M TableView unit :=
  match e with
  | EvRecord label undo_fn redo_fn => push_cmd label undo_fn redo_fn
  | EvUndo => undo
  | EvRedo => redo
  | EvAdd dialog => add_record dialog
  | EvEdit selected dialog => edit_record selected dialog
  | EvDelete selected confirmed => delete_record selected confirmed
  | EvReload => reload
  end.

(** The view after a handler ran; an exception that escapes a handler is
    reported by the event loop and the view lives on. *)
Definition step (v : TableView) (e : Event) : TableView := snd (handle e v).

Definition run (evs : list Event) (v : TableView) : TableView := foldl step v evs.

(** The history of a view is well formed. *)
Definition history_ok (v : TableView) : Prop :=
  0 ≤ _undo_idx v ≤ Z.of_nat (length (_undo v)) ∧ _in_undo_redo v = false.

(** The rows and the [f_<k>] columns of [data_<tid>]; a table that does
    not exist yet has none. *)
Definition rows_of (w : World) (tid : Z) : gmap Z DataRow :=
  match data w !! tid with Some t => dt_rows t | None => ∅ end.

Definition cols_of (w : World) (tid : Z) : gmap Z Ddl :=
  match data w !! tid with Some t => dt_columns t | None => ∅ end.

(** A data table as [_ensure_data_table] leaves it. *)
Definition table_of (w : World) (tid : Z) : DataTable :=
  match data w !! tid with Some t => t | None => empty_data_table end.

(** The timestamps [add_record_with_id] writes and the clock readings it
    uses up. *)
Definition stamp (ts : option string) (w : World) : string * nat :=
  match ts with
  | Some s => if String.eqb s "" then (clock w (ticks w), S (ticks w)) else (s, ticks w)
  | None => (clock w (ticks w), S (ticks w))
  end.

(** A computation on the view that keeps the history well formed. *)
Definition keeps_history {A : Type} (m : M TableView A) : Prop :=
  ∀ v, history_ok v → history_ok (snd (m v)).

(** The view after a handler recorded [cmd], and after that command was
    undone, over the store [w]. *)
Definition pushed (v : TableView) (cmd : Cmd) (w : World) : TableView :=
  set_repo w (set_history (py_slice_to (_undo v) (_undo_idx v) ++ [cmd])
                          (_undo_idx v + 1) v).

Definition undone (v : TableView) (cmd : Cmd) (w : World) : TableView :=
  set_repo w (set_history (py_slice_to (_undo v) (_undo_idx v) ++ [cmd])
                          (_undo_idx v) v).

(** The store after the query behind [refresh]. *)
Definition refreshed (tid : Z) (w : World) : World := snd (_ensure_data_table tid w).

(** [c] is a subproject of [p]. *)
Definition child_of (projects : gmap Z ProjectRow) (p c : Z) : Prop :=
  ∃ row, projects !! c = Some row ∧ p_parent_id row = Some p.

(** The projects deleted with [root]: [root] and its descendants. *)
Inductive in_subtree (projects : gmap Z ProjectRow) (root : Z) : Z → Prop :=
| subtree_root : in_subtree projects root root
| subtree_child p c :
    in_subtree projects root p → child_of projects p c → in_subtree projects root c.

(** The forest below [p] has at most [n] levels, [p] included: the depth
    the recursion of [delete_project] reaches. *)
Inductive depth_le (projects : gmap Z ProjectRow) : nat → Z → Prop :=
| depth_le_node n p :
    (∀ c, child_of projects p c → depth_le projects n c) →
    depth_le projects (S n) p.

(** [m'] keeps rows of [m] as they are and may have lost some. *)
Definition sub_forest (m' m : gmap Z ProjectRow) : Prop :=
  ∀ q row, m' !! q = Some row → m !! q = Some row.

(** What happens to [meta_tables] when projects are deleted: no row is
    created or deleted, and a row changes at most by losing its project
    and getting a new [updated_at]. *)
Definition tables_orphaned (owned : Z → Prop) (t' t : gmap Z TableRow) : Prop :=
  (∀ k, t !! k = None → t' !! k = None)
  ∧ (∀ k row, t !! k = Some row →
       ∃ row', t' !! k = Some row'
               ∧ t_name row' = t_name row ∧ t_created_at row' = t_created_at row
               ∧ (row' = row
                  ∨ (t_project_id row' = None
                     ∧ ∃ p, t_project_id row = Some p ∧ owned p))).

(** The tables whose project is among the removed ones have lost it. *)
Definition tables_released (owned : Z → Prop) (t' t : gmap Z TableRow) : Prop :=
  ∀ k row p, t !! k = Some row → t_project_id row = Some p → owned p →
             ∃ row', t' !! k = Some row' ∧ t_project_id row' = None.

(** The store [wa] is the store [wb] with the projects [removed]
    deleted. *)
Record deleted (removed : Z → Prop) (wb wa : World) : Prop := {
  del_sub : sub_forest (meta_projects wa) (meta_projects wb);
  del_gone : ∀ q, removed q → meta_projects wa !! q = None;
  del_only : ∀ q, is_Some (meta_projects wb !! q) → meta_projects wa !! q = None →
                  removed q;
  del_tables : tables_orphaned removed (meta_tables wa) (meta_tables wb);
  del_released : tables_released removed (meta_tables wa) (meta_tables wb);
  del_fields : meta_fields wa = meta_fields wb;
  del_data : data wa = data wb;
}.

(** The subtrees of the projects of a list. *)
Definition in_subtrees (m : gmap Z ProjectRow) (roots : list Z) (q : Z) : Prop :=
  ∃ c, c ∈ roots ∧ in_subtree m c q.

(** The tail of [delete_project]: the UPDATE of [meta_tables] and the
    DELETE of the project row. *)
Definition release_and_delete (pid : Z) : M World unit :=
  ts <- now_iso ;;
  modify (λ w, set_meta_tables (sql_orphan_tables ts pid (meta_tables w)) w) ;;
  sql_delete_project pid.

(** Whatever the outcome, no row of [meta_tables] is created or deleted. *)
Definition same_table_ids (w w' : World) : Prop :=
  ∀ t, is_Some (meta_tables w' !! t) ↔ is_Some (meta_tables w !! t).

(** The project [p] is its own parent: [create_project] makes such a row
    when it is given the id the new project is about to get. *)
Definition self_parent (w : World) (p : Z) : Prop :=
  ∃ row, meta_projects w !! p = Some row ∧ p_parent_id row = Some p.

(** When [p] is its own parent in [w], its row and the rows of the tables
    it owns are in [w'] as they are in [w]. *)
Definition self_parent_kept (p : Z) (w w' : World) : Prop :=
  self_parent w p →
  meta_projects w' !! p = meta_projects w !! p
  ∧ (∀ t row, meta_tables w !! t = Some row → t_project_id row = Some p →
              meta_tables w' !! t = Some row).

End WithEngine.
End Spec.

(** ** Example stores *)

Module Examples.
Import Py Store Repo App Spec Fixtures.
Local Open Scope list_scope.

(** A clock whose [n]-th reading is [t<n>]. *)
Definition ex_clock (n : nat) : string := "t" +:+ pretty n.

Definition ex_table (name : string) (project_id : option Z) : TableRow :=
  {| t_name := name; t_project_id := project_id;
     t_created_at := "t"; t_updated_at := "t" |}.

Definition ex_project (name : string) (parent_id : option Z) : ProjectRow :=
  {| p_name := name; p_parent_id := parent_id; p_color := "#4C9AFF";
     p_created_at := "t"; p_updated_at := "t" |}.

(** One table, "Tasks", and no field yet. *)
Definition ex_tasks : World :=
  {| clock := ex_clock; ticks := 0; meta_projects := ∅;
     meta_tables := {[ 1 := ex_table "Tasks" None ]};
     meta_fields := ∅; meta_fields_seq := 0; data := ∅ |}.

(** "Tasks" with a text field "Title" (field 1). *)
Definition ex_tasks_title : World :=
  snd (add_field 1 "Title" "text" false None ex_tasks).

(** Two tables with one field each: field 5 of table 1, field 7 of
    table 2. *)
Definition ex_field (table_id : Z) (name : string) (position : Z) : FieldRow :=
  {| f_table_id := table_id; f_name := name; f_ftype := "text"; f_required := 0;
     f_active := 1; f_position := Some position; f_options_json := PDict [];
     f_created_at := "t"; f_updated_at := "t" |}.

Definition ex_two_tables : World :=
  {| clock := ex_clock; ticks := 0; meta_projects := ∅;
     meta_tables := {[ 1 := ex_table "Tasks" None; 2 := ex_table "People" None ]};
     meta_fields := {[ 5 := ex_field 1 "Title" 5; 7 := ex_field 2 "Name" 7 ]};
     meta_fields_seq := 7; data := ∅ |}.

(** Project 1 with subproject 2; table 1 under the project, table 2
    under the subproject, table 3 under no project. *)
Definition ex_projects : World :=
  {| clock := ex_clock; ticks := 0;
     meta_projects := {[ 1 := ex_project "Work" None; 2 := ex_project "Q3" (Some 1) ]};
     meta_tables := {[ 1 := ex_table "Tasks" (Some 1); 2 := ex_table "Notes" (Some 2);
                       3 := ex_table "Misc" None ]};
     meta_fields := ∅; meta_fields_seq := 0; data := ∅ |}.

(** A view on "Tasks" after its first load. *)
Definition ex_view : TableView := run [EvReload] (new_view ex_tasks_title 1).

(** "Tasks" with two records: 1 "Buy milk" and 2 "Walk the dog". *)
Definition ex_two_tasks : World :=
  snd (Repo.add_record 1 {[ 1 := PStr "Walk the dog" ]}
         (snd (Repo.add_record 1 {[ 1 := PStr "Buy milk" ]} ex_tasks_title))).

(** "Tasks" with the relation field "Blocked by" (field 2), made by
    [add_field] with "Tasks" itself as the target and
    [display_field_id = 0], and with two records: 1 "Buy milk", and
    2 "Cook", which is blocked by record 1. *)
Definition ex_linked : World :=
  snd (Repo.add_record 1 {[ 1 := PStr "Cook"; 2 := PInt 1 ]}
         (snd (Repo.add_record 1 {[ 1 := PStr "Buy milk" ]}
                 (snd (add_field 1 "Blocked by" "relation" false
                         (Some [("target_table_id", PInt 1);
                                ("display_field_id", PInt 0)])
                         ex_tasks_title))))).

(** A view on that table after its first load. *)
Definition ex_linked_view : TableView := run [EvReload] (new_view ex_linked 1).

(** The forest below a project has at most [n] levels, as a check. *)
Fixpoint depth_leb (projects : gmap Z ProjectRow) (n : nat) (p : Z) : bool :=
  match n with
  | O => false
  | S n' =>
      forallb (depth_leb projects n')
        (select_ids (λ _ row, option_Z_eqb (p_parent_id row) p) projects)
  end.

(** A request on "Tasks": one entry for the live field 1, one for a field
    that does not exist, one whose key is no number. *)
Definition ex_filters : list (PyVal * PyVal) :=
  [(PStr "1", PDict [("contains", PStr "milk")]);
   (PInt 9, PDict [("equals", PStr "x")]);
   (PStr "title", PDict [("equals", PStr "x")])].

End Examples.

(** ** [repo.py]: the rest of [MetaRepository] *)

Module Catalog.
Import Py Store Repo.
Local Open Scope m_scope.

(** *** Fields: rename and deactivate *)

(** UPDATE meta_fields SET active=0, updated_at=? WHERE id=? *)
Definition sql_deactivate_field (ts : string) (f : FieldRow) : FieldRow :=
  {| f_table_id := f_table_id f; f_name := f_name f; f_ftype := f_ftype f;
     f_required := f_required f; f_active := 0; f_position := f_position f;
     f_options_json := f_options_json f; f_created_at := f_created_at f;
     f_updated_at := ts |}.

(** UPDATE meta_fields SET name=?, updated_at=? WHERE id=? *)
Definition sql_rename_field (name ts : string) (f : FieldRow) : FieldRow :=
  {| f_table_id := f_table_id f; f_name := name; f_ftype := f_ftype f;
     f_required := f_required f; f_active := f_active f; f_position := f_position f;
     f_options_json := f_options_json f; f_created_at := f_created_at f;
     f_updated_at := ts |}.

(** [deactivate_field] *)
Definition deactivate_field (field_id : Z) : M World unit :=
  ts <- now_iso ;;
  modify (λ w, set_meta_fields (alter (sql_deactivate_field ts) field_id (meta_fields w))
                               (meta_fields_seq w) w).

(** *** Projects and tables: updates *)

(** The UNIQUE constraint on [name]: a row other than [self] has it. *)
Definition project_name_taken (name : string) (self : Z)
    (projects : gmap Z ProjectRow) : bool :=
  bool_decide (map_Exists (λ k p, k ≠ self ∧ p_name p = name) projects).

Definition table_name_taken (name : string) (self : Z)
    (tables : gmap Z TableRow) : bool :=
  bool_decide (map_Exists (λ k t, k ≠ self ∧ t_name t = name) tables).

(** UPDATE meta_projects SET name=?, color=?, updated_at=? WHERE id=?, with
    the assignments of the columns that were given. *)
Definition sql_update_project (project_id : Z) (name color : option string)
    (ts : string) : M World unit :=
  λ w, match meta_projects w !! project_id with
       | None => (Ok tt, w)
       | Some p =>
           if match name with
              | Some n => project_name_taken n project_id (meta_projects w)
              | None => false
              end
           then (Raise IntegrityError, w)
           else (Ok tt,
                 set_meta_projects
                   (<[project_id :=
                        {| p_name := default (p_name p) name;
                           p_parent_id := p_parent_id p;
                           p_color := default (p_color p) color;
                           p_created_at := p_created_at p;
                           p_updated_at := ts |}]> (meta_projects w)) w)
       end.

(** UPDATE meta_tables SET name=?, updated_at=? WHERE id=? *)
Definition sql_rename_table (table_id : Z) (name ts : string) : M World unit :=
  λ w, match meta_tables w !! table_id with
       | None => (Ok tt, w)
       | Some t =>
           if table_name_taken name table_id (meta_tables w)
           then (Raise IntegrityError, w)
           else (Ok tt,
                 set_meta_tables
                   (<[table_id := {| t_name := name; t_project_id := t_project_id t;
                                     t_created_at := t_created_at t;
                                     t_updated_at := ts |}]> (meta_tables w)) w)
       end.

(** UPDATE meta_tables SET project_id=?, updated_at=? WHERE id=?: the new
    [project_id] must reference a row of [meta_projects]. *)
Definition sql_set_table_project (table_id : Z) (project_id : option Z)
    (ts : string) : M World unit :=
  λ w, match meta_tables w !! table_id with
       | None => (Ok tt, w)
       | Some t =>
           if match project_id with
              | Some p => bool_decide (meta_projects w !! p = None)
              | None => false
              end
           then (Raise IntegrityError, w)
           else (Ok tt,
                 set_meta_tables
                   (<[table_id := {| t_name := t_name t; t_project_id := project_id;
                                     t_created_at := t_created_at t;
                                     t_updated_at := ts |}]> (meta_tables w)) w)
       end.

(** [set_table_project] *)
Definition set_table_project (table_id : Z) (project_id : option Z) : M World unit :=
  ts <- now_iso ;;
  sql_set_table_project table_id project_id ts.

(** [get_table] *)
Definition get_table (table_id : Z) : M World TableRow :=
  w <- get ;;
  match meta_tables w !! table_id with
  | Some r => ret r
  | None => raise KeyError
  end.

Section WithBuiltins.
Context `{B : Builtins}.

(** [rename_field] *)
Definition rename_field (field_id : Z) (new_name : string) : M World unit :=
  let new_name := str_strip new_name in
  if String.eqb new_name "" then raise ValueError
  else
    ts <- now_iso ;;
    modify (λ w, set_meta_fields
                   (alter (sql_rename_field new_name ts) field_id (meta_fields w))
                   (meta_fields_seq w) w).

(** [(color or "").strip() or "#4C9AFF"] *)
Definition color_or_default (color : string) : string :=
  if String.eqb (str_strip color) "" then "#4C9AFF" else str_strip color.

(** [update_project]; the argument [parent_id] is accepted and not used. *)
Definition update_project (project_id : Z) (name color : option string)
    (parent_id : option Z) : M World unit :=
  name <- match name with
          | Some n => if String.eqb (str_strip n) "" then raise ValueError
                      else ret (Some (str_strip n))
          | None => ret None
          end ;;
  let color := color_or_default <$> color in
  match name, color with
  | None, None => ret tt
  | _, _ =>
      ts <- now_iso ;;
      sql_update_project project_id name color ts
  end.

(** [rename_table] *)
Definition rename_table (table_id : Z) (new_name : string) : M World unit :=
  let new_name := str_strip new_name in
  if String.eqb new_name "" then raise ValueError
  else
    ts <- now_iso ;;
    sql_rename_table table_id new_name ts.

End WithBuiltins.

(** *** The whole catalog

    [World] holds the tables the record layer works on.  The catalog adds
    the saved views, the table preferences and the AUTOINCREMENT counters
    of [meta_projects] and [meta_tables]. *)

(** A row of [meta_views], keyed by [id]; [view_json] holds the JSON
    document itself. *)
Record ViewRow : Type := {
  vw_table_id : Z;
  vw_name : string;
  vw_view_json : list (string * PyVal);
  vw_position : option Z;
  vw_created_at : string;
  vw_updated_at : string;
}.

(** A row of [meta_table_prefs], keyed by [table_id]. *)
Record PrefsRow : Type := {
  pf_prefs_json : list (string * PyVal);
  pf_updated_at : string;
}.

Record Catalog : Type := {
  world : World;
  meta_projects_seq : Z;
  meta_tables_seq : Z;
  meta_views : gmap Z ViewRow;
  meta_views_seq : Z;
  meta_table_prefs : gmap Z PrefsRow;
}.

Definition set_world (w : World) (c : Catalog) : Catalog :=
  {| world := w; meta_projects_seq := meta_projects_seq c;
     meta_tables_seq := meta_tables_seq c; meta_views := meta_views c;
     meta_views_seq := meta_views_seq c; meta_table_prefs := meta_table_prefs c |}.

Definition set_meta_views (m : gmap Z ViewRow) (seq : Z) (c : Catalog) : Catalog :=
  {| world := world c; meta_projects_seq := meta_projects_seq c;
     meta_tables_seq := meta_tables_seq c; meta_views := m;
     meta_views_seq := seq; meta_table_prefs := meta_table_prefs c |}.

Definition set_meta_table_prefs (m : gmap Z PrefsRow) (c : Catalog) : Catalog :=
  {| world := world c; meta_projects_seq := meta_projects_seq c;
     meta_tables_seq := meta_tables_seq c; meta_views := meta_views c;
     meta_views_seq := meta_views_seq c; meta_table_prefs := m |}.

(** A method that works on the tables of [World] only. *)
Definition lift {A : Type} (m : M World A) : M Catalog A :=
  λ c, match m (world c) with (r, w) => (r, set_world w c) end.

(** A database that was just created: every table is empty. *)
Definition empty_catalog (clock : nat → string) : Catalog :=
  {| world := {| Store.clock := clock; ticks := 0; meta_projects := ∅;
                 meta_tables := ∅; meta_fields := ∅; meta_fields_seq := 0;
                 data := ∅ |};
     meta_projects_seq := 0; meta_tables_seq := 0;
     meta_views := ∅; meta_views_seq := 0; meta_table_prefs := ∅ |}.

(** INSERT INTO meta_projects(...): the name must be new, and [parent_id]
    must reference a row of [meta_projects], which the inserted row itself
    may be. *)
Definition sql_insert_project (row : ProjectRow) : M Catalog Z :=
  λ c,
    let projects := meta_projects (world c) in
    let pid := next_rowid (meta_projects_seq c) projects in
    if bool_decide (map_Exists (λ _ p, p_name p = p_name row) projects)
       || match p_parent_id row with
          | Some q => bool_decide (projects !! q = None) && negb (q =? pid)
          | None => false
          end
    then (Raise IntegrityError, c)
    else (Ok pid,
          {| world := set_meta_projects (<[pid := row]> projects) (world c);
             meta_projects_seq := pid; meta_tables_seq := meta_tables_seq c;
             meta_views := meta_views c; meta_views_seq := meta_views_seq c;
             meta_table_prefs := meta_table_prefs c |}).

(** INSERT INTO meta_tables(...) *)
Definition sql_insert_table (row : TableRow) : M Catalog Z :=
  λ c,
    let tables := meta_tables (world c) in
    if bool_decide (map_Exists (λ _ t, t_name t = t_name row) tables)
       || match t_project_id row with
          | Some p => bool_decide (meta_projects (world c) !! p = None)
          | None => false
          end
    then (Raise IntegrityError, c)
    else
      let tid := next_rowid (meta_tables_seq c) tables in
      (Ok tid,
       {| world := set_meta_tables (<[tid := row]> tables) (world c);
          meta_projects_seq := meta_projects_seq c; meta_tables_seq := tid;
          meta_views := meta_views c; meta_views_seq := meta_views_seq c;
          meta_table_prefs := meta_table_prefs c |}).

(** DELETE FROM meta_tables WHERE id=?, with the ON DELETE CASCADE of
    [meta_fields], [meta_table_prefs] and [meta_views]. *)
Definition sql_delete_table (table_id : Z) : M Catalog unit :=
  modify (λ c,
    let w := world c in
    match meta_tables w !! table_id with
    | None => c
    | Some _ =>
        {| world := set_meta_fields
                      (filter (λ kv, f_table_id kv.2 ≠ table_id) (meta_fields w))
                      (meta_fields_seq w)
                      (set_meta_tables (delete table_id (meta_tables w)) w);
           meta_projects_seq := meta_projects_seq c;
           meta_tables_seq := meta_tables_seq c;
           meta_views := filter (λ kv, vw_table_id kv.2 ≠ table_id) (meta_views c);
           meta_views_seq := meta_views_seq c;
           meta_table_prefs := delete table_id (meta_table_prefs c) |}
    end).

(** DROP TABLE IF EXISTS data_<table_id> *)
Definition sql_drop_data_table (table_id : Z) : M World unit :=
  modify (λ w, set_data (delete table_id (data w)) w).

(** [delete_table] *)
Definition delete_table (table_id : Z) : M Catalog unit :=
  sql_delete_table table_id ;;
  lift (sql_drop_data_table table_id).

(** *** Table preferences *)

(** [get_table_prefs] *)
Definition get_table_prefs (table_id : Z) : M Catalog (list (string * PyVal)) :=
  c <- get ;;
  match meta_table_prefs c !! table_id with
  | None => ret []
  | Some r => ret (pf_prefs_json r)
  end.

(** [save_table_prefs]: INSERT .. ON CONFLICT(table_id) DO UPDATE; the
    table must exist. *)
Definition save_table_prefs (table_id : Z) (prefs : list (string * PyVal))
    : M Catalog unit :=
  ts <- lift now_iso ;;
  λ c, match meta_tables (world c) !! table_id with
       | None => (Raise IntegrityError, c)
       | Some _ =>
           (Ok tt, set_meta_table_prefs
                     (<[table_id := {| pf_prefs_json := prefs; pf_updated_at := ts |}]>
                        (meta_table_prefs c)) c)
       end.

(** *** Saved views *)

(** [COALESCE(position, id)] *)
Definition view_sort_key (kv : Z * ViewRow) : Z :=
  match vw_position kv.2 with Some p => p | None => kv.1 end.

(** ORDER BY COALESCE(position, id) ASC, id ASC *)
Definition view_le (a b : Z * ViewRow) : Prop :=
  view_sort_key a < view_sort_key b ∨ (view_sort_key a = view_sort_key b ∧ a.1 ≤ b.1).

Global Instance view_le_dec a b : Decision (view_le a b).
Proof. unfold view_le. apply _. Defined.

(** [list_views] *)
Definition list_views (table_id : Z) : M Catalog (list (Z * ViewRow)) :=
  c <- get ;;
  ret (merge_sort view_le
         (filter (λ kv, vw_table_id kv.2 = table_id) (map_to_list (meta_views c)))).

(** [get_view] *)
Definition get_view (view_id : Z) : M Catalog ViewRow :=
  c <- get ;;
  match meta_views c !! view_id with
  | Some r => ret r
  | None => raise KeyError
  end.

(** The UNIQUE(table_id, name) constraint of [meta_views]. *)
Definition view_name_taken (table_id : Z) (name : string) (self : option Z)
    (views : gmap Z ViewRow) : bool :=
  bool_decide (map_Exists (λ k v, Some k ≠ self ∧ vw_table_id v = table_id
                                  ∧ vw_name v = name) views).

(** INSERT INTO meta_views(...) *)
Definition sql_insert_view (row : ViewRow) : M Catalog Z :=
  λ c,
    if view_name_taken (vw_table_id row) (vw_name row) None (meta_views c)
       || bool_decide (meta_tables (world c) !! vw_table_id row = None)
    then (Raise IntegrityError, c)
    else
      let vid := next_rowid (meta_views_seq c) (meta_views c) in
      (Ok vid, set_meta_views (<[vid := row]> (meta_views c)) vid c).

(** UPDATE meta_views SET name=?, view_json=?, updated_at=? WHERE id=?, with
    the assignments of the columns that were given. *)
Definition sql_update_view (view_id : Z) (name : option string)
    (view : option (list (string * PyVal))) (ts : string) : M Catalog unit :=
  λ c, match meta_views c !! view_id with
       | None => (Ok tt, c)
       | Some v =>
           if match name with
              | Some n => view_name_taken (vw_table_id v) n (Some view_id) (meta_views c)
              | None => false
              end
           then (Raise IntegrityError, c)
           else (Ok tt,
                 set_meta_views
                   (<[view_id := {| vw_table_id := vw_table_id v;
                                    vw_name := default (vw_name v) name;
                                    vw_view_json := default (vw_view_json v) view;
                                    vw_position := vw_position v;
                                    vw_created_at := vw_created_at v;
                                    vw_updated_at := ts |}]> (meta_views c))
                   (meta_views_seq c) c)
       end.

(** [delete_view] *)
Definition delete_view (view_id : Z) : M Catalog unit :=
  modify (λ c, set_meta_views (delete view_id (meta_views c)) (meta_views_seq c) c).

(** The two back-fills at the end of [_init_db]:
    UPDATE .. SET position = id WHERE position IS NULL, on [meta_views] and
    on [meta_fields].  On a database that has the tables of the current
    schema the statements before them change nothing. *)
Definition backfill_view (k : Z) (v : ViewRow) : ViewRow :=
  match vw_position v with
  | Some _ => v
  | None => {| vw_table_id := vw_table_id v; vw_name := vw_name v;
               vw_view_json := vw_view_json v; vw_position := Some k;
               vw_created_at := vw_created_at v; vw_updated_at := vw_updated_at v |}
  end.

Definition backfill_field (k : Z) (f : FieldRow) : FieldRow :=
  match f_position f with
  | Some _ => f
  | None => {| f_table_id := f_table_id f; f_name := f_name f; f_ftype := f_ftype f;
               f_required := f_required f; f_active := f_active f;
               f_position := Some k; f_options_json := f_options_json f;
               f_created_at := f_created_at f; f_updated_at := f_updated_at f |}
  end.

Definition _init_db : M Catalog unit :=
  modify (λ c, set_meta_views (map_imap (λ k v, Some (backfill_view k v)) (meta_views c))
                              (meta_views_seq c) c) ;;
  lift (modify (λ w, set_meta_fields
                       (map_imap (λ k f, Some (backfill_field k f)) (meta_fields w))
                       (meta_fields_seq w) w)).

Section WithBuiltins2.
Context `{B : Builtins}.

(** [(color or "#4C9AFF").strip() or "#4C9AFF"] *)
Definition new_project_color (color : string) : string :=
  color_or_default (if String.eqb color "" then "#4C9AFF" else color).

(** [create_project] *)
Definition create_project (name color : string) (parent_id : option Z) : M Catalog Z :=
  let name := str_strip name in
  if String.eqb name "" then raise ValueError
  else
    let color := new_project_color color in
    ts <- lift now_iso ;;
    sql_insert_project {| p_name := name; p_parent_id := parent_id; p_color := color;
                          p_created_at := ts; p_updated_at := ts |}.

(** [create_table] *)
Definition create_table (name : string) (project_id : option Z) : M Catalog Z :=
  let name := str_strip name in
  if String.eqb name "" then raise ValueError
  else
    ts <- lift now_iso ;;
    table_id <- sql_insert_table {| t_name := name; t_project_id := project_id;
                                    t_created_at := ts; t_updated_at := ts |} ;;
    lift (_ensure_data_table table_id) ;;
    ret table_id.

(** [create_view] *)
Definition create_view (table_id : Z) (name : string) (view : list (string * PyVal))
    : M Catalog Z :=
  let name := str_strip name in
  if String.eqb name "" then raise ValueError
  else
    ts <- lift now_iso ;;
    sql_insert_view {| vw_table_id := table_id; vw_name := name; vw_view_json := view;
                       vw_position := None; vw_created_at := ts; vw_updated_at := ts |}.

(** [update_view] *)
Definition update_view (view_id : Z) (name : option string)
    (view : option (list (string * PyVal))) : M Catalog unit :=
  name <- match name with
          | Some n => if String.eqb (str_strip n) "" then raise ValueError
                      else ret (Some (str_strip n))
          | None => ret None
          end ;;
  match name, view with
  | None, None => ret tt
  | _, _ =>
      ts <- lift now_iso ;;
      sql_update_view view_id name view ts
  end.

End WithBuiltins2.

End Catalog.

(** ** [app.py]: [MainWindow._project_path] *)

Module Window.
Import Py Store.

(** [sep.join(parts)] *)
Fixpoint str_join (sep : string) (parts : list string) : string :=
  match parts with
  | [] => ""
  | [p] => p
  | p :: rest => p +:+ sep +:+ str_join sep rest
  end.

(** [projects.get(int(parent_id)) if parent_id is not None else None], on
    the dictionary [{id: row}] built from [list_projects()], which holds
    every row of [meta_projects]; a row is carried with its id. *)
Definition projects_get (projects : gmap Z ProjectRow) (id : option Z)
    : option (Z * ProjectRow) :=
  match id with
  | Some q => (λ r, (q, r)) <$> projects !! q
  | None => None
  end.

(** The loop [while cur and int(cur["id"]) not in seen], with the number
    of turns it may take; [None] when they are used up. *)
Fixpoint project_path_loop (turns : nat) (projects : gmap Z ProjectRow)
    (cur : option (Z * ProjectRow)) (seen : gset Z) (parts : list string)
    : option (list string) :=
  match turns with
  | O => None
  | S turns' =>
      match cur with
      | None => Some parts
      | Some (id, p) =>
          if decide (id ∈ seen) then Some parts
          else project_path_loop turns' projects (projects_get projects (p_parent_id p))
                 ({[ id ]} ∪ seen) (parts ++ [p_name p])
      end
  end.

(** [_project_path] *)
Definition _project_path (turns : nat) (projects : gmap Z ProjectRow) (pid : Z)
    : option string :=
  parts ← project_path_loop turns projects (projects_get projects (Some pid)) ∅ [];
  Some (str_join " / " (filter (λ p, p ≠ "") (reverse parts))).

End Window.

(** ** More notions the properties are stated with *)

Module Notions.
Import Py Store Repo App Spec Catalog Window.
Local Open Scope m_scope.
Local Open Scope list_scope.

(** A float that is a NaN, by its bit pattern: SQLite stores a NaN as
    NULL. *)
Definition float_is_nan (bits : Z) : bool :=
  0x7FF0000000000000 <? Z.land bits 0x7FFFFFFFFFFFFFFF.

(** The negative zero, by its bit pattern: SQLite stores it in a REAL
    column as the integer 0 and hands back [0.0]. *)
Definition float_is_negative_zero (bits : Z) : bool :=
  Z.land bits 0xFFFFFFFFFFFFFFFF =? 0x8000000000000000.

(** A value SQLite stores in a column of that declaration and hands back
    as it was bound: a [str] in a TEXT column, an [int] of 64 bits in an
    INTEGER column, a [float] that is neither a NaN nor the negative zero
    in a REAL column. *)
Definition fits (ddl : Ddl) (v : PyVal) : bool :=
  match ddl, v with
  | TEXT_NOT_NULL_DEFAULT_EMPTY, PStr _ => true
  | INTEGER_NOT_NULL_DEFAULT_0, PInt z => int64 z
  | REAL_NOT_NULL_DEFAULT_0, PFloat f =>
      negb (float_is_nan f) && negb (float_is_negative_zero f)
  | _, _ => false
  end.

(** Every value is for a column of the table and fits it. *)
Definition well_typed (columns : gmap Z Ddl) (values : gmap Z PyVal) : Prop :=
  map_Forall (λ k v, ∃ ddl, columns !! k = Some ddl ∧ fits ddl v = true) values.

(** The calls of the record layer that write. *)
Inductive RecordOp : Type :=
| OpAdd (table_id : Z) (values : gmap Z PyVal)
| OpAddWithId (table_id record_id : Z) (values : gmap Z PyVal)
    (created_at updated_at : option string)
| OpUpdate (table_id record_id : Z) (values : gmap Z PyVal)
| OpDelete (table_id record_id : Z)
| OpGet (table_id record_id : Z).

Definition op_table (o : RecordOp) : Z :=
  match o with
  | OpAdd t _ | OpAddWithId t _ _ _ _ | OpUpdate t _ _ | OpDelete t _ | OpGet t _ => t
  end.

Definition record_op (o : RecordOp) : M World unit :=
  match o with
  | OpAdd t values => Repo.add_record t values ;; ret tt
  | OpAddWithId t rid values c u => add_record_with_id t rid values c u ;; ret tt
  | OpUpdate t rid values => update_record t rid values
  | OpDelete t rid => Repo.delete_record t rid
  | OpGet t rid => get_record_by_id t rid ;; ret tt
  end.

(** The store after a sequence of calls; a call that raises leaves the
    store as it is at that point, and the next call goes on from there. *)
Definition run_ops (ops : list RecordOp) (w : World) : World :=
  foldl (λ w o, snd (record_op o w)) w ops.

(** The calls of [MetaRepository] that can change the database.
    [DeleteProject] carries the recursion limit of the interpreter. *)
Inductive Call : Type :=
| CreateProject (name color : string) (parent_id : option Z)
| UpdateProject (project_id : Z) (name color : option string) (parent_id : option Z)
| DeleteProject (recursion_limit : nat) (project_id : Z)
| CreateTable (name : string) (project_id : option Z)
| RenameTable (table_id : Z) (new_name : string)
| SetTableProject (table_id : Z) (project_id : option Z)
| DeleteTable (table_id : Z)
| SaveTablePrefs (table_id : Z) (prefs : list (string * PyVal))
| CreateView (table_id : Z) (name : string) (view : list (string * PyVal))
| UpdateView (view_id : Z) (name : option string) (view : option (list (string * PyVal)))
| DeleteView (view_id : Z)
| AddField (table_id : Z) (name ftype : string) (required : bool)
    (options : option (list (string * PyVal)))
| RenameField (field_id : Z) (new_name : string)
| DeactivateField (field_id : Z)
| ReorderFields (table_id : Z) (ordered_field_ids : list Z)
| RecordCall (o : RecordOp)
| ListRecords (table_id : Z) (query : string) (limit : Z)
    (filters : list (PyVal * PyVal)) (sort_field_id : option Z) (sort_dir : string)
| GetDisplayMap (table_id display_field_id : Z) (record_ids : list Z)
| ListRelationOptions (target_table_id display_field_id limit : Z)
| InitDb.

Section WithEngine.
Context `{B : Builtins} `{E : SqlEngine}.

Definition run_call (call : Call) : M Catalog unit :=
  match call with
  | CreateProject name color parent_id => create_project name color parent_id ;; ret tt
  | UpdateProject pid name color parent_id => lift (update_project pid name color parent_id)
  | DeleteProject limit pid => lift (delete_project limit pid)
  | CreateTable name pid => create_table name pid ;; ret tt
  | RenameTable tid name => lift (rename_table tid name)
  | SetTableProject tid pid => lift (set_table_project tid pid)
  | DeleteTable tid => delete_table tid
  | SaveTablePrefs tid prefs => save_table_prefs tid prefs
  | CreateView tid name view => create_view tid name view ;; ret tt
  | UpdateView vid name view => update_view vid name view
  | DeleteView vid => delete_view vid
  | AddField tid name ftype required options =>
      lift (add_field tid name ftype required options) ;; ret tt
  | RenameField fid name => lift (rename_field fid name)
  | DeactivateField fid => lift (deactivate_field fid)
  | ReorderFields tid ids => lift (reorder_fields tid ids)
  | RecordCall o => lift (record_op o)
  | ListRecords tid query limit filters sfid sdir =>
      lift (list_records tid query limit filters sfid sdir) ;; ret tt
  | GetDisplayMap tid dfid ids => lift (get_display_map tid dfid ids) ;; ret tt
  | ListRelationOptions tid dfid limit =>
      lift (list_relation_options tid dfid limit) ;; ret tt
  | InitDb => _init_db
  end.

(** The parent given to [create_project] is a project, as it is when it
    comes from the tree of the main window. *)
Definition call_ok (c : Catalog) (call : Call) : Prop :=
  match call with
  | CreateProject _ _ (Some q) => is_Some (meta_projects (world c) !! q)
  | _ => True
  end.

(** The databases that calls of the repository lead to, from a database
    that was just created; a call that raises leaves the database as it
    is at that point. *)
Inductive reachable (clock : nat → string) : Catalog → Prop :=
| reach_empty : reachable clock (empty_catalog clock)
| reach_call c call :
    reachable clock c → call_ok c call → reachable clock (snd (run_call call c)).

End WithEngine.

(** A project's parent, when it has one, has a smaller id. *)
Definition parents_first (projects : gmap Z ProjectRow) : Prop :=
  ∀ id p q, projects !! id = Some p → p_parent_id p = Some q → q < id.

(** Every field belongs to a table that exists and has its column
    [f_<id>] in the data table of that table, and no data table has a
    column of an id beyond the AUTOINCREMENT counter of [meta_fields]. *)
Definition fields_have_columns (w : World) : Prop :=
  (∀ fid f, meta_fields w !! fid = Some f →
     is_Some (meta_tables w !! f_table_id f)
     ∧ is_Some (cols_of w (f_table_id f) !! fid))
  ∧ (∀ t k, is_Some (cols_of w t !! k) → k ≤ meta_fields_seq w).

(** What most calls keep of the store: no project is created or moved
    under a parent, no table is deleted, no field is created or moved to
    another table, and the columns of the data tables and the counter of
    [meta_fields] stay. *)
Definition evolves (w w' : World) : Prop :=
  (∀ id p', meta_projects w' !! id = Some p' →
     ∃ p, meta_projects w !! id = Some p
          ∧ (p_parent_id p' = None ∨ p_parent_id p' = p_parent_id p))
  ∧ (∀ t, is_Some (meta_tables w !! t) → is_Some (meta_tables w' !! t))
  ∧ (∀ k f', meta_fields w' !! k = Some f' →
       ∃ f, meta_fields w !! k = Some f ∧ f_table_id f' = f_table_id f)
  ∧ meta_fields_seq w' = meta_fields_seq w
  ∧ (∀ t, cols_of w' t = cols_of w t).

(** The two invariants together. *)
Definition well_formed (w : World) : Prop :=
  parents_first (meta_projects w) ∧ fields_have_columns w.

(** The names on the way from the root of the hierarchy down to a
    project, the project's own name last; a project that does not exist
    has none. *)
Inductive lineage (projects : gmap Z ProjectRow) : option Z → list string → Prop :=
| lineage_top : lineage projects None []
| lineage_missing q : projects !! q = None → lineage projects (Some q) []
| lineage_step q p l :
    projects !! q = Some p → lineage projects (p_parent_id p) l →
    lineage projects (Some q) (l ++ [p_name p]).

(** A view has no position or its id as position: the code writes no
    other. *)
Definition views_keyed_by_id (c : Catalog) : Prop :=
  ∀ vid v, meta_views c !! vid = Some v →
           vw_position v = None ∨ vw_position v = Some vid.

End Notions.

(** ** Example databases *)

Module Scenario.
Import Py Store Repo App Spec Fixtures Examples Catalog Window Notions.
Local Open Scope list_scope.

(** "Tasks" with the fields "Title" (field 1) and "Due" (field 2). *)
Definition ex_tasks_due : World :=
  snd (add_field 1 "Due" "date" false None ex_tasks_title).

(** The view on "Tasks" after the record "buy milk" was added. *)
Definition ex_view_milk : TableView :=
  step ex_view (EvAdd (Some {[ 1 := PStr "buy milk" ]})).

(** A database built by calls of the repository: project "Work" with
    subproject "Q3", the table "Tasks" under the subproject with the field
    "Title", and the saved view "All". *)
Definition ex_db0 : Catalog := empty_catalog ex_clock.
Definition ex_db1 : Catalog := snd (run_call (CreateProject "Work" "" None) ex_db0).
Definition ex_db2 : Catalog := snd (run_call (CreateProject "Q3" "" (Some 1)) ex_db1).
Definition ex_db3 : Catalog := snd (run_call (CreateTable "Tasks" (Some 2)) ex_db2).
Definition ex_db4 : Catalog :=
  snd (run_call (AddField 1 "Title" "text" false None) ex_db3).
Definition ex_db : Catalog := snd (run_call (CreateView 1 "All" []) ex_db4).

(** A database with a project that is its own parent: [create_project]
    on the empty database, given as parent the id 1 that the new project
    is about to get, and then the table "Tasks" under that project. *)
Definition ex_loop : Catalog :=
  snd (create_table "Tasks" (Some 1)
         (snd (create_project "Loop" "" (Some 1) ex_db0))).

End Scenario.

(** * Properties *)

Import Py Store Repo App Spec.
Local Open Scope m_scope.
Local Open Scope list_scope.

(** Unfolding of the monad's operations, for symbolic runs. *)
Ltac munfold :=
  unfold of_sum, bind, ret, raise, get, put, modify, try_except, try_finally in *.

(** ** The store and the monad *)

Lemma set_data_id w : set_data (data w) w = w.
Proof. by destruct w. Qed.

Lemma ensure_data_table_spec tid w :
  ∃ t, _ensure_data_table tid w
       = (Ok tt, set_data (<[tid := t]> (data w)) w)
       ∧ data (snd (_ensure_data_table tid w)) !! tid = Some t
       ∧ (∀ t0, data w !! tid = Some t0 → t = t0)
       ∧ (data w !! tid = None → t = empty_data_table).
Proof.
  unfold _ensure_data_table. destruct (data w !! tid) as [t|] eqn:Ht.
  - exists t. rewrite insert_id by done. rewrite set_data_id.
    repeat split; try done. intros; congruence.
  - exists empty_data_table. simpl. rewrite lookup_insert_eq.
    repeat split; try done.
Qed.


(** The id AUTOINCREMENT picks is not in use. *)
Lemma max_rowid_ge {A} (rows : gmap Z A) k :
  is_Some (rows !! k) → k ≤ max_rowid rows.
Proof.
  unfold max_rowid. revert k.
  induction rows as [|i x m Hi Hfold IH] using map_first_key_ind; intros k [y Hk].
  - by rewrite lookup_empty in Hk.
  - rewrite map_fold_insert_first_key by done.
    destruct (decide (i = k)) as [->|Hne].
    + lia.
    + rewrite lookup_insert_ne in Hk by done.
      specialize (IH k (ex_intro _ y Hk)). lia.
Qed.

Lemma next_rowid_fresh {A} seq (rows : gmap Z A) :
  rows !! next_rowid seq rows = None.
Proof.
  destruct (rows !! next_rowid seq rows) eqn:Hk; [|done].
  assert (is_Some (rows !! next_rowid seq rows)) as Hs by eauto.
  apply max_rowid_ge in Hs. unfold next_rowid in Hs. lia.
Qed.

(** ** C9: adding a column twice *)

Lemma ddl_for_field_valid ftype w :
  str_in ftype FIELD_TYPES = true → ∃ ddl, _ddl_for_field ftype w = (Ok ddl, w).
Proof.
  unfold str_in, FIELD_TYPES, _ddl_for_field. simpl. intros H.
  repeat match goal with
         | |- context [if String.eqb ftype ?s then _ else _] =>
             destruct (String.eqb ftype s); [eexists; reflexivity|]
         end.
  simpl in H. discriminate.
Qed.




(** ** C5: reordering fields *)

Lemma same_field_refl f : same_field f f.
Proof. by repeat split. Qed.

Lemma same_field_trans f g h : same_field f g → same_field g h → same_field f h.
Proof. unfold same_field. intros; intuition congruence. Qed.

Lemma sql_set_position_other i ts fid tid fields k :
  k ≠ fid → sql_set_position i ts fid tid fields !! k = fields !! k.
Proof.
  intros Hne. unfold sql_set_position.
  destruct (fields !! fid) as [f|]; [|done].
  destruct (f_table_id f =? tid); [|done].
  by rewrite lookup_insert_ne.
Qed.

Lemma sql_set_position_foreign i ts fid tid fields k f :
  fields !! k = Some f → f_table_id f ≠ tid →
  sql_set_position i ts fid tid fields !! k = Some f.
Proof.
  intros Hk Hne. destruct (decide (k = fid)) as [->|Hkf].
  - unfold sql_set_position. rewrite Hk.
    destruct (Z.eqb_spec (f_table_id f) tid); [done|]. done.
  - by rewrite sql_set_position_other.
Qed.

Lemma sql_set_position_same i ts fid tid fields k f :
  fields !! k = Some f →
  ∃ f', sql_set_position i ts fid tid fields !! k = Some f' ∧ same_field f f'.
Proof.
  intros Hk. destruct (decide (k = fid)) as [->|Hkf].
  - unfold sql_set_position. rewrite Hk.
    destruct (f_table_id f =? tid).
    + rewrite lookup_insert_eq. eexists; split; [done|]. by repeat split.
    + eauto using same_field_refl.
  - rewrite sql_set_position_other by done. eauto using same_field_refl.
Qed.

Lemma sql_set_position_none i ts fid tid fields k :
  fields !! k = None → sql_set_position i ts fid tid fields !! k = None.
Proof.
  intros Hk. destruct (decide (k = fid)) as [->|Hkf].
  - unfold sql_set_position. by rewrite Hk.
  - by rewrite sql_set_position_other.
Qed.

Lemma sql_set_position_hit i ts fid tid fields f :
  fields !! fid = Some f → f_table_id f = tid →
  ∃ f', sql_set_position i ts fid tid fields !! fid = Some f'
        ∧ f_position f' = Some i ∧ f_updated_at f' = ts.
Proof.
  intros Hk Ht. unfold sql_set_position. rewrite Hk.
  rewrite (proj2 (Z.eqb_eq _ _) Ht). rewrite lookup_insert_eq. eauto.
Qed.

Lemma reorder_loop_spec tid ids : ∀ start w,
  let w' := snd (reorder_loop tid start ids w) in
  fst (reorder_loop tid start ids w) = Ok tt
  ∧ same_outside_fields w w'
  ∧ (∀ k, meta_fields w !! k = None → meta_fields w' !! k = None)
  ∧ (∀ k f, meta_fields w !! k = Some f →
            ∃ f', meta_fields w' !! k = Some f' ∧ same_field f f')
  ∧ (∀ k f, meta_fields w !! k = Some f → f_table_id f ≠ tid →
            meta_fields w' !! k = Some f)
  ∧ (∀ k, k ∉ ids → meta_fields w' !! k = meta_fields w !! k)
  ∧ (∀ (i : nat) k f, ids !! i = Some k → k ∉ drop (S i) ids →
       meta_fields w !! k = Some f → f_table_id f = tid →
       ∃ f', meta_fields w' !! k = Some f'
             ∧ f_position f' = Some (start + Z.of_nat i)).
Proof.
  induction ids as [|fid ids IH]; intros start w; simpl.
  - repeat split; eauto using same_field_refl. intros i k f Hi. done.
  - unfold reorder_loop in *. simpl. munfold. simpl.
    set (w1 := set_meta_fields _ _ _).
    specialize (IH (start + 1) w1). simpl in IH.
    destruct (for_each _ _ w1) as [r w'] eqn:Hrun. simpl in *.
    destruct IH as (Hok & Hout & Hnone & Hsame & Hforeign & Hnotin & Hrank).
    subst r. split; [done|].
    split; [destruct Hout as (?&?&?&?); by repeat split|].
    split.
    { intros k Hk. apply Hnone. subst w1. simpl. by apply sql_set_position_none. }
    split.
    { intros k f Hk.
      destruct (sql_set_position_same start (clock w (ticks w)) fid tid _ k f Hk)
        as (f1 & Hf1 & Hs1).
      destruct (Hsame k f1) as (f' & Hf' & Hs'); [subst w1; done|].
      eauto using same_field_trans. }
    split.
    { intros k f Hk Hne. apply Hforeign; [|done]. subst w1. simpl.
      by apply sql_set_position_foreign. }
    split.
    { intros k Hk. apply not_elem_of_cons in Hk as [Hne Hk].
      rewrite Hnotin by done. subst w1. simpl. by apply sql_set_position_other. }
    intros i k f Hi Hlast Hk Ht.
    destruct i as [|i]; simpl in Hi, Hlast.
    + injection Hi as ->.
      destruct (sql_set_position_hit start (clock w (ticks w)) k tid _ f Hk Ht)
        as (f1 & Hf1 & Hp1 & _).
      rewrite Hnotin by done. subst w1. simpl. exists f1. split; [done|].
      rewrite Hp1. f_equal. lia.
    + destruct (sql_set_position_same start (clock w (ticks w)) fid tid _ k f Hk)
        as (f1 & Hf1 & Hs1).
      destruct (Hrank i k f1 Hi Hlast) as (f' & Hf' & Hp'); [done| |].
      { destruct Hs1 as [Ht1 _]. congruence. }
      exists f'. split; [done|]. rewrite Hp'. f_equal. lia.
Qed.

Lemma reorder_fields_loop tid ordered w :
  reorder_fields tid ordered w = reorder_loop tid 1 (filter (λ x, 0 < x) ordered) w.
Proof.
  unfold reorder_fields, reorder_loop.
  destruct (filter _ ordered); done.
Qed.

(** C5, as the code has it.  [reorder_fields(table_id, ordered_field_ids)]
    returns without an exception and touches nothing but [meta_fields].
    The entries that are not positive are dropped first; a field of the
    table that is listed gets as [position] the 1-based rank, among the
    entries that are left, of its last occurrence; when every entry is
    positive and none is repeated this is its 1-based rank in
    [ordered_field_ids].  A listed id that belongs to another table, or
    to no field at all, is skipped: every row of [meta_fields] whose
    [table_id] differs is left exactly as it was, so the positions of
    the fields of any other table are unchanged; so is every field that
    is not listed, and no row is created. *)
Theorem C5_reorder_fields_rank_and_frame :
  ∀ (w : World) (table_id : Z) (ordered_field_ids : list Z),
    let ids := filter (λ x, 0 < x) ordered_field_ids in
    let w' := snd (reorder_fields table_id ordered_field_ids w) in
    fst (reorder_fields table_id ordered_field_ids w) = Ok tt
    ∧ same_outside_fields w w'
    ∧ (∀ (i : nat) fid f,
         ids !! i = Some fid → fid ∉ drop (S i) ids →
         meta_fields w !! fid = Some f → f_table_id f = table_id →
         ∃ f', meta_fields w' !! fid = Some f'
               ∧ f_position f' = Some (Z.of_nat i + 1) ∧ same_field f f')
    ∧ (Forall (λ x, 0 < x) ordered_field_ids → NoDup ordered_field_ids →
       ∀ (i : nat) fid f,
         ordered_field_ids !! i = Some fid →
         meta_fields w !! fid = Some f → f_table_id f = table_id →
         ∃ f', meta_fields w' !! fid = Some f'
               ∧ f_position f' = Some (Z.of_nat i + 1) ∧ same_field f f')
    ∧ (∀ fid f, meta_fields w !! fid = Some f → f_table_id f ≠ table_id →
                meta_fields w' !! fid = Some f)
    ∧ (∀ fid, fid ∉ ids → meta_fields w' !! fid = meta_fields w !! fid)
    ∧ (∀ fid, meta_fields w !! fid = None → meta_fields w' !! fid = None).
Proof.
  intros w tid ordered. simpl. rewrite reorder_fields_loop.
  destruct (reorder_loop_spec tid (filter (λ x, 0 < x) ordered) 1 w)
    as (Hok & Hout & Hnone & Hsame & Hforeign & Hnotin & Hrank).
  assert (∀ (i : nat) fid f,
            filter (λ x, 0 < x) ordered !! i = Some fid →
            fid ∉ drop (S i) (filter (λ x, 0 < x) ordered) →
            meta_fields w !! fid = Some f → f_table_id f = tid →
            ∃ f', meta_fields (snd (reorder_loop tid 1 (filter (λ x, 0 < x) ordered) w))
                    !! fid = Some f'
                  ∧ f_position f' = Some (Z.of_nat i + 1) ∧ same_field f f') as Hgen.
  { intros i fid f Hi Hlast Hf Ht.
    destruct (Hrank i fid f Hi Hlast Hf Ht) as (f' & Hf' & Hp').
    destruct (Hsame fid f Hf) as (f'' & Hf'' & Hs).
    exists f'. split; [done|]. split; [rewrite Hp'; f_equal; lia|]. congruence. }
  split; [done|]. split; [done|]. split; [done|].
  split; [|split; [done|split; done]].
  intros Hpos Hnd i fid f Hi Hf Ht.
  assert (filter (λ x, 0 < x) ordered = ordered) as Hfil.
  { clear -Hpos. induction Hpos as [|x l Hx _ IH]; [done|].
    rewrite filter_cons_True by done. by rewrite IH. }
  rewrite Hfil in *. apply Hgen; try done.
  intros Hin. apply list_elem_of_lookup in Hin as [j Hj].
  rewrite lookup_drop in Hj.
  pose proof (proj1 (NoDup_alt ordered) Hnd i (S i + j)%nat fid Hi Hj). lia.
Qed.

(** ** C6 and C7: the statement [list_records] builds *)

Section Queries.
Context `{B : Builtins} `{E : SqlEngine}.

Lemma list_fields_live tid w : list_fields tid true w = (Ok (live_fields w tid), w).
Proof. done. Qed.

Lemma elem_of_live_fields w tid fid f :
  (fid, f) ∈ live_fields w tid
  ↔ meta_fields w !! fid = Some f ∧ f_table_id f = tid ∧ f_active f = 1.
Proof.
  unfold live_fields, list_fields. munfold. simpl.
  rewrite merge_sort_Permutation, list_elem_of_filter, elem_of_map_to_list. simpl.
  split.
  - intros [[Ht Ha] Hf]. auto.
  - intros (Hf & Ht & Ha). auto.
Qed.

Lemma fields_by_id_live w tid fid :
  fields_by_id (live_fields w tid) fid = live_field w tid fid.
Proof.
  unfold fields_by_id, live_field.
  destruct (find _ _) as [[k f]|] eqn:Hfind; simpl.
  - apply find_some in Hfind as [Hin Hk]. simpl in Hk.
    apply Z.eqb_eq in Hk as ->.
    apply list_elem_of_In, elem_of_reverse, elem_of_live_fields in Hin
      as (-> & Ht & Ha).
    by rewrite bool_decide_eq_true_2.
  - destruct (meta_fields w !! fid) as [f|] eqn:Hf; [|done].
    case_bool_decide as Hlive; [|done].
    exfalso. assert ((fid, f) ∈ live_fields w tid) as Hin.
    { apply elem_of_live_fields. destruct Hlive. auto. }
    apply elem_of_reverse_2, list_elem_of_In in Hin.
    apply (find_none _ _ Hfind) in Hin. simpl in Hin. lia.
Qed.

Lemma filter_entry_unknown w tid e :
  known_entry w tid e = false → filter_entry (live_fields w tid) e = inr [].
Proof.
  unfold known_entry, filter_entry. destruct (py_int e.1) as [|fid]; [done|].
  rewrite fields_by_id_live. intros H.
  destruct (live_field w tid fid); [|done].
  rewrite bool_decide_eq_true_2 in H by eauto. done.
Qed.

Lemma filter_clauses_known w tid filters :
  filter_clauses (live_fields w tid) filters
  = filter_clauses (live_fields w tid) (filter (λ e, known_entry w tid e = true) filters).
Proof.
  induction filters as [|e filters IH]; [done|].
  destruct (known_entry w tid e) eqn:Hk.
  - rewrite filter_cons_True by (simpl; assumption). simpl. by rewrite IH.
  - rewrite filter_cons_False by (simpl; congruence). simpl.
    rewrite (filter_entry_unknown _ _ _ Hk). rewrite <-IH.
    by destruct (filter_clauses _ filters).
Qed.

Lemma where_holds_app cs cs' row :
  where_holds (cs ++ cs') row = where_holds cs row && where_holds cs' row.
Proof. unfold where_holds. apply forallb_app. Qed.

Lemma forallb_cond_holds_atoms rid r cs :
  forallb is_atom cs = true →
  forallb (cond_holds rid r) cs = forallb (atom_holds rid r) cs.
Proof.
  induction cs as [|c cs IH]; [done|]. simpl.
  intros [Hc Hcs]%andb_true_iff. rewrite (IH Hcs). by destruct c.
Qed.

Lemma existsb_cond_holds_atoms rid r cs :
  forallb is_atom cs = true →
  existsb (cond_holds rid r) cs = existsb (atom_holds rid r) cs.
Proof.
  induction cs as [|c cs IH]; [done|]. simpl.
  intros [Hc Hcs]%andb_true_iff. rewrite (IH Hcs). by destruct c.
Qed.

Lemma search_terms_atoms q like f : forallb is_atom (search_terms q like f) = true.
Proof.
  unfold search_terms. cbv zeta.
  repeat match goal with
         | |- context [if ?b then _ else _] => destruct b
         | |- context [match ?o with Some _ => _ | None => _ end] => destruct o
         end; done.
Qed.

Lemma filter_terms_atoms fid f fval cs :
  filter_terms fid f fval = inr cs → forallb is_atom cs = true.
Proof.
  unfold filter_terms. cbv zeta.
  repeat (match goal with
          | |- context [if ?b then _ else _] =>
              lazymatch type of b with bool => destruct b end
          | |- context [match ?o with inl _ => _ | inr _ => _ end] =>
              lazymatch o with
              | py_float _ => destruct o
              | py_int _ => destruct o
              end
          end; cbv beta iota);
    intros [= <-]; done.
Qed.

Lemma filter_entry_atoms fields e cs :
  filter_entry fields e = inr cs → forallb is_atom cs = true.
Proof.
  unfold filter_entry. destruct (py_int e.1) as [|fid]; [by intros [= <-]|].
  destruct (fields_by_id fields fid) as [f|]; [|by intros [= <-]].
  destruct e.2; try (by intros [= <-]). apply filter_terms_atoms.
Qed.

(** The free-text clause holds of a row exactly when the engine finds the
    text in the row. *)
Lemma search_clause_holds query fields row :
  where_holds (search_clause query fields) row = search_satisfied query fields row.
Proof.
  unfold search_clause, search_satisfied. cbv zeta.
  destruct (String.eqb (str_strip query) ""); [done|].
  unfold where_holds. cbn [forallb cond_holds orb]. rewrite andb_true_r.
  apply existsb_cond_holds_atoms. cbn [forallb is_atom andb].
  induction fields as [|f fields IH]; [done|].
  rewrite fmap_cons. cbn [concat]. by rewrite forallb_app, search_terms_atoms, IH.
Qed.

(** The filter clauses hold of a row exactly when the row passes every
    entry. *)
Lemma filter_clauses_holds fields filters cs row :
  filter_clauses fields filters = inr cs →
  where_holds cs row = forallb (entry_satisfied fields row) filters.
Proof.
  revert cs. induction filters as [|e filters IH]; intros cs; simpl.
  - by intros [= <-].
  - unfold entry_satisfied at 1.
    destruct (filter_entry fields e) as [|ce] eqn:He; [done|].
    destruct (filter_clauses fields filters) as [|cs']; [done|].
    intros [= <-]. rewrite where_holds_app, (IH cs' eq_refl).
    unfold where_holds at 1.
    by rewrite (forallb_cond_holds_atoms _ _ _ (filter_entry_atoms _ _ _ He)).
Qed.

Lemma elem_of_sql_limit {A} n (l : list A) x : x ∈ sql_limit n l → x ∈ l.
Proof.
  unfold sql_limit. destruct (n <? 0); [done|].
  intros Hx. by apply (subseteq_take (Z.to_nat n) l).
Qed.

Lemma live_fields_ensure tid tid' w :
  live_fields (snd (_ensure_data_table tid' w)) tid = live_fields w tid.
Proof. unfold _ensure_data_table. by destruct (data w !! tid'). Qed.

Lemma live_field_ensure tid tid' fid w :
  live_field (snd (_ensure_data_table tid' w)) tid fid = live_field w tid fid.
Proof. unfold _ensure_data_table. by destruct (data w !! tid'). Qed.

(** [list_records] is: provision the table, build the statement from the
    live fields, run it. *)
Lemma list_records_unfold tid query limit filters sfid sdir w :
  list_records tid query limit filters sfid sdir w
  = (_ensure_data_table tid ;;
     s <- of_sum (list_records_sql tid (live_fields w tid) query limit filters sfid sdir) ;;
     exec_select s) w.
Proof.
  unfold list_records. munfold.
  destruct (_ensure_data_table tid w) as [[[]|e] w1] eqn:He; [|done].
  pose proof (live_fields_ensure tid tid w) as Hl. rewrite He in Hl. simpl in Hl.
  rewrite list_fields_live. by rewrite Hl.
Qed.

(** When no filter value raises, [list_records] runs the statement it
    builds on the provisioned table, and what it returns are the rows of
    that table that satisfy the WHERE clause, sorted by the ORDER BY and
    cut at the limit. *)
Lemma list_records_run tid query limit filters sfid sdir cs w :
  filter_clauses (live_fields w tid) filters = inr cs →
  ∃ s, list_records_sql tid (live_fields w tid) query limit filters sfid sdir = inr s
       ∧ sel_where s = (search_clause query (live_fields w tid) ++ cs)%list
       ∧ sel_order s = [(order_col (live_fields w tid) sfid, normalize_sort_dir sdir);
                        (c_id, "DESC")]
       ∧ list_records tid query limit filters sfid sdir w
         = exec_select s (snd (_ensure_data_table tid w))
       ∧ (∀ rows w',
            list_records tid query limit filters sfid sdir w = (Ok rows, w') →
            ∃ t, data w' !! tid = Some t
                 ∧ rows = sql_limit limit
                            (merge_sort (order_le (sel_order s))
                               (filter (λ row, where_holds (sel_where s) row = true)
                                       (map_to_list (dt_rows t))))).
Proof.
  intros Hcs. unfold list_records_sql. rewrite Hcs. eexists. split; [reflexivity|].
  cbn [sel_order sel_where]. split; [done|]. split; [done|].
  assert (list_records tid query limit filters sfid sdir w
          = exec_select
              {| sel_table := tid;
                 sel_where := (search_clause query (live_fields w tid) ++ cs)%list;
                 sel_order := [(order_col (live_fields w tid) sfid, normalize_sort_dir sdir);
                               (c_id, "DESC")];
                 sel_limit := limit |}
              (snd (_ensure_data_table tid w))) as Hrun.
  { rewrite list_records_unfold. unfold list_records_sql. rewrite Hcs. munfold.
    by destruct (ensure_data_table_spec tid w) as (t & -> & _). }
  split; [exact Hrun|].
  intros rows w' Hok. rewrite Hrun in Hok.
  destruct (ensure_data_table_spec tid w) as (t & _ & Ht & _).
  set (w1 := snd (_ensure_data_table tid w)) in *.
  unfold exec_select, with_table in Hok. cbn [sel_table sel_where sel_order sel_limit] in Hok.
  rewrite Ht in Hok.
  destruct (negb _) in Hok; [done|].
  destruct (negb _) in Hok; [done|].
  destruct (gives_up _ _) in Hok; [done|].
  injection Hok as <- <-. exists t. simpl. by rewrite lookup_insert_eq.
Qed.

(** C6. In every query request the structured filters are conjoined,
    and entries for unknown fields are ignored.  An entry whose key is
    not the id of a live field of the table (the field does not exist,
    belongs to another table or is deactivated, or the key is no integer)
    contributes nothing and raises nothing: the request with those
    entries removed has the same outcome, the same rows and leaves the
    same store.  Whenever [list_records] returns, the rows it returns are
    the rows of the table that pass the free-text search and pass every
    filter entry, sorted and cut at the limit: each returned row is a row
    of the table for which the engine finds every comparison of every
    entry true, and, when there is no limit, every such row of the table
    is returned. *)
Theorem C6_filters_conjoined_unknown_ignored :
  ∀ (w : World) (table_id : Z) (query : string) (limit : Z)
    (filters : list (PyVal * PyVal)) (sort_field_id : option Z) (sort_dir : string),
    let fields := live_fields w table_id in
    list_records table_id query limit filters sort_field_id sort_dir w
    = list_records table_id query limit
        (filter (λ e, known_entry w table_id e = true) filters)
        sort_field_id sort_dir w
    ∧ (∀ e, known_entry w table_id e = false → filter_entry fields e = inr [])
    ∧ (∀ rows w',
         list_records table_id query limit filters sort_field_id sort_dir w
         = (Ok rows, w') →
         ∃ s t,
           list_records_sql table_id fields query limit filters
             sort_field_id sort_dir = inr s
           ∧ data w' !! table_id = Some t
           ∧ rows = sql_limit limit
                      (merge_sort (order_le (sel_order s))
                         (filter (λ row,
                                    search_satisfied query fields row
                                    && forallb (entry_satisfied fields row) filters
                                    = true)
                                 (map_to_list (dt_rows t))))
           ∧ (∀ row, row ∈ rows →
                dt_rows t !! row.1 = Some row.2
                ∧ search_satisfied query fields row = true
                ∧ ∀ e, e ∈ filters → entry_satisfied fields row e = true)
           ∧ (limit < 0 → ∀ row,
                dt_rows t !! row.1 = Some row.2 →
                search_satisfied query fields row = true →
                (∀ e, e ∈ filters → entry_satisfied fields row e = true) →
                row ∈ rows)).
Proof.
  intros w tid query limit filters sfid sdir fields. split; [|split].
  - rewrite !list_records_unfold. unfold list_records_sql.
    by rewrite <-filter_clauses_known.
  - apply filter_entry_unknown.
  - intros rows w' Hok.
    destruct (filter_clauses fields filters) as [e|cs] eqn:Hcs.
    { exfalso. rewrite list_records_unfold in Hok. unfold list_records_sql in Hok.
      fold fields in Hok. rewrite Hcs in Hok. revert Hok. munfold.
      by destruct (_ensure_data_table tid w) as [[[]|?] ?]. }
    destruct (list_records_run tid query limit filters sfid sdir cs w Hcs)
      as (s & Hs & Hwhere & _ & _ & Hrows).
    assert (∀ row, where_holds (sel_where s) row
                   = search_satisfied query fields row
                     && forallb (entry_satisfied fields row) filters) as Hand.
    { intros row. rewrite Hwhere, where_holds_app, search_clause_holds.
      by rewrite (filter_clauses_holds _ _ _ row Hcs). }
    destruct (Hrows rows w' Hok) as (t & Ht & Heq).
    assert (rows = sql_limit limit
                     (merge_sort (order_le (sel_order s))
                        (filter (λ row,
                                   search_satisfied query fields row
                                   && forallb (entry_satisfied fields row) filters
                                   = true)
                                (map_to_list (dt_rows t))))) as Heq'.
    { rewrite Heq. do 2 f_equal. apply list_filter_iff. intros row. by rewrite Hand. }
    exists s, t. split; [exact Hs|]. split; [exact Ht|]. split; [exact Heq'|]. split.
    + intros row Hin. rewrite Heq' in Hin.
      apply elem_of_sql_limit in Hin. rewrite merge_sort_Permutation in Hin.
      apply list_elem_of_filter in Hin as [Hp Hin].
      apply andb_true_iff in Hp as [Hq Hf].
      split. { destruct row. by apply elem_of_map_to_list. }
      split; [exact Hq|]. intros e He.
      rewrite forallb_forall in Hf. apply Hf. by apply list_elem_of_In.
    + intros Hlim row Hrow Hq Hf. rewrite Heq'.
      unfold sql_limit. rewrite (proj2 (Z.ltb_lt limit 0) Hlim).
      rewrite merge_sort_Permutation. apply list_elem_of_filter. split.
      * rewrite Hq. simpl. apply forallb_forall. intros e He.
        apply Hf. by apply list_elem_of_In.
      * destruct row. by apply elem_of_map_to_list.
Qed.

(** C7, as the code has it.  Whenever no filter value makes the request
    raise, [list_records] builds a statement and runs it on the
    provisioned table.  The statement orders by the physical column
    [f_<sort_field_id>] when [sort_field_id] names a live field of the
    table and by [id] otherwise; the direction is upper-cased before it
    is checked, so it is ASC when the given direction reads ASC in any
    letter case and DESC for everything else, an empty direction
    included; the tiebreak [id DESC] always follows.  The rows the call
    returns are the rows of the table that satisfy the WHERE clause,
    sorted by that ORDER BY and cut at the limit. *)
Theorem C7_order_by :
  ∀ (w : World) (table_id : Z) (query : string) (limit : Z)
    (filters : list (PyVal * PyVal)) (sort_field_id : option Z) (sort_dir : string)
    (cs : list Cond),
    filter_clauses (live_fields w table_id) filters = inr cs →
    let order :=
      [ (match sort_field_id with
         | Some k => match live_field w table_id k with
                     | Some _ => c_f k
                     | None => c_id
                     end
         | None => c_id
         end,
         if String.eqb (str_upper (if String.eqb sort_dir "" then "DESC" else sort_dir))
                       "ASC"
         then "ASC" else "DESC");
        (c_id, "DESC") ] in
    ∃ s, list_records_sql table_id (live_fields w table_id) query limit filters
           sort_field_id sort_dir = inr s
         ∧ sel_order s = order
         ∧ list_records table_id query limit filters sort_field_id sort_dir w
           = exec_select s (snd (_ensure_data_table table_id w))
         ∧ (∀ rows w',
              list_records table_id query limit filters sort_field_id sort_dir w
              = (Ok rows, w') →
              ∃ t, data w' !! table_id = Some t
                   ∧ rows = sql_limit limit
                              (merge_sort (order_le order)
                                 (filter (λ row, where_holds (sel_where s) row = true)
                                         (map_to_list (dt_rows t))))).
Proof.
  intros w tid query limit filters sfid sdir cs Hcs order.
  destruct (list_records_run tid query limit filters sfid sdir cs w Hcs)
    as (s & Hs & _ & Horder & Hrun & Hrows).
  assert (sel_order s = order) as Heq.
  { rewrite Horder. unfold order. f_equal. f_equal.
    - unfold order_col. destruct sfid as [k|]; [|done].
      by rewrite fields_by_id_live.
    - unfold normalize_sort_dir, str_in. simpl.
      set (d := str_upper _).
      destruct (String.eqb_spec d "ASC") as [->|Hne]; [done|]. simpl.
      by destruct (String.eqb_spec d "DESC") as [->|]. }
  exists s. split; [exact Hs|]. split; [exact Heq|]. split; [exact Hrun|].
  intros rows w' Hok. destruct (Hrows rows w' Hok) as (t & Ht & ->).
  exists t. split; [exact Ht|]. by rewrite Heq.
Qed.

End Queries.







(** ** C2 and C3: adding a field *)

Section Fields.
Context `{B : Builtins}.

Lemma relation_target_bad_spec options w :
  relation_target_bad options w
  = (Ok (negb match dict_get options "target_table_id" PNone with
              | PInt z => 0 <? z
              | PBool b => b
              | _ => false
              end), w).
Proof.
  unfold relation_target_bad, py_or. munfold.
  destruct (dict_get options "target_table_id" PNone) as [|[]|z| | | |]; simpl; try done.
  destruct (Z.eqb_spec z 0) as [->|Hz]; simpl; [done|].
  by rewrite Z.leb_antisym.
Qed.

Lemma options_or_empty_spec options :
  match options with Some ((_ :: _) as d) => d | _ => [] end = options_or_empty options.
Proof. by destruct options as [[|]|]. Qed.

Lemma meta_fields_ensure_data_table tid w :
  meta_fields (snd (_ensure_data_table tid w)) = meta_fields w.
Proof. unfold _ensure_data_table. by destruct (data w !! tid). Qed.

Lemma meta_fields_ensure_column tid col ddl w :
  meta_fields (snd (_ensure_column tid col ddl w)) = meta_fields w.
Proof.
  unfold _ensure_column, _table_columns, sql_add_column. munfold.
  destruct (data w !! tid) as [t|] eqn:Ht; simpl.
  - destruct col as [| | |k]; simpl; try done.
    case_bool_decide; simpl; [done|]. rewrite Ht.
    by destruct (dt_columns t !! k).
  - destruct col; simpl; by rewrite ?Ht.
Qed.

Lemma ensure_column_field_ok tid k ddl w t :
  data w !! tid = Some t → fst (_ensure_column tid (c_f k) ddl w) = Ok tt.
Proof.
  intros Ht. unfold _ensure_column, _table_columns, sql_add_column. munfold.
  rewrite Ht. simpl. case_bool_decide as Hk; simpl; [done|].
  rewrite Ht. destruct (dt_columns t !! k) eqn:Hc; [|done].
  exfalso. apply Hk. eauto.
Qed.

(** A call that fails a check raises [ValueError] and leaves the store as
    it was. *)
Lemma add_field_invalid tid name ftype required options w :
  add_field_valid name ftype (options_or_empty options) = false →
  add_field tid name ftype required options w = (Raise ValueError, w).
Proof.
  unfold add_field_valid, add_field. rewrite options_or_empty_spec.
  set (opts := options_or_empty options). cbv zeta.
  destruct (String.eqb (str_strip name) ""); cbn [negb andb]; [reflexivity|].
  destruct (str_in ftype FIELD_TYPES); cbn [negb andb]; [|reflexivity].
  munfold.
  destruct (String.eqb ftype "select"); cbn [negb andb].
  - destruct (select_options_ok opts); cbn [negb andb]; [|reflexivity].
    destruct (String.eqb ftype "relation"); [|done].
    rewrite relation_target_bad_spec. unfold relation_options_ok.
    destruct (match dict_get opts "target_table_id" PNone with
              | PInt z => 0 <? z | PBool b => b | _ => false end);
      cbn [negb andb]; [|reflexivity].
    destruct (dict_has opts "display_field_id"),
      (isinstance_int (dict_get opts "display_field_id" PNone)); done.
  - destruct (String.eqb ftype "relation"); [|done].
    rewrite relation_target_bad_spec. unfold relation_options_ok.
    destruct (match dict_get opts "target_table_id" PNone with
              | PInt z => 0 <? z | PBool b => b | _ => false end);
      cbn [negb andb]; [|reflexivity].
    destruct (dict_has opts "display_field_id"),
      (isinstance_int (dict_get opts "display_field_id" PNone)); done.
Qed.

(** A call that passes the checks reads the clock once and goes on to
    the INSERT. *)
Lemma add_field_valid_prefix tid name ftype required options w :
  add_field_valid name ftype (options_or_empty options) = true →
  add_field tid name ftype required options w
  = (field_id <- sql_insert_field
                   (new_field_row w tid name ftype required (options_or_empty options)) ;;
     _ensure_data_table tid ;;
     ddl <- _ddl_for_field ftype ;;
     _ensure_column tid (c_f field_id) ddl ;;
     ret field_id) (set_ticks (S (ticks w)) w).
Proof.
  unfold add_field_valid, add_field. rewrite options_or_empty_spec.
  set (opts := options_or_empty options). cbv zeta. intros Hv.
  destruct (String.eqb (str_strip name) ""); [done|].
  destruct (str_in ftype FIELD_TYPES) eqn:Hft; [|done].
  cbn [negb andb] in *.
  assert ((if String.eqb ftype "select"
           then if negb (select_options_ok opts) then raise ValueError else ret tt
           else ret tt) w = (Ok tt, w)) as Hsel.
  { destruct (String.eqb ftype "select"); [|done].
    by destruct (select_options_ok opts). }
  assert ((if String.eqb ftype "relation"
           then bad <- relation_target_bad opts ;;
                if bad then raise ValueError
                else if dict_has opts "display_field_id"
                        && negb (isinstance_int (dict_get opts "display_field_id" PNone))
                then raise ValueError else ret tt
           else ret tt) w = (Ok tt, w)) as Hrel.
  { destruct (String.eqb ftype "relation").
    2:{ done. }
    unfold bind. rewrite relation_target_bad_spec.
    unfold relation_options_ok in Hv.
    destruct (String.eqb ftype "select"), (select_options_ok opts);
      cbn [andb] in Hv; try done;
      destruct (match dict_get opts "target_table_id" PNone with
                | PInt z => 0 <? z | PBool b => b | _ => false end);
      cbn [andb negb] in *; try done;
      destruct (dict_has opts "display_field_id"),
        (isinstance_int (dict_get opts "display_field_id" PNone)); done. }
  unfold bind at 1. rewrite Hsel. unfold bind at 1. rewrite Hrel.
  reflexivity.
Qed.

Lemma add_field_valid_run tid name ftype required options w :
  add_field_valid name ftype (options_or_empty options) = true →
  match meta_tables w !! tid with
  | None => add_field tid name ftype required options w
            = (Raise IntegrityError, set_ticks (S (ticks w)) w)
  | Some _ =>
      let fid := next_rowid (meta_fields_seq w) (meta_fields w) in
      ∃ w', add_field tid name ftype required options w = (Ok fid, w')
            ∧ meta_fields w'
              = <[fid := new_field_row w tid name ftype required (options_or_empty options)]>
                  (meta_fields w)
  end.
Proof.
  intros Hv. rewrite (add_field_valid_prefix _ _ _ _ _ _ Hv).
  assert (str_in ftype FIELD_TYPES = true) as Hft.
  { unfold add_field_valid in Hv. by destruct (str_in ftype FIELD_TYPES), (negb _). }
  set (row := new_field_row _ _ _ _ _ _).
  destruct (meta_tables w !! tid) as [trow|] eqn:Hmt.
  2:{ unfold bind, sql_insert_field.
      change (f_table_id row) with tid.
      change (meta_tables (set_ticks (S (ticks w)) w)) with (meta_tables w).
      by rewrite Hmt. }
  unfold bind at 1. unfold sql_insert_field at 1.
  change (f_table_id row) with tid.
  change (meta_tables (set_ticks (S (ticks w)) w)) with (meta_tables w).
  rewrite Hmt.
  cbn [meta_fields_seq meta_fields set_ticks].
  set (fid := next_rowid _ _).
  set (w1 := set_meta_fields _ _ _).
  unfold bind at 1.
  destruct (_ensure_data_table tid w1) as [[[]|e] w2] eqn:He.
  2:{ unfold _ensure_data_table in He. destruct (data w1 !! tid); done. }
  assert (meta_fields w2 = meta_fields w1) as Hmf2.
  { pose proof (meta_fields_ensure_data_table tid w1) as H. by rewrite He in H. }
  assert (∃ t, data w2 !! tid = Some t) as [t Ht].
  { unfold _ensure_data_table in He. destruct (data w1 !! tid) eqn:Hd.
    - injection He as <-. eauto.
    - injection He as <-. simpl. rewrite lookup_insert_eq. eauto. }
  unfold bind at 1. destruct (ddl_for_field_valid ftype w2 Hft) as [ddl ->].
  unfold bind at 1.
  pose proof (ensure_column_field_ok tid fid ddl w2 t Ht) as Hok.
  pose proof (meta_fields_ensure_column tid (c_f fid) ddl w2) as Hmf3.
  destruct (_ensure_column tid (c_f fid) ddl w2) as [r w3]. simpl in Hok, Hmf3.
  subst r. eexists. split; [reflexivity|].
  rewrite Hmf3, Hmf2. subst w1. simpl. done.
Qed.

(** C2, as the code has it.  [add_field] with [ftype = "relation"] raises
    [ValueError] unless [target_table_id] is an [int] greater than 0 and
    [display_field_id], when present, is an [int]; whether a table of
    that id exists is not looked at, so with a non-empty name and such
    options the call raises no [ValueError], whatever the catalog holds.
    Whenever [add_field] raises [ValueError], for any field type, the
    store is left exactly as it was. *)
Theorem C2_relation_options_validated :
  ∀ (w : World) (table_id : Z) (name : string) (required : bool)
    (options : option (list (string * PyVal))),
    (relation_options_ok (options_or_empty options) = false →
     add_field table_id name "relation" required options w = (Raise ValueError, w))
    ∧ (relation_options_ok (options_or_empty options) = true →
       String.eqb (str_strip name) "" = false →
       fst (add_field table_id name "relation" required options w) ≠ Raise ValueError)
    ∧ (∀ ftype w',
         add_field table_id name ftype required options w = (Raise ValueError, w') →
         w' = w).
Proof.
  intros w tid name required options. split; [|split].
  - intros Hbad. apply add_field_invalid. unfold add_field_valid.
    rewrite Hbad. by rewrite !andb_false_r.
  - intros Hok Hname.
    assert (add_field_valid name "relation" (options_or_empty options) = true) as Hv.
    { unfold add_field_valid. rewrite Hname, Hok. reflexivity. }
    pose proof (add_field_valid_run tid name "relation" required options w Hv) as Hrun.
    destruct (meta_tables w !! tid).
    + destruct Hrun as (w' & -> & _). done.
    + rewrite Hrun. done.
  - intros ftype w' Hrun.
    destruct (add_field_valid name ftype (options_or_empty options)) eqn:Hv.
    + pose proof (add_field_valid_run tid name ftype required options w Hv) as Hrun'.
      destruct (meta_tables w !! tid).
      * destruct Hrun' as (w'' & Heq & _). congruence.
      * congruence.
    + rewrite (add_field_invalid _ _ _ _ _ _ Hv) in Hrun. congruence.
Qed.

End Fields.

(** ** C4: relation labels *)

Section Labels.
Context `{B : Builtins} `{E : SqlEngine}.

Lemma get_relation_options_ok tid v :
  ∃ opts v', get_relation_options tid v = (Ok opts, v')
             ∧ (∀ cached, _relation_cache v !! tid = Some cached →
                          opts = cached ∧ v' = v).
Proof.
  unfold get_relation_options. munfold.
  destruct (_relation_cache v !! tid) as [cached|] eqn:Hc.
  - exists cached, v. split; [done|]. by intros ? [= <-].
  - destruct (on_repo (list_records tid "" 5000 [] None "ASC") v) as [[rows|e] v1].
    + destruct (on_repo (list_fields tid true) v1) as [[fs|e] v2];
        eexists _, _; (split; [reflexivity|done]).
    + eexists _, _; (split; [reflexivity|done]).
Qed.

Lemma find_label_Some n opts l : find_label n opts = Some l → (n, l) ∈ opts.
Proof.
  unfold find_label. destruct (find _ opts) as [[k l']|] eqn:Hf; [|done].
  intros [= <-]. apply find_some in Hf as [Hin Hk]. simpl in Hk.
  apply Z.eqb_eq in Hk as ->. by apply list_elem_of_In.
Qed.

Lemma find_label_None n opts : find_label n opts = None → ∀ l, (n, l) ∉ opts.
Proof.
  unfold find_label. destruct (find _ opts) as [[k l']|] eqn:Hf; [done|].
  intros _ l Hin. apply list_elem_of_In in Hin.
  apply (find_none _ _ Hf) in Hin. simpl in Hin. lia.
Qed.

Lemma get_display_map_id tid ids w :
  ∃ m, get_display_map tid 0 ids w = (Ok m, w)
       ∧ (∀ i, i ∈ ids → 0 < i → m !! i = Some (hash_label i))
       ∧ (∀ i, i ≤ 0 → m !! i = None).
Proof.
  unfold get_display_map.
  assert (∀ l : list Z, ∃ m : gmap Z string,
            m = list_to_map ((λ i, (i, hash_label i)) <$> l)
            ∧ (∀ i, i ∈ l → m !! i = Some (hash_label i))
            ∧ (∀ i, i ∉ l → m !! i = None)) as Hmap.
  { intros l. eexists. split; [done|]. split.
    - intros i Hi. induction l as [|x l IH]; [by apply elem_of_nil in Hi|].
      simpl. destruct (decide (x = i)) as [->|Hne].
      + by rewrite lookup_insert_eq.
      + rewrite lookup_insert_ne by done. apply IH.
        apply elem_of_cons in Hi as [->|]; done.
    - intros i Hi. apply not_elem_of_list_to_map_1.
      rewrite <-list_fmap_compose. simpl. by rewrite list_fmap_id. }
  destruct (Hmap (filter (λ x, 0 < x) ids)) as (m & -> & Hin & Hout).
  destruct (filter (λ x, 0 < x) ids) as [|x l] eqn:Hf.
  - exists ∅. split; [done|]. split.
    + intros i Hi Hpos. exfalso.
      assert (i ∈ filter (λ x, 0 < x) ids) as H' by (by apply list_elem_of_filter).
      rewrite Hf in H'. by apply elem_of_nil in H'.
    + intros. apply lookup_empty.
  - eexists. split; [reflexivity|]. split.
    + intros i Hi Hpos. apply Hin. rewrite <-Hf. by apply list_elem_of_filter.
    + intros i Hi. apply Hout. rewrite <-Hf. rewrite list_elem_of_filter. lia.
Qed.

(** The dictionaries of a view's fields have no key [options]. *)
Lemma rel_table_id_of_row (f : Z * FieldRow) : rel_table_id (field_dict f) = Some PNone.
Proof. reflexivity. Qed.

(** On a field of the view, [_relation_label] finds no target table: it
    returns the stringified id and leaves the cache alone. *)
Lemma relation_label_of_row v (f : Z * FieldRow) rid :
  _relation_label (field_dict f) rid v
  = (Ok (if is_blank rid then ""
         else match py_int rid with
              | inl _ => py_str rid
              | inr n => pretty n
              end), v).
Proof.
  unfold _relation_label, is_blank.
  destruct (is_none rid || eqb_str rid "" || eqb_int rid 0); [done|].
  by destruct (py_int rid).
Qed.

End Labels.

Section Options.
Context `{B : Builtins}.


End Options.

(** ** C10: the command history *)

Section History.
Context `{B : Builtins} `{E : SqlEngine}.

Lemma set_repo_repo v : set_repo (repo v) v = v.
Proof. by destruct v. Qed.

Lemma on_repo_run {A} (m : M World A) v :
  on_repo m v = (fst (m (repo v)), set_repo (snd (m (repo v))) v).
Proof. unfold on_repo. by destruct (m (repo v)). Qed.

Lemma with_table_same {A} tid (g : DataTable → Exn + A) w :
  snd (with_table tid (λ t, match g t with inl e => inl e | inr a => inr (a, t) end) w) = w.
Proof.
  unfold with_table. destruct (data w !! tid) as [t|] eqn:Ht; [|done].
  destruct (g t); [done|]. simpl. rewrite insert_id by done. by destruct w.
Qed.

(** A query leaves the store as it found it, but for the provisioning of
    the data table. *)
Lemma list_records_state tid query limit filters sfid sdir w :
  snd (list_records tid query limit filters sfid sdir w)
  = snd (_ensure_data_table tid w).
Proof.
  unfold list_records. munfold.
  destruct (_ensure_data_table tid w) as [[[]|e] w1]; [|done]. simpl.
  unfold list_fields. munfold.
  destruct (list_records_sql _ _ _ _ _ _ _) as [e|s]; [done|].
  unfold exec_select, with_table.
  destruct (data w1 !! sel_table s) as [t|] eqn:Ht; [|done].
  destruct (negb _); [done|]. destruct (negb _); [done|].
  destruct (gives_up _ _); [done|].
  simpl. rewrite insert_id by done. by destruct w1.
Qed.

Lemma refresh_state v :
  snd (refresh v) = set_repo (snd (_ensure_data_table (table_id v) (repo v))) v.
Proof.
  unfold refresh. munfold. rewrite on_repo_run, list_records_state.
  by destruct (fst (list_records _ _ _ _ _ _ _)).
Qed.

Lemma reload_state v :
  ∃ fs, snd (reload v)
        = set_repo (snd (_ensure_data_table (table_id v) (repo v))) (set_fields fs v).
Proof.
  unfold reload. munfold. rewrite on_repo_run. simpl.
  eexists. rewrite refresh_state. simpl. destruct v; reflexivity.
Qed.

(** [l[:i]] and [l[i]] when the index is in range. *)
Lemma py_slice_to_in_range {A} (l : list A) i :
  0 ≤ i → py_slice_to l i = take (Z.to_nat i) l.
Proof. intros Hi. unfold py_slice_to. by rewrite (proj2 (Z.ltb_ge i 0)). Qed.

Lemma py_index_in_range {A} (l : list A) i x :
  0 ≤ i → l !! Z.to_nat i = Some x → py_index l i = inr x.
Proof.
  intros Hi Hx. unfold py_index. cbv zeta.
  rewrite (proj2 (Z.ltb_ge i 0)) by done. cbv iota.
  rewrite (proj2 (Z.ltb_ge i 0)) by done. by rewrite Hx.
Qed.

(** [push_cmd] on a well-formed history: the entries beyond the cursor go,
    the command is appended, the cursor moves past it. *)
Lemma push_cmd_run label u r v :
  push_cmd label u r v
  = (Ok tt, if _in_undo_redo v then v
            else set_history
                   (py_slice_to (_undo v) (_undo_idx v)
                    ++ [{| cmd_label := label; cmd_undo := u; cmd_redo := r |}])
                   (_undo_idx v + 1) v).
Proof. unfold push_cmd. munfold. by destruct (_in_undo_redo v). Qed.

Lemma push_cmd_history_ok label u r v :
  history_ok v → history_ok (snd (push_cmd label u r v)).
Proof.
  intros [Hidx Hflag]. rewrite push_cmd_run, Hflag. simpl.
  split; [|done]. simpl. rewrite py_slice_to_in_range by lia.
  rewrite length_app, length_take. simpl. lia.
Qed.

(** The view [undo] leaves behind, when there is something to undo. *)
Lemma undo_run v :
  history_ok v → 0 < _undo_idx v →
  ∃ cmd, _undo v !! Z.to_nat (_undo_idx v - 1) = Some cmd
    ∧ let r := call (cmd_undo cmd) (repo v) in
      let v' := set_repo (snd r) (set_history (_undo v) (_undo_idx v - 1) v) in
      snd (undo v) = match fst r with
                     | Ok _ => snd (refresh v')
                     | Raise _ => v'
                     end.
Proof.
  intros [Hidx Hflag] Hpos.
  destruct (lookup_lt_is_Some_2 (_undo v) (Z.to_nat (_undo_idx v - 1))) as [cmd Hcmd];
    [lia|].
  exists cmd. split; [done|]. simpl.
  unfold undo. munfold. rewrite (proj2 (Z.leb_gt _ _)) by done. simpl.
  rewrite (py_index_in_range _ _ cmd) by (done || lia).
  rewrite on_repo_run. simpl.
  destruct v as [w tid fs srch flt sfid sdir l idx flag cache].
  simpl in *. subst flag.
  destruct (call (cmd_undo cmd) w) as [[[]|e] w']; reflexivity.
Qed.

(** The view [redo] leaves behind, when there is something to redo. *)
Lemma redo_run v :
  history_ok v → _undo_idx v < Z.of_nat (length (_undo v)) →
  ∃ cmd, _undo v !! Z.to_nat (_undo_idx v) = Some cmd
    ∧ let r := call (cmd_redo cmd) (repo v) in
      snd (redo v) = match fst r with
                     | Ok _ => snd (refresh (set_repo (snd r)
                                      (set_history (_undo v) (_undo_idx v + 1) v)))
                     | Raise _ => set_repo (snd r) v
                     end.
Proof.
  intros [Hidx Hflag] Hlt.
  destruct (lookup_lt_is_Some_2 (_undo v) (Z.to_nat (_undo_idx v))) as [cmd Hcmd];
    [lia|].
  exists cmd. split; [done|]. simpl.
  unfold redo. munfold. rewrite (proj2 (Z.leb_gt _ _)) by done. simpl.
  rewrite (py_index_in_range _ _ cmd) by (done || lia).
  rewrite on_repo_run. simpl.
  destruct v as [w tid fs srch flt sfid sdir l idx flag cache].
  simpl in *. subst flag.
  destruct (call (cmd_redo cmd) w) as [[[]|e] w']; reflexivity.
Qed.

Lemma history_ok_set_repo w v : history_ok (set_repo w v) ↔ history_ok v.
Proof. done. Qed.

Lemma history_ok_refresh v : history_ok v → history_ok (snd (refresh v)).
Proof. intros H. by rewrite refresh_state. Qed.

Lemma undo_history_ok v : history_ok v → history_ok (snd (undo v)).
Proof.
  intros Hok. destruct (Z_le_gt_dec (_undo_idx v) 0) as [Hle|Hgt].
  - unfold undo. munfold. rewrite (proj2 (Z.leb_le _ _)) by done. done.
  - destruct (undo_run v Hok) as (cmd & Hcmd & ->); [lia|].
    destruct Hok as [Hidx Hflag].
    assert (history_ok (set_repo (call (cmd_undo cmd) (repo v)).2
                          (set_history (_undo v) (_undo_idx v - 1) v))) as Hok'.
    { split; [simpl; lia|done]. }
    destruct (fst _); [by apply history_ok_refresh|done].
Qed.

Lemma redo_history_ok v : history_ok v → history_ok (snd (redo v)).
Proof.
  intros Hok. destruct (Z_le_gt_dec (Z.of_nat (length (_undo v))) (_undo_idx v)) as [Hle|Hgt].
  - unfold redo. munfold. rewrite (proj2 (Z.leb_le _ _)) by done. done.
  - destruct (redo_run v Hok) as (cmd & Hcmd & ->); [lia|].
    destruct Hok as [Hidx Hflag].
    destruct (fst _); [|done].
    apply history_ok_refresh. split; [simpl; lia|done].
Qed.

End History.

(** ** Record operations on the store *)

Lemma rows_of_ensure tid tid' w :
  rows_of (snd (_ensure_data_table tid' w)) tid = rows_of w tid.
Proof.
  unfold _ensure_data_table, rows_of.
  destruct (data w !! tid') eqn:Ht; [done|]. simpl.
  destruct (decide (tid' = tid)) as [->|Hne].
  - by rewrite lookup_insert_eq, Ht.
  - by rewrite lookup_insert_ne.
Qed.

Lemma cols_of_ensure tid tid' w :
  cols_of (snd (_ensure_data_table tid' w)) tid = cols_of w tid.
Proof.
  unfold _ensure_data_table, cols_of.
  destruct (data w !! tid') eqn:Ht; [done|]. simpl.
  destruct (decide (tid' = tid)) as [->|Hne].
  - by rewrite lookup_insert_eq, Ht.
  - by rewrite lookup_insert_ne.
Qed.

Lemma clock_ensure tid w :
  clock (snd (_ensure_data_table tid w)) = clock w
  ∧ ticks (snd (_ensure_data_table tid w)) = ticks w.
Proof. unfold _ensure_data_table. by destruct (data w !! tid). Qed.

Lemma ensure_ensure tid w :
  _ensure_data_table tid (snd (_ensure_data_table tid w))
  = (Ok tt, snd (_ensure_data_table tid w)).
Proof.
  unfold _ensure_data_table. destruct (data w !! tid) eqn:Ht; simpl.
  - by rewrite Ht.
  - by rewrite lookup_insert_eq.
Qed.

Lemma ensure_run tid w :
  _ensure_data_table tid w
  = (Ok tt, set_data (<[tid := table_of w tid]> (data w)) w).
Proof.
  unfold _ensure_data_table, table_of. destruct (data w !! tid) eqn:Ht; [|done].
  rewrite insert_id by done. by destruct w.
Qed.

Lemma with_table_ensured {A} tid (f : DataTable → Exn + (A * DataTable)) w :
  with_table tid f (set_data (<[tid := table_of w tid]> (data w)) w)
  = match f (table_of w tid) with
    | inl e => (Raise e, set_data (<[tid := table_of w tid]> (data w)) w)
    | inr (a, t') => (Ok a, set_data (<[tid := t']> (data w)) w)
    end.
Proof.
  unfold with_table. simpl. rewrite lookup_insert_eq.
  destruct (f _) as [e|[a t']]; [done|]. simpl. by rewrite insert_insert_eq.
Qed.

Lemma rows_of_set_data tid t w d :
  rows_of (set_data (<[tid := t]> d) w) tid = dt_rows t.
Proof. unfold rows_of. simpl. by rewrite lookup_insert_eq. Qed.

Lemma cols_of_set_data tid t w d :
  cols_of (set_data (<[tid := t]> d) w) tid = dt_columns t.
Proof. unfold cols_of. simpl. by rewrite lookup_insert_eq. Qed.

Lemma rows_of_table_of w tid : dt_rows (table_of w tid) = rows_of w tid.
Proof. unfold table_of, rows_of. by destruct (data w !! tid). Qed.

Lemma cols_of_table_of w tid : dt_columns (table_of w tid) = cols_of w tid.
Proof. unfold table_of, cols_of. by destruct (data w !! tid). Qed.

(** [get_record_by_id] reads the row and provisions the table. *)
Lemma get_record_by_id_run tid rid w :
  get_record_by_id tid rid w
  = (Ok (rows_of w tid !! rid), snd (_ensure_data_table tid w)).
Proof.
  unfold get_record_by_id. munfold. rewrite ensure_run. simpl.
  rewrite (with_table_ensured tid (λ t, inr (dt_rows t !! rid, t))).
  rewrite rows_of_table_of. done.
Qed.

(** [delete_record] removes the row and nothing else. *)
Lemma delete_record_run tid rid w :
  ∃ w', Repo.delete_record tid rid w = (Ok tt, w')
        ∧ rows_of w' tid = delete rid (rows_of w tid)
        ∧ cols_of w' tid = cols_of w tid
        ∧ clock w' = clock w ∧ ticks w' = ticks w.
Proof.
  unfold Repo.delete_record. munfold. rewrite ensure_run.
  rewrite with_table_ensured. simpl. eexists. split; [done|].
  rewrite rows_of_set_data, cols_of_set_data. simpl.
  by rewrite rows_of_table_of, cols_of_table_of.
Qed.

(** [add_record] reads the clock twice and inserts a row under a fresh
    id, when a rowid is left. *)
Lemma add_record_run tid values w :
  if rowids_used_up (dt_seq (table_of w tid)) (rows_of w tid)
  then fst (Repo.add_record tid values w) = Raise OperationalError
       ∧ rows_of (snd (Repo.add_record tid values w)) tid = rows_of w tid
  else
  match insert_cells false (cols_of w tid) values with
  | inl e => fst (Repo.add_record tid values w) = Raise e
             ∧ rows_of (snd (Repo.add_record tid values w)) tid = rows_of w tid
  | inr cells =>
      let rid := next_rowid (dt_seq (table_of w tid)) (rows_of w tid) in
      ∃ w', Repo.add_record tid values w = (Ok rid, w')
            ∧ rows_of w tid !! rid = None
            ∧ rows_of w' tid
              = <[rid := {| r_created_at := clock w (ticks w);
                            r_updated_at := clock w (S (ticks w));
                            r_cells := cells |}]> (rows_of w tid)
            ∧ cols_of w' tid = cols_of w tid
            ∧ clock w' = clock w ∧ ticks w' = S (S (ticks w))
  end.
Proof.
  unfold Repo.add_record. munfold. rewrite ensure_run. unfold now_iso. simpl.
  unfold with_table. simpl. rewrite lookup_insert_eq. unfold sql_insert.
  rewrite cols_of_table_of, rows_of_table_of.
  destruct (rowids_used_up _ _); simpl.
  { split; [done|]. unfold rows_of. simpl. by rewrite lookup_insert_eq, rows_of_table_of. }
  destruct (insert_cells false (cols_of w tid) values) as [e|cells]; simpl.
  - split; [done|]. unfold rows_of. simpl. by rewrite lookup_insert_eq, rows_of_table_of.
  - eexists. split; [done|]. split; [apply next_rowid_fresh|].
    rewrite rows_of_set_data, cols_of_set_data. simpl. done.
Qed.

Lemma or_now_run ts w :
  or_now ts w = (Ok (stamp ts w).1, set_ticks (stamp ts w).2 w).
Proof.
  unfold or_now, stamp. destruct ts as [s|]; [|done].
  destruct (String.eqb s ""); [done|]. unfold ret. by destruct w.
Qed.

(** [add_record_with_id] writes the row of that id anew. *)
Lemma add_record_with_id_run tid rid values created updated w :
  match insert_cells true (cols_of w tid) values with
  | inl e => fst (add_record_with_id tid rid values created updated w) = Raise e
             ∧ rows_of (snd (add_record_with_id tid rid values created updated w)) tid
               = rows_of w tid
  | inr cells =>
      let c := stamp created w in
      let u := stamp updated (set_ticks c.2 w) in
      ∃ w', add_record_with_id tid rid values created updated w = (Ok rid, w')
            ∧ rows_of w' tid
              = <[rid := {| r_created_at := c.1; r_updated_at := u.1;
                            r_cells := cells |}]> (rows_of w tid)
            ∧ cols_of w' tid = cols_of w tid
            ∧ clock w' = clock w ∧ ticks w' = u.2
  end.
Proof.
  unfold add_record_with_id. munfold. rewrite ensure_run.
  rewrite or_now_run. cbn [fst snd]. rewrite or_now_run. cbn [fst snd].
  unfold with_table. simpl. rewrite lookup_insert_eq. unfold sql_insert_or_replace.
  rewrite cols_of_table_of, rows_of_table_of.
  destruct (insert_cells true (cols_of w tid) values) as [e|cells]; simpl.
  - split; [done|]. unfold rows_of. simpl. by rewrite lookup_insert_eq, rows_of_table_of.
  - eexists. split; [done|].
    rewrite rows_of_set_data, cols_of_set_data. simpl.
    repeat split; by destruct created as [[]|], updated as [[]|].
Qed.

Section Handlers.
Context `{B : Builtins} `{E : SqlEngine}.

Lemma keeps_ret {A} (a : A) : keeps_history (ret a).
Proof. by intros v. Qed.

Lemma keeps_raise {A} e : keeps_history (@raise TableView A e).
Proof. by intros v. Qed.

Lemma keeps_get : keeps_history (@get TableView).
Proof. by intros v. Qed.

Lemma keeps_on_repo {A} (m : M World A) : keeps_history (on_repo m).
Proof. intros v Hv. by rewrite on_repo_run. Qed.

Lemma keeps_set_fields fs : keeps_history (modify (set_fields fs)).
Proof. by intros v. Qed.

Lemma keeps_bind {A C} (m : M TableView A) (k : A → M TableView C) :
  keeps_history m → (∀ a, keeps_history (k a)) → keeps_history (bind m k).
Proof.
  intros Hm Hk v Hv. unfold bind. specialize (Hm v Hv).
  destruct (m v) as [[a|e] v']; [by apply Hk|done].
Qed.

Lemma keeps_try_except {A} (m : M TableView A) (h : Exn → M TableView A) :
  keeps_history m → (∀ e, keeps_history (h e)) → keeps_history (try_except m h).
Proof.
  intros Hm Hh v Hv. unfold try_except. specialize (Hm v Hv).
  destruct (m v) as [[a|e] v']; [done|by apply Hh].
Qed.

Lemma keeps_push_cmd label u r : keeps_history (push_cmd label u r).
Proof. intros v. apply push_cmd_history_ok. Qed.

Lemma keeps_refresh : keeps_history refresh.
Proof. intros v. apply history_ok_refresh. Qed.

Lemma keeps_undo : keeps_history undo.
Proof. intros v. apply undo_history_ok. Qed.

Lemma keeps_redo : keeps_history redo.
Proof. intros v. apply redo_history_ok. Qed.

Create HintDb keeps discriminated.
Hint Resolve keeps_ret keeps_raise keeps_get keeps_on_repo keeps_set_fields
  keeps_push_cmd keeps_refresh keeps_undo keeps_redo : keeps.

Ltac keeps :=
  repeat first
    [ progress intros
    | solve [auto with keeps]
    | apply keeps_bind
    | apply keeps_try_except
    | match goal with
      | |- keeps_history (match ?x with _ => _ end) => destruct x
      | |- keeps_history (if ?x then _ else _) => destruct x
      end ].

Lemma keeps_handle e : keeps_history (handle e).
Proof.
  destruct e as [label u r| | |dialog|selected dialog|selected confirmed|]; simpl.
  - keeps.
  - keeps.
  - keeps.
  - unfold add_record. keeps.
  - unfold edit_record. keeps.
  - unfold delete_record. keeps.
  - unfold reload. keeps.
Qed.

Lemma history_ok_new_view w tid : history_ok (new_view w tid).
Proof. by split. Qed.

Lemma history_ok_run evs : ∀ v, history_ok v → history_ok (run evs v).
Proof.
  induction evs as [|e evs IH]; intros v Hv; [done|].
  simpl. apply IH. by apply keeps_handle.
Qed.

(** C10. Starting from the empty history of a freshly opened view, every
    sequence of recorded commands, undos and redos (and of the record
    handlers that record commands) keeps
    [0 <= cursor <= number of entries]; between two calls no undo or redo
    is in progress.  [undo] with the cursor at 0 and [redo] with the
    cursor at the number of entries return at once and leave the view as
    it is, and so does [push_cmd] while an undo or redo is in progress. *)
Theorem C10_history_invariant :
  ∀ (w : World) (table_id : Z) (evs : list Event),
    (let v := run evs (new_view w table_id) in
     0 ≤ _undo_idx v ≤ Z.of_nat (length (_undo v)) ∧ _in_undo_redo v = false)
    ∧ (∀ v, _undo_idx v = 0 → undo v = (Ok tt, v))
    ∧ (∀ v, _undo_idx v = Z.of_nat (length (_undo v)) → redo v = (Ok tt, v))
    ∧ (∀ v label undo_fn redo_fn,
         _in_undo_redo v = true → push_cmd label undo_fn redo_fn v = (Ok tt, v)).
Proof.
  intros w tid evs. split; [|split; [|split]].
  - apply history_ok_run, history_ok_new_view.
  - intros v Hv. unfold undo. munfold. by rewrite Hv.
  - intros v Hv. unfold redo. munfold. rewrite Hv, Z.leb_refl. done.
  - intros v label u r Hv. by rewrite push_cmd_run, Hv.
Qed.

End Handlers.

(** ** C1: undo and redo of record mutations *)

Lemma insert_cells_replace cols values cells :
  insert_cells false cols values = inr cells → insert_cells true cols values = inr cells.
Proof.
  unfold insert_cells. destruct (negb (bool_decide _)); [done|]. simpl.
  by destruct (negb (bool_decide _)).
Qed.

Lemma snapshot_lookup fs row k :
  snapshot fs row !! k
  = if decide (k ∈ fs.*1)
    then Some (match r_cells row !! k with Some x => x | None => PNone end)
    else None.
Proof.
  unfold snapshot. induction fs as [|f fs IH].
  - change (list_to_map _ !! k) with ((∅ : gmap Z PyVal) !! k).
    rewrite lookup_empty. case_decide as Hin; [|done].
    by apply elem_of_nil in Hin.
  - rewrite !fmap_cons, list_to_map_cons. cbn [fst snd].
    destruct (decide (f.1 = k)) as [<-|Hne].
    + rewrite lookup_insert_eq.
      by rewrite (decide_True (P := f.1 ∈ f.1 :: fs.*1)) by apply list_elem_of_here.
    + rewrite lookup_insert_ne by done. rewrite IH.
      destruct (decide (k ∈ fs.*1)) as [Hin|Hnin];
        destruct (decide (k ∈ f.1 :: fs.*1)) as [Hin'|Hnin']; try done.
      * exfalso. apply Hnin'. by apply list_elem_of_further.
      * exfalso. apply elem_of_cons in Hin' as [->|]; done.
Qed.

Lemma insert_cells_snapshot cols fs row :
  Forall (λ f, is_Some (cols !! f.1)) fs →
  ∃ cells, insert_cells true cols (snapshot fs row) = inr cells
    ∧ ∀ k, cells !! k
           = match cols !! k with
             | None => None
             | Some ddl =>
                 Some (if decide (k ∈ fs.*1)
                       then match r_cells row !! k with
                            | Some PNone | None => ddl_default ddl
                            | Some x => x
                            end
                       else ddl_default ddl)
             end.
Proof.
  intros Hfs. unfold insert_cells.
  rewrite bool_decide_eq_true_2.
  2:{ intros k x Hk. rewrite snapshot_lookup in Hk.
      destruct (decide (k ∈ fs.*1)) as [Hin|]; [|done].
      apply list_elem_of_fmap in Hin as (f & -> & Hf).
      by apply (proj1 (Forall_forall _ _) Hfs f). }
  simpl. eexists. split; [done|]. intros k.
  rewrite map_lookup_imap. destruct (cols !! k) as [ddl|]; [|done]. simpl.
  rewrite snapshot_lookup. destruct (decide (k ∈ fs.*1)); [|done].
  by destruct (r_cells row !! k) as [[]|].
Qed.

Section RoundTrip.
Context `{B : Builtins} `{E : SqlEngine}.

Lemma history_ok_pushed v cmd w : history_ok v → history_ok (pushed v cmd w).
Proof.
  intros [Hidx Hflag]. split; [|done]. simpl.
  rewrite py_slice_to_in_range by lia. rewrite length_app, length_take. simpl. lia.
Qed.

Lemma history_ok_undone v cmd w : history_ok v → history_ok (undone v cmd w).
Proof.
  intros [Hidx Hflag]. split; [|done]. simpl.
  rewrite py_slice_to_in_range by lia. rewrite length_app, length_take. simpl. lia.
Qed.

Lemma pushed_lookup v cmd :
  history_ok v →
  (py_slice_to (_undo v) (_undo_idx v) ++ [cmd]) !! Z.to_nat (_undo_idx v) = Some cmd.
Proof.
  intros [Hidx Hflag]. rewrite py_slice_to_in_range by lia.
  rewrite lookup_app_r by (rewrite length_take; lia).
  rewrite length_take. replace (_ - _)%nat with 0%nat by lia. done.
Qed.

(** After a handler recorded [cmd], [undo] calls its undo closure. *)
Lemma undo_pushed v cmd w :
  history_ok v →
  fst (call (cmd_undo cmd) w) = Ok tt →
  snd (undo (pushed v cmd w))
  = undone v cmd (refreshed (table_id v) (snd (call (cmd_undo cmd) w))).
Proof.
  intros Hv Hcall.
  destruct (undo_run (pushed v cmd w)) as (cmd' & Hcmd' & Hrun).
  { by apply history_ok_pushed. }
  { destruct Hv. simpl. lia. }
  simpl in Hcmd'. replace (_undo_idx v + 1 - 1) with (_undo_idx v) in Hcmd' by lia.
  rewrite pushed_lookup in Hcmd' by done. injection Hcmd' as <-.
  rewrite Hrun. simpl. rewrite Hcall. rewrite refresh_state. simpl.
  unfold undone, refreshed.
  replace (_undo_idx v + 1 - 1) with (_undo_idx v) by lia. reflexivity.
Qed.

(** And [redo] then calls its redo closure. *)
Lemma redo_undone v cmd w :
  history_ok v →
  fst (call (cmd_redo cmd) w) = Ok tt →
  snd (redo (undone v cmd w))
  = pushed v cmd (refreshed (table_id v) (snd (call (cmd_redo cmd) w))).
Proof.
  intros Hv Hcall.
  destruct (redo_run (undone v cmd w)) as (cmd' & Hcmd' & Hrun).
  { by apply history_ok_undone. }
  { destruct Hv as [Hidx _]. simpl. rewrite py_slice_to_in_range by lia.
    rewrite length_app, length_take. simpl. lia. }
  simpl in Hcmd'. rewrite pushed_lookup in Hcmd' by done. injection Hcmd' as <-.
  rewrite Hrun. simpl. rewrite Hcall. rewrite refresh_state. simpl. done.
Qed.

(** The view [add_record] leaves behind when the INSERT went through. *)
Lemma add_record_pushed v values rid w1 :
  history_ok v →
  Repo.add_record (table_id v) values (repo v) = (Ok rid, w1) →
  step v (EvAdd (Some values))
  = pushed v {| cmd_label := "Añadir registro";
                cmd_undo := FnDeleteRecord (table_id v) rid;
                cmd_redo := FnAddRecordWithId (table_id v) rid values None None |}
      (refreshed (table_id v) w1).
Proof.
  intros [Hidx Hflag] Hadd. unfold step. simpl. unfold add_record. munfold.
  rewrite on_repo_run, Hadd. simpl. rewrite push_cmd_run. simpl. rewrite Hflag.
  rewrite refresh_state. done.
Qed.

(** The view [delete_record] leaves behind when the row was there. *)
Lemma delete_record_pushed v rid row :
  history_ok v →
  rows_of (repo v) (table_id v) !! rid = Some row →
  step v (EvDelete (Some rid) true)
  = pushed v {| cmd_label := "Borrar registro";
                cmd_undo := FnAddRecordWithId (table_id v) rid (snapshot (fields v) row)
                              (Some (r_created_at row)) (Some (r_updated_at row));
                cmd_redo := FnDeleteRecord (table_id v) rid |}
      (refreshed (table_id v)
         (snd (Repo.delete_record (table_id v) rid
                 (refreshed (table_id v) (repo v))))).
Proof.
  intros [Hidx Hflag] Hrow. unfold step. simpl. unfold delete_record. munfold.
  rewrite on_repo_run, get_record_by_id_run, Hrow. simpl.
  rewrite on_repo_run. simpl.
  destruct (delete_record_run (table_id v) rid (refreshed (table_id v) (repo v)))
    as (w' & Hdel & _).
  unfold refreshed in *. rewrite Hdel. simpl.
  rewrite push_cmd_run. simpl. rewrite Hflag. rewrite refresh_state. done.
Qed.

End RoundTrip.

Section RoundTrip2.
Context `{B : Builtins} `{E : SqlEngine}.

Lemma rows_of_refreshed tid tid' w : rows_of (refreshed tid' w) tid = rows_of w tid.
Proof. apply rows_of_ensure. Qed.

Lemma cols_of_refreshed tid tid' w : cols_of (refreshed tid' w) tid = cols_of w tid.
Proof. apply cols_of_ensure. Qed.

Lemma clock_refreshed tid w :
  clock (refreshed tid w) = clock w ∧ ticks (refreshed tid w) = ticks w.
Proof. apply clock_ensure. Qed.

Lemma call_delete_run tid rid w :
  ∃ w', call (FnDeleteRecord tid rid) w = (Ok tt, w')
        ∧ rows_of w' tid = delete rid (rows_of w tid)
        ∧ cols_of w' tid = cols_of w tid
        ∧ clock w' = clock w ∧ ticks w' = ticks w.
Proof. apply delete_record_run. Qed.

Lemma call_add_with_id_run tid rid values created updated w cells :
  insert_cells true (cols_of w tid) values = inr cells →
  ∃ w', call (FnAddRecordWithId tid rid values created updated) w = (Ok tt, w')
        ∧ rows_of w' tid
          = <[rid := {| r_created_at := (stamp created w).1;
                        r_updated_at := (stamp updated (set_ticks (stamp created w).2 w)).1;
                        r_cells := cells |}]> (rows_of w tid).
Proof.
  intros Hcells.
  pose proof (add_record_with_id_run tid rid values created updated w) as Hrun.
  rewrite Hcells in Hrun. destruct Hrun as (w' & Hrun & Hrows & _).
  exists w'. split; [|done]. simpl. unfold bind. by rewrite Hrun.
Qed.

(** C1, as the code has it.  In any session on a table view: when
    [add_record] inserts a row, [undo] leaves the table with exactly the
    rows it had before (same count, no row of the new id), and [redo]
    puts back a row of the same id with the same field values, whose
    [created_at] and [updated_at] are read from the clock at the redo.
    When [delete_record] deletes a row (the fields of the view having
    their physical columns), [undo] puts a row of that id back with the
    original [created_at] and [updated_at], with the prior value of every
    field of the view, and with the default in the columns of fields the
    view does not list; [redo] removes it again. *)
Theorem C1_undo_redo_round_trip :
  ∀ (w0 : World) (tid0 : Z) (evs : list Event),
    let v := run evs (new_view w0 tid0) in
    let tid := table_id v in
    (∀ values rid w1,
       Repo.add_record tid values (repo v) = (Ok rid, w1) →
       let v1 := step v (EvAdd (Some values)) in
       let v2 := step v1 EvUndo in
       let v3 := step v2 EvRedo in
       ∃ row row',
         rows_of (repo v) tid !! rid = None
         ∧ rows_of (repo v1) tid = <[rid := row]> (rows_of (repo v) tid)
         ∧ rows_of (repo v2) tid = rows_of (repo v) tid
         ∧ size (rows_of (repo v2) tid) = size (rows_of (repo v) tid)
         ∧ rows_of (repo v3) tid = <[rid := row']> (rows_of (repo v) tid)
         ∧ r_cells row' = r_cells row
         ∧ r_created_at row' = clock (repo v2) (ticks (repo v2))
         ∧ r_updated_at row' = clock (repo v2) (S (ticks (repo v2))))
    ∧ (∀ rid row,
         rows_of (repo v) tid !! rid = Some row →
         Forall (λ f, is_Some (cols_of (repo v) tid !! f.1)) (fields v) →
         let v1 := step v (EvDelete (Some rid) true) in
         let v2 := step v1 EvUndo in
         let v3 := step v2 EvRedo in
         ∃ row',
           rows_of (repo v1) tid = delete rid (rows_of (repo v) tid)
           ∧ rows_of (repo v2) tid = <[rid := row']> (rows_of (repo v) tid)
           ∧ (r_created_at row ≠ "" → r_created_at row' = r_created_at row)
           ∧ (r_updated_at row ≠ "" → r_updated_at row' = r_updated_at row)
           ∧ (∀ k x, k ∈ (fields v).*1 → r_cells row !! k = Some x → x ≠ PNone →
                     r_cells row' !! k = Some x)
           ∧ (∀ k ddl, cols_of (repo v) tid !! k = Some ddl → k ∉ (fields v).*1 →
                       r_cells row' !! k = Some (ddl_default ddl))
           ∧ rows_of (repo v3) tid = delete rid (rows_of (repo v) tid)).
Proof.
  intros w0 tid0 evs v tid.
  assert (history_ok v) as Hv by apply history_ok_run, history_ok_new_view.
  clearbody v. subst tid. split.
  - intros values rid w1 Hadd v1 v2 v3.
    pose proof (add_record_run (table_id v) values (repo v)) as Hrun.
    destruct (rowids_used_up _ _).
    { destruct Hrun as [Hr _]. by rewrite Hadd in Hr. }
    destruct (insert_cells false _ values) as [e|cells] eqn:Hcells.
    { destruct Hrun as [Hr _]. by rewrite Hadd in Hr. }
    destruct Hrun as (w' & Hrun & Hfresh & Hrows & Hcols & Hclock & Hticks).
    rewrite Hadd in Hrun. injection Hrun as Hrid Hw. subst w'.
    cbv zeta in Hfresh, Hrows. rewrite <-Hrid in Hfresh, Hrows. clear Hrid.
    set (cmd := {| cmd_label := "Añadir registro";
                   cmd_undo := FnDeleteRecord (table_id v) rid;
                   cmd_redo := FnAddRecordWithId (table_id v) rid values None None |}).
    assert (v1 = pushed v cmd (refreshed (table_id v) w1)) as Hv1.
    { subst v1 cmd. by apply add_record_pushed. }
    destruct (call_delete_run (table_id v) rid (refreshed (table_id v) w1))
      as (w2 & Hdel & Hrows2 & Hcols2 & Hclock2 & Hticks2).
    assert (v2 = undone v cmd (refreshed (table_id v) w2)) as Hv2.
    { subst v2. rewrite Hv1. unfold step. simpl.
      change (call (FnDeleteRecord (table_id v) rid)) with (call (cmd_undo cmd)) in Hdel.
      rewrite undo_pushed by (done || by rewrite Hdel).
      by rewrite Hdel. }
    assert (rows_of (repo v2) (table_id v) = rows_of (repo v) (table_id v)) as Hback.
    { rewrite Hv2. simpl. rewrite rows_of_refreshed, Hrows2, rows_of_refreshed, Hrows.
      by apply delete_insert_id. }
    assert (cols_of (repo v2) (table_id v) = cols_of (repo v) (table_id v)) as Hcback.
    { rewrite Hv2. simpl. by rewrite cols_of_refreshed, Hcols2, cols_of_refreshed. }
    destruct (call_add_with_id_run (table_id v) rid values None None (repo v2) cells)
      as (w3 & Hredo & Hrows3).
    { rewrite Hcback. by apply insert_cells_replace. }
    assert (v3 = pushed v cmd (refreshed (table_id v) w3)) as Hv3.
    { subst v3. unfold step. simpl. rewrite Hv2 in *.
      change (call (FnAddRecordWithId (table_id v) rid values None None))
        with (call (cmd_redo cmd)) in Hredo.
      simpl repo in Hredo.
      rewrite redo_undone by (done || by rewrite Hredo).
      by rewrite Hredo. }
    eexists _, _. split; [done|].
    split. { rewrite Hv1. simpl. by rewrite rows_of_refreshed. }
    split; [done|]. split; [by rewrite Hback|].
    split. { rewrite Hv3. simpl. rewrite rows_of_refreshed, Hrows3, Hback. done. }
    done.
  - intros rid row Hrow Hfs v1 v2 v3.
    set (cmd := {| cmd_label := "Borrar registro";
                   cmd_undo := FnAddRecordWithId (table_id v) rid
                                 (snapshot (fields v) row)
                                 (Some (r_created_at row)) (Some (r_updated_at row));
                   cmd_redo := FnDeleteRecord (table_id v) rid |}).
    destruct (delete_record_run (table_id v) rid (refreshed (table_id v) (repo v)))
      as (w1 & Hdel & Hrows1 & Hcols1 & _).
    assert (v1 = pushed v cmd (refreshed (table_id v) w1)) as Hv1.
    { subst v1 cmd. rewrite (delete_record_pushed v rid row) by done.
      by rewrite Hdel. }
    rewrite rows_of_refreshed in Hrows1. rewrite cols_of_refreshed in Hcols1.
    destruct (insert_cells_snapshot (cols_of (repo v) (table_id v)) (fields v) row Hfs)
      as (cells & Hcells & Hlookup).
    destruct (call_add_with_id_run (table_id v) rid (snapshot (fields v) row)
                (Some (r_created_at row)) (Some (r_updated_at row))
                (refreshed (table_id v) w1) cells) as (w2 & Hundo & Hrows2).
    { by rewrite cols_of_refreshed, Hcols1. }
    assert (v2 = undone v cmd (refreshed (table_id v) w2)) as Hv2.
    { subst v2. rewrite Hv1. unfold step. simpl.
      change (call (FnAddRecordWithId (table_id v) rid (snapshot (fields v) row)
                      (Some (r_created_at row)) (Some (r_updated_at row))))
        with (call (cmd_undo cmd)) in Hundo.
      rewrite undo_pushed by (done || by rewrite Hundo).
      by rewrite Hundo. }
    destruct (call_delete_run (table_id v) rid (repo v2))
      as (w3 & Hredo & Hrows3 & _).
    assert (v3 = pushed v cmd (refreshed (table_id v) w3)) as Hv3.
    { subst v3. unfold step. simpl. rewrite Hv2 in *.
      change (call (FnDeleteRecord (table_id v) rid)) with (call (cmd_redo cmd)) in Hredo.
      simpl repo in Hredo.
      rewrite redo_undone by (done || by rewrite Hredo).
      by rewrite Hredo. }
    assert (rows_of (repo v2) (table_id v)
            = <[rid := {| r_created_at := (stamp (Some (r_created_at row))
                                             (refreshed (table_id v) w1)).1;
                          r_updated_at := (stamp (Some (r_updated_at row))
                                             (set_ticks
                                                (stamp (Some (r_created_at row))
                                                   (refreshed (table_id v) w1)).2
                                                (refreshed (table_id v) w1))).1;
                          r_cells := cells |}]> (rows_of (repo v) (table_id v)))
      as Hback.
    { rewrite Hv2. simpl. rewrite rows_of_refreshed, Hrows2, rows_of_refreshed, Hrows1.
      apply insert_delete_eq. }
    eexists. split. { rewrite Hv1. simpl. by rewrite rows_of_refreshed. }
    split; [exact Hback|]. simpl.
    split. { intros Hne. unfold stamp. by rewrite (proj2 (String.eqb_neq _ _) Hne). }
    split. { intros Hne. by rewrite (proj2 (String.eqb_neq _ _) Hne). }
    split.
    { intros k x Hk Hx Hnone. rewrite Hlookup.
      pose proof (proj1 (Forall_forall _ _) Hfs) as Hfs'.
      pose proof Hk as Hk'. apply list_elem_of_fmap in Hk' as (f & -> & Hf).
      destruct (Hfs' f Hf) as [ddl ->]. rewrite decide_True by done.
      rewrite Hx. by destruct x. }
    split.
    { intros k ddl Hk Hnin. rewrite Hlookup, Hk. by rewrite decide_False. }
    rewrite Hv3. simpl. rewrite rows_of_refreshed, Hrows3, Hback.
    apply delete_insert_eq.
Qed.

End RoundTrip2.

(** ** C8: deleting a project *)

Lemma in_subtree_trans m a b c :
  in_subtree m a b → in_subtree m b c → in_subtree m a c.
Proof. intros Hab Hbc. induction Hbc; [done|]. by eapply subtree_child. Qed.

Lemma in_subtree_cases m root q :
  in_subtree m root q → q = root ∨ ∃ c, child_of m root c ∧ in_subtree m c q.
Proof.
  induction 1 as [|p c Hp IH Hc]; [by left|]. right.
  destruct IH as [->|(c' & Hc' & Hsub)].
  - exists c. split; [done|]. constructor.
  - exists c'. split; [done|]. by eapply subtree_child.
Qed.

Lemma child_of_sub m' m p c : sub_forest m' m → child_of m' p c → child_of m p c.
Proof. intros Hsub (row & Hrow & Hp). exists row. split; [by apply Hsub|done]. Qed.

Lemma in_subtree_sub m' m root q :
  sub_forest m' m → in_subtree m' root q → in_subtree m root q.
Proof.
  intros Hsub. induction 1 as [|p c Hp IH Hc]; [constructor|].
  eapply subtree_child; [done|]. by eapply child_of_sub.
Qed.

Lemma depth_le_sub m' m n p : sub_forest m' m → depth_le m n p → depth_le m' n p.
Proof.
  intros Hsub Hd. induction Hd as [n p _ IH]. constructor.
  intros c Hc. apply IH. by eapply child_of_sub.
Qed.

(** Going down from [c] in [m], one stays in the sub-forest [m'] or meets
    a project that [m'] has lost. *)
Lemma in_subtree_split m' m c q :
  sub_forest m' m → in_subtree m c q →
  in_subtree m' c q
  ∨ ∃ a, in_subtree m c a ∧ in_subtree m a q ∧ is_Some (m !! a) ∧ m' !! a = None.
Proof.
  intros Hsub. induction 1 as [|p q Hp IH Hq]; [left; constructor|].
  destruct IH as [Hin|(a & Hca & Hap & Ha & Ha')].
  - destruct Hq as (row & Hrow & Hpar).
    destruct (m' !! q) as [row'|] eqn:Hq'.
    + left. eapply subtree_child; [done|]. exists row'. split; [done|].
      apply Hsub in Hq'. congruence.
    + right. exists q. split; [by eapply subtree_child; [|exists row]|].
      split; [constructor|]. split; [by eexists|done].
  - right. exists a. split; [done|]. split; [|done].
    by eapply subtree_child.
Qed.

Lemma elem_of_select_ids {A} (p : Z → A → bool) (m : gmap Z A) k :
  k ∈ select_ids p m ↔ ∃ x, m !! k = Some x ∧ p k x = true.
Proof.
  unfold select_ids. rewrite merge_sort_Permutation, list_elem_of_fmap. split.
  - intros ([k' x] & -> & Hin). apply list_elem_of_filter in Hin as [Hp Hin].
    apply elem_of_map_to_list in Hin. eauto.
  - intros (x & Hk & Hp). exists (k, x). split; [done|].
    apply list_elem_of_filter. split; [done|]. by apply elem_of_map_to_list.
Qed.

Lemma option_Z_eqb_spec o z : option_Z_eqb o z = true ↔ o = Some z.
Proof.
  destruct o as [y|]; simpl; [|done]. rewrite Z.eqb_eq. split; congruence.
Qed.

Lemma elem_of_children m pid c :
  c ∈ select_ids (λ _ p, option_Z_eqb (p_parent_id p) pid) m ↔ child_of m pid c.
Proof.
  rewrite elem_of_select_ids. unfold child_of.
  split; intros (row & Hrow & Hp); exists row; (split; [done|]);
    by apply option_Z_eqb_spec.
Qed.

Lemma tables_orphaned_refl (R : Z → Prop) t : tables_orphaned R t t.
Proof. split; [done|]. intros k row Hk. exists row. auto. Qed.

Lemma tables_orphaned_trans (R1 R2 R : Z → Prop) t0 t1 t2 :
  (∀ p, R1 p → R p) → (∀ p, R2 p → R p) →
  tables_orphaned R1 t1 t0 → tables_orphaned R2 t2 t1 → tables_orphaned R t2 t0.
Proof.
  intros H1 H2 [Hn1 Hr1] [Hn2 Hr2]. split; [auto|].
  intros k row Hk.
  destruct (Hr1 k row Hk) as (row1 & Hk1 & Hname1 & Hc1 & Hcase1).
  destruct (Hr2 k row1 Hk1) as (row2 & Hk2 & Hname2 & Hc2 & Hcase2).
  exists row2. split; [done|]. split; [congruence|]. split; [congruence|].
  destruct Hcase1 as [->|(Hnone1 & p & Hp & HR)].
  - destruct Hcase2 as [->|(Hnone2 & p & Hp & HR)]; [by left|].
    right. split; [done|]. eauto.
  - right. destruct Hcase2 as [->|(Hnone2 & _)]; eauto.
Qed.

Lemma tables_released_trans (R1 R2 R : Z → Prop) t0 t1 t2 :
  (∀ p, R p → R1 p ∨ R2 p) →
  tables_orphaned R1 t1 t0 → tables_released R1 t1 t0 →
  tables_orphaned R2 t2 t1 → tables_released R2 t2 t1 →
  tables_released R t2 t0.
Proof.
  intros HR [_ Hr1] Hrel1 [_ Hr2] Hrel2 k row p Hk Hp Hown.
  destruct (Hr1 k row Hk) as (row1 & Hk1 & _ & _ & Hcase1).
  destruct (Hr2 k row1 Hk1) as (row2 & Hk2 & _ & _ & Hcase2).
  assert (t_project_id row1 = None → ∃ row', t2 !! k = Some row' ∧ t_project_id row' = None)
    as Hkeep.
  { intros Hnone. exists row2. split; [done|].
    destruct Hcase2 as [->|[? _]]; done. }
  destruct (HR p Hown) as [HR1|HR2].
  - destruct (Hrel1 k row p Hk Hp HR1) as (row1' & Hk1' & Hnone).
    apply Hkeep. congruence.
  - destruct Hcase1 as [->|[Hnone _]]; [|by apply Hkeep].
    by apply (Hrel2 k row p).
Qed.

(** One more subtree deleted. *)
Lemma deleted_step (RA : Z → Prop) wb wi wj c :
  (∀ a q, RA a → in_subtree (meta_projects wb) a q → RA q) →
  deleted RA wb wi →
  deleted (in_subtree (meta_projects wi) c) wi wj →
  deleted (λ q, RA q ∨ in_subtree (meta_projects wb) c q) wb wj.
Proof.
  intros Hclosed A Bs.
  assert (∀ q, meta_projects wi !! q = None → meta_projects wj !! q = None) as Hmono.
  { intros q Hq. destruct (meta_projects wj !! q) as [row|] eqn:Hj; [|done].
    apply (del_sub _ _ _ Bs) in Hj. congruence. }
  assert (∀ q, in_subtree (meta_projects wb) c q →
               in_subtree (meta_projects wi) c q ∨ RA q) as Hsplit.
  { intros q Hq.
    destruct (in_subtree_split _ _ c q (del_sub _ _ _ A) Hq)
      as [Hin|(a & Hca & Haq & Ha & Ha')]; [by left|].
    right. eapply Hclosed; [|done]. by apply (del_only _ _ _ A). }
  split.
  - intros q row Hq. by apply (del_sub _ _ _ A), (del_sub _ _ _ Bs).
  - intros q [HRA|Hq].
    + by apply Hmono, (del_gone _ _ _ A).
    + destruct (Hsplit q Hq) as [Hin|HRA].
      * by apply (del_gone _ _ _ Bs).
      * by apply Hmono, (del_gone _ _ _ A).
  - intros q Hb Hj. destruct (meta_projects wi !! q) as [row|] eqn:Hi.
    + right. eapply in_subtree_sub; [apply (del_sub _ _ _ A)|].
      apply (del_only _ _ _ Bs); [by eexists|done].
    + left. by apply (del_only _ _ _ A).
  - eapply tables_orphaned_trans; [| |apply (del_tables _ _ _ A)|apply (del_tables _ _ _ Bs)].
    + by left.
    + intros p Hp. right. eapply in_subtree_sub; [apply (del_sub _ _ _ A)|done].
  - eapply (tables_released_trans RA (λ q, in_subtree (meta_projects wi) c q ∨ RA q)).
    + intros p [HRA|Hp]; [by left|]. right. by apply Hsplit.
    + apply (del_tables _ _ _ A).
    + apply (del_released _ _ _ A).
    + eapply tables_orphaned_trans;
        [| |apply tables_orphaned_refl|apply (del_tables _ _ _ Bs)]; [done|by left].
    + intros k row p Hk Hp [Hin|HRA].
      * by apply (del_released _ _ _ Bs k row p).
      * (* the table was released before, so it cannot own [p] any more *)
        destruct (del_tables _ _ _ Bs) as [_ Hr].
        destruct (Hr k row Hk) as (row' & Hk' & _ & _ & Hcase).
        exists row'. split; [done|].
        destruct Hcase as [->|[Hnone _]]; [|done].
        (* [row] is a row of [wi]: ask where it came from *)
        exfalso. clear Hr.
        destruct (del_tables _ _ _ A) as [Hn0 Hr0].
        destruct (meta_tables wb !! k) as [row0|] eqn:Hk0.
        2:{ rewrite (Hn0 k Hk0) in Hk. done. }
        destruct (del_released _ _ _ A k row0 p Hk0) as (r1 & Hr1 & Hnone1); [|done|].
        { destruct (Hr0 k row0 Hk0) as (r1 & Hr1 & _ & _ & Hcase0).
          rewrite Hk in Hr1. injection Hr1 as <-.
          destruct Hcase0 as [->|[Hnone _]]; congruence. }
        congruence.
  - by rewrite (del_fields _ _ _ Bs), (del_fields _ _ _ A).
  - by rewrite (del_data _ _ _ Bs), (del_data _ _ _ A).
Qed.

Lemma in_subtrees_closed m roots a q :
  in_subtrees m roots a → in_subtree m a q → in_subtrees m roots q.
Proof. intros (c & Hc & Ha) Hq. exists c. split; [done|]. by eapply in_subtree_trans. Qed.

Lemma deleted_ext (R R' : Z → Prop) wb wa :
  (∀ q, R q ↔ R' q) → deleted R wb wa → deleted R' wb wa.
Proof.
  intros Heq [Hsub Hgone Honly [Hn Hr] Hrel Hf Hd]. split; try done.
  - intros q Hq. by apply Hgone, Heq.
  - intros q Hb Ha. by apply Heq, Honly.
  - split; [done|]. intros k row Hk.
    destruct (Hr k row Hk) as (row' & Hk' & Hname & Hc & Hcase).
    exists row'. repeat split; try done.
    destruct Hcase as [->|(Hnone & p & Hp & HR)]; [by left|].
    right. split; [done|]. exists p. split; [done|]. by apply Heq.
  - intros k row p Hk Hp HR. apply (Hrel k row p Hk Hp). by apply Heq.
Qed.

Lemma deleted_nothing wb : deleted (in_subtrees (meta_projects wb) []) wb wb.
Proof.
  split.
  - by intros q row.
  - intros q (c & Hc & _). by apply elem_of_nil in Hc.
  - intros q [row Hrow] Hnone. congruence.
  - apply tables_orphaned_refl.
  - intros k row p _ _ (c & Hc & _). by apply elem_of_nil in Hc.
  - done.
  - done.
Qed.

(** The loop over the subprojects, given that the recursive call does
    its job one level down. *)
Lemma delete_children_spec (n : nat) :
  (∀ w c, depth_le (meta_projects w) n c →
          ∃ w', delete_project n c w = (Ok tt, w')
                ∧ deleted (in_subtree (meta_projects w) c) w w') →
  ∀ wb cs done wi,
    (∀ c, c ∈ cs → depth_le (meta_projects wb) n c) →
    deleted (in_subtrees (meta_projects wb) done) wb wi →
    ∃ wk, for_each cs (λ cid, delete_project n cid) wi = (Ok tt, wk)
          ∧ deleted (in_subtrees (meta_projects wb) (done ++ cs)) wb wk.
Proof.
  intros IH wb cs. induction cs as [|c cs IHcs]; intros done wi Hdepth Hinv.
  - exists wi. split; [done|]. by rewrite app_nil_r.
  - simpl. munfold.
    destruct (IH wi c) as (wj & Hrun & Hstep).
    { eapply depth_le_sub; [apply (del_sub _ _ _ Hinv)|].
      apply Hdepth. apply list_elem_of_here. }
    rewrite Hrun.
    destruct (IHcs (done ++ [c]) wj) as (wk & Hloop & Hfinal).
    { intros c' Hc'. apply Hdepth. by apply list_elem_of_further. }
    { eapply deleted_ext; [|eapply deleted_step; [|exact Hinv|exact Hstep]].
      - intros q. unfold in_subtrees. split.
        + intros [(c' & Hc' & Hq)|Hq].
          * exists c'. split; [|done]. apply elem_of_app. by left.
          * exists c. split; [|done]. apply elem_of_app. right. apply list_elem_of_here.
        + intros (c' & Hc' & Hq). apply elem_of_app in Hc' as [Hc'|Hc'].
          * left. by exists c'.
          * apply list_elem_of_singleton in Hc' as ->. by right.
      - intros a q. apply in_subtrees_closed. }
    exists wk. split; [done|]. by rewrite <-app_assoc in Hfinal.
Qed.

Lemma orphan_tables_spec ts pid tables :
  tables_orphaned (λ p, p = pid) (sql_orphan_tables ts pid tables) tables
  ∧ tables_released (λ p, p = pid) (sql_orphan_tables ts pid tables) tables.
Proof.
  unfold sql_orphan_tables. split; [split|].
  - intros k Hk. by rewrite lookup_fmap, Hk.
  - intros k row Hk. rewrite lookup_fmap, Hk. simpl. eexists. split; [done|].
    destruct (option_Z_eqb (t_project_id row) pid) eqn:Hp; simpl.
    + repeat split. right. split; [done|]. exists pid.
      split; [by apply option_Z_eqb_spec|done].
    + repeat split. by left.
  - intros k row p Hk Hp ->. rewrite lookup_fmap, Hk. simpl. eexists. split; [done|].
    by rewrite (proj2 (option_Z_eqb_spec _ _) Hp).
Qed.

Lemma fk_tables_spec pid tables :
  tables_orphaned (λ p, p = pid) (fk_tables_set_null pid tables) tables
  ∧ tables_released (λ p, p = pid) (fk_tables_set_null pid tables) tables.
Proof.
  unfold fk_tables_set_null. split; [split|].
  - intros k Hk. by rewrite lookup_fmap, Hk.
  - intros k row Hk. rewrite lookup_fmap, Hk. simpl. eexists. split; [done|].
    destruct (option_Z_eqb (t_project_id row) pid) eqn:Hp; simpl.
    + repeat split. right. split; [done|]. exists pid.
      split; [by apply option_Z_eqb_spec|done].
    + repeat split. by left.
  - intros k row p Hk Hp ->. rewrite lookup_fmap, Hk. simpl. eexists. split; [done|].
    by rewrite (proj2 (option_Z_eqb_spec _ _) Hp).
Qed.

Lemma fk_projects_no_children pid (m : gmap Z ProjectRow) :
  (∀ q row, m !! q = Some row → p_parent_id row ≠ Some pid) →
  fk_projects_set_null pid m = m.
Proof.
  intros Hno. apply map_eq. intros q. unfold fk_projects_set_null.
  rewrite lookup_fmap. destruct (m !! q) as [row|] eqn:Hq; [|done]. simpl.
  destruct (option_Z_eqb (p_parent_id row) pid) eqn:Hp; [|done].
  apply option_Z_eqb_spec in Hp. by apply Hno in Hq.
Qed.

Lemma delete_project_unfold n pid w :
  delete_project (S n) pid w
  = (for_each (select_ids (λ _ p, option_Z_eqb (p_parent_id p) pid) (meta_projects w))
       (λ cid, delete_project n cid) ;;
     release_and_delete pid) w.
Proof. done. Qed.

Lemma release_and_delete_spec pid wk :
  (∀ q row, meta_projects wk !! q = Some row → p_parent_id row ≠ Some pid) →
  ∃ w', release_and_delete pid wk = (Ok tt, w')
        ∧ meta_projects w' = delete pid (meta_projects wk)
        ∧ tables_orphaned (λ p, p = pid) (meta_tables w') (meta_tables wk)
        ∧ tables_released (λ p, p = pid) (meta_tables w') (meta_tables wk)
        ∧ meta_fields w' = meta_fields wk ∧ data w' = data wk.
Proof.
  intros Hno. unfold release_and_delete, now_iso, sql_delete_project. munfold. simpl.
  set (ts := clock wk (ticks wk)).
  destruct (orphan_tables_spec ts pid (meta_tables wk)) as [Ho Hr].
  destruct (meta_projects wk !! pid) as [row|] eqn:Hpid.
  - eexists. split; [done|]. simpl.
    split.
    { apply fk_projects_no_children. intros q r Hq.
      apply lookup_delete_Some in Hq as [_ Hq]. by eapply Hno. }
    destruct (fk_tables_spec pid (sql_orphan_tables ts pid (meta_tables wk))) as [Ho2 Hr2].
    split; [|split; [|done]].
    + eapply tables_orphaned_trans; [| |exact Ho|exact Ho2]; done.
    + eapply tables_released_trans; [|exact Ho|exact Hr|exact Ho2|exact Hr2]. auto.
  - eexists. split; [done|]. simpl.
    split; [by rewrite delete_id|]. done.
Qed.

(** With the recursion within its limit, [delete_project] returns and
    has deleted the subtree of the project. *)
Lemma delete_project_spec n :
  ∀ w pid, depth_le (meta_projects w) n pid →
    ∃ w', delete_project n pid w = (Ok tt, w')
          ∧ deleted (in_subtree (meta_projects w) pid) w w'.
Proof.
  induction n as [|n IH]; intros w pid Hdepth; [inversion Hdepth|].
  inversion Hdepth as [n' p' Hchildren]; subst n' p'.
  rewrite delete_project_unfold. unfold bind.
  set (children := select_ids _ _).
  destruct (delete_children_spec n IH w children [] w) as (wk & Hloop & Hinv).
  { intros c Hc. apply Hchildren. by apply elem_of_children. }
  { apply deleted_nothing. }
  rewrite Hloop. simpl in Hinv.
  assert (∀ q, in_subtree (meta_projects w) pid q
               ↔ q = pid ∨ in_subtrees (meta_projects w) children q) as Hsub.
  { intros q. split.
    - intros Hq. apply in_subtree_cases in Hq as [->|(c & Hc & Hq)]; [by left|].
      right. exists c. split; [by apply elem_of_children|done].
    - intros [->|(c & Hc & Hq)]; [constructor|].
      eapply in_subtree_trans; [|done].
      eapply subtree_child; [constructor|]. by apply elem_of_children. }
  destruct (release_and_delete_spec pid wk) as (w' & Hrun & Hproj & Ho & Hr & Hf & Hd).
  { intros q row Hq Hpar.
    assert (child_of (meta_projects w) pid q) as Hc.
    { exists row. split; [by apply (del_sub _ _ _ Hinv)|done]. }
    rewrite (del_gone _ _ _ Hinv q) in Hq; [done|].
    exists q. split; [by apply elem_of_children|constructor]. }
  rewrite Hrun. exists w'. split; [done|]. split.
  - intros q row Hq. rewrite Hproj in Hq.
    apply lookup_delete_Some in Hq as [_ Hq]. by apply (del_sub _ _ _ Hinv).
  - intros q Hq. rewrite Hproj. apply Hsub in Hq as [->|Hq].
    + apply lookup_delete_eq.
    + apply lookup_delete_None. right. by apply (del_gone _ _ _ Hinv).
  - intros q Hb Ha. apply Hsub. rewrite Hproj in Ha.
    apply lookup_delete_None in Ha as [->|Ha]; [by left|].
    right. by apply (del_only _ _ _ Hinv).
  - eapply tables_orphaned_trans; [| |apply (del_tables _ _ _ Hinv)|exact Ho].
    + intros p Hp. apply Hsub. by right.
    + intros p ->. constructor.
  - eapply tables_released_trans;
      [|apply (del_tables _ _ _ Hinv)|apply (del_released _ _ _ Hinv)|exact Ho|exact Hr].
    intros p Hp. apply Hsub in Hp as [->|Hp]; auto.
  - by rewrite Hf, (del_fields _ _ _ Hinv).
  - by rewrite Hd, (del_data _ _ _ Hinv).
Qed.

Lemma same_table_ids_refl w : same_table_ids w w.
Proof. by intros t. Qed.

Lemma same_table_ids_trans w1 w2 w3 :
  same_table_ids w1 w2 → same_table_ids w2 w3 → same_table_ids w1 w3.
Proof. intros H12 H23 t. etrans; [apply H23|apply H12]. Qed.

Lemma for_each_same_table_ids {A} (f : A → M World unit) cs :
  (∀ c w, same_table_ids w (snd (f c w))) →
  ∀ w, same_table_ids w (snd (for_each cs f w)).
Proof.
  intros Hf. induction cs as [|c cs IH]; intros w; [apply same_table_ids_refl|].
  simpl. unfold bind. specialize (Hf c w).
  destruct (f c w) as [[[]|e] w1]; [|done].
  eapply same_table_ids_trans; [exact Hf|apply IH].
Qed.

Lemma release_and_delete_same_table_ids pid w :
  same_table_ids w (snd (release_and_delete pid w)).
Proof.
  unfold release_and_delete, now_iso, sql_delete_project. munfold. simpl.
  intros t. destruct (meta_projects w !! pid); simpl;
    unfold fk_tables_set_null, sql_orphan_tables; rewrite !lookup_fmap;
    by rewrite ?fmap_is_Some.
Qed.

Lemma delete_project_same_table_ids n :
  ∀ pid w, same_table_ids w (snd (delete_project n pid w)).
Proof.
  induction n as [|n IH]; intros pid w; [apply same_table_ids_refl|].
  rewrite delete_project_unfold. unfold bind.
  pose proof (for_each_same_table_ids (λ cid, delete_project n cid)
                (select_ids (λ _ p, option_Z_eqb (p_parent_id p) pid) (meta_projects w))
                (λ c w, IH c w) w) as Hloop.
  destruct (for_each _ _ w) as [[[]|e] wk]; [|done].
  eapply same_table_ids_trans; [exact Hloop|apply release_and_delete_same_table_ids].
Qed.

Lemma self_parent_kept_refl p w : self_parent_kept p w w.
Proof. by intros _. Qed.

Lemma self_parent_kept_trans p w1 w2 w3 :
  self_parent_kept p w1 w2 → self_parent_kept p w2 w3 → self_parent_kept p w1 w3.
Proof.
  intros H12 H23 Hself. destruct (H12 Hself) as [Hp Ht].
  assert (self_parent w2 p) as Hself2.
  { destruct Hself as (row & Hrow & Hpar). exists row. by rewrite Hp. }
  destruct (H23 Hself2) as [Hp' Ht'].
  split; [by rewrite Hp'|]. intros t row Hrow Hown. apply Ht'; [|done]. by apply Ht.
Qed.

Lemma self_parent_kept_self p w w' :
  self_parent_kept p w w' → self_parent w p → self_parent w' p.
Proof.
  intros Hk Hself. destruct (Hk Hself) as [Hp _].
  destruct Hself as (row & Hrow & Hpar). exists row. by rewrite Hp.
Qed.

(** Deleting another project leaves a self-parented one and its tables
    alone. *)
Lemma release_and_delete_kept p c w :
  c ≠ p →
  fst (release_and_delete c w) = Ok tt
  ∧ self_parent_kept p w (snd (release_and_delete c w)).
Proof.
  intros Hne. unfold release_and_delete, now_iso, sql_delete_project. munfold. simpl.
  split; [done|]. intros (row & Hrow & Hpar).
  assert (option_Z_eqb (Some p) c = false) as Hpc.
  { simpl. apply Z.eqb_neq. congruence. }
  destruct (meta_projects w !! c) as [crow|] eqn:Hc; simpl.
  - split.
    + unfold fk_projects_set_null. rewrite lookup_fmap, lookup_delete_ne by done.
      rewrite Hrow. simpl. by rewrite Hpar, Hpc.
    + intros t trow Ht Hown.
      unfold fk_tables_set_null, sql_orphan_tables. rewrite !lookup_fmap, Ht. simpl.
      rewrite Hown, Hpc. simpl. by rewrite Hown, Hpc.
  - split; [done|]. intros t trow Ht Hown.
    unfold sql_orphan_tables. rewrite lookup_fmap, Ht. simpl. by rewrite Hown, Hpc.
Qed.

Lemma for_each_outcome {A} (f : A → M World unit) cs :
  (∀ c w, fst (f c w) = Ok tt ∨ fst (f c w) = Raise RecursionError) →
  ∀ w, fst (for_each cs f w) = Ok tt ∨ fst (for_each cs f w) = Raise RecursionError.
Proof.
  intros Hf. induction cs as [|c cs IH]; intros w; [by left|].
  simpl. unfold bind. specialize (Hf c w).
  destruct (f c w) as [[[]|e] w1]; cbn [fst snd] in *; [apply IH|].
  destruct Hf as [Hf|Hf]; [done|]. by right.
Qed.

(** [delete_project] returns or raises [RecursionError]. *)
Lemma delete_project_outcome n :
  ∀ c w, fst (delete_project n c w) = Ok tt
         ∨ fst (delete_project n c w) = Raise RecursionError.
Proof.
  induction n as [|n IH]; intros c w; [by right|].
  rewrite delete_project_unfold. unfold bind.
  pose proof (for_each_outcome (λ cid, delete_project n cid)
                (select_ids (λ _ p, option_Z_eqb (p_parent_id p) c) (meta_projects w))
                IH w) as Hloop.
  destruct (for_each _ _ w) as [[[]|e] wk]; cbn [fst snd] in *.
  - left. apply (release_and_delete_kept (c + 1)). lia.
  - destruct Hloop as [Hr|Hr]; [done|]. by right.
Qed.

Lemma for_each_kept {A} p (f : A → M World unit) cs :
  (∀ c w, c ∈ cs → self_parent_kept p w (snd (f c w))) →
  ∀ w, self_parent_kept p w (snd (for_each cs f w)).
Proof.
  induction cs as [|c cs IH]; intros Hf w; [apply self_parent_kept_refl|].
  simpl. unfold bind.
  pose proof (Hf c w (list_elem_of_here _ _)) as Hk.
  destruct (f c w) as [[[]|e] w1]; cbn [fst snd] in *; [|done].
  eapply self_parent_kept_trans; [exact Hk|].
  apply IH. intros c' w' Hc'. apply Hf. by apply list_elem_of_further.
Qed.

(** On a project other than a self-parented one, [delete_project] leaves
    that one and its tables alone, whatever its outcome. *)
Lemma delete_project_kept p n :
  ∀ c w, c ≠ p → self_parent_kept p w (snd (delete_project n c w)).
Proof.
  induction n as [|n IH]; intros c w Hne; [apply self_parent_kept_refl|].
  intros Hself. revert Hself. fold (self_parent_kept p w (snd (delete_project (S n) c w))).
  rewrite delete_project_unfold. unfold bind. intros Hself.
  set (children := select_ids _ _).
  assert (∀ d, d ∈ children → d ≠ p) as Hchildren.
  { destruct Hself as (row & Hrow & Hpar). intros d Hd ->.
    apply elem_of_children in Hd as (row' & Hrow' & Hpar'). congruence. }
  pose proof (for_each_kept p (λ cid, delete_project n cid) children
                (λ d w' Hd, IH d w' (Hchildren d Hd)) w) as Hk.
  destruct (for_each _ _ w) as [[[]|e] wk]; cbn [fst snd] in *; [|by apply Hk].
  eapply self_parent_kept_trans; [exact Hk| |exact Hself].
  by apply release_and_delete_kept.
Qed.

(** The loop over the children raises once it reaches a child whose
    deletion raises. *)
Lemma for_each_reaches_self p (f : Z → M World unit) cs :
  (∀ w, self_parent w p →
        fst (f p w) = Raise RecursionError ∧ self_parent_kept p w (snd (f p w))) →
  (∀ c w, c ≠ p →
          (fst (f c w) = Ok tt ∨ fst (f c w) = Raise RecursionError)
          ∧ self_parent_kept p w (snd (f c w))) →
  p ∈ cs →
  ∀ w, self_parent w p →
       fst (for_each cs f w) = Raise RecursionError
       ∧ self_parent_kept p w (snd (for_each cs f w)).
Proof.
  intros Hp Hother. induction cs as [|c cs IH]; intros Hin w Hself.
  { by apply elem_of_nil in Hin. }
  simpl. unfold bind. destruct (decide (c = p)) as [->|Hne].
  - destruct (Hp w Hself) as [Hr Hk].
    destruct (f p w) as [[[]|e] w1]; cbn [fst snd] in *; [done|]. by injection Hr as ->.
  - destruct (Hother c w Hne) as [Hr Hk].
    destruct (f c w) as [[[]|e] w1]; cbn [fst snd] in *.
    + apply elem_of_cons in Hin as [->|Hin]; [done|].
      destruct (IH Hin w1 (self_parent_kept_self _ _ _ Hk Hself)) as [Hr' Hk'].
      split; [exact Hr'|]. by eapply self_parent_kept_trans.
    + split; [|done]. destruct Hr as [Hr|Hr]; [done|]. by injection Hr as ->.
Qed.

(** A project that is its own parent cannot be deleted: whatever the
    recursion limit, [delete_project] raises [RecursionError], and the
    project and its tables stay as they are. *)
Lemma delete_project_self_parent p n :
  ∀ w, self_parent w p →
       fst (delete_project n p w) = Raise RecursionError
       ∧ self_parent_kept p w (snd (delete_project n p w)).
Proof.
  induction n as [|n IH]; intros w Hself.
  { split; [done|apply self_parent_kept_refl]. }
  rewrite delete_project_unfold. unfold bind.
  set (children := select_ids _ _).
  assert (p ∈ children) as Hin.
  { destruct Hself as (row & Hrow & Hpar). apply elem_of_children. by exists row. }
  destruct (for_each_reaches_self p (λ cid, delete_project n cid) children IH
              (λ c w' Hne, conj (delete_project_outcome n c w')
                                (delete_project_kept p n c w' Hne))
              Hin w Hself) as [Hr Hk].
  destruct (for_each _ _ w) as [[[]|e] wk]; cbn [fst snd] in *; [done|].
  by injection Hr as ->.
Qed.

(** C8. [delete_project] never deletes a row of [meta_tables], whatever
    its outcome, and it either returns or raises [RecursionError].  When
    the forest below the project is within the depth the recursion can
    reach, the call returns, and afterwards the project and all its
    descendants are gone from [meta_projects] while every other project
    is as it was; every table that was owned by one of the deleted
    projects is still there, under its name, with [project_id = NULL];
    every other table is exactly as it was; fields and record data are
    untouched.  When the project is its own parent, which no check of the
    catalog prevents, the call raises [RecursionError] whatever the
    recursion limit is, the project is still there, and its tables are
    still its own. *)
Theorem C8_delete_project_orphans_tables :
  ∀ (w : World) (project_id : Z) (fuel : nat),
    let w' := snd (delete_project fuel project_id w) in
    (∀ t, is_Some (meta_tables w' !! t) ↔ is_Some (meta_tables w !! t))
    ∧ (fst (delete_project fuel project_id w) = Ok tt
       ∨ fst (delete_project fuel project_id w) = Raise RecursionError)
    ∧ (depth_le (meta_projects w) fuel project_id →
       fst (delete_project fuel project_id w) = Ok tt
       ∧ (∀ q, in_subtree (meta_projects w) project_id q → meta_projects w' !! q = None)
       ∧ (∀ q, ¬ in_subtree (meta_projects w) project_id q →
               meta_projects w' !! q = meta_projects w !! q)
       ∧ (∀ t row p, meta_tables w !! t = Some row → t_project_id row = Some p →
                     in_subtree (meta_projects w) project_id p →
                     ∃ row', meta_tables w' !! t = Some row'
                             ∧ t_project_id row' = None ∧ t_name row' = t_name row)
       ∧ (∀ t row, meta_tables w !! t = Some row →
                   (∀ p, t_project_id row = Some p →
                         ¬ in_subtree (meta_projects w) project_id p) →
                   meta_tables w' !! t = Some row)
       ∧ meta_fields w' = meta_fields w ∧ data w' = data w)
    ∧ (∀ prow, meta_projects w !! project_id = Some prow →
               p_parent_id prow = Some project_id →
       fst (delete_project fuel project_id w) = Raise RecursionError
       ∧ meta_projects w' !! project_id = Some prow
       ∧ (∀ t row, meta_tables w !! t = Some row → t_project_id row = Some project_id →
                   meta_tables w' !! t = Some row)).
Proof.
  intros w pid fuel w'. split; [apply delete_project_same_table_ids|].
  split; [apply delete_project_outcome|]. split.
  - intros Hdepth. subst w'.
    destruct (delete_project_spec fuel w pid Hdepth) as (w' & Hrun & Hdel).
    rewrite Hrun. simpl. split; [done|].
    destruct Hdel as [Hsub Hgone Honly [Hn Hrows] Hrel Hf Hd].
    split; [done|]. split.
    { intros q Hq. destruct (meta_projects w' !! q) as [row|] eqn:Ha.
      - by rewrite (Hsub q row Ha).
      - destruct (meta_projects w !! q) as [row|] eqn:Hb; [|done].
        exfalso. apply Hq. apply Honly; [by eexists|done]. }
    split.
    { intros t row p Ht Hp Hown.
      destruct (Hrel t row p Ht Hp Hown) as (row' & Ht' & Hnone).
      destruct (Hrows t row Ht) as (row'' & Ht'' & Hname & _).
      exists row'. split; [done|]. split; [done|]. congruence. }
    split; [|done].
    intros t row Ht Hfree.
    destruct (Hrows t row Ht) as (row' & Ht' & _ & _ & [->|(_ & p & Hp & Hown)]); [done|].
    by apply Hfree in Hown.
  - intros prow Hrow Hpar.
    assert (self_parent w pid) as Hself by (by exists prow).
    destruct (delete_project_self_parent pid fuel w Hself) as [Hr Hk].
    destruct (Hk Hself) as [Hp Ht].
    split; [exact Hr|]. split; [by rewrite <-Hrow|exact Ht].
Qed.

(** * Further properties *)

Import Catalog Window Notions.

(** ** The order of [list_fields] *)

Global Instance field_le_trans : Transitive field_le.
Proof. intros a b c. unfold field_le. lia. Qed.

Global Instance field_le_total : Total field_le.
Proof. intros a b. unfold field_le. lia. Qed.

(** The rows [list_fields] selects, before they are sorted. *)
Lemma list_fields_run tid active_only w :
  list_fields tid active_only w
  = (Ok (merge_sort field_le
           (filter (λ kv, f_table_id kv.2 = tid ∧ (active_only = true → f_active kv.2 = 1))
                   (map_to_list (meta_fields w)))), w).
Proof. reflexivity. Qed.

Lemma NoDup_fst_filter {A} (P : Z * A → Prop) `{∀ x, Decision (P x)} (m : gmap Z A) :
  NoDup (filter P (map_to_list m)).*1.
Proof.
  pose proof (NoDup_fst_map_to_list m) as Hnd.
  induction (map_to_list m) as [|x l IH]; [constructor|].
  rewrite fmap_cons in Hnd. apply NoDup_cons in Hnd as [Hx Hl].
  destruct (decide (P x)).
  - rewrite filter_cons_True by done. rewrite fmap_cons. apply NoDup_cons. split; [|auto].
    intros Hin. apply Hx. apply list_elem_of_fmap in Hin as (y & -> & Hy).
    apply list_elem_of_filter in Hy as [_ Hy]. apply list_elem_of_fmap. eauto.
  - rewrite filter_cons_False by done. auto.
Qed.

(** A list sorted for ORDER BY COALESCE(position, id), id is determined by
    its rows. *)
Lemma field_sorted_unique (l1 l2 : list (Z * FieldRow)) :
  NoDup l1.*1 → Sorted field_le l1 → Sorted field_le l2 → l1 ≡ₚ l2 → l1 = l2.
Proof.
  intros Hnd H1 H2 Hp. apply (Sorted_unique_strong field_le); [|done..].
  intros [k1 f1] [k2 f2] Hin1 Hin2 Hle1 Hle2.
  assert (k1 = k2) as -> by (unfold field_le, sort_key in *; simpl in *; lia).
  rewrite <-Hp in Hin2. f_equal.
  clear -Hnd Hin1 Hin2. induction l1 as [|[k f] l IH]; [by apply elem_of_nil in Hin1|].
  rewrite fmap_cons in Hnd. apply NoDup_cons in Hnd as [Hk Hl]. simpl in Hk.
  apply elem_of_cons in Hin1 as [Heq1|Hin1], Hin2 as [Heq2|Hin2].
  - congruence.
  - exfalso. apply Hk. injection Heq1 as <- <-.
    apply list_elem_of_fmap. exists (k2, f2). done.
  - exfalso. apply Hk. injection Heq2 as <- <-.
    apply list_elem_of_fmap. exists (k2, f1). done.
  - auto.
Qed.

(** X1. [list_fields] returns without an exception and leaves the store
    as it is.  The list holds exactly the rows of [meta_fields] that
    belong to the table and, when [active_only] is set, are active, each
    row once, and it is in the order of ORDER BY COALESCE(position, id),
    id: of two rows the one with the smaller key (its position, or its id
    when it has none) comes first, and of two rows with the same key the
    one with the smaller id. *)
Theorem list_fields_sorted_complete :
  ∀ (w : World) (table_id : Z) (active_only : bool),
    ∃ l, list_fields table_id active_only w = (Ok l, w)
         ∧ (∀ fid f, (fid, f) ∈ l
                     ↔ meta_fields w !! fid = Some f ∧ f_table_id f = table_id
                       ∧ (active_only = true → f_active f = 1))
         ∧ NoDup l.*1
         ∧ (∀ (i j : nat) a b, l !! i = Some a → l !! j = Some b → (i < j)%nat →
              sort_key a < sort_key b ∨ (sort_key a = sort_key b ∧ a.1 < b.1)).
Proof.
  intros w tid a. rewrite list_fields_run. eexists. split; [reflexivity|].
  set (sel := filter _ (map_to_list (meta_fields w))).
  assert (NoDup (merge_sort field_le sel).*1) as Hnd.
  { rewrite merge_sort_Permutation. apply NoDup_fst_filter. }
  split; [|split; [exact Hnd|]].
  - intros fid f. rewrite merge_sort_Permutation. unfold sel.
    rewrite list_elem_of_filter, elem_of_map_to_list. simpl. tauto.
  - intros i j x y Hi Hj Hij.
    pose proof (StronglySorted_merge_sort field_le sel) as Hs.
    revert Hs Hnd i j x y Hi Hj Hij.
    generalize (merge_sort field_le sel). clear. intros l Hs.
    induction Hs as [|z l Hs IH Hz]; intros Hnd i j x y Hi Hj Hij; [done|].
    rewrite fmap_cons in Hnd. apply NoDup_cons in Hnd as [Hzl Hnd].
    destruct i as [|i], j as [|j]; try lia; simpl in *.
    + injection Hi as <-. rewrite Forall_forall in Hz.
      assert (y ∈ l) as Hy by (by apply list_elem_of_lookup_2 in Hj).
      pose proof (Hz y Hy) as Hle.
      assert (z.1 ≠ y.1) as Hne.
      { intros Heq. apply Hzl. rewrite Heq. apply list_elem_of_fmap. eauto. }
      unfold field_le in Hle. lia.
    + apply (IH Hnd i j); [done..|lia].
Qed.

(** The sorted list of the selected rows is what [list_fields] returns. *)
Lemma list_fields_unique tid active_only w l :
  Sorted field_le l →
  l ≡ₚ filter (λ kv, f_table_id kv.2 = tid ∧ (active_only = true → f_active kv.2 = 1))
         (map_to_list (meta_fields w)) →
  list_fields tid active_only w = (Ok l, w).
Proof.
  intros Hs Hp. rewrite list_fields_run. do 2 f_equal.
  apply field_sorted_unique.
  - rewrite merge_sort_Permutation. apply NoDup_fst_filter.
  - apply (Sorted_merge_sort field_le).
  - done.
  - by rewrite merge_sort_Permutation.
Qed.



Lemma TlRel_Forall {A} (R : relation A) x l : Forall (λ y, R y x) l → TlRel R x l.
Proof.
  destruct l as [|y l] using rev_ind; [constructor|].
  intros Hall. constructor. rewrite Forall_app, Forall_singleton in Hall. tauto.
Qed.

Section Appending.
Context `{B : Builtins}.


End Appending.

(** ** Reordering, then listing *)

Lemma sorted_by_rank (m : gmap Z FieldRow) (ids : list Z) : ∀ start,
  (∀ (i : nat) k, ids !! i = Some k →
     ∃ f, m !! k = Some f ∧ f_position f = Some (start + Z.of_nat i)) →
  ∃ l : list (Z * FieldRow),
    l.*1 = ids
    ∧ Forall (λ x, m !! x.1 = Some x.2) l
    ∧ (∀ (i : nat) x, l !! i = Some x → f_position x.2 = Some (start + Z.of_nat i))
    ∧ Sorted field_le l.
Proof.
  induction ids as [|k ids IH]; intros start Hrank.
  - exists []. split; [done|]. split; [constructor|]. split.
    + intros i x Hi. by rewrite lookup_nil in Hi.
    + constructor.
  - destruct (Hrank 0%nat k eq_refl) as (f & Hf & Hp).
    destruct (IH (start + 1)) as (l & Hids & Hall & Hpos & Hs).
    { intros i k' Hi. destruct (Hrank (S i) k' Hi) as (f' & Hf' & Hp').
      exists f'. split; [done|]. rewrite Hp'. f_equal; lia. }
    exists ((k, f) :: l). split; [by rewrite fmap_cons, Hids|].
    split; [by constructor|]. split.
    + intros [|i] x Hi; simpl in Hi.
      * injection Hi as <-. simpl. rewrite Hp. f_equal; lia.
      * rewrite (Hpos i x Hi). f_equal; lia.
    + constructor; [done|]. destruct l as [|y l]; constructor.
      pose proof (Hpos 0%nat y eq_refl) as Hy.
      unfold field_le, sort_key. simpl. rewrite Hp, Hy. lia.
Qed.

Lemma filter_positive_id (l : list Z) :
  Forall (λ x, 0 < x) l → filter (λ x, 0 < x) l = l.
Proof.
  induction 1 as [|x l Hx _ IH]; [done|].
  rewrite filter_cons_True by done. by rewrite IH.
Qed.

(** X3. When [reorder_fields] is given the ids of the live fields of the
    table in some order (every live field once, as the fields panel does
    after a drag), [list_fields] afterwards returns the fields in exactly
    that order: the field at place [i] of the list has position [i + 1],
    and it is the row it was but for its position and [updated_at]. *)
Theorem reorder_fields_then_list_fields :
  ∀ (w : World) (table_id : Z) (ordered_field_ids : list Z),
    ordered_field_ids ≡ₚ (live_fields w table_id).*1 →
    Forall (λ x, 0 < x) ordered_field_ids →
    ∃ w' l,
      reorder_fields table_id ordered_field_ids w = (Ok tt, w')
      ∧ list_fields table_id true w' = (Ok l, w')
      ∧ l.*1 = ordered_field_ids
      ∧ (∀ (i : nat) fid f', l !! i = Some (fid, f') →
           f_position f' = Some (Z.of_nat i + 1)
           ∧ ∃ f, meta_fields w !! fid = Some f ∧ same_field f f').
Proof.
  intros w tid ordered Hperm Hpos.
  assert (NoDup ordered) as Hnd.
  { rewrite Hperm. unfold live_fields. rewrite list_fields_run. simpl.
    rewrite merge_sort_Permutation. apply NoDup_fst_filter. }
  assert (∀ k, k ∈ ordered ↔ ∃ f, meta_fields w !! k = Some f
                                  ∧ f_table_id f = tid ∧ f_active f = 1) as Hlive.
  { intros k. rewrite Hperm, list_elem_of_fmap. split.
    - intros ([k' f] & -> & Hin). apply elem_of_live_fields in Hin. eauto.
    - intros (f & Hf). exists (k, f). split; [done|]. by apply elem_of_live_fields. }
  pose proof (reorder_fields_loop tid ordered w) as Hloop.
  rewrite (filter_positive_id _ Hpos) in Hloop.
  destruct (reorder_loop_spec tid ordered 1 w)
    as (Hok & _ & Hnone & Hsame & _ & _ & Hrank).
  destruct (reorder_loop tid 1 ordered w) as [r w'] eqn:Hrun. simpl in *. subst r.
  exists w'. 
  destruct (sorted_by_rank (meta_fields w') ordered 1) as (l & Hids & Hall & Hp & Hs).
  { intros i k Hi.
    assert (k ∈ ordered) as Hk by (by apply list_elem_of_lookup_2 in Hi).
    apply Hlive in Hk as (f & Hf & Ht & _).
    apply (Hrank i k f); [done| |done..].
    intros Hin. apply list_elem_of_lookup in Hin as [j Hj]. rewrite lookup_drop in Hj.
    pose proof (proj1 (NoDup_alt ordered) Hnd i (S i + j)%nat k Hi Hj). lia. }
  rewrite Forall_forall in Hall.
  exists l. split; [done|]. split; [|split; [done|]].
  - apply list_fields_unique; [done|].
    apply NoDup_Permutation.
    + apply (NoDup_fmap_1 fst). by rewrite Hids.
    + apply (NoDup_fmap_1 fst), NoDup_fst_filter.
    + intros [k f']. rewrite list_elem_of_filter, elem_of_map_to_list. simpl. split.
      * intros Hin. pose proof (Hall _ Hin) as Hf'. simpl in Hf'.
        assert (k ∈ ordered) as Hk.
        { rewrite <-Hids. apply list_elem_of_fmap. by exists (k, f'). }
        apply Hlive in Hk as (f & Hf & Ht & Ha).
        destruct (Hsame k f Hf) as (f'' & Hf'' & Hsf).
        assert (f'' = f') as -> by congruence.
        destruct Hsf as (Ht' & _ & _ & _ & Ha' & _).
        split; [|done]. split; [congruence|]. intros _. congruence.
      * intros [[Ht Ha] Hf'].
        destruct (meta_fields w !! k) as [f|] eqn:Hf.
        2:{ apply Hnone in Hf. congruence. }
        destruct (Hsame k f Hf) as (f'' & Hf'' & Hsf).
        assert (f'' = f') as -> by congruence.
        destruct Hsf as (Ht' & _ & _ & _ & Ha' & _).
        assert (k ∈ ordered) as Hk.
        { apply Hlive. exists f. split; [done|]. split; [congruence|].
          rewrite <-Ha'. by apply Ha. }
        rewrite <-Hids in Hk. apply list_elem_of_fmap in Hk as ([k' g] & Hkk & Hin).
        simpl in Hkk. subst k'.
        pose proof (Hall _ Hin) as Hg. simpl in Hg.
        assert (g = f') as -> by congruence. done.
  - intros i fid f' Hi. split.
    + pose proof (Hp i _ Hi) as Hpi. simpl in Hpi. rewrite Hpi. f_equal; lia.
    + assert ((fid, f') ∈ l) as Hin by (by apply list_elem_of_lookup_2 in Hi).
      pose proof (Hall _ Hin) as Hf'. simpl in Hf'.
      destruct (meta_fields w !! fid) as [f|] eqn:Hf.
      2:{ apply Hnone in Hf. congruence. }
      destruct (Hsame fid f Hf) as (f'' & Hf'' & Hsf).
      exists f. split; [done|]. congruence.
Qed.

(** ** Renaming and deactivating a field *)

Lemma list_fields_characterised tid active_only w l :
  Sorted field_le l → NoDup l.*1 →
  (∀ k f, (k, f) ∈ l
          ↔ meta_fields w !! k = Some f ∧ f_table_id f = tid
            ∧ (active_only = true → f_active f = 1)) →
  list_fields tid active_only w = (Ok l, w).
Proof.
  intros Hs Hnd Hin. apply list_fields_unique; [done|].
  apply NoDup_Permutation.
  - by apply (NoDup_fmap_1 fst).
  - apply (NoDup_fmap_1 fst), NoDup_fst_filter.
  - intros [k f]. rewrite Hin, list_elem_of_filter, elem_of_map_to_list. simpl. tauto.
Qed.

Lemma list_fields_inv tid active_only w l :
  list_fields tid active_only w = (Ok l, w) →
  Sorted field_le l ∧ NoDup l.*1
  ∧ (∀ k f, (k, f) ∈ l
            ↔ meta_fields w !! k = Some f ∧ f_table_id f = tid
              ∧ (active_only = true → f_active f = 1)).
Proof.
  rewrite list_fields_run. intros [= <-]. split; [apply (Sorted_merge_sort field_le)|].
  split.
  - rewrite merge_sort_Permutation. apply NoDup_fst_filter.
  - intros k f. rewrite merge_sort_Permutation, list_elem_of_filter, elem_of_map_to_list.
    simpl. tauto.
Qed.

Lemma Sorted_filter_trans {A} (R : relation A) `{!Transitive R}
    (P : A → Prop) `{∀ x, Decision (P x)} l :
  Sorted R l → Sorted R (filter P l).
Proof.
  intros Hs. apply Sorted_StronglySorted in Hs; [|done].
  apply StronglySorted_Sorted.
  induction Hs as [|x l Hs IH Hx]; [constructor|].
  destruct (decide (P x)).
  - rewrite filter_cons_True by done. constructor; [done|].
    rewrite Forall_forall in *. intros y [_ Hy]%list_elem_of_filter. auto.
  - by rewrite filter_cons_False.
Qed.

(** An UPDATE of one row of [meta_fields] that leaves [table_id],
    [position] and, where it matters, [active] alone leaves every list of
    fields in its order. *)
Lemma list_fields_alter tid active_only (g : FieldRow → FieldRow) fid w w' l :
  meta_fields w' = alter g fid (meta_fields w) →
  (∀ f, f_table_id (g f) = f_table_id f ∧ f_position (g f) = f_position f) →
  (active_only = true → ∀ f, f_active (g f) = f_active f) →
  list_fields tid active_only w = (Ok l, w) →
  list_fields tid active_only w'
  = (Ok ((λ kv, if decide (kv.1 = fid) then (kv.1, g kv.2) else kv) <$> l), w').
Proof.
  intros Hmf Hg Ha Hl. apply list_fields_inv in Hl as (Hs & Hnd & Hin).
  set (h := λ kv : Z * FieldRow, if decide (kv.1 = fid) then (kv.1, g kv.2) else kv).
  assert (∀ kv, (h kv).1 = kv.1) as Hh1.
  { intros kv. unfold h. by destruct (decide _). }
  assert (∀ kv, sort_key (h kv) = sort_key kv) as Hhk.
  { intros [k f]. unfold h, sort_key. simpl. destruct (decide _); [|done].
    simpl. by rewrite (proj2 (Hg f)). }
  assert ((h <$> l).*1 = l.*1) as Hids.
  { rewrite <-list_fmap_compose. apply list_fmap_ext. intros i x _. apply Hh1. }
  apply list_fields_characterised.
  - apply (Sorted_fmap _ field_le field_le); [|done].
    intros x y. unfold field_le. by rewrite !Hhk, !Hh1.
  - by rewrite Hids.
  - intros k f'. rewrite Hmf, list_elem_of_fmap. split.
    + intros ([k0 f] & Heq & Hkf). apply Hin in Hkf as (Hf & Ht & Hact).
      unfold h in Heq. simpl in Heq. destruct (decide (k0 = fid)) as [->|Hne].
      * injection Heq as -> ->. rewrite lookup_alter_eq, Hf. simpl.
        split; [done|]. rewrite (proj1 (Hg f)). split; [done|].
        intros Hao. rewrite (Ha Hao). auto.
      * injection Heq as -> ->. rewrite lookup_alter_ne by done. done.
    + intros (Hf' & Ht & Hact). destruct (decide (k = fid)) as [->|Hne].
      * rewrite lookup_alter_eq in Hf'.
        destruct (meta_fields w !! fid) as [f|] eqn:Hf; [|done].
        injection Hf' as <-. exists (fid, f). split.
        { unfold h. simpl. by rewrite decide_True. }
        apply Hin. split; [done|]. rewrite (proj1 (Hg f)) in Ht. split; [done|].
        intros Hao. rewrite <-(Ha Hao). auto.
      * rewrite lookup_alter_ne in Hf' by done. exists (k, f'). split.
        { unfold h. simpl. by rewrite decide_False. }
        by apply Hin.
Qed.

(** X4. [deactivate_field] returns without an exception, reads the clock
    once and touches no table but [meta_fields].  The row of that id gets
    [active = 0] and a new [updated_at] and keeps its other columns; no
    other row changes; a missing id changes no row.  The data tables are
    left as they are: the column of the field and the values in it stay.
    Afterwards the field is gone from the list of live fields of every
    table, whose other fields keep their order, and the list of all the
    fields of a table still holds the same ids in the same order. *)
Theorem deactivate_field_hides_and_keeps :
  ∀ (w : World) (field_id : Z),
    ∃ w', deactivate_field field_id w = (Ok tt, w')
      ∧ ticks w' = S (ticks w) ∧ clock w' = clock w
      ∧ meta_projects w' = meta_projects w ∧ meta_tables w' = meta_tables w
      ∧ data w' = data w ∧ meta_fields_seq w' = meta_fields_seq w
      ∧ (∀ f, meta_fields w !! field_id = Some f →
           ∃ f', meta_fields w' !! field_id = Some f'
                 ∧ f_active f' = 0 ∧ f_updated_at f' = clock w (ticks w)
                 ∧ f_table_id f' = f_table_id f ∧ f_name f' = f_name f
                 ∧ f_ftype f' = f_ftype f ∧ f_required f' = f_required f
                 ∧ f_position f' = f_position f
                 ∧ f_options_json f' = f_options_json f
                 ∧ f_created_at f' = f_created_at f)
      ∧ (meta_fields w !! field_id = None → meta_fields w' = meta_fields w)
      ∧ (∀ k, k ≠ field_id → meta_fields w' !! k = meta_fields w !! k)
      ∧ (∀ table_id l,
           list_fields table_id true w = (Ok l, w) →
           list_fields table_id true w'
           = (Ok (filter (λ kv, kv.1 ≠ field_id) l), w'))
      ∧ (∀ table_id l,
           list_fields table_id false w = (Ok l, w) →
           ∃ l', list_fields table_id false w' = (Ok l', w') ∧ l'.*1 = l.*1).
Proof.
  intros w fid. set (ts := clock w (ticks w)).
  set (w' := set_meta_fields (alter (sql_deactivate_field ts) fid (meta_fields w))
                             (meta_fields_seq w) (set_ticks (S (ticks w)) w)).
  assert (deactivate_field fid w = (Ok tt, w')) as -> by reflexivity. exists w'.
  assert (meta_fields w' = alter (sql_deactivate_field ts) fid (meta_fields w)) as Hmf
    by reflexivity.
  split; [done|]. do 6 (split; [reflexivity|]).
  split; [|split; [|split; [|split]]].
  - intros f Hf. rewrite Hmf, lookup_alter_eq, Hf. simpl. eexists. split; [done|].
    by repeat split.
  - intros Hf. rewrite Hmf. apply map_eq. intros k.
    destruct (decide (k = fid)) as [->|Hne].
    + by rewrite lookup_alter_eq, Hf.
    + by rewrite lookup_alter_ne.
  - intros k Hne. by rewrite Hmf, lookup_alter_ne.
  - intros tid l Hl. apply list_fields_inv in Hl as (Hs & Hnd & Hin).
    apply list_fields_characterised.
    + by apply Sorted_filter_trans; [apply _|].
    + clear -Hnd. induction l as [|x l IH]; [constructor|].
      rewrite fmap_cons in Hnd. apply NoDup_cons in Hnd as [Hx Hl].
      destruct (decide (x.1 ≠ fid)).
      * rewrite filter_cons_True by done. rewrite fmap_cons. apply NoDup_cons.
        split; [|auto]. intros Hin. apply Hx.
        apply list_elem_of_fmap in Hin as (y & -> & Hy).
        apply list_elem_of_filter in Hy as [_ Hy]. by apply list_elem_of_fmap_2.
      * rewrite filter_cons_False by done. auto.
    + intros k f. rewrite list_elem_of_filter, Hin, Hmf. simpl. split.
      * intros (Hne & Hf & Ht & Ha). rewrite lookup_alter_ne by done. done.
      * intros (Hf & Ht & Ha). destruct (decide (k = fid)) as [->|Hne].
        { rewrite lookup_alter_eq in Hf.
          destruct (meta_fields w !! fid); [|done]. injection Hf as <-.
          specialize (Ha eq_refl). done. }
        rewrite lookup_alter_ne in Hf by done. done.
  - intros tid l Hl. eexists. split.
    + apply (list_fields_alter tid false (sql_deactivate_field ts) fid w w' l);
        [done| |done|done]. by intros f.
    + rewrite <-list_fmap_compose. apply list_fmap_ext. intros i x _. simpl.
      by destruct (decide _).
Qed.

Section Renaming.
Context `{B : Builtins}.

(** X5. [rename_field] with a name that is blank after trimming raises
    [ValueError] and leaves the store as it is.  With any other name it
    returns, whether or not another field already has that name: the row
    of that id gets the trimmed name and a new [updated_at] and keeps its
    other columns, no other row and no other table changes, and every
    list of fields holds the same ids in the same order as before. *)
Theorem rename_field_is_local :
  ∀ (w : World) (field_id : Z) (new_name : string),
    (str_strip new_name = "" →
     rename_field field_id new_name w = (Raise ValueError, w))
    ∧ (str_strip new_name ≠ "" →
       ∃ w', rename_field field_id new_name w = (Ok tt, w')
         ∧ meta_projects w' = meta_projects w ∧ meta_tables w' = meta_tables w
         ∧ data w' = data w ∧ meta_fields_seq w' = meta_fields_seq w
         ∧ (∀ f, meta_fields w !! field_id = Some f →
              ∃ f', meta_fields w' !! field_id = Some f'
                    ∧ f_name f' = str_strip new_name
                    ∧ f_updated_at f' = clock w (ticks w)
                    ∧ f_table_id f' = f_table_id f ∧ f_ftype f' = f_ftype f
                    ∧ f_required f' = f_required f ∧ f_active f' = f_active f
                    ∧ f_position f' = f_position f
                    ∧ f_options_json f' = f_options_json f
                    ∧ f_created_at f' = f_created_at f)
         ∧ (∀ k, k ≠ field_id → meta_fields w' !! k = meta_fields w !! k)
         ∧ (∀ k, is_Some (meta_fields w' !! k) ↔ is_Some (meta_fields w !! k))
         ∧ (∀ table_id active_only l,
              list_fields table_id active_only w = (Ok l, w) →
              ∃ l', list_fields table_id active_only w' = (Ok l', w')
                    ∧ l'.*1 = l.*1)).
Proof.
  intros w fid new_name. unfold rename_field. cbv zeta. split.
  - intros ->. reflexivity.
  - intros Hne. rewrite (proj2 (String.eqb_neq _ _) Hne).
    set (ts := clock w (ticks w)). set (name := str_strip new_name).
    set (w' := set_meta_fields (alter (sql_rename_field name ts) fid (meta_fields w))
                               (meta_fields_seq w) (set_ticks (S (ticks w)) w)).
    change (bind now_iso _ w) with (@Ok unit tt, w'). exists w'.
    assert (meta_fields w' = alter (sql_rename_field name ts) fid (meta_fields w)) as Hmf
      by reflexivity.
    split; [done|]. do 4 (split; [reflexivity|]).
    split; [|split; [|split]].
    + intros f Hf. rewrite Hmf, lookup_alter_eq, Hf. simpl. eexists. split; [done|].
      by repeat split.
    + intros k Hk. by rewrite Hmf, lookup_alter_ne.
    + intros k. rewrite Hmf. destruct (decide (k = fid)) as [->|Hk].
      * rewrite lookup_alter_eq. by rewrite fmap_is_Some.
      * by rewrite lookup_alter_ne.
    + intros tid a l Hl. eexists. split.
      * apply (list_fields_alter tid a (sql_rename_field name ts) fid w w' l);
          [done| |done|done]. by intros f.
      * rewrite <-list_fmap_compose. apply list_fmap_ext. intros i x _. simpl.
        by destruct (decide _).
Qed.

End Renaming.

(** ** Records: insert, look up, update, delete *)

Lemma fits_not_none ddl v : fits ddl v = true → is_none v = false.
Proof. by destruct ddl, v. Qed.

Lemma insert_cells_well_typed or_replace cols values :
  well_typed cols values →
  ∃ cells, insert_cells or_replace cols values = inr cells
           ∧ (∀ k v, values !! k = Some v → cells !! k = Some v)
           ∧ (∀ k ddl, cols !! k = Some ddl → values !! k = None →
                       cells !! k = Some (ddl_default ddl))
           ∧ (∀ k, is_Some (cells !! k) ↔ is_Some (cols !! k)).
Proof.
  intros Hwt. unfold insert_cells.
  rewrite bool_decide_eq_true_2.
  2:{ intros k v Hk. destruct (Hwt k v Hk) as (ddl & -> & _). eauto. }
  rewrite (bool_decide_eq_true_2 (map_Forall (λ _ v, is_none v = false) values)).
  2:{ intros k v Hk. destruct (Hwt k v Hk) as (ddl & _ & Hfit).
      by apply fits_not_none in Hfit. }
  rewrite andb_false_r. simpl. eexists. split; [reflexivity|]. split; [|split].
  - intros k v Hk. destruct (Hwt k v Hk) as (ddl & Hc & Hfit).
    rewrite map_lookup_imap, Hc. simpl. rewrite Hk.
    apply fits_not_none in Hfit. by destruct v.
  - intros k ddl Hc Hk. rewrite map_lookup_imap, Hc. simpl. by rewrite Hk.
  - intros k. rewrite map_lookup_imap. destruct (cols !! k) as [ddl|]; simpl.
    + split; [eauto|]. intros _. destruct (values !! k) as [[]|]; eauto.
    + split; intros [? ?]; done.
Qed.

Lemma max_rowid_next {A} seq (rows : gmap Z A) k :
  is_Some (rows !! k) → k < next_rowid seq rows.
Proof. intros Hk%max_rowid_ge. unfold next_rowid. lia. Qed.

(** X6. [add_record] with values that are for columns of the table and
    of the columns' types, on a table that has a rowid left, returns the
    id of a new row.  The id is larger than the id of every row of the
    table and than the table's AUTOINCREMENT counter; the table has the
    rows it had and the new one, whose [created_at] and [updated_at] are
    the two clock readings of the call, whose given columns hold the
    given values and whose other columns hold their defaults.
    [get_record_by_id] then finds the new row under its id and every
    other row as before, and no other data table and no catalog table has
    changed.  On a table that has held the rowid [2^63 - 1] the call
    raises [OperationalError] and leaves the rows as they were. *)
Theorem add_record_then_get_record_by_id :
  ∀ (w : World) (table_id : Z) (values : gmap Z PyVal),
    well_typed (cols_of w table_id) values →
    (rowids_used_up (dt_seq (table_of w table_id)) (rows_of w table_id) = true →
     fst (Repo.add_record table_id values w) = Raise OperationalError
     ∧ rows_of (snd (Repo.add_record table_id values w)) table_id = rows_of w table_id)
    ∧ (rowids_used_up (dt_seq (table_of w table_id)) (rows_of w table_id) = false →
       ∃ rid w' row,
         Repo.add_record table_id values w = (Ok rid, w')
         ∧ (∀ k, is_Some (rows_of w table_id !! k) → k < rid)
         ∧ dt_seq (table_of w table_id) < rid
         ∧ rid < 2 ^ 63
         ∧ rows_of w' table_id = <[rid := row]> (rows_of w table_id)
         ∧ cols_of w' table_id = cols_of w table_id
         ∧ r_created_at row = clock w (ticks w)
         ∧ r_updated_at row = clock w (S (ticks w))
         ∧ (∀ k v, values !! k = Some v → r_cells row !! k = Some v)
         ∧ (∀ k ddl, cols_of w table_id !! k = Some ddl → values !! k = None →
                     r_cells row !! k = Some (ddl_default ddl))
         ∧ (∀ k, is_Some (r_cells row !! k) ↔ is_Some (cols_of w table_id !! k))
         ∧ fst (get_record_by_id table_id rid w') = Ok (Some row)
         ∧ (∀ k, k ≠ rid →
              fst (get_record_by_id table_id k w') = fst (get_record_by_id table_id k w))
         ∧ (∀ t, t ≠ table_id → data w' !! t = data w !! t)
         ∧ meta_projects w' = meta_projects w ∧ meta_tables w' = meta_tables w
         ∧ meta_fields w' = meta_fields w).
Proof.
  intros w tid values Hwt. split.
  { intros Hfull. pose proof (add_record_run tid values w) as Hrun.
    by rewrite Hfull in Hrun. }
  intros Hleft.
  destruct (insert_cells_well_typed false _ _ Hwt) as (cells & Hcells & Hv & Hd & Hdom).
  unfold Repo.add_record. munfold. rewrite ensure_run. unfold now_iso. simpl.
  unfold with_table. simpl. rewrite lookup_insert_eq. unfold sql_insert.
  rewrite cols_of_table_of, rows_of_table_of, Hleft, Hcells.
  set (rid := next_rowid _ _).
  eexists rid, _, _. split; [reflexivity|].
  split; [intros k Hk; by apply max_rowid_next|].
  split; [unfold rid, next_rowid; lia|].
  split. { unfold rowids_used_up in Hleft. apply Z.leb_gt in Hleft.
           unfold rid, next_rowid. lia. }
  rewrite rows_of_set_data, cols_of_set_data. simpl.
  do 7 (split; [done|]).
  split.
  { rewrite get_record_by_id_run. simpl. rewrite rows_of_set_data. simpl.
    by rewrite lookup_insert_eq. }
  split.
  { intros k Hk. rewrite !get_record_by_id_run. simpl. rewrite rows_of_set_data. simpl.
    by rewrite lookup_insert_ne. }
  split; [|done].
  intros t Ht. simpl. by rewrite insert_insert_eq, lookup_insert_ne.
Qed.

Lemma table_of_set_data tid t w d :
  table_of (set_data (<[tid := t]> d) w) tid = t.
Proof. unfold table_of. simpl. by rewrite lookup_insert_eq. Qed.

(** What [add_record] does to the counter of the table. *)
Lemma add_record_seq tid values w rid w' :
  Repo.add_record tid values w = (Ok rid, w') →
  rid = next_rowid (dt_seq (table_of w tid)) (rows_of w tid)
  ∧ dt_seq (table_of w' tid) = rid.
Proof.
  unfold Repo.add_record. munfold. rewrite ensure_run. unfold now_iso. simpl.
  unfold with_table. simpl. rewrite lookup_insert_eq. unfold sql_insert.
  rewrite rows_of_table_of.
  destruct (rowids_used_up _ _); [done|].
  destruct (insert_cells false _ values) as [e|cells]; [done|]. simpl.
  intros [= <- <-]. split; [done|]. by rewrite table_of_set_data.
Qed.

(** The effect of one call of the record layer on the store. *)
Lemma record_op_effect o w :
  let w' := snd (record_op o w) in
  meta_projects w' = meta_projects w ∧ meta_tables w' = meta_tables w
  ∧ meta_fields w' = meta_fields w ∧ meta_fields_seq w' = meta_fields_seq w
  ∧ clock w' = clock w ∧ (ticks w ≤ ticks w')%nat
  ∧ (w' = w
     ∨ ∃ t', data w' = <[op_table o := t']> (data w)
             ∧ dt_columns t' = cols_of w (op_table o)
             ∧ dt_seq (table_of w (op_table o)) ≤ dt_seq t'
             ∧ (fst (record_op o w) ≠ Ok tt → dt_rows t' = rows_of w (op_table o))).
Proof.
  destruct o as [t values|t rid values c u|t rid values|t rid|t rid];
    cbn [record_op op_table].
  - unfold Repo.add_record. munfold. rewrite ensure_run. unfold now_iso. simpl.
    unfold with_table. simpl. rewrite lookup_insert_eq. unfold sql_insert.
    rewrite cols_of_table_of, rows_of_table_of.
    destruct (rowids_used_up _ _); simpl.
    { do 5 (split; [done|]). split; [lia|]. right. exists (table_of w t).
      by rewrite cols_of_table_of, rows_of_table_of. }
    destruct (insert_cells false _ values) as [e|cells]; simpl.
    + do 5 (split; [done|]). split; [lia|]. right. exists (table_of w t).
      by rewrite cols_of_table_of, rows_of_table_of.
    + do 5 (split; [done|]). split; [lia|]. right. eexists. split.
      { by rewrite insert_insert_eq. }
      simpl. split; [done|]. split; [unfold next_rowid; lia|done].
  - unfold add_record_with_id. munfold. rewrite ensure_run.
    rewrite or_now_run. cbn [fst snd]. rewrite or_now_run. cbn [fst snd].
    unfold with_table. simpl. rewrite lookup_insert_eq. unfold sql_insert_or_replace.
    rewrite cols_of_table_of.
    assert (ticks w ≤ (stamp u (set_ticks (stamp c w).2 w)).2)%nat as Hticks.
    { unfold stamp. simpl. destruct c as [s|], u as [s'|]; simpl;
        repeat (destruct (String.eqb _ ""); simpl); lia. }
    destruct (insert_cells true _ values) as [e|cells]; simpl.
    + do 5 (split; [done|]). split; [done|]. right. exists (table_of w t).
      by rewrite cols_of_table_of, rows_of_table_of.
    + do 5 (split; [done|]). split; [done|]. right. eexists. split.
      { by rewrite insert_insert_eq. }
      simpl. split; [done|]. split; [lia|done].
  - unfold update_record. case_bool_decide as Hempty.
    { do 5 (split; [done|]). split; [done|]. by left. }
    munfold. rewrite ensure_run. unfold now_iso. simpl.
    unfold with_table. simpl. rewrite lookup_insert_eq. unfold sql_update.
    destruct (negb (bool_decide (map_Forall _ values))); simpl.
    { do 5 (split; [done|]). split; [lia|]. right. exists (table_of w t).
      by rewrite cols_of_table_of, rows_of_table_of. }
    destruct (dt_rows (table_of w t) !! rid) as [row|] eqn:Hrow; simpl.
    2:{ do 5 (split; [done|]). split; [lia|]. right. exists (table_of w t).
        rewrite insert_insert_eq.
        by rewrite cols_of_table_of, rows_of_table_of. }
    destruct (negb (bool_decide (map_Forall _ values))); simpl.
    { do 5 (split; [done|]). split; [lia|]. right. exists (table_of w t).
      by rewrite cols_of_table_of, rows_of_table_of. }
    do 5 (split; [done|]). split; [lia|]. right. eexists. split.
    { by rewrite insert_insert_eq. }
    simpl. by rewrite cols_of_table_of.
  - unfold Repo.delete_record. munfold. rewrite ensure_run.
    rewrite with_table_ensured. simpl.
    do 5 (split; [done|]). split; [done|]. right. eexists. split; [done|].
    simpl. by rewrite cols_of_table_of.
  - unfold bind. rewrite get_record_by_id_run. simpl. rewrite ensure_run. simpl.
    do 5 (split; [done|]). split; [done|]. right. exists (table_of w t).
    by rewrite cols_of_table_of, rows_of_table_of.
Qed.

Lemma record_op_tables o w t :
  let w' := snd (record_op o w) in
  cols_of w' t = cols_of w t
  ∧ dt_seq (table_of w t) ≤ dt_seq (table_of w' t)
  ∧ (t ≠ op_table o → data w' !! t = data w !! t)
  ∧ (fst (record_op o w) ≠ Ok tt → rows_of w' t = rows_of w t).
Proof.
  destruct (record_op_effect o w) as (_ & _ & _ & _ & _ & _ & [->|Hdata]); [done|].
  destruct Hdata as (t' & Hd & Hc & Hs & Hr). cbv zeta.
  unfold cols_of, table_of, rows_of in *. rewrite Hd.
  destruct (decide (t = op_table o)) as [->|Hne].
  - rewrite lookup_insert_eq. split; [done|]. split; [done|]. split; [done|]. auto.
  - rewrite lookup_insert_ne by done. done.
Qed.

Lemma record_op_frame o w :
  let w1 := snd (record_op o w) in
  meta_projects w1 = meta_projects w ∧ meta_tables w1 = meta_tables w
  ∧ meta_fields w1 = meta_fields w ∧ meta_fields_seq w1 = meta_fields_seq w
  ∧ clock w1 = clock w
  ∧ (∀ t, cols_of w1 t = cols_of w t)
  ∧ (∀ t, dt_seq (table_of w t) ≤ dt_seq (table_of w1 t))
  ∧ (∀ t, t ≠ op_table o → data w1 !! t = data w !! t)
  ∧ (fst (record_op o w) ≠ Ok tt → ∀ t, rows_of w1 t = rows_of w t).
Proof.
  destruct (record_op_effect o w) as (Hp & Ht & Hf & Hs & Hc & _ & _).
  do 5 (split; [done|]).
  split; [intros t; apply record_op_tables|].
  split; [intros t; apply record_op_tables|].
  split; [intros t; apply record_op_tables|].
  intros Hfail t. by apply record_op_tables.
Qed.

Lemma run_ops_frame ops : ∀ w,
  let wn := run_ops ops w in
  meta_projects wn = meta_projects w ∧ meta_tables wn = meta_tables w
  ∧ meta_fields wn = meta_fields w ∧ meta_fields_seq wn = meta_fields_seq w
  ∧ clock wn = clock w
  ∧ (∀ t, cols_of wn t = cols_of w t)
  ∧ (∀ t, dt_seq (table_of w t) ≤ dt_seq (table_of wn t))
  ∧ (∀ t, (∀ o', o' ∈ ops → op_table o' ≠ t) → data wn !! t = data w !! t).
Proof.
  induction ops as [|o ops IH]; intros w; [by simpl|].
  simpl. fold (run_ops ops (snd (record_op o w))).
  destruct (IH (snd (record_op o w))) as (Hp & Ht & Hf & Hs & Hc & Hcols & Hseq & Hd).
  destruct (record_op_effect o w) as (Hp1 & Ht1 & Hf1 & Hs1 & Hc1 & _ & _).
  split; [congruence|]. split; [congruence|]. split; [congruence|].
  split; [congruence|]. split; [congruence|].
  split; [intros t; rewrite Hcols; apply record_op_tables|].
  split.
  { intros t. etrans; [|apply Hseq]. apply record_op_tables. }
  intros t Hnot. rewrite Hd.
  - apply record_op_tables. intros Heq. apply (Hnot o); [left|done].
  - intros o' Ho'. apply Hnot. by right.
Qed.

(** X7. No call of the record layer touches the catalog, the columns of
    a data table, or another data table than the one it is given, and
    none lowers the AUTOINCREMENT counter of a table; a call that raises
    leaves the rows of every table as they were.  The same holds of any
    sequence of calls, for the catalog, the columns and the counters. *)
Theorem record_calls_frame :
  ∀ (w : World) (o : RecordOp) (ops : list RecordOp),
    let w1 := snd (record_op o w) in
    let wn := run_ops ops w in
    (meta_projects w1 = meta_projects w ∧ meta_tables w1 = meta_tables w
     ∧ meta_fields w1 = meta_fields w ∧ meta_fields_seq w1 = meta_fields_seq w
     ∧ clock w1 = clock w
     ∧ (∀ t, cols_of w1 t = cols_of w t)
     ∧ (∀ t, dt_seq (table_of w t) ≤ dt_seq (table_of w1 t))
     ∧ (∀ t, t ≠ op_table o → data w1 !! t = data w !! t)
     ∧ (fst (record_op o w) ≠ Ok tt → ∀ t, rows_of w1 t = rows_of w t))
    ∧ (meta_projects wn = meta_projects w ∧ meta_tables wn = meta_tables w
       ∧ meta_fields wn = meta_fields w ∧ meta_fields_seq wn = meta_fields_seq w
       ∧ clock wn = clock w
       ∧ (∀ t, cols_of wn t = cols_of w t)
       ∧ (∀ t, dt_seq (table_of w t) ≤ dt_seq (table_of wn t))
       ∧ (∀ t, (∀ o', o' ∈ ops → op_table o' ≠ t) → data wn !! t = data w !! t)).
Proof.
  intros w o ops w1 wn. split; [apply record_op_frame | apply run_ops_frame].
Qed.

(** X8. [add_record] never hands out an id twice: once a call has
    returned an id for a table, whatever calls of the record layer follow
    (adding, re-inserting under a chosen id, updating or deleting rows
    of any table, the new row included), a later [add_record] on that
    table returns a larger id; it is also larger than the id of every row
    the table had at the first call. *)
Theorem add_record_never_reuses_an_id :
  ∀ (w : World) (table_id : Z) (values1 values2 : gmap Z PyVal)
    (ops : list RecordOp) (rid1 rid2 : Z) (w1 w2 : World),
    Repo.add_record table_id values1 w = (Ok rid1, w1) →
    Repo.add_record table_id values2 (run_ops ops w1) = (Ok rid2, w2) →
    rid1 < rid2
    ∧ (∀ k, is_Some (rows_of w table_id !! k) → k < rid2).
Proof.
  intros w tid v1 v2 ops rid1 rid2 w1 w2 H1 H2.
  apply add_record_seq in H1 as [Hr1 Hs1]. apply add_record_seq in H2 as [Hr2 _].
  destruct (run_ops_frame ops w1) as (_ & _ & _ & _ & _ & _ & Hseq & _).
  specialize (Hseq tid). rewrite Hs1 in Hseq.
  assert (rid1 < rid2) as Hlt by (rewrite Hr2; unfold next_rowid; lia).
  split; [done|]. intros k Hk. apply (max_rowid_next (dt_seq (table_of w tid))) in Hk.
  lia.
Qed.

Lemma rows_of_set_ticks n w t : rows_of (set_ticks n w) t = rows_of w t.
Proof. reflexivity. Qed.

(** X9. [update_record] with an empty dictionary returns at once and
    changes nothing, the clock included.  With values that are for columns
    of the table and of the columns' types it returns after one clock
    reading: the row of that id keeps its [created_at], gets the clock
    reading as [updated_at], the given values in the given columns and
    keeps the values of its other columns; no other row changes, and when
    no row has that id no row changes at all.  A value for a column the
    table does not have raises [OperationalError]; a [None] among values
    that are otherwise of the columns' types raises [IntegrityError] when
    the row exists; both leave every row as it was. *)
Theorem update_record_is_row_local :
  ∀ (w : World) (table_id record_id : Z) (values : gmap Z PyVal),
    (values = ∅ → update_record table_id record_id values w = (Ok tt, w))
    ∧ (values ≠ ∅ → well_typed (cols_of w table_id) values →
       ∃ w', update_record table_id record_id values w = (Ok tt, w')
         ∧ ticks w' = S (ticks w)
         ∧ cols_of w' table_id = cols_of w table_id
         ∧ (∀ row, rows_of w table_id !! record_id = Some row →
              ∃ row', rows_of w' table_id = <[record_id := row']> (rows_of w table_id)
                ∧ r_created_at row' = r_created_at row
                ∧ r_updated_at row' = clock w (ticks w)
                ∧ (∀ k v, values !! k = Some v → r_cells row' !! k = Some v)
                ∧ (∀ k, values !! k = None → r_cells row' !! k = r_cells row !! k))
         ∧ (rows_of w table_id !! record_id = None →
            rows_of w' table_id = rows_of w table_id))
    ∧ (∀ k v, values !! k = Some v → cols_of w table_id !! k = None →
         fst (update_record table_id record_id values w) = Raise OperationalError
         ∧ rows_of (snd (update_record table_id record_id values w)) table_id
           = rows_of w table_id)
    ∧ (∀ k, values !! k = Some PNone →
         map_Forall (λ k v, ∃ ddl, cols_of w table_id !! k = Some ddl
                                   ∧ (v = PNone ∨ fits ddl v = true)) values →
         is_Some (rows_of w table_id !! record_id) →
         fst (update_record table_id record_id values w) = Raise IntegrityError
         ∧ rows_of (snd (update_record table_id record_id values w)) table_id
           = rows_of w table_id).
Proof.
  intros w tid rid values. split; [|split; [|split]].
  - intros ->. unfold update_record. by rewrite bool_decide_eq_true_2.
  - intros Hne Hwt. unfold update_record. rewrite bool_decide_eq_false_2 by done.
    munfold. rewrite ensure_run. unfold now_iso. simpl.
    unfold with_table. simpl. rewrite lookup_insert_eq. unfold sql_update.
    rewrite cols_of_table_of, rows_of_table_of.
    rewrite bool_decide_eq_true_2.
    2:{ intros k v Hk. destruct (Hwt k v Hk) as (ddl & -> & _). eauto. }
    simpl. destruct (rows_of w tid !! rid) as [row|] eqn:Hrow.
    + rewrite bool_decide_eq_true_2.
      2:{ intros k v Hk. destruct (Hwt k v Hk) as (ddl & _ & Hfit).
          by apply fits_not_none in Hfit. }
      simpl. eexists. split; [reflexivity|]. split; [done|].
      rewrite cols_of_set_data. simpl. rewrite ?cols_of_table_of.
      split; [done|]. split; [|done].
      intros row0 [= <-]. eexists. rewrite rows_of_set_data. simpl.
      split; [done|]. simpl.
      split; [done|]. split; [done|]. split.
      * intros k v Hk. by rewrite lookup_union_l'; [|eauto].
      * intros k Hk. by rewrite lookup_union_r.
    + eexists. split; [reflexivity|]. split; [done|].
      rewrite cols_of_set_data, cols_of_table_of. split; [done|].
      split; [done|]. intros _. by rewrite rows_of_set_data, rows_of_table_of.
  - intros k v Hk Hc. unfold update_record.
    rewrite bool_decide_eq_false_2.
    2:{ intros ->. by rewrite lookup_empty in Hk. }
    munfold. rewrite ensure_run. unfold now_iso. simpl.
    unfold with_table. simpl. rewrite lookup_insert_eq. unfold sql_update.
    rewrite cols_of_table_of.
    rewrite bool_decide_eq_false_2.
    2:{ intros Hall. specialize (Hall k v Hk). simpl in Hall. rewrite Hc in Hall.
        by destruct Hall. }
    simpl. split; [done|].
    by rewrite rows_of_set_ticks, rows_of_set_data, rows_of_table_of.
  - intros k Hk Hcols [row Hrow]. unfold update_record.
    rewrite bool_decide_eq_false_2.
    2:{ intros ->. by rewrite lookup_empty in Hk. }
    munfold. rewrite ensure_run. unfold now_iso. simpl.
    unfold with_table. simpl. rewrite lookup_insert_eq. unfold sql_update.
    rewrite cols_of_table_of, rows_of_table_of.
    rewrite bool_decide_eq_true_2.
    2:{ intros k' v' Hk'. destruct (Hcols k' v' Hk') as (ddl & -> & _). eauto. }
    simpl. rewrite Hrow.
    rewrite bool_decide_eq_false_2.
    2:{ intros Hall. by specialize (Hall k PNone Hk). }
    simpl. split; [done|].
    by rewrite rows_of_set_ticks, rows_of_set_data, rows_of_table_of.
Qed.

(** ** Editing a record, undone and redone *)

(** [update_record] with values it can store. *)
Lemma update_record_run tid rid values w :
  values ≠ ∅ →
  map_Forall (λ k v, is_Some (cols_of w tid !! k) ∧ is_none v = false) values →
  ∃ w', update_record tid rid values w = (Ok tt, w')
        ∧ rows_of w' tid
          = match rows_of w tid !! rid with
            | Some row => <[rid := {| r_created_at := r_created_at row;
                                      r_updated_at := clock w (ticks w);
                                      r_cells := values ∪ r_cells row |}]> (rows_of w tid)
            | None => rows_of w tid
            end
        ∧ cols_of w' tid = cols_of w tid
        ∧ clock w' = clock w ∧ ticks w' = S (ticks w).
Proof.
  intros Hne Hok. unfold update_record. rewrite bool_decide_eq_false_2 by done.
  munfold. rewrite ensure_run. unfold now_iso. simpl.
  unfold with_table. simpl. rewrite lookup_insert_eq. unfold sql_update.
  rewrite cols_of_table_of, rows_of_table_of.
  rewrite bool_decide_eq_true_2.
  2:{ intros k v Hk. by destruct (Hok k v Hk). }
  simpl. destruct (rows_of w tid !! rid) as [row|] eqn:Hrow.
  - rewrite bool_decide_eq_true_2.
    2:{ intros k v Hk. by destruct (Hok k v Hk). }
    simpl. eexists. split; [reflexivity|].
    rewrite rows_of_set_data, cols_of_set_data. simpl.
    by rewrite ?cols_of_table_of.
  - eexists. split; [reflexivity|].
    rewrite rows_of_set_data, cols_of_set_data.
    by rewrite cols_of_table_of, rows_of_table_of.
Qed.

Section Editing.
Context `{B : Builtins} `{E : SqlEngine}.

(** The view [edit_record] leaves behind when the UPDATE went through. *)
Lemma edit_record_pushed v rid row data :
  history_ok v →
  rows_of (repo v) (table_id v) !! rid = Some row →
  fst (update_record (table_id v) rid data (refreshed (table_id v) (repo v))) = Ok tt →
  step v (EvEdit (Some rid) (Some data))
  = pushed v {| cmd_label := "Editar registro";
                cmd_undo := FnUpdateRecord (table_id v) rid (snapshot (fields v) row);
                cmd_redo := FnUpdateRecord (table_id v) rid data |}
      (refreshed (table_id v)
         (snd (update_record (table_id v) rid data (refreshed (table_id v) (repo v))))).
Proof.
  intros [Hidx Hflag] Hrow Hupd. unfold step. simpl. unfold edit_record. munfold.
  rewrite on_repo_run, get_record_by_id_run, Hrow. simpl.
  rewrite on_repo_run. simpl. unfold refreshed in *.
  destruct (update_record _ _ _ _) as [r w'] eqn:Hrun. simpl in *. subst r.
  rewrite push_cmd_run. simpl. rewrite Hflag. rewrite refresh_state. done.
Qed.

(** X10. Editing a record through the view, then undoing and redoing.
    For a row that exists and values the record dialog can give (for
    fields of the view, of the columns' types), [edit_record] writes the
    values and keeps the other cells and [created_at]; [undo] brings every
    cell of the row back to what it was, and [redo] writes the edited
    values again.  The timestamp [updated_at] is not brought back: each of
    the three steps sets it to the clock reading of that step.  The cursor
    of the history goes up, down and up again by one. *)
Theorem edit_record_undo_redo :
  ∀ (v : TableView) (rid : Z) (row : DataRow) (data : gmap Z PyVal),
    history_ok v →
    rows_of (repo v) (table_id v) !! rid = Some row →
    data ≠ ∅ →
    well_typed (cols_of (repo v) (table_id v)) data →
    (∀ k, is_Some (data !! k) → k ∈ (fields v).*1) →
    Forall (λ f, is_Some (cols_of (repo v) (table_id v) !! f.1)
                 ∧ ∃ x, r_cells row !! f.1 = Some x ∧ is_none x = false) (fields v) →
    let tid := table_id v in
    let v1 := step v (EvEdit (Some rid) (Some data)) in
    let v2 := step v1 EvUndo in
    let v3 := step v2 EvRedo in
    ∃ row1 row2 row3,
      rows_of (repo v1) tid = <[rid := row1]> (rows_of (repo v) tid)
      ∧ r_cells row1 = data ∪ r_cells row
      ∧ r_created_at row1 = r_created_at row
      ∧ r_updated_at row1 = clock (repo v) (ticks (repo v))
      ∧ rows_of (repo v2) tid = <[rid := row2]> (rows_of (repo v) tid)
      ∧ r_cells row2 = r_cells row
      ∧ r_created_at row2 = r_created_at row
      ∧ r_updated_at row2 = clock (repo v) (S (ticks (repo v)))
      ∧ rows_of (repo v3) tid = <[rid := row3]> (rows_of (repo v) tid)
      ∧ r_cells row3 = r_cells row1
      ∧ r_created_at row3 = r_created_at row
      ∧ r_updated_at row3 = clock (repo v) (S (S (ticks (repo v))))
      ∧ _undo_idx v1 = _undo_idx v + 1
      ∧ _undo_idx v2 = _undo_idx v
      ∧ _undo_idx v3 = _undo_idx v + 1.
Proof.
  intros v rid row data Hv Hrow Hne Hwt Hdom Hfields. cbv zeta.
  set (tid := table_id v) in *.
  set (v1 := step v (EvEdit (Some rid) (Some data))).
  set (v2 := step v1 EvUndo). set (v3 := step v2 EvRedo).
  rewrite Forall_forall in Hfields.
  assert (fields v ≠ []) as Hnonempty.
  { intros Hnil. apply Hne. apply map_eq. intros k. rewrite lookup_empty.
    destruct (data !! k) eqn:Hk; [|done].
    assert (k ∈ (fields v).*1) as Hin by eauto. rewrite Hnil in Hin.
    by apply elem_of_nil in Hin. }
  set (old := snapshot (fields v) row).
  assert (old ≠ ∅) as Hold.
  { destruct (fields v) as [|f fs] eqn:Hfs; [done|]. intros Hempty.
    assert (old !! f.1 = None) as Hnone by (by rewrite Hempty, lookup_empty).
    unfold old in Hnone. rewrite snapshot_lookup in Hnone.
    rewrite decide_True in Hnone; [done|]. rewrite fmap_cons. left. }
  assert (∀ w, cols_of w tid = cols_of (repo v) tid →
               map_Forall (λ k x, is_Some (cols_of w tid !! k) ∧ is_none x = false) old)
    as Hold_ok.
  { intros w Hc k x Hk. unfold old in Hk. rewrite snapshot_lookup in Hk.
    destruct (decide (k ∈ (fields v).*1)) as [Hin|]; [|done].
    apply list_elem_of_fmap in Hin as (f & -> & Hf).
    destruct (Hfields f Hf) as (Hcol & y & Hy & Hyn).
    rewrite Hy in Hk. injection Hk as <-. by rewrite Hc. }
  assert (∀ w, cols_of w tid = cols_of (repo v) tid →
               map_Forall (λ k x, is_Some (cols_of w tid !! k) ∧ is_none x = false) data)
    as Hdata_ok.
  { intros w Hc k x Hk. destruct (Hwt k x Hk) as (ddl & Hcol & Hfit).
    rewrite Hc, Hcol. split; [eauto|]. by apply fits_not_none in Hfit. }
  (* the edit *)
  destruct (clock_refreshed tid (repo v)) as [Hc0 Ht0].
  destruct (update_record_run tid rid data (refreshed tid (repo v)) Hne)
    as (w1 & Hupd & Hrows1 & Hcols1 & Hclk1 & Htk1).
  { apply Hdata_ok. apply cols_of_refreshed. }
  rewrite rows_of_refreshed, Hrow, Hc0, Ht0 in Hrows1.
  rewrite cols_of_refreshed in Hcols1. rewrite Hc0 in Hclk1. rewrite Ht0 in Htk1.
  set (cmd := {| cmd_label := "Editar registro";
                 cmd_undo := FnUpdateRecord tid rid old;
                 cmd_redo := FnUpdateRecord tid rid data |}).
  assert (v1 = pushed v cmd (refreshed tid w1)) as Hv1.
  { subst v1 cmd. pose proof (edit_record_pushed v rid row data Hv Hrow) as Hp.
    fold tid in Hp. rewrite Hupd in Hp. by apply Hp. }
  (* the undo *)
  destruct (clock_refreshed tid w1) as [Hc1' Ht1'].
  destruct (update_record_run tid rid old (refreshed tid w1) Hold)
    as (w2 & Hundo & Hrows2 & Hcols2 & Hclk2 & Htk2).
  { apply Hold_ok. by rewrite cols_of_refreshed. }
  rewrite rows_of_refreshed, Hrows1, lookup_insert_eq in Hrows2.
  rewrite Hc1', Ht1', Hclk1, Htk1, insert_insert_eq in Hrows2.
  rewrite cols_of_refreshed, Hcols1 in Hcols2.
  rewrite Hc1', Hclk1 in Hclk2. rewrite Ht1', Htk1 in Htk2.
  assert (v2 = undone v cmd (refreshed tid w2)) as Hv2.
  { subst v2. rewrite Hv1. unfold step. simpl.
    rewrite undo_pushed; [|done|by cbn; rewrite Hundo].
    cbn. by rewrite Hundo. }
  (* the redo *)
  destruct (clock_refreshed tid w2) as [Hc2' Ht2'].
  destruct (update_record_run tid rid data (refreshed tid w2) Hne)
    as (w3 & Hredo & Hrows3 & Hcols3 & Hclk3 & Htk3).
  { apply Hdata_ok. by rewrite cols_of_refreshed. }
  rewrite rows_of_refreshed, Hrows2, lookup_insert_eq in Hrows3.
  rewrite Hc2', Ht2', Hclk2, Htk2, insert_insert_eq in Hrows3.
  assert (v3 = pushed v cmd (refreshed tid w3)) as Hv3.
  { subst v3. rewrite Hv2. unfold step. simpl.
    rewrite redo_undone; [|done|by cbn; rewrite Hredo].
    cbn. by rewrite Hredo. }
  assert (old ∪ (data ∪ r_cells row) = r_cells row) as Hback.
  { apply map_eq. intros k. unfold old.
    destruct (decide (k ∈ (fields v).*1)) as [Hin|Hnin].
    - apply list_elem_of_fmap in Hin as (f & -> & Hf).
      destruct (Hfields f Hf) as (_ & y & Hy & _).
      rewrite lookup_union_l'.
      + rewrite snapshot_lookup, decide_True, Hy; [done|].
        by apply list_elem_of_fmap_2.
      + rewrite snapshot_lookup, decide_True; [eauto|]. by apply list_elem_of_fmap_2.
    - rewrite lookup_union_r by (by rewrite snapshot_lookup, decide_False).
      rewrite lookup_union_r; [done|].
      destruct (data !! k) eqn:Hk; [|done]. exfalso. apply Hnin. eauto. }
  eexists _, _, _.
  rewrite Hv1, Hv2, Hv3. simpl. rewrite !rows_of_refreshed.
  split; [exact Hrows1|]. simpl. do 3 (split; [done|]).
  split; [exact Hrows2|]. simpl. split; [exact Hback|]. do 2 (split; [done|]).
  split; [exact Hrows3|]. simpl. split.
  { rewrite Hback. done. }
  do 2 (split; [done|]). done.
Qed.

End Editing.

(** ** The history after a new command; the cache of relation options *)

Section HistoryAndCache.
Context `{B : Builtins} `{E : SqlEngine}.

(** X11. Recording a command discards what could be redone: on a
    well-formed history [push_cmd] keeps the entries before the cursor,
    drops the entries from the cursor on, appends the new command and
    puts the cursor at the end, so that [redo] right after it returns at
    once and changes nothing.  The store is not touched. *)
Theorem push_cmd_discards_redo :
  ∀ (v : TableView) (label : string) (undo_fn redo_fn : Closure),
    history_ok v →
    let v' := snd (push_cmd label undo_fn redo_fn v) in
    _undo v' = take (Z.to_nat (_undo_idx v)) (_undo v)
               ++ [{| cmd_label := label; cmd_undo := undo_fn; cmd_redo := redo_fn |}]
    ∧ _undo_idx v' = _undo_idx v + 1
    ∧ _undo_idx v' = Z.of_nat (length (_undo v'))
    ∧ repo v' = repo v
    ∧ redo v' = (Ok tt, v').
Proof.
  intros v label u r [Hidx Hflag]. cbv zeta. rewrite push_cmd_run, Hflag. simpl.
  rewrite py_slice_to_in_range by lia.
  split; [done|]. split; [done|].
  assert (_undo_idx v + 1
          = Z.of_nat (length (take (Z.to_nat (_undo_idx v)) (_undo v)
                              ++ [{| cmd_label := label; cmd_undo := u; cmd_redo := r |}])))
    as Hlen.
  { rewrite length_app, length_take. simpl. lia. }
  split; [exact Hlen|]. split; [done|].
  unfold redo. munfold. simpl. rewrite <-Hlen. by rewrite Z.leb_refl.
Qed.

(** X12. [get_relation_options] never raises.  The first call for a
    table stores the list it returns in the cache of the view (the empty
    list when the query failed), and from then on every call for that
    table returns that list and touches nothing, whatever the repository
    holds by then. *)
Theorem get_relation_options_is_cached :
  ∀ (v : TableView) (rel_table_id : Z),
    ∃ opts v1,
      get_relation_options rel_table_id v = (Ok opts, v1)
      ∧ _relation_cache v1 !! rel_table_id = Some opts
      ∧ (∀ t, t ≠ rel_table_id → _relation_cache v1 !! t = _relation_cache v !! t)
      ∧ (∀ cached, _relation_cache v !! rel_table_id = Some cached →
                   opts = cached ∧ v1 = v)
      ∧ (∀ w, get_relation_options rel_table_id (set_repo w v1)
              = (Ok opts, set_repo w v1)).
Proof.
  intros v tid. unfold get_relation_options. munfold.
  destruct (_relation_cache v !! tid) as [cached|] eqn:Hc.
  - exists cached, v. split; [done|]. split; [done|]. split; [done|].
    split; [by intros ? [= <-]|]. intros w. simpl. by rewrite Hc.
  - assert (∀ (opts : list (Z * string)) (v0 : TableView),
              _relation_cache v0 = _relation_cache v →
              let v1 := set_relation_cache (<[tid := opts]> (_relation_cache v0)) v0 in
              _relation_cache v1 !! tid = Some opts
              ∧ (∀ t, t ≠ tid → _relation_cache v1 !! t = _relation_cache v !! t)
              ∧ (∀ cached, None = Some cached → opts = cached ∧ v1 = v)
              ∧ (∀ w, match _relation_cache (set_repo w v1) !! tid with
                      | Some o => ret o
                      | None =>
                          opts <- try_except
                            (rows <- on_repo (list_records tid "" 5000 [] None "ASC") ;;
                             rel_fields <- on_repo (list_fields tid true) ;;
                             ret ((λ r, (r.1, option_label (label_field rel_fields) r))
                                  <$> rows))
                            (λ _, ret []) ;;
                          modify (λ v, set_relation_cache
                                         (<[tid := opts]> (_relation_cache v)) v) ;;
                          ret opts
                      end (set_repo w v1) = (Ok opts, set_repo w v1))) as Hset.
    { intros opts v0 Hv0 v1. simpl. rewrite lookup_insert_eq.
      split; [done|]. split; [|split; [done|]].
      - intros t Ht. by rewrite lookup_insert_ne, Hv0.
      - intros w. done. }
    destruct (on_repo (list_records tid "" 5000 [] None "ASC") v) as [[rows|e] v0] eqn:Hq.
    + assert (_relation_cache v0 = _relation_cache v) as Hv0.
      { rewrite on_repo_run in Hq. by injection Hq as _ <-. }
      destruct (on_repo (list_fields tid true) v0) as [[fs|e] v0'] eqn:Hf.
      * assert (_relation_cache v0' = _relation_cache v) as Hv0'.
        { rewrite on_repo_run in Hf. injection Hf as _ <-. done. }
        eexists _, _. split; [reflexivity|].
        apply (Hset ((λ r, (r.1, option_label (label_field fs) r)) <$> rows) v0' Hv0').
      * assert (_relation_cache v0' = _relation_cache v) as Hv0'.
        { rewrite on_repo_run in Hf. injection Hf as _ <-. done. }
        eexists _, _. split; [reflexivity|]. apply (Hset [] v0' Hv0').
    + assert (_relation_cache v0 = _relation_cache v) as Hv0.
      { rewrite on_repo_run in Hq. by injection Hq as _ <-. }
      eexists _, _. split; [reflexivity|]. apply (Hset [] v0 Hv0).
Qed.

End HistoryAndCache.

(** ** Projects and tables: updates *)

Section Updates.
Context `{B : Builtins}.

(** What [update_project] comes to, case by case. *)
Lemma update_project_run pid name color parent w :
  update_project pid name color parent w
  = match name with
    | Some n =>
        if String.eqb (str_strip n) "" then (Raise ValueError, w)
        else sql_update_project pid (Some (str_strip n)) (color_or_default <$> color)
               (clock w (ticks w)) (set_ticks (S (ticks w)) w)
    | None =>
        match color with
        | Some c => sql_update_project pid None (Some (color_or_default c))
                      (clock w (ticks w)) (set_ticks (S (ticks w)) w)
        | None => (Ok tt, w)
        end
    end.
Proof.
  unfold update_project. munfold. destruct name as [n|].
  - destruct (String.eqb (str_strip n) ""); [done|]. by destruct color.
  - by destruct color.
Qed.

Lemma sql_update_project_effect pid name color ts w :
  let r := sql_update_project pid name color ts w in
  meta_tables (snd r) = meta_tables w ∧ meta_fields (snd r) = meta_fields w
  ∧ data (snd r) = data w ∧ meta_fields_seq (snd r) = meta_fields_seq w
  ∧ clock (snd r) = clock w ∧ ticks (snd r) = ticks w
  ∧ (∀ q, p_parent_id <$> meta_projects (snd r) !! q = p_parent_id <$> meta_projects w !! q)
  ∧ (∀ q, p_created_at <$> meta_projects (snd r) !! q
          = p_created_at <$> meta_projects w !! q)
  ∧ (∀ q, q ≠ pid → meta_projects (snd r) !! q = meta_projects w !! q)
  ∧ (fst r ≠ Ok tt → snd r = w).
Proof.
  unfold sql_update_project. destruct (meta_projects w !! pid) as [p|] eqn:Hp; [|done].
  destruct (match name with Some n => _ | None => false end); [done|]. simpl.
  do 6 (split; [done|]). split; [|split; [|split; [|done]]].
  - intros q. destruct (decide (q = pid)) as [->|Hne].
    + by rewrite lookup_insert_eq, Hp.
    + by rewrite lookup_insert_ne.
  - intros q. destruct (decide (q = pid)) as [->|Hne].
    + by rewrite lookup_insert_eq, Hp.
    + by rewrite lookup_insert_ne.
  - intros q Hne. by rewrite lookup_insert_ne.
Qed.

(** X13. [update_project] never moves a project: whatever it is given,
    [parent_id] included, every project keeps its parent, so the
    hierarchy of projects is the same after the call as before, and no
    project is created or deleted; tables, fields and data are not
    touched.  The argument [parent_id] has no effect on the outcome.  With
    neither a name nor a colour the call returns at once; a name that is
    blank after trimming raises [ValueError] and a name another project
    has raises [IntegrityError], both leaving the store unchanged but
    for the clock reading of the second.  Otherwise the project gets
    the trimmed name and the colour, the default colour when the given
    one is blank. *)
Theorem update_project_never_moves_a_project :
  ∀ (w : World) (project_id : Z) (name color : option string) (parent_id : option Z),
    let r := update_project project_id name color parent_id w in
    (∀ p c, child_of (meta_projects (snd r)) p c ↔ child_of (meta_projects w) p c)
    ∧ (∀ q, is_Some (meta_projects (snd r) !! q) ↔ is_Some (meta_projects w !! q))
    ∧ (∀ q, q ≠ project_id → meta_projects (snd r) !! q = meta_projects w !! q)
    ∧ meta_tables (snd r) = meta_tables w ∧ meta_fields (snd r) = meta_fields w
    ∧ data (snd r) = data w
    ∧ r = update_project project_id name color None w
    ∧ (name = None → color = None → r = (Ok tt, w))
    ∧ (∀ n, name = Some n → str_strip n = "" → r = (Raise ValueError, w))
    ∧ (∀ n, name = Some n → str_strip n ≠ "" →
         is_Some (meta_projects w !! project_id) →
         project_name_taken (str_strip n) project_id (meta_projects w) = true →
         r = (Raise IntegrityError, set_ticks (S (ticks w)) w))
    ∧ (∀ p, meta_projects w !! project_id = Some p →
         match name with
         | Some n => str_strip n ≠ ""
                     ∧ project_name_taken (str_strip n) project_id (meta_projects w) = false
         | None => color ≠ None
         end →
         fst r = Ok tt
         ∧ ∃ p', meta_projects (snd r) !! project_id = Some p'
                 ∧ p_name p' = match name with Some n => str_strip n | None => p_name p end
                 ∧ p_color p' = match color with
                                | Some c => color_or_default c
                                | None => p_color p
                                end
                 ∧ p_parent_id p' = p_parent_id p
                 ∧ p_created_at p' = p_created_at p
                 ∧ p_updated_at p' = clock w (ticks w)).
Proof.
  intros w pid name color parent r.
  assert (r = update_project pid name color None w) as Hsame.
  { subst r. by rewrite !update_project_run. }
  assert ((∀ q, p_parent_id <$> meta_projects (snd r) !! q
                = p_parent_id <$> meta_projects w !! q)
          ∧ (∀ q, q ≠ pid → meta_projects (snd r) !! q = meta_projects w !! q)
          ∧ meta_tables (snd r) = meta_tables w ∧ meta_fields (snd r) = meta_fields w
          ∧ data (snd r) = data w) as (Hpar & Hother & Ht & Hf & Hd).
  { subst r. rewrite update_project_run. destruct name as [n|].
    - destruct (String.eqb (str_strip n) ""); [done|].
      destruct (sql_update_project_effect pid (Some (str_strip n)) (color_or_default <$> color)
                  (clock w (ticks w)) (set_ticks (S (ticks w)) w))
        as (H1 & H2 & H3 & _ & _ & _ & H4 & _ & H5 & _).
      done.
    - destruct color as [c|]; [|done].
      destruct (sql_update_project_effect pid None (Some (color_or_default c))
                  (clock w (ticks w)) (set_ticks (S (ticks w)) w))
        as (H1 & H2 & H3 & _ & _ & _ & H4 & _ & H5 & _).
      done. }
  split.
  { intros p c. unfold child_of. specialize (Hpar c).
    destruct (meta_projects (snd r) !! c) as [row'|], (meta_projects w !! c) as [row|];
      simpl in Hpar; try done.
    injection Hpar as Hpar. split; intros (x & [= <-] & Hx); eexists; split; eauto; congruence. }
  split.
  { intros q. specialize (Hpar q).
    by destruct (meta_projects (snd r) !! q), (meta_projects w !! q). }
  do 4 (split; [done|]). split; [exact Hsame|].
  subst r. rewrite update_project_run. split; [by intros -> ->|].
  split.
  { intros n -> Hn. by rewrite Hn. }
  split.
  { intros n -> Hn [p Hp] Htaken. rewrite (proj2 (String.eqb_neq _ _) Hn).
    unfold sql_update_project. simpl. by rewrite Hp, Htaken. }
  intros p Hp Hcase. destruct name as [n|].
  - destruct Hcase as [Hn Hfree]. rewrite (proj2 (String.eqb_neq _ _) Hn).
    unfold sql_update_project. simpl. rewrite Hp, Hfree. simpl.
    split; [done|]. rewrite lookup_insert_eq. eexists. split; [done|]. simpl.
    by destruct color.
  - destruct color as [c|]; [|done].
    unfold sql_update_project. simpl. rewrite Hp. simpl.
    split; [done|]. rewrite lookup_insert_eq. eexists. split; [done|]. done.
Qed.

End Updates.

Section TableUpdates.
Context `{B : Builtins}.

(** X14. [rename_table] and [set_table_project] change one row of
    [meta_tables] or nothing.  [rename_table] raises [ValueError] for a
    name that is blank after trimming and [IntegrityError] for a name
    another table has; [set_table_project] raises [IntegrityError] for a
    project that does not exist; in each case no table changes.  For a
    table id that is not in [meta_tables] both return without an error
    and without a change.  Otherwise the table gets the trimmed name, or
    the project ([None] takes it out of its project), and a new
    [updated_at], and keeps its other columns; projects, fields and data
    are never touched. *)
Theorem table_updates_are_checked :
  ∀ (w : World) (table_id : Z) (new_name : string) (project_id : option Z),
    let r := rename_table table_id new_name w in
    let s := set_table_project table_id project_id w in
    (meta_projects (snd r) = meta_projects w ∧ meta_fields (snd r) = meta_fields w
     ∧ data (snd r) = data w
     ∧ (∀ t, t ≠ table_id → meta_tables (snd r) !! t = meta_tables w !! t)
     ∧ (fst r ≠ Ok tt → meta_tables (snd r) = meta_tables w)
     ∧ (str_strip new_name = "" → r = (Raise ValueError, w))
     ∧ (str_strip new_name ≠ "" → meta_tables w !! table_id = None →
        fst r = Ok tt ∧ meta_tables (snd r) = meta_tables w)
     ∧ (str_strip new_name ≠ "" → is_Some (meta_tables w !! table_id) →
        table_name_taken (str_strip new_name) table_id (meta_tables w) = true →
        fst r = Raise IntegrityError)
     ∧ (∀ row, str_strip new_name ≠ "" → meta_tables w !! table_id = Some row →
          table_name_taken (str_strip new_name) table_id (meta_tables w) = false →
          fst r = Ok tt
          ∧ meta_tables (snd r) !! table_id
            = Some {| t_name := str_strip new_name; t_project_id := t_project_id row;
                      t_created_at := t_created_at row;
                      t_updated_at := clock w (ticks w) |}))
    ∧ (meta_projects (snd s) = meta_projects w ∧ meta_fields (snd s) = meta_fields w
       ∧ data (snd s) = data w
       ∧ (∀ t, t ≠ table_id → meta_tables (snd s) !! t = meta_tables w !! t)
       ∧ (fst s ≠ Ok tt → meta_tables (snd s) = meta_tables w)
       ∧ (meta_tables w !! table_id = None →
          fst s = Ok tt ∧ meta_tables (snd s) = meta_tables w)
       ∧ (∀ p, project_id = Some p → is_Some (meta_tables w !! table_id) →
            meta_projects w !! p = None → fst s = Raise IntegrityError)
       ∧ (∀ row, meta_tables w !! table_id = Some row →
            (∀ p, project_id = Some p → is_Some (meta_projects w !! p)) →
            fst s = Ok tt
            ∧ meta_tables (snd s) !! table_id
              = Some {| t_name := t_name row; t_project_id := project_id;
                        t_created_at := t_created_at row;
                        t_updated_at := clock w (ticks w) |})).
Proof.
  intros w tid new_name pid r s.
  assert (∀ (P : Prop), is_Some (@None TableRow) → P) as Hnone.
  { intros P [? ?]. done. }
  split.
  - subst r. unfold rename_table. cbv zeta.
    destruct (String.eqb_spec (str_strip new_name) "") as [Hblank|Hname].
    { repeat split; intros; simplify_eq/=; done. }
    munfold. unfold now_iso, sql_rename_table. simpl.
    destruct (meta_tables w !! tid) as [row|] eqn:Hrow.
    2:{ repeat split; intros; simplify_eq/=; try done; by eapply Hnone. }
    destruct (table_name_taken (str_strip new_name) tid (meta_tables w)) eqn:Htaken; simpl.
    + repeat split; intros; simplify_eq/=; done.
    + repeat split; intros; simplify_eq/=; try done;
        try (by rewrite lookup_insert_ne); try (by rewrite lookup_insert_eq).
  - subst s. unfold set_table_project. munfold. unfold now_iso, sql_set_table_project.
    simpl. destruct (meta_tables w !! tid) as [row|] eqn:Hrow.
    2:{ repeat split; intros; simplify_eq/=; try done; by eapply Hnone. }
    destruct pid as [p|].
    + case_bool_decide as Hp; simpl.
      * repeat split; intros; simplify_eq/=; try done;
          match goal with
          | H : ∀ p0, Some _ = Some p0 → is_Some _ |- _ =>
              destruct (H _ eq_refl) as [? Hx]; congruence
          end.
      * repeat split; intros; simplify_eq/=; try done;
          try (by rewrite lookup_insert_ne); try (by rewrite lookup_insert_eq).
    + simpl. repeat split; intros; simplify_eq/=; try done;
        try (by rewrite lookup_insert_ne); try (by rewrite lookup_insert_eq).
Qed.

End TableUpdates.

(** ** Creating and deleting a table *)

Lemma lift_run {A} (m : M World A) c :
  lift m c = (fst (m (world c)), set_world (snd (m (world c))) c).
Proof. unfold lift. by destruct (m (world c)). Qed.

Section Tables.
Context `{B : Builtins}.

(** X15. [create_table] with a name that is blank after trimming raises
    [ValueError] and changes nothing.  With a name another table has, or
    a project that does not exist, it raises [IntegrityError] after one
    clock reading and creates nothing.  Otherwise it returns the id of a
    new row of [meta_tables]: the id is larger than the id of every table
    and than the AUTOINCREMENT counter, which it becomes; the row carries
    the trimmed name, the project and the clock reading; the data table
    of that id exists afterwards (one that was there already is kept as
    it is, rows included); nothing else changes. *)
Theorem create_table_provisions :
  ∀ (c : Catalog) (name : string) (project_id : option Z),
    let w := world c in
    let r := create_table name project_id c in
    (str_strip name = "" → r = (Raise ValueError, c))
    ∧ (str_strip name ≠ "" →
       (∃ k t, meta_tables w !! k = Some t ∧ t_name t = str_strip name)
       ∨ (∃ p, project_id = Some p ∧ meta_projects w !! p = None) →
       r = (Raise IntegrityError, set_world (set_ticks (S (ticks w)) w) c))
    ∧ (str_strip name ≠ "" →
       (∀ k t, meta_tables w !! k = Some t → t_name t ≠ str_strip name) →
       (∀ p, project_id = Some p → is_Some (meta_projects w !! p)) →
       ∃ tid c',
         r = (Ok tid, c')
         ∧ (∀ k, is_Some (meta_tables w !! k) → k < tid)
         ∧ meta_tables_seq c < tid ∧ meta_tables_seq c' = tid
         ∧ meta_tables (world c')
           = <[tid := {| t_name := str_strip name; t_project_id := project_id;
                         t_created_at := clock w (ticks w);
                         t_updated_at := clock w (ticks w) |}]> (meta_tables w)
         ∧ data (world c') !! tid = Some (table_of w tid)
         ∧ (∀ t, t ≠ tid → data (world c') !! t = data w !! t)
         ∧ meta_projects (world c') = meta_projects w
         ∧ meta_fields (world c') = meta_fields w
         ∧ meta_views c' = meta_views c ∧ meta_table_prefs c' = meta_table_prefs c
         ∧ meta_projects_seq c' = meta_projects_seq c).
Proof.
  intros c name pid w r. subst r. unfold create_table. cbv zeta.
  destruct (String.eqb_spec (str_strip name) "") as [Hblank|Hname].
  { repeat split; intros; simplify_eq/=; done. }
  split; [done|]. munfold. rewrite lift_run. unfold now_iso. simpl.
  unfold sql_insert_table. simpl. fold w. split.
  - intros _ Hbad.
    assert (bool_decide (map_Exists (λ _ t, t_name t = str_strip name) (meta_tables w))
            || match pid with
               | Some p => bool_decide (meta_projects w !! p = None)
               | None => false
               end = true) as ->; [|done].
    destruct Hbad as [(k & t & Hk & Ht)|(p & -> & Hp)].
    + rewrite bool_decide_eq_true_2; [done|]. exists k, t. done.
    + rewrite (bool_decide_eq_true_2 (meta_projects w !! p = None)) by done.
      by rewrite orb_true_r.
  - intros _ Hfree Hproj.
    rewrite bool_decide_eq_false_2.
    2:{ intros (k & t & Hk & Ht). by apply (Hfree k t). }
    assert (match pid with
            | Some p => bool_decide (meta_projects w !! p = None)
            | None => false
            end = false) as ->.
    { destruct pid as [p|]; [|done]. apply bool_decide_eq_false_2.
      destruct (Hproj p eq_refl) as [? Hx]. congruence. }
    simpl. rewrite lift_run, ensure_run. simpl.
    set (tid := next_rowid (meta_tables_seq c) (meta_tables w)).
    eexists tid, _. split; [reflexivity|].
    split; [intros k Hk; by apply max_rowid_next|].
    split; [unfold tid, next_rowid; lia|]. split; [done|]. split; [done|].
    simpl. split; [by rewrite lookup_insert_eq|].
    split; [intros t Ht; by rewrite lookup_insert_ne|]. done.
Qed.

End Tables.

Lemma filter_all_id {A} (P : A → Prop) `{∀ x, Decision (P x)} (l : list A) :
  (∀ x, x ∈ l → P x) → filter P l = l.
Proof.
  induction l as [|x l IH]; intros Hall; [done|].
  rewrite filter_cons_True by (apply Hall; left).
  rewrite IH; [done|]. intros y Hy. apply Hall. by right.
Qed.

(** The fields of a table that is gone. *)
Lemma list_fields_filtered tid active_only (P : Z * FieldRow → Prop)
    `{∀ x, Decision (P x)} w w' l :
  meta_fields w' = filter P (meta_fields w) →
  list_fields tid active_only w = (Ok l, w) →
  list_fields tid active_only w' = (Ok (filter P l), w').
Proof.
  intros Hmf Hl. apply list_fields_inv in Hl as (Hs & Hnd & Hin).
  apply list_fields_characterised.
  - by apply Sorted_filter_trans; [apply _|].
  - clear -Hnd. induction l as [|x l IH]; [constructor|].
    rewrite fmap_cons in Hnd. apply NoDup_cons in Hnd as [Hx Hl].
    destruct (decide (P x)).
    + rewrite filter_cons_True by done. rewrite fmap_cons. apply NoDup_cons.
      split; [|auto]. intros Hin. apply Hx.
      apply list_elem_of_fmap in Hin as (y & -> & Hy).
      apply list_elem_of_filter in Hy as [_ Hy]. by apply list_elem_of_fmap_2.
    + rewrite filter_cons_False by done. auto.
  - intros k f. rewrite list_elem_of_filter, Hin, Hmf, map_lookup_filter_Some. tauto.
Qed.

Lemma list_fields_after_delete w w' tid :
  meta_fields w' = filter (λ kv, f_table_id kv.2 ≠ tid) (meta_fields w) →
  (∀ active_only, list_fields tid active_only w' = (Ok [], w'))
  ∧ (∀ other active_only, other ≠ tid →
       fst (list_fields other active_only w') = fst (list_fields other active_only w)).
Proof.
  intros Hmf. split.
  - intros a. apply list_fields_characterised; [constructor|constructor|].
    intros k f. rewrite Hmf, map_lookup_filter_Some. simpl. split.
    + by intros Hin%elem_of_nil.
    + intros ([_ Hne] & Heq & _). done.
  - intros other a Hne.
    rewrite (list_fields_filtered other a (λ kv, f_table_id kv.2 ≠ tid) w w' _ Hmf
               (list_fields_run other a w)).
    rewrite list_fields_run. simpl. f_equal. apply filter_all_id.
    intros [k f]. rewrite merge_sort_Permutation, list_elem_of_filter. simpl.
    intros [[Ht _] _]. congruence.
Qed.

(** X16. [delete_table] never raises.  It removes the row of
    [meta_tables] and, with it, every field, every saved view and the
    preferences of that table, and it drops the data table with its rows,
    its columns and its AUTOINCREMENT counter.  Every other table keeps
    its row, its fields in their order, its views, its preferences and
    its data; projects and the counters of the catalog are not touched.
    For an id that is no table nothing changes but the data table of that
    id, which is dropped if there is one. *)
Theorem delete_table_cascades :
  ∀ (c : Catalog) (table_id : Z),
    let w := world c in
    ∃ c',
      delete_table table_id c = (Ok tt, c')
      ∧ meta_tables (world c') = delete table_id (meta_tables w)
      ∧ data (world c') = delete table_id (data w)
      ∧ meta_projects (world c') = meta_projects w
      ∧ meta_fields_seq (world c') = meta_fields_seq w
      ∧ meta_tables_seq c' = meta_tables_seq c
      ∧ meta_projects_seq c' = meta_projects_seq c
      ∧ meta_views_seq c' = meta_views_seq c
      ∧ clock (world c') = clock w ∧ ticks (world c') = ticks w
      ∧ (is_Some (meta_tables w !! table_id) →
         (∀ fid f, meta_fields (world c') !! fid = Some f
                   ↔ meta_fields w !! fid = Some f ∧ f_table_id f ≠ table_id)
         ∧ (∀ vid v, meta_views c' !! vid = Some v
                     ↔ meta_views c !! vid = Some v ∧ vw_table_id v ≠ table_id)
         ∧ meta_table_prefs c' = delete table_id (meta_table_prefs c)
         ∧ (∀ active_only,
              list_fields table_id active_only (world c') = (Ok [], world c'))
         ∧ (∀ other active_only, other ≠ table_id →
              fst (list_fields other active_only (world c'))
              = fst (list_fields other active_only w)))
      ∧ (meta_tables w !! table_id = None →
         meta_fields (world c') = meta_fields w ∧ meta_views c' = meta_views c
         ∧ meta_table_prefs c' = meta_table_prefs c).
Proof.
  intros c tid w. unfold delete_table, sql_delete_table. munfold. rewrite lift_run.
  unfold sql_drop_data_table. simpl. fold w.
  destruct (meta_tables w !! tid) as [row|] eqn:Hrow; simpl.
  - eexists. split; [reflexivity|]. simpl. do 9 (split; [done|]).
    split; [|by intros [=]]. intros _.
    split; [intros fid f; by rewrite map_lookup_filter_Some|].
    split; [intros vid v; by rewrite map_lookup_filter_Some|].
    split; [done|].
    apply (list_fields_after_delete w). reflexivity.
  - eexists. split; [reflexivity|]. simpl. rewrite delete_id by done.
    do 9 (split; [done|]). split; [by intros [? ?]|]. done.
Qed.

(** ** What every database the repository produces satisfies *)

Lemma evolves_refl w : evolves w w.
Proof. repeat split; eauto. Qed.

Lemma evolves_trans w1 w2 w3 : evolves w1 w2 → evolves w2 w3 → evolves w1 w3.
Proof.
  intros (Hp1 & Ht1 & Hf1 & Hs1 & Hc1) (Hp2 & Ht2 & Hf2 & Hs2 & Hc2).
  split; [|split; [|split; [|split]]].
  - intros id p3 H3. destruct (Hp2 _ _ H3) as (p2 & H2 & Hpar2).
    destruct (Hp1 _ _ H2) as (p1 & H1 & Hpar1). exists p1. split; [done|].
    destruct Hpar2 as [?|Hpar2]; [by left|]. rewrite Hpar2. done.
  - auto.
  - intros k f3 H3. destruct (Hf2 _ _ H3) as (f2 & H2 & Htid2).
    destruct (Hf1 _ _ H2) as (f1 & H1 & Htid1). exists f1. split; [done|]. congruence.
  - congruence.
  - intros t. by rewrite Hc2.
Qed.

(** A store that differs in the clock reading, the rows of the data
    tables and the rows of [meta_tables] other than their ids. *)
Lemma evolves_same w w' :
  meta_projects w' = meta_projects w →
  (∀ t, is_Some (meta_tables w !! t) → is_Some (meta_tables w' !! t)) →
  meta_fields w' = meta_fields w → meta_fields_seq w' = meta_fields_seq w →
  (∀ t, cols_of w' t = cols_of w t) →
  evolves w w'.
Proof.
  intros Hp Ht Hf Hs Hc. split; [|split; [|split; [|split]]]; try done.
  - intros id p'. rewrite Hp. eauto.
  - intros k f'. rewrite Hf. eauto.
Qed.

Lemma evolves_keeps w w' :
  evolves w w' →
  parents_first (meta_projects w) ∧ fields_have_columns w →
  parents_first (meta_projects w') ∧ fields_have_columns w'.
Proof.
  intros (Hp & Ht & Hf & Hs & Hc) (Hpf & Hfc1 & Hfc2). split; [|split].
  - intros id p' q Hid Hq. destruct (Hp _ _ Hid) as (p & Hid0 & [Hnone|Hsame]);
      [congruence|]. eapply Hpf; [done|]. congruence.
  - intros fid f' Hfid. destruct (Hf _ _ Hfid) as (f & Hfid0 & Htid).
    destruct (Hfc1 _ _ Hfid0) as [Hex Hcol]. rewrite Htid, Hc. auto.
  - intros t k. rewrite Hc, Hs. apply Hfc2.
Qed.

Lemma evolves_set_ticks n w : evolves w (set_ticks n w).
Proof. by apply evolves_same. Qed.

Lemma evolves_ensure tid w : evolves w (snd (_ensure_data_table tid w)).
Proof.
  apply evolves_same; try (unfold _ensure_data_table; by destruct (data w !! tid)).
  intros t. apply cols_of_ensure.
Qed.

Lemma cols_of_provisioned tid t w :
  cols_of (set_data (<[tid := table_of w tid]> (data w)) w) t = cols_of w t.
Proof.
  pose proof (cols_of_ensure t tid w) as H. by rewrite ensure_run in H.
Qed.

Lemma for_each_evolves {A} (f : A → M World unit) cs :
  (∀ c w, evolves w (snd (f c w))) →
  ∀ w, evolves w (snd (for_each cs f w)).
Proof.
  intros Hf. induction cs as [|c cs IH]; intros w; [apply evolves_refl|].
  simpl. unfold bind. specialize (Hf c w).
  destruct (f c w) as [[[]|e] w1]; [|done].
  eapply evolves_trans; [exact Hf|apply IH].
Qed.

Lemma release_and_delete_evolves pid w :
  evolves w (snd (release_and_delete pid w)).
Proof.
  unfold release_and_delete, now_iso, sql_delete_project. munfold. simpl.
  destruct (meta_projects w !! pid) as [row|] eqn:Hrow; simpl.
  - split; [|split; [|split; [|split]]]; simpl; try done.
    + intros id p'. unfold fk_projects_set_null. rewrite lookup_fmap.
      destruct (decide (id = pid)) as [->|Hne].
      { by rewrite lookup_delete_eq. }
      rewrite lookup_delete_ne by done.
      destruct (meta_projects w !! id) as [p|]; [|done]. simpl.
      intros [= <-]. exists p. split; [done|].
      destruct (option_Z_eqb _ _); simpl; auto.
    + intros t. unfold fk_tables_set_null, sql_orphan_tables.
      by rewrite !lookup_fmap, !fmap_is_Some.
    + eauto.
  - apply evolves_same; simpl; try done.
    intros t. unfold sql_orphan_tables. by rewrite lookup_fmap, fmap_is_Some.
Qed.

Lemma delete_project_evolves n : ∀ pid w, evolves w (snd (delete_project n pid w)).
Proof.
  induction n as [|n IH]; intros pid w; [apply evolves_refl|].
  rewrite delete_project_unfold. unfold bind.
  pose proof (for_each_evolves (λ cid, delete_project n cid)
                (select_ids (λ _ p, option_Z_eqb (p_parent_id p) pid) (meta_projects w))
                (λ c w, IH c w) w) as Hloop.
  destruct (for_each _ _ w) as [[[]|e] wk]; [|done].
  eapply evolves_trans; [exact Hloop|apply release_and_delete_evolves].
Qed.

Lemma alter_fields_evolves (g : FieldRow → FieldRow) fid w :
  (∀ f, f_table_id (g f) = f_table_id f) →
  evolves w (set_meta_fields (alter g fid (meta_fields w)) (meta_fields_seq w) w).
Proof.
  intros Hg. split; [|split; [|split; [|split]]]; simpl; try done; eauto.
  intros k f'. destruct (decide (k = fid)) as [->|Hne].
  - rewrite lookup_alter_eq. destruct (meta_fields w !! fid) as [f|]; [|done].
    simpl. intros [= <-]. eauto.
  - rewrite lookup_alter_ne by done. eauto.
Qed.

Lemma deactivate_field_evolves fid w : evolves w (snd (deactivate_field fid w)).
Proof.
  unfold deactivate_field, now_iso. munfold. simpl.
  eapply evolves_trans; [apply (evolves_set_ticks (S (ticks w)))|].
  by apply (alter_fields_evolves _ fid (set_ticks (S (ticks w)) w)).
Qed.

Lemma set_table_project_evolves tid pid w :
  evolves w (snd (set_table_project tid pid w)).
Proof.
  unfold set_table_project, now_iso, sql_set_table_project. munfold. simpl.
  destruct (meta_tables w !! tid) as [t|] eqn:Ht; [|by apply evolves_same].
  destruct (match pid with Some p => _ | None => false end);
    [by apply evolves_same|].
  apply evolves_same; simpl; try done.
  intros t0 Ht0. destruct (decide (t0 = tid)) as [->|Hne].
  - by rewrite lookup_insert_eq.
  - by rewrite lookup_insert_ne.
Qed.

Lemma record_op_evolves o w : evolves w (snd (record_op o w)).
Proof.
  destruct (record_op_frame o w) as (Hp & Ht & Hf & Hs & _ & Hc & _).
  apply evolves_same; try done. intros t. by rewrite Ht.
Qed.

Lemma with_table_evolves {A} tid (g : DataTable → Exn + A) w :
  evolves w (snd (with_table tid (λ t, match g t with
                                       | inl e => inl e
                                       | inr a => inr (a, t)
                                       end) w)).
Proof. rewrite with_table_same. apply evolves_refl. Qed.

(** A statement that only reads leaves the store as it is. *)
Lemma with_table_read {A} tid (f : DataTable → Exn + (A * DataTable)) w :
  (∀ t a t', f t = inr (a, t') → t' = t) → snd (with_table tid f w) = w.
Proof.
  intros Hf. unfold with_table. destruct (data w !! tid) as [t|] eqn:Ht; [|done].
  destruct (f t) as [e|[a t']] eqn:Hft; [done|]. simpl.
  rewrite (Hf _ _ _ Hft), insert_id by done. by destruct w.
Qed.

Section WithBuiltinsEvolves.
Context `{B : Builtins} `{E : SqlEngine}.

Lemma get_display_map_evolves tid dfid ids w :
  evolves w (snd (get_display_map tid dfid ids w)).
Proof.
  unfold get_display_map. destruct (filter _ ids) as [|i l]; [apply evolves_refl|].
  destruct (dfid =? 0); [apply evolves_refl|]. munfold.
  pose proof (evolves_ensure tid w) as He.
  destruct (_ensure_data_table tid w) as [[[]|e] w1]; [|done]. simpl in He.
  eapply evolves_trans; [exact He|].
  pose proof (with_table_evolves tid
    (λ t, match dt_columns t !! dfid with
          | None => inl OperationalError
          | Some _ => inr (filter (λ r, r.1 ∈ i :: l) (map_to_list (dt_rows t)))
          end) w1) as Hw.
  match goal with
  | |- context [with_table tid ?f w1] =>
      assert (with_table tid f w1
              = with_table tid (λ t, match match dt_columns t !! dfid with
                                           | None => inl OperationalError
                                           | Some _ => inr (filter (λ r, r.1 ∈ i :: l)
                                                              (map_to_list (dt_rows t)))
                                           end with
                                     | inl e => inl e
                                     | inr a => inr (a, t)
                                     end) w1) as ->
  end.
  { unfold with_table. destruct (data w1 !! tid) as [t|]; [|done].
    by destruct (dt_columns t !! dfid). }
  destruct (with_table _ _ w1) as [[rows|e] w2]; done.
Qed.

Lemma list_relation_options_evolves tid dfid limit w :
  evolves w (snd (list_relation_options tid dfid limit w)).
Proof.
  unfold list_relation_options. munfold.
  pose proof (evolves_ensure tid w) as He.
  destruct (_ensure_data_table tid w) as [[[]|e] w1]; [|done]. simpl in He.
  eapply evolves_trans; [exact He|].
  destruct (dfid =? 0).
  - match goal with
    | |- context [with_table tid ?f w1] =>
        pose proof (with_table_read tid f w1) as Hw
    end.
    destruct (with_table _ _ w1) as [[rows|e] w2]; simpl in *;
      (rewrite Hw; [apply evolves_refl|]);
      intros t a t'; destruct (int64 limit); congruence.
  - match goal with
    | |- context [with_table tid ?f w1] =>
        pose proof (with_table_read tid f w1) as Hw
    end.
    destruct (with_table _ _ w1) as [[rows|e] w2]; simpl in *;
      (rewrite Hw; [apply evolves_refl|]);
      intros t a t'; destruct (dt_columns t !! dfid), (int64 limit); congruence.
Qed.

Lemma reorder_fields_evolves tid ids w : evolves w (snd (reorder_fields tid ids w)).
Proof.
  unfold reorder_fields. destruct (filter _ ids) as [|i l] eqn:Hids; [apply evolves_refl|].
  destruct (reorder_loop_spec tid (i :: l) 1 w)
    as (_ & (Hp & Ht & Hd & Hs) & Hnone & Hsome & _).
  fold (reorder_loop tid 1 (i :: l)).
  split; [|split; [|split; [|split]]].
  - intros id p'. rewrite Hp. eauto.
  - intros t. by rewrite Ht.
  - intros k f' Hk. destruct (meta_fields w !! k) as [f|] eqn:Hk0.
    + destruct (Hsome _ _ Hk0) as (f2 & Hk2 & Hsame). exists f. split; [done|].
      rewrite Hk in Hk2. injection Hk2 as <-. apply Hsame.
    + rewrite (Hnone _ Hk0) in Hk. done.
  - done.
  - intros t. unfold cols_of. by rewrite Hd.
Qed.

Lemma rename_field_evolves fid name w : evolves w (snd (rename_field fid name w)).
Proof.
  unfold rename_field. cbv zeta. destruct (String.eqb _ ""); [apply evolves_refl|].
  unfold now_iso. munfold. simpl.
  eapply evolves_trans; [apply (evolves_set_ticks (S (ticks w)))|].
  by apply (alter_fields_evolves _ fid (set_ticks (S (ticks w)) w)).
Qed.

Lemma update_project_evolves pid name color parent w :
  evolves w (snd (update_project pid name color parent w)).
Proof.
  rewrite update_project_run.
  assert (∀ name color, evolves w (snd (sql_update_project pid name color
                                          (clock w (ticks w)) (set_ticks (S (ticks w)) w))))
    as Hsql.
  { intros n c.
    destruct (sql_update_project_effect pid n c (clock w (ticks w))
                (set_ticks (S (ticks w)) w)) as (Ht & Hf & Hd & Hs & _ & _ & Hpar & _).
    split; [|split; [|split; [|split]]].
    - intros id p' Hid. specialize (Hpar id). rewrite Hid in Hpar. simpl in Hpar.
      destruct (meta_projects w !! id) as [p|]; [|done]. exists p. split; [done|].
      simpl in Hpar. right. congruence.
    - intros t. by rewrite Ht.
    - intros k f'. rewrite Hf. eauto.
    - by rewrite Hs.
    - intros t. unfold cols_of. by rewrite Hd. }
  destruct name as [n|].
  - destruct (String.eqb _ ""); [apply evolves_refl|]. apply Hsql.
  - destruct color; [apply Hsql|apply evolves_refl].
Qed.

Lemma rename_table_evolves tid name w : evolves w (snd (rename_table tid name w)).
Proof.
  unfold rename_table. cbv zeta. destruct (String.eqb _ ""); [apply evolves_refl|].
  unfold now_iso, sql_rename_table. munfold. simpl.
  destruct (meta_tables w !! tid) as [t|] eqn:Ht; [|by apply evolves_same].
  destruct (table_name_taken _ _ _); [by apply evolves_same|].
  apply evolves_same; simpl; try done.
  intros t0 Ht0. destruct (decide (t0 = tid)) as [->|Hne].
  - by rewrite lookup_insert_eq.
  - by rewrite lookup_insert_ne.
Qed.

Lemma list_records_evolves tid query limit filters sfid sdir w :
  evolves w (snd (list_records tid query limit filters sfid sdir w)).
Proof. rewrite list_records_state. apply evolves_ensure. Qed.

End WithBuiltinsEvolves.

Lemma lift_world {A} (m : M World A) c : world (snd (lift m c)) = snd (m (world c)).
Proof. rewrite lift_run. done. Qed.

Lemma snd_bind_ret {S A} (m : M S A) s : snd ((m ;; ret tt) s) = snd (m s).
Proof. unfold bind, ret. by destruct (m s) as [[a|e] s']. Qed.

Lemma well_formed_evolves w w' : evolves w w' → well_formed w → well_formed w'.
Proof. apply evolves_keeps. Qed.

Lemma delete_table_keeps tid c :
  well_formed (world c) → well_formed (world (snd (delete_table tid c))).
Proof.
  intros (Hpf & Hfc1 & Hfc2).
  unfold delete_table, sql_delete_table. munfold. rewrite lift_run. simpl.
  destruct (meta_tables (world c) !! tid) as [row|] eqn:Hrow; simpl.
  - split; [done|]. split; simpl.
    + intros fid f Hf. apply map_lookup_filter_Some in Hf as [Hf Hne]. simpl in Hne.
      destruct (Hfc1 _ _ Hf) as [Hex Hcol]. split.
      * by rewrite lookup_delete_ne.
      * unfold cols_of in *. simpl. by rewrite lookup_delete_ne.
    + intros t k. unfold cols_of. simpl. destruct (decide (t = tid)) as [->|Hne].
      * rewrite lookup_delete_eq. by intros [? ?].
      * rewrite lookup_delete_ne by done. apply Hfc2.
  - split; [done|]. split; simpl.
    + intros fid f Hf. destruct (Hfc1 _ _ Hf) as [Hex Hcol]. split; [done|].
      assert (f_table_id f ≠ tid) as Hne.
      { intros Heq. rewrite Heq, Hrow in Hex. by destruct Hex. }
      unfold cols_of in *. simpl. by rewrite lookup_delete_ne.
    + intros t k. unfold cols_of. simpl. destruct (decide (t = tid)) as [->|Hne].
      * rewrite lookup_delete_eq. by intros [? ?].
      * rewrite lookup_delete_ne by done. apply Hfc2.
Qed.

Lemma init_db_evolves c : evolves (world c) (world (snd (_init_db c))).
Proof.
  unfold _init_db. munfold. rewrite lift_run. simpl.
  split; [|split; [|split; [|split]]]; simpl; try done; eauto.
  intros k f'. rewrite map_lookup_imap.
  destruct (meta_fields (world c) !! k) as [f|]; [|done]. simpl.
  intros [= <-]. exists f. split; [done|]. unfold backfill_field.
  by destruct (f_position f).
Qed.

Lemma save_table_prefs_evolves tid prefs c :
  evolves (world c) (world (snd (save_table_prefs tid prefs c))).
Proof.
  unfold save_table_prefs. munfold. rewrite lift_run. unfold now_iso. simpl.
  destruct (meta_tables (world c) !! tid); simpl; apply evolves_set_ticks.
Qed.

Lemma delete_view_evolves vid c : evolves (world c) (world (snd (delete_view vid c))).
Proof. apply evolves_refl. Qed.

Section WithBuiltinsKeeps.
Context `{B : Builtins} `{E : SqlEngine}.

Lemma create_view_evolves tid name view c :
  evolves (world c) (world (snd (create_view tid name view c))).
Proof.
  unfold create_view. cbv zeta. destruct (String.eqb _ ""); [apply evolves_refl|].
  munfold. rewrite lift_run. unfold now_iso, sql_insert_view. simpl.
  destruct (_ || _); simpl; apply evolves_set_ticks.
Qed.

Lemma update_view_evolves vid name view c :
  evolves (world c) (world (snd (update_view vid name view c))).
Proof.
  assert (∀ n v, evolves (world c)
            (world (snd ((ts <- lift now_iso ;; sql_update_view vid n v ts) c)))) as Hsql.
  { intros n v. munfold. rewrite lift_run. unfold now_iso, sql_update_view. simpl.
    destruct (meta_views c !! vid) as [row|]; simpl; [|apply evolves_set_ticks].
    destruct (match n with Some _ => _ | None => false end); simpl;
      apply evolves_set_ticks. }
  unfold update_view. unfold bind at 1. destruct name as [n|].
  - destruct (String.eqb _ ""); [apply evolves_refl|]. unfold ret at 1. apply Hsql.
  - unfold ret at 1. destruct view; [apply Hsql|apply evolves_refl].
Qed.

Lemma create_table_evolves name pid c :
  evolves (world c) (world (snd (create_table name pid c))).
Proof.
  unfold create_table. cbv zeta. destruct (String.eqb _ ""); [apply evolves_refl|].
  munfold. rewrite lift_run. unfold now_iso, sql_insert_table. simpl.
  destruct (_ || _); simpl; [apply evolves_set_ticks|].
  rewrite lift_run, ensure_run. simpl.
  set (tid := next_rowid _ _). set (w1 := set_meta_tables _ _).
  apply evolves_same; try done; simpl.
  - intros t Ht. destruct (decide (t = tid)) as [->|Hne].
    + by rewrite lookup_insert_eq.
    + by rewrite lookup_insert_ne.
  - intros t. change (data (world c)) with (data w1).
    by rewrite (cols_of_provisioned tid t w1).
Qed.

Lemma create_project_keeps name color parent c :
  call_ok c (CreateProject name color parent) →
  well_formed (world c) → well_formed (world (snd (create_project name color parent c))).
Proof.
  intros Hok Hwf. unfold create_project. cbv zeta.
  destruct (String.eqb _ ""); [done|].
  munfold. rewrite lift_run. unfold now_iso, sql_insert_project. simpl.
  destruct (_ || _); simpl.
  { eapply well_formed_evolves; [apply evolves_set_ticks|done]. }
  destruct Hwf as (Hpf & Hfc). split; [|done]. simpl.
  set (pid := next_rowid _ _).
  intros id p q Hid Hq. destruct (decide (id = pid)) as [->|Hne].
  - rewrite lookup_insert_eq in Hid. injection Hid as <-. simpl in Hq. subst parent.
    simpl in Hok. by apply max_rowid_next.
  - rewrite lookup_insert_ne in Hid by done. eauto.
Qed.

End WithBuiltinsKeeps.

(** [_ensure_column] on a data table that exists: the column is there
    afterwards, and it is the only one that may be new. *)
Lemma ensure_column_effect tid k ddl w t :
  data w !! tid = Some t →
  let w' := snd (_ensure_column tid (c_f k) ddl w) in
  meta_projects w' = meta_projects w ∧ meta_tables w' = meta_tables w
  ∧ meta_fields w' = meta_fields w ∧ meta_fields_seq w' = meta_fields_seq w
  ∧ (∀ t0 k', is_Some (cols_of w' t0 !! k')
              ↔ (t0 = tid ∧ k' = k) ∨ is_Some (cols_of w t0 !! k')).
Proof.
  intros Ht. unfold _ensure_column, _table_columns, sql_add_column. munfold.
  rewrite Ht. simpl. case_bool_decide as Hk; simpl.
  - do 4 (split; [done|]). intros t0 k'. split; [auto|].
    intros [[-> ->]|H]; [|done]. unfold cols_of. by rewrite Ht.
  - rewrite Ht. destruct (dt_columns t !! k) eqn:Hc; [exfalso; apply Hk; eauto|].
    simpl. do 4 (split; [done|]). intros t0 k'. unfold cols_of. simpl.
    destruct (decide (t0 = tid)) as [->|Hne].
    + rewrite lookup_insert_eq, Ht. simpl. destruct (decide (k' = k)) as [->|Hnek].
      * rewrite lookup_insert_eq. split; [auto|eauto].
      * rewrite lookup_insert_ne by done. split; [auto|]. intros [[_ ?]|H]; done.
    + rewrite lookup_insert_ne by done. split; [auto|]. intros [[? _]|H]; done.
Qed.

Section AddFieldKeeps.
Context `{B : Builtins}.

Lemma add_field_keeps tid name ftype required options w :
  well_formed w → well_formed (snd (add_field tid name ftype required options w)).
Proof.
  intros Hwf.
  destruct (add_field_valid name ftype (options_or_empty options)) eqn:Hv.
  2:{ by rewrite (add_field_invalid _ _ _ _ _ _ Hv). }
  pose proof (add_field_valid_run tid name ftype required options w Hv) as Hrun.
  destruct (meta_tables w !! tid) as [trow|] eqn:Hmt.
  2:{ rewrite Hrun. simpl. eapply well_formed_evolves; [apply evolves_set_ticks|done]. }
  clear Hrun. rewrite (add_field_valid_prefix _ _ _ _ _ _ Hv).
  assert (str_in ftype FIELD_TYPES = true) as Hft.
  { unfold add_field_valid in Hv. by destruct (str_in ftype FIELD_TYPES), (negb _). }
  set (row := new_field_row _ _ _ _ _ _).
  unfold bind at 1. unfold sql_insert_field at 1.
  change (f_table_id row) with tid.
  change (meta_tables (set_ticks (S (ticks w)) w)) with (meta_tables w).
  rewrite Hmt.
  cbn [meta_fields_seq meta_fields set_ticks].
  set (fid := next_rowid _ _).
  set (w1 := set_meta_fields _ _ _).
  unfold bind at 1. rewrite ensure_run.
  set (w2 := set_data _ w1).
  unfold bind at 1. destruct (ddl_for_field_valid ftype w2 Hft) as [ddl ->].
  unfold bind at 1.
  assert (data w2 !! tid = Some (table_of w1 tid)) as Ht2.
  { subst w2. simpl. by rewrite lookup_insert_eq. }
  pose proof (ensure_column_field_ok tid fid ddl w2 _ Ht2) as Hok.
  destruct (ensure_column_effect tid fid ddl w2 _ Ht2) as (Hp & Ht & Hf & Hs & Hc).
  destruct (_ensure_column tid (c_f fid) ddl w2) as [r w3]. simpl in Hok, Hp, Ht, Hf, Hs, Hc.
  subst r. simpl.
  assert (∀ t0, cols_of w2 t0 = cols_of w t0) as Hc2.
  { intros t0. subst w2. rewrite (cols_of_provisioned tid t0 w1). done. }
  destruct Hwf as (Hpf & Hfc1 & Hfc2). split; [|split].
  - by rewrite Hp.
  - intros k f. rewrite Hf, Ht. subst w2 w1. simpl. fold fid.
    destruct (decide (k = fid)) as [->|Hne].
    + rewrite lookup_insert_eq. intros [= <-]. change (f_table_id row) with tid.
      split; [by rewrite Hmt|]. apply Hc. by left.
    + rewrite lookup_insert_ne by done. intros Hk.
      destruct (Hfc1 _ _ Hk) as [Hex Hcol]. split; [done|].
      apply Hc. right. by rewrite Hc2.
  - intros t0 k Hk. apply Hc in Hk. rewrite Hs. subst w2 w1. simpl. fold fid.
    destruct Hk as [[_ ->]|Hk]; [lia|].
    rewrite Hc2 in Hk. apply Hfc2 in Hk. unfold fid, next_rowid. lia.
Qed.

End AddFieldKeeps.

Section Reachable.
Context `{B : Builtins} `{E : SqlEngine}.

Lemma run_call_keeps call c :
  call_ok c call → well_formed (world c) → well_formed (world (snd (run_call call c))).
Proof.
  intros Hok Hwf.
  destruct call; cbn [run_call]; rewrite ?snd_bind_ret, ?lift_world.
  - by apply create_project_keeps.
  - eapply well_formed_evolves; [apply update_project_evolves|done].
  - eapply well_formed_evolves; [apply delete_project_evolves|done].
  - eapply well_formed_evolves; [apply create_table_evolves|done].
  - eapply well_formed_evolves; [apply rename_table_evolves|done].
  - eapply well_formed_evolves; [apply set_table_project_evolves|done].
  - by apply delete_table_keeps.
  - eapply well_formed_evolves; [apply save_table_prefs_evolves|done].
  - eapply well_formed_evolves; [apply create_view_evolves|done].
  - eapply well_formed_evolves; [apply update_view_evolves|done].
  - eapply well_formed_evolves; [apply delete_view_evolves|done].
  - by apply add_field_keeps.
  - eapply well_formed_evolves; [apply rename_field_evolves|done].
  - eapply well_formed_evolves; [apply deactivate_field_evolves|done].
  - eapply well_formed_evolves; [apply reorder_fields_evolves|done].
  - eapply well_formed_evolves; [apply record_op_evolves|done].
  - eapply well_formed_evolves; [apply list_records_evolves|done].
  - eapply well_formed_evolves; [apply get_display_map_evolves|done].
  - eapply well_formed_evolves; [apply list_relation_options_evolves|done].
  - eapply well_formed_evolves; [apply init_db_evolves|done].
Qed.

Lemma reachable_well_formed clock c : reachable clock c → well_formed (world c).
Proof.
  induction 1 as [|c call Hc IH Hok].
  - split; [|split]; simpl.
    + intros id p q Hid. by rewrite lookup_empty in Hid.
    + intros fid f Hf. by rewrite lookup_empty in Hf.
    + intros t k. unfold cols_of. simpl. rewrite lookup_empty, lookup_empty.
      by intros [? ?].
  - by apply run_call_keeps.
Qed.

End Reachable.

(** ** Consequences of the invariants *)

(** With parents before children, the forest below a project has no more
    levels than there are projects with a larger id, plus one. *)
Lemma parents_first_depth (m : gmap Z ProjectRow) :
  parents_first m →
  ∀ (n : nat) (p : Z),
    (size (filter (λ k : Z, (p < k)%Z) (dom m)) < n)%nat → depth_le m n p.
Proof.
  intros Hpf. induction n as [|n IH]; intros p Hn; [lia|].
  constructor. intros c (row & Hc & Hpar). apply IH.
  assert (p < c) as Hlt by (by eapply Hpf).
  assert (filter (λ k, c < k) (dom m) ⊂ filter (λ k, p < k) (dom m)) as Hsub.
  { split.
    - intros k. rewrite !elem_of_filter. intros [? ?]. split; [lia|done].
    - intros Hsub. specialize (Hsub c). rewrite !elem_of_filter in Hsub.
      destruct Hsub as [? _]; [|lia]. split; [done|]. apply elem_of_dom; eauto. }
  apply subset_size in Hsub. lia.
Qed.

Lemma parents_first_depth_size (m : gmap Z ProjectRow) p :
  parents_first m → depth_le m (S (size m)) p.
Proof.
  intros Hpf. apply parents_first_depth; [done|].
  rewrite <-size_dom.
  assert (filter (λ k, p < k) (dom m) ⊆ dom m) as Hsub.
  { intros k. rewrite elem_of_filter. by intros [_ ?]. }
  apply subseteq_size in Hsub. lia.
Qed.

Section Queries.
Context `{B : Builtins} `{E : SqlEngine}.







End Queries.

Section Reached.
Context `{B : Builtins} `{E : SqlEngine}.


(** X17. In every database the repository produces from an empty one,
    where [create_project] was only given parents that existed, a
    project's parent has a smaller id than the project, so the hierarchy
    has no cycle and no more levels than there are projects.
    [delete_project] therefore returns for every project as soon as the
    recursion limit exceeds the number of projects, and what it deletes is
    the project with all its descendants. *)
Theorem reachable_projects_form_a_forest :
  ∀ (clock : nat → string) (c : Catalog),
    reachable clock c →
    let w := world c in
    let projects := meta_projects w in
    (∀ id p q, projects !! id = Some p → p_parent_id p = Some q → q < id)
    ∧ (∀ pid, depth_le projects (S (size projects)) pid)
    ∧ (∀ pid, ∃ w', delete_project (S (size projects)) pid w = (Ok tt, w')
                    ∧ deleted (in_subtree projects pid) w w').
Proof.
  intros clock c Hreach w projects.
  destruct (reachable_well_formed clock c Hreach) as [Hpf _].
  split; [exact Hpf|]. split.
  - intros pid. by apply parents_first_depth_size.
  - intros pid. apply delete_project_spec. by apply parents_first_depth_size.
Qed.


End Reached.

(** ** Saved views and table preferences *)

Global Instance view_le_trans : Transitive view_le.
Proof. intros a b c. unfold view_le. lia. Qed.

Global Instance view_le_total : Total view_le.
Proof. intros a b. unfold view_le. lia. Qed.

Lemma list_views_run tid c :
  list_views tid c
  = (Ok (merge_sort view_le
           (filter (λ kv, vw_table_id kv.2 = tid) (map_to_list (meta_views c)))), c).
Proof. reflexivity. Qed.

Lemma NoDup_fst_unique {A} (l : list (Z * A)) k x y :
  NoDup l.*1 → (k, x) ∈ l → (k, y) ∈ l → x = y.
Proof.
  intros Hnd Hx Hy. induction l as [|[k0 z] l IH]; [by apply elem_of_nil in Hx|].
  rewrite fmap_cons in Hnd. apply NoDup_cons in Hnd as [Hk Hl]. simpl in Hk.
  apply elem_of_cons in Hx as [Hx|Hx], Hy as [Hy|Hy].
  - congruence.
  - exfalso. apply Hk. injection Hx as <- <-. apply list_elem_of_fmap. by exists (k, y).
  - exfalso. apply Hk. injection Hy as <- <-. apply list_elem_of_fmap. by exists (k, x).
  - auto.
Qed.

Lemma view_sorted_unique (l1 l2 : list (Z * ViewRow)) :
  NoDup l1.*1 → Sorted view_le l1 → Sorted view_le l2 → l1 ≡ₚ l2 → l1 = l2.
Proof.
  intros Hnd H1 H2 Hp. apply (Sorted_unique_strong view_le); [|done..].
  intros [k1 v1] [k2 v2] Hin1 Hin2 Hle1 Hle2.
  assert (k1 = k2) as -> by (unfold view_le, view_sort_key in *; simpl in *; lia).
  rewrite <-Hp in Hin2. f_equal. by eapply NoDup_fst_unique.
Qed.

Lemma list_views_characterised tid c l :
  Sorted view_le l → NoDup l.*1 →
  (∀ k v, (k, v) ∈ l ↔ meta_views c !! k = Some v ∧ vw_table_id v = tid) →
  list_views tid c = (Ok l, c).
Proof.
  intros Hs Hnd Hin. rewrite list_views_run. do 2 f_equal. symmetry.
  apply view_sorted_unique; [done|done|apply (Sorted_merge_sort view_le)|].
  rewrite merge_sort_Permutation. apply NoDup_Permutation.
  - by apply (NoDup_fmap_1 fst).
  - apply (NoDup_fmap_1 fst), NoDup_fst_filter.
  - intros [k v]. rewrite Hin, list_elem_of_filter, elem_of_map_to_list. simpl. tauto.
Qed.

Lemma list_views_inv tid c l :
  fst (list_views tid c) = Ok l →
  Sorted view_le l ∧ NoDup l.*1
  ∧ (∀ k v, (k, v) ∈ l ↔ meta_views c !! k = Some v ∧ vw_table_id v = tid).
Proof.
  rewrite list_views_run. intros [= <-]. split; [apply (Sorted_merge_sort view_le)|].
  split.
  - rewrite merge_sort_Permutation. apply NoDup_fst_filter.
  - intros k v. rewrite merge_sort_Permutation, list_elem_of_filter, elem_of_map_to_list.
    simpl. tauto.
Qed.

Lemma lift_views {A} (m : M World A) c :
  meta_views (snd (lift m c)) = meta_views c.
Proof. by rewrite lift_run. Qed.

Section ViewsReached.
Context `{B : Builtins} `{E : SqlEngine}.

Lemma run_call_views call c :
  views_keyed_by_id c → views_keyed_by_id (snd (run_call call c)).
Proof.
  intros Hv. unfold views_keyed_by_id.
  destruct call as [name color parent| | |name pid| | |tid|tid prefs|tid name view
                   |view_id name view|view_id| | | | | | | | |];
    cbn [run_call]; rewrite ?snd_bind_ret, ?lift_views; try exact Hv.
  - unfold create_project. cbv zeta. destruct (String.eqb _ ""); [exact Hv|].
    munfold. rewrite lift_run. unfold sql_insert_project. simpl.
    destruct (_ || _); exact Hv.
  - unfold create_table. cbv zeta. destruct (String.eqb _ ""); [exact Hv|].
    munfold. rewrite lift_run. unfold sql_insert_table. simpl.
    destruct (_ || _); [exact Hv|]. simpl. rewrite lift_run, ensure_run. exact Hv.
  - unfold delete_table, sql_delete_table. munfold. rewrite lift_run. simpl.
    destruct (meta_tables (world c) !! tid); [|exact Hv]. simpl.
    intros vid v [Hvid _]%map_lookup_filter_Some. eauto.
  - unfold save_table_prefs. munfold. rewrite lift_run. simpl.
    destruct (meta_tables _ !! _); exact Hv.
  - unfold create_view. cbv zeta. destruct (String.eqb _ ""); [exact Hv|].
    munfold. rewrite lift_run. unfold sql_insert_view. simpl.
    destruct (_ || _); [exact Hv|]. simpl. intros vid v.
    set (new := next_rowid _ _). destruct (decide (vid = new)) as [->|Hne].
    + rewrite lookup_insert_eq. intros [= <-]. by left.
    + rewrite lookup_insert_ne by done. apply Hv.
  - unfold update_view. unfold bind at 1.
    assert (∀ n v0, views_keyed_by_id
              (snd ((ts <- lift now_iso ;; sql_update_view view_id n v0 ts) c))) as Hsql.
    { intros n v0. unfold views_keyed_by_id. munfold. rewrite lift_run.
      unfold sql_update_view. simpl.
      destruct (meta_views c !! view_id) as [row|] eqn:Hrow; [|exact Hv].
      destruct (match n with Some _ => _ | None => false end); [exact Hv|].
      simpl. intros vid v. destruct (decide (vid = view_id)) as [->|Hne].
      - rewrite lookup_insert_eq. intros [= <-]. simpl. eauto.
      - rewrite lookup_insert_ne by done. apply Hv. }
    destruct name as [n|].
    + destruct (String.eqb _ ""); [exact Hv|]. unfold ret at 1. apply Hsql.
    + unfold ret at 1. destruct view; [apply Hsql|exact Hv].
  - unfold delete_view. munfold. simpl. intros vid v Hvid.
    apply lookup_delete_Some in Hvid as [_ Hvid]. eauto.
  - unfold _init_db. munfold. rewrite lift_run. simpl. intros vid v.
    rewrite map_lookup_imap. destruct (meta_views c !! vid) as [v0|] eqn:Hv0; [|done].
    simpl. intros [= <-]. unfold backfill_view.
    destruct (vw_position v0) eqn:Hp; simpl; [|by right].
    rewrite Hp. destruct (Hv _ _ Hv0); [congruence|]. right. congruence.
Qed.

Lemma reachable_views clock c : reachable clock c → views_keyed_by_id c.
Proof.
  induction 1 as [|c call Hc IH Hok].
  - intros vid v Hvid. simpl in Hvid. by rewrite lookup_empty in Hvid.
  - by apply run_call_views.
Qed.

End ViewsReached.

Lemma list_views_unique tid c l :
  Sorted view_le l →
  l ≡ₚ filter (λ kv, vw_table_id kv.2 = tid) (map_to_list (meta_views c)) →
  list_views tid c = (Ok l, c).
Proof.
  intros Hs Hp. rewrite list_views_run. do 2 f_equal.
  apply view_sorted_unique.
  - rewrite merge_sort_Permutation. apply NoDup_fst_filter.
  - apply (Sorted_merge_sort view_le).
  - done.
  - by rewrite merge_sort_Permutation.
Qed.

Section Views.
Context `{B : Builtins} `{E : SqlEngine}.

(** X19. In every database the repository produces from an empty one,
    [create_view] with a name that is blank after trimming raises
    [ValueError] and changes nothing; with a name a view of the table
    already has, or for a table that does not exist, it raises
    [IntegrityError] and stores no view.  Otherwise it returns the id of
    a new view, larger than the id of every view, and the new view comes
    last: [list_views] on the table returns what it returned before
    followed by the new view, [get_view] finds it under its id, and the
    lists of the other tables are as before. *)
Theorem create_view_appends :
  ∀ (clock : nat → string) (c : Catalog) (table_id : Z) (name : string)
    (view : list (string * PyVal)),
    reachable clock c →
    let r := create_view table_id name view c in
    (str_strip name = "" → r = (Raise ValueError, c))
    ∧ (str_strip name ≠ "" →
       (∃ k v, meta_views c !! k = Some v ∧ vw_table_id v = table_id
               ∧ vw_name v = str_strip name)
       ∨ meta_tables (world c) !! table_id = None →
       fst r = Raise IntegrityError ∧ meta_views (snd r) = meta_views c)
    ∧ (str_strip name ≠ "" →
       (∀ k v, meta_views c !! k = Some v → vw_table_id v = table_id →
               vw_name v ≠ str_strip name) →
       is_Some (meta_tables (world c) !! table_id) →
       ∃ vid c' views,
         let row := {| vw_table_id := table_id; vw_name := str_strip name;
                       vw_view_json := view; vw_position := None;
                       vw_created_at := Store.clock (world c) (ticks (world c));
                       vw_updated_at := Store.clock (world c) (ticks (world c)) |} in
         r = (Ok vid, c')
         ∧ (∀ k, is_Some (meta_views c !! k) → k < vid)
         ∧ meta_views c' = <[vid := row]> (meta_views c)
         ∧ list_views table_id c = (Ok views, c)
         ∧ list_views table_id c' = (Ok (views ++ [(vid, row)]), c')
         ∧ get_view vid c' = (Ok row, c')
         ∧ (∀ other, other ≠ table_id →
              fst (list_views other c') = fst (list_views other c))).
Proof.
  intros clock c tid name view Hreach r. subst r.
  pose proof (reachable_views clock c Hreach) as Hkeyed.
  unfold create_view. cbv zeta.
  destruct (String.eqb_spec (str_strip name) "") as [Hblank|Hname].
  { repeat split; intros; simplify_eq/=; done. }
  split; [done|]. munfold. rewrite lift_run. unfold now_iso. simpl.
  unfold sql_insert_view. simpl. split.
  - intros _ Hbad.
    assert (view_name_taken tid (str_strip name) None (meta_views c)
            || bool_decide (meta_tables (world c) !! tid = None) = true) as ->; [|done].
    destruct Hbad as [(k & v & Hk & Ht & Hn)|Hnone].
    + unfold view_name_taken. rewrite bool_decide_eq_true_2; [done|].
      exists k, v. done.
    + rewrite (bool_decide_eq_true_2 (meta_tables (world c) !! tid = None)) by done.
      by rewrite orb_true_r.
  - intros _ Hfree [trow Htab].
    unfold view_name_taken. rewrite bool_decide_eq_false_2.
    2:{ intros (k & v & Hk & _ & Ht & Hn). by apply (Hfree k v). }
    rewrite bool_decide_eq_false_2 by congruence. simpl.
    set (vid := next_rowid (meta_views_seq c) (meta_views c)).
    set (row := {| vw_table_id := tid; vw_name := str_strip name; vw_view_json := view;
                   vw_position := None;
                   vw_created_at := Store.clock (world c) (ticks (world c));
                   vw_updated_at := Store.clock (world c) (ticks (world c)) |}).
    set (c' := set_meta_views _ _ _).
    assert (meta_views c !! vid = None) as Hfresh by apply next_rowid_fresh.
    assert (∀ t, filter (λ kv : Z * ViewRow, vw_table_id kv.2 = t)
                   (map_to_list (meta_views c'))
                 ≡ₚ (if decide (t = tid) then [(vid, row)] else [])
                    ++ filter (λ kv : Z * ViewRow, vw_table_id kv.2 = t)
                         (map_to_list (meta_views c))) as Hsel.
    { intros t. subst c'. simpl. rewrite (map_to_list_insert _ _ _ Hfresh).
      destruct (decide (t = tid)) as [->|Hne].
      - by rewrite filter_cons_True.
      - rewrite filter_cons_False; [done|]. simpl. congruence. }
    exists vid, c', (merge_sort view_le
                       (filter (λ kv, vw_table_id kv.2 = tid) (map_to_list (meta_views c)))).
    split; [done|].
    split; [intros k Hk; by apply max_rowid_next|].
    split; [done|]. split; [apply list_views_run|]. split; [|split].
    + apply list_views_unique.
      * apply Sorted_snoc; [apply (Sorted_merge_sort view_le)|].
        apply TlRel_Forall, Forall_forall. intros [k v].
        rewrite merge_sort_Permutation, list_elem_of_filter, elem_of_map_to_list.
        simpl. intros [_ Hk].
        assert (k < vid) as Hlt by (apply max_rowid_next; eauto).
        unfold view_le, view_sort_key. simpl.
        destruct (Hkeyed _ _ Hk) as [->| ->]; lia.
      * rewrite Hsel, decide_True by done. rewrite merge_sort_Permutation.
        simpl. by rewrite Permutation_app_comm.
    + unfold get_view. munfold. subst c'. simpl. by rewrite lookup_insert_eq.
    + intros other Hne.
      change (fst (list_views other c') = fst (list_views other c)).
      rewrite !list_views_run. cbn [fst]. f_equal.
      apply view_sorted_unique.
      * rewrite merge_sort_Permutation. apply NoDup_fst_filter.
      * apply (Sorted_merge_sort view_le).
      * apply (Sorted_merge_sort view_le).
      * rewrite !merge_sort_Permutation, Hsel, decide_False by done. done.
Qed.

End Views.

(** ** Opening a database again *)

Lemma backfill_field_same k f :
  f_table_id (backfill_field k f) = f_table_id f
  ∧ f_active (backfill_field k f) = f_active f
  ∧ f_name (backfill_field k f) = f_name f
  ∧ f_ftype (backfill_field k f) = f_ftype f
  ∧ f_options_json (backfill_field k f) = f_options_json f
  ∧ sort_key (k, backfill_field k f) = sort_key (k, f)
  ∧ is_Some (f_position (backfill_field k f))
  ∧ backfill_field k (backfill_field k f) = backfill_field k f.
Proof.
  unfold backfill_field, sort_key. simpl.
  destruct (f_position f) eqn:Hp; simpl; rewrite ?Hp; eauto 10.
Qed.

Lemma backfill_view_same k v :
  vw_table_id (backfill_view k v) = vw_table_id v
  ∧ vw_name (backfill_view k v) = vw_name v
  ∧ vw_view_json (backfill_view k v) = vw_view_json v
  ∧ view_sort_key (k, backfill_view k v) = view_sort_key (k, v)
  ∧ is_Some (vw_position (backfill_view k v))
  ∧ backfill_view k (backfill_view k v) = backfill_view k v.
Proof.
  unfold backfill_view, view_sort_key. simpl.
  destruct (vw_position v) eqn:Hp; simpl; rewrite ?Hp; eauto 10.
Qed.

Lemma init_db_fixed c :
  (∀ k f, meta_fields (world c) !! k = Some f → is_Some (f_position f)) →
  (∀ k v, meta_views c !! k = Some v → is_Some (vw_position v)) →
  snd (_init_db c) = c.
Proof.
  intros Hf Hv. unfold _init_db. munfold. rewrite lift_run. simpl.
  assert (map_imap (λ k f, Some (backfill_field k f)) (meta_fields (world c))
          = meta_fields (world c)) as Hmf.
  { apply map_eq. intros k. rewrite map_lookup_imap.
    destruct (meta_fields (world c) !! k) as [f|] eqn:Hk; [|done]. simpl. f_equal.
    unfold backfill_field. by destruct (Hf _ _ Hk) as [p ->]. }
  assert (map_imap (λ k v, Some (backfill_view k v)) (meta_views c) = meta_views c)
    as Hmv.
  { apply map_eq. intros k. rewrite map_lookup_imap.
    destruct (meta_views c !! k) as [v|] eqn:Hk; [|done]. simpl. f_equal.
    unfold backfill_view. by destruct (Hv _ _ Hk) as [p ->]. }
  unfold set_world, set_meta_views, set_meta_fields. simpl. rewrite Hmf, Hmv.
  destruct c as [[] ? ? ? ? ?]. done.
Qed.

(** X20. [_init_db] on a database that has the tables of the current
    schema, as when the application opens its file again: it returns
    without an exception, gives every field and every view that has no
    position its id as position, and changes nothing else.  No list
    changes its order: [list_fields] and [list_views] return the same ids
    in the same order as before, with the same rows but for the positions
    filled in.  Running it a second time changes nothing. *)
Theorem init_db_keeps_every_order :
  ∀ (c : Catalog),
    let c' := snd (_init_db c) in
    fst (_init_db c) = Ok tt
    ∧ (∀ table_id active_only l,
         list_fields table_id active_only (world c) = (Ok l, world c) →
         list_fields table_id active_only (world c')
         = (Ok ((λ kv, (kv.1, backfill_field kv.1 kv.2)) <$> l), world c'))
    ∧ (∀ table_id l,
         list_views table_id c = (Ok l, c) →
         list_views table_id c'
         = (Ok ((λ kv, (kv.1, backfill_view kv.1 kv.2)) <$> l), c'))
    ∧ (∀ k, meta_fields (world c') !! k = backfill_field k <$> meta_fields (world c) !! k)
    ∧ (∀ k, meta_views c' !! k = backfill_view k <$> meta_views c !! k)
    ∧ (∀ k f, meta_fields (world c') !! k = Some f → is_Some (f_position f))
    ∧ (∀ k v, meta_views c' !! k = Some v → is_Some (vw_position v))
    ∧ meta_projects (world c') = meta_projects (world c)
    ∧ meta_tables (world c') = meta_tables (world c)
    ∧ data (world c') = data (world c)
    ∧ meta_table_prefs c' = meta_table_prefs c
    ∧ ticks (world c') = ticks (world c)
    ∧ snd (_init_db c') = c'.
Proof.
  intros c c'.
  assert (∀ k, meta_fields (world c') !! k = backfill_field k <$> meta_fields (world c) !! k)
    as Hf.
  { intros k. subst c'. unfold _init_db. munfold. rewrite lift_run. simpl.
    by rewrite map_lookup_imap; destruct (meta_fields (world c) !! k). }
  assert (∀ k, meta_views c' !! k = backfill_view k <$> meta_views c !! k) as Hv.
  { intros k. subst c'. unfold _init_db. munfold. rewrite lift_run. simpl.
    by rewrite map_lookup_imap; destruct (meta_views c !! k). }
  split; [done|]. split; [|split].
  - intros tid a l Hl. apply list_fields_inv in Hl as (Hs & Hnd & Hin).
    set (h := λ kv : Z * FieldRow, (kv.1, backfill_field kv.1 kv.2)).
    apply list_fields_characterised.
    + apply (Sorted_fmap _ field_le field_le); [|done].
      intros [k1 f1] [k2 f2]. unfold field_le, h. simpl.
      destruct (backfill_field_same k1 f1) as (_ & _ & _ & _ & _ & -> & _).
      destruct (backfill_field_same k2 f2) as (_ & _ & _ & _ & _ & -> & _). done.
    + by rewrite <-list_fmap_compose.
    + intros k f'. rewrite Hf, list_elem_of_fmap. split.
      * intros ([k0 f] & Heq & Hkf). unfold h in Heq. simpl in Heq.
        injection Heq as -> ->. apply Hin in Hkf as (Hk & Ht & Ha). rewrite Hk. simpl.
        destruct (backfill_field_same k0 f) as (-> & -> & _). done.
      * intros (Hk & Ht & Ha). destruct (meta_fields (world c) !! k) as [f|] eqn:Hk0; [|done].
        simpl in Hk. injection Hk as <-. exists (k, f). split; [done|]. apply Hin.
        destruct (backfill_field_same k f) as (Ht' & Ha' & _).
        rewrite Ht' in Ht. rewrite Ha' in Ha. done.
  - intros tid l Hl.
    assert (fst (list_views tid c) = Ok l) as Hl' by (by rewrite Hl).
    apply list_views_inv in Hl' as (Hs & Hnd & Hin).
    set (h := λ kv : Z * ViewRow, (kv.1, backfill_view kv.1 kv.2)).
    apply list_views_characterised.
    + apply (Sorted_fmap _ view_le view_le); [|done].
      intros [k1 v1] [k2 v2]. unfold view_le, h. simpl.
      destruct (backfill_view_same k1 v1) as (_ & _ & _ & -> & _).
      destruct (backfill_view_same k2 v2) as (_ & _ & _ & -> & _). done.
    + by rewrite <-list_fmap_compose.
    + intros k v'. rewrite Hv, list_elem_of_fmap. split.
      * intros ([k0 v] & Heq & Hkv). unfold h in Heq. simpl in Heq.
        injection Heq as -> ->. apply Hin in Hkv as (Hk & Ht). rewrite Hk. simpl.
        destruct (backfill_view_same k0 v) as (-> & _). done.
      * intros (Hk & Ht). destruct (meta_views c !! k) as [v|] eqn:Hk0; [|done].
        simpl in Hk. injection Hk as <-. exists (k, v). split; [done|]. apply Hin.
        destruct (backfill_view_same k v) as (Ht' & _). by rewrite Ht' in Ht.
  - split; [exact Hf|]. split; [exact Hv|]. split; [|split].
    + intros k f. rewrite Hf. destruct (meta_fields (world c) !! k) as [f0|]; [|done].
      simpl. intros [= <-]. apply backfill_field_same.
    + intros k v. rewrite Hv. destruct (meta_views c !! k) as [v0|]; [|done].
      simpl. intros [= <-]. apply backfill_view_same.
    + do 5 (split; [done|]). apply init_db_fixed.
      * intros k f. rewrite Hf. destruct (meta_fields (world c) !! k) as [f0|]; [|done].
        simpl. intros [= <-]. apply backfill_field_same.
      * intros k v. rewrite Hv. destruct (meta_views c !! k) as [v0|]; [|done].
        simpl. intros [= <-]. apply backfill_view_same.
Qed.

(** ** Preferences, and changing or deleting a view *)

(** X21. [save_table_prefs] and [get_table_prefs] are a round trip.
    For a table that exists, saving returns and the preferences read back
    are the ones saved, whatever was stored before; the preferences of
    the other tables are as before.  For an id that is no table saving
    raises [IntegrityError] and stores nothing.  A table without stored
    preferences reads as the empty dictionary, and so does a table after
    [delete_table].  Saving touches nothing else but the clock. *)
Theorem save_table_prefs_then_get_table_prefs :
  ∀ (c : Catalog) (table_id : Z) (prefs : list (string * PyVal)),
    let r := save_table_prefs table_id prefs c in
    let c' := snd r in
    (meta_tables (world c) !! table_id = None →
     fst r = Raise IntegrityError ∧ meta_table_prefs c' = meta_table_prefs c)
    ∧ (is_Some (meta_tables (world c) !! table_id) →
       fst r = Ok tt
       ∧ get_table_prefs table_id c' = (Ok prefs, c')
       ∧ (∀ other, other ≠ table_id →
            fst (get_table_prefs other c') = fst (get_table_prefs other c))
       ∧ fst (get_table_prefs table_id (snd (delete_table table_id c'))) = Ok [])
    ∧ (meta_table_prefs c !! table_id = None → get_table_prefs table_id c = (Ok [], c))
    ∧ world c' = set_ticks (S (ticks (world c))) (world c)
    ∧ meta_views c' = meta_views c
    ∧ meta_views_seq c' = meta_views_seq c
    ∧ meta_projects_seq c' = meta_projects_seq c
    ∧ meta_tables_seq c' = meta_tables_seq c.
Proof.
  intros c tid prefs r c'. subst c' r.
  unfold save_table_prefs. munfold. rewrite lift_run. unfold now_iso. simpl.
  destruct (meta_tables (world c) !! tid) as [trow|] eqn:Ht; simpl.
  - split; [done|]. split.
    + intros _. split; [done|]. unfold get_table_prefs. munfold. simpl.
      rewrite lookup_insert_eq. split; [done|]. split.
      * intros other Hne. rewrite lookup_insert_ne by done.
        by destruct (meta_table_prefs c !! other).
      * unfold delete_table, sql_delete_table, sql_drop_data_table, lift. munfold.
        simpl. rewrite Ht. simpl. by rewrite lookup_delete_eq.
    + split; [|done]. unfold get_table_prefs. munfold. by intros ->.
  - split; [done|]. split; [by intros [? ?]|].
    split; [|done]. unfold get_table_prefs. munfold. by intros ->.
Qed.

(** A change of one row of [meta_views] that keeps [table_id] and
    [position] leaves every list of views in its order. *)
Lemma list_views_insert tid view_id v v' c c' l :
  meta_views c !! view_id = Some v →
  meta_views c' = <[view_id := v']> (meta_views c) →
  vw_table_id v' = vw_table_id v → vw_position v' = vw_position v →
  list_views tid c = (Ok l, c) →
  list_views tid c'
  = (Ok ((λ kv, if decide (kv.1 = view_id) then (view_id, v') else kv) <$> l), c').
Proof.
  intros Hv Hmv Ht Hp Hl.
  assert (fst (list_views tid c) = Ok l) as Hl' by (by rewrite Hl).
  apply list_views_inv in Hl' as (Hs & Hnd & Hin).
  set (h := λ kv : Z * ViewRow, if decide (kv.1 = view_id) then (view_id, v') else kv).
  assert (∀ kv, (h kv).1 = kv.1) as Hh1.
  { intros kv. unfold h. by destruct (decide _). }
  assert (∀ kv, kv ∈ l → view_sort_key (h kv) = view_sort_key kv) as Hhk.
  { intros [k v0] Hkv. unfold h, view_sort_key. simpl.
    destruct (decide (k = view_id)) as [->|]; [|done]. simpl.
    apply Hin in Hkv as [Hk _]. rewrite Hv in Hk. injection Hk as <-. by rewrite Hp. }
  assert ((h <$> l).*1 = l.*1) as Hids.
  { rewrite <-list_fmap_compose. apply list_fmap_ext. intros i x _. apply Hh1. }
  apply list_views_characterised.
  - apply Sorted_StronglySorted in Hs; [|apply _]. apply StronglySorted_Sorted.
    clear Hnd Hin Hids Hl. revert Hhk.
    induction Hs as [|x l0 Hs IH Hx]; intros Hhk; [constructor|].
    rewrite fmap_cons. constructor.
    + apply IH. intros kv Hkv. apply Hhk. by right.
    + rewrite Forall_fmap. rewrite Forall_forall in Hx. apply Forall_forall.
      intros y Hy. simpl. unfold view_le.
      rewrite (Hhk x) by left. rewrite (Hhk y) by (by right). rewrite !Hh1.
      by apply Hx.
  - by rewrite Hids.
  - intros k v1. rewrite Hmv, list_elem_of_fmap. split.
    + intros ([k0 v0] & Heq & Hkv). apply Hin in Hkv as (Hk & Htid).
      unfold h in Heq. simpl in Heq. destruct (decide (k0 = view_id)) as [->|Hne].
      * injection Heq as -> ->. rewrite lookup_insert_eq. split; [done|].
        rewrite Hv in Hk. injection Hk as <-. congruence.
      * injection Heq as -> ->. by rewrite lookup_insert_ne.
    + intros (Hk & Htid). destruct (decide (k = view_id)) as [->|Hne].
      * rewrite lookup_insert_eq in Hk. injection Hk as <-. exists (view_id, v). split.
        { unfold h. simpl. by rewrite decide_True. }
        apply Hin. split; [done|]. congruence.
      * rewrite lookup_insert_ne in Hk by done. exists (k, v1). split.
        { unfold h. simpl. by rewrite decide_False. }
        by apply Hin.
Qed.

Lemma list_views_delete tid view_id c c' l :
  meta_views c' = delete view_id (meta_views c) →
  list_views tid c = (Ok l, c) →
  list_views tid c' = (Ok (filter (λ kv, kv.1 ≠ view_id) l), c').
Proof.
  intros Hmv Hl.
  assert (fst (list_views tid c) = Ok l) as Hl' by (by rewrite Hl).
  apply list_views_inv in Hl' as (Hs & Hnd & Hin).
  apply list_views_characterised.
  - by apply Sorted_filter_trans; [apply _|].
  - clear Hs Hin Hl. induction l as [|x l IH]; [constructor|].
    rewrite fmap_cons in Hnd. apply NoDup_cons in Hnd as [Hx Hl0].
    destruct (decide (x.1 ≠ view_id)).
    + rewrite filter_cons_True by done. rewrite fmap_cons. apply NoDup_cons.
      split; [|auto]. intros Hin. apply Hx.
      apply list_elem_of_fmap in Hin as (y & -> & Hy).
      apply list_elem_of_filter in Hy as [_ Hy]. apply list_elem_of_fmap. eauto.
    + rewrite filter_cons_False by done. auto.
  - intros k v. rewrite Hmv, list_elem_of_filter, Hin, lookup_delete_Some. simpl.
    split.
    + intros (Hne & Hk & Ht). repeat split; auto.
    + intros ((Hne & Hk) & Ht). repeat split; auto.
Qed.

Section ViewEdits.
Context `{B : Builtins}.

(** X22. [update_view] and [delete_view] keep the other views in their
    places.  [update_view] with a name that is blank after trimming
    raises [ValueError]; with neither a name nor a view, or for an id
    that is no view, it returns and stores nothing (for such an id
    [get_view] raises [KeyError], [update_view] does not); with a name another
    view of the same table has it raises [IntegrityError] and stores
    nothing.  Otherwise the view gets the trimmed name and the document
    that were given and a new [updated_at], and keeps its table, its
    position and [created_at], so [list_views] returns the same ids in the
    same order.  [delete_view] never raises: afterwards [get_view] raises
    [KeyError] for that id and [list_views] returns the list it returned
    before without that view. *)
Theorem view_edits_keep_the_order :
  ∀ (c : Catalog) (view_id : Z) (name : option string)
    (view : option (list (string * PyVal))),
    let r := update_view view_id name view c in
    let c' := snd r in
    let d := snd (delete_view view_id c) in
    (∀ n, name = Some n → str_strip n = "" → r = (Raise ValueError, c))
    ∧ (name = None → view = None → r = (Ok tt, c))
    ∧ (meta_views c !! view_id = None →
       meta_views c' = meta_views c ∧ get_view view_id c = (Raise KeyError, c)
       ∧ ((∀ n, name = Some n → str_strip n ≠ "") → fst r = Ok tt))
    ∧ (∀ v n k v0, meta_views c !! view_id = Some v → name = Some n →
         str_strip n ≠ "" → k ≠ view_id → meta_views c !! k = Some v0 →
         vw_table_id v0 = vw_table_id v → vw_name v0 = str_strip n →
         fst r = Raise IntegrityError ∧ meta_views c' = meta_views c)
    ∧ (∀ v, meta_views c !! view_id = Some v → fst r = Ok tt →
         name ≠ None ∨ view ≠ None →
         ∃ v', meta_views c' = <[view_id := v']> (meta_views c)
               ∧ get_view view_id c' = (Ok v', c')
               ∧ vw_table_id v' = vw_table_id v ∧ vw_position v' = vw_position v
               ∧ vw_created_at v' = vw_created_at v
               ∧ vw_name v' = default (vw_name v) (str_strip <$> name)
               ∧ vw_view_json v' = default (vw_view_json v) view
               ∧ vw_updated_at v' = clock (world c) (ticks (world c))
               ∧ ∀ tid l, list_views tid c = (Ok l, c) →
                   list_views tid c'
                   = (Ok ((λ kv, if decide (kv.1 = view_id) then (view_id, v') else kv)
                          <$> l), c'))
    ∧ delete_view view_id c = (Ok tt, d)
    ∧ meta_views d = delete view_id (meta_views c)
    ∧ world d = world c ∧ meta_table_prefs d = meta_table_prefs c
    ∧ meta_views_seq d = meta_views_seq c
    ∧ get_view view_id d = (Raise KeyError, d)
    ∧ (∀ tid l, list_views tid c = (Ok l, c) →
         list_views tid d = (Ok (filter (λ kv, kv.1 ≠ view_id) l), d)).
Proof.
  intros c vid name view r c' d.
  assert (∀ n v0,
            (ts <- lift now_iso ;; sql_update_view vid n v0 ts) c
            = sql_update_view vid n v0 (clock (world c) (ticks (world c)))
                (set_world (set_ticks (S (ticks (world c))) (world c)) c)) as Hrun.
  { intros n v0. unfold bind. by rewrite lift_run. }
  assert (r = match name with
              | Some n =>
                  if String.eqb (str_strip n) "" then (Raise ValueError, c)
                  else sql_update_view vid (Some (str_strip n)) view
                         (clock (world c) (ticks (world c)))
                         (set_world (set_ticks (S (ticks (world c))) (world c)) c)
              | None =>
                  match view with
                  | Some d0 => sql_update_view vid None (Some d0)
                                 (clock (world c) (ticks (world c)))
                                 (set_world (set_ticks (S (ticks (world c))) (world c)) c)
                  | None => (Ok tt, c)
                  end
              end) as Hr.
  { subst r. unfold update_view. unfold bind at 1. destruct name as [n|].
    - destruct (String.eqb (str_strip n) ""); [done|]. unfold ret at 1. apply Hrun.
    - unfold ret at 1. destruct view; [apply Hrun|done]. }
  clear Hrun. subst c'. rewrite Hr. clear Hr r.
  split; [|split; [|split; [|split; [|split]]]].
  - intros n -> Hblank. apply String.eqb_eq in Hblank. by rewrite Hblank.
  - by intros -> ->.
  - intros Hnone. split; [|split].
    + unfold sql_update_view. simpl. rewrite Hnone.
      destruct name as [n|]; [destruct (String.eqb _ "")|destruct view]; done.
    + unfold get_view. munfold. by rewrite Hnone.
    + intros Hname. unfold sql_update_view. simpl. rewrite Hnone.
      destruct name as [n|]; [|by destruct view].
      specialize (Hname n eq_refl). apply String.eqb_neq in Hname. by rewrite Hname.
  - intros v n k v0 Hv -> Hname Hne Hk Ht Hn.
    apply String.eqb_neq in Hname. rewrite Hname.
    unfold sql_update_view. simpl. rewrite Hv. unfold view_name_taken.
    rewrite bool_decide_eq_true_2; [done|]. exists k, v0.
    split; [done|]. split; [congruence|]. done.
  - intros v Hv Hok Hsome.
    assert (∀ n v0, fst (sql_update_view vid n v0 (clock (world c) (ticks (world c)))
                           (set_world (set_ticks (S (ticks (world c))) (world c)) c)) = Ok tt →
              let c1 := snd (sql_update_view vid n v0 (clock (world c) (ticks (world c)))
                           (set_world (set_ticks (S (ticks (world c))) (world c)) c)) in
              ∃ v', meta_views c1 = <[vid := v']> (meta_views c)
                    ∧ get_view vid c1 = (Ok v', c1)
                    ∧ vw_table_id v' = vw_table_id v ∧ vw_position v' = vw_position v
                    ∧ vw_created_at v' = vw_created_at v
                    ∧ vw_name v' = default (vw_name v) n
                    ∧ vw_view_json v' = default (vw_view_json v) v0
                    ∧ vw_updated_at v' = clock (world c) (ticks (world c))
                    ∧ ∀ tid l, list_views tid c = (Ok l, c) →
                        list_views tid c1
                        = (Ok ((λ kv, if decide (kv.1 = vid) then (vid, v') else kv)
                               <$> l), c1)) as Hsql.
    { intros n v0. unfold sql_update_view. simpl. rewrite Hv.
      destruct (match n with Some _ => _ | None => false end); [done|]. simpl.
      intros _. eexists. split; [reflexivity|]. split.
      { unfold get_view. munfold. simpl. by rewrite lookup_insert_eq. }
      do 6 (split; [reflexivity|]).
      intros tid l Hl. by eapply (list_views_insert tid vid v). }
    destruct name as [n|].
    + destruct (String.eqb (str_strip n) ""); [done|]. apply (Hsql _ _ Hok).
    + destruct view as [d0|]; [apply (Hsql _ _ Hok)|]. by destruct Hsome.
  - subst d. unfold delete_view. munfold. simpl.
    do 5 (split; [done|]). split.
    + unfold get_view. munfold. simpl. by rewrite lookup_delete_eq.
    + intros tid l Hl. by eapply list_views_delete.
Qed.

End ViewEdits.

(** ** Creating a project *)

Section Projects.
Context `{B : Builtins}.

(** X23. [create_project] with a name that is blank after trimming
    raises [ValueError] and changes nothing.  With a name another project
    has it raises [IntegrityError] and creates nothing.  With a new name
    and no parent, or a parent that exists, it returns the id of a new
    project: the id is larger than the id of every project, so also than
    the parent's; the row carries the trimmed name, the parent and the
    clock reading, and a colour that is never empty: the given one
    trimmed, or the default [#4C9AFF] when the given one is white space
    only (for the empty string: the default, trimmed); no other project
    and nothing else in the database changes. *)
Theorem create_project_checks :
  ∀ (c : Catalog) (name color : string) (parent_id : option Z),
    let w := world c in
    let r := create_project name color parent_id c in
    (str_strip name = "" → r = (Raise ValueError, c))
    ∧ (str_strip name ≠ "" →
       (∃ k p, meta_projects w !! k = Some p ∧ p_name p = str_strip name) →
       r = (Raise IntegrityError, set_world (set_ticks (S (ticks w)) w) c))
    ∧ (str_strip name ≠ "" →
       (∀ k p, meta_projects w !! k = Some p → p_name p ≠ str_strip name) →
       (∀ q, parent_id = Some q → is_Some (meta_projects w !! q)) →
       ∃ pid c' row,
         r = (Ok pid, c')
         ∧ (∀ k, is_Some (meta_projects w !! k) → k < pid)
         ∧ (∀ q, parent_id = Some q → q < pid)
         ∧ meta_projects_seq c < pid ∧ meta_projects_seq c' = pid
         ∧ meta_projects (world c') = <[pid := row]> (meta_projects w)
         ∧ p_name row = str_strip name ∧ p_parent_id row = parent_id
         ∧ p_created_at row = clock w (ticks w) ∧ p_updated_at row = clock w (ticks w)
         ∧ p_color row = new_project_color color ∧ p_color row ≠ ""
         ∧ (color ≠ "" → str_strip color = "" → p_color row = "#4C9AFF")
         ∧ (color ≠ "" → str_strip color ≠ "" → p_color row = str_strip color)
         ∧ meta_tables (world c') = meta_tables w
         ∧ meta_fields (world c') = meta_fields w ∧ data (world c') = data w
         ∧ meta_views c' = meta_views c ∧ meta_table_prefs c' = meta_table_prefs c
         ∧ meta_tables_seq c' = meta_tables_seq c).
Proof.
  intros c name color parent w r. subst r. unfold create_project. cbv zeta.
  destruct (String.eqb_spec (str_strip name) "") as [Hblank|Hname].
  { repeat split; intros; simplify_eq/=; done. }
  split; [done|]. munfold. rewrite lift_run. unfold now_iso. simpl.
  unfold sql_insert_project. simpl. fold w. split.
  - intros _ (k & p & Hk & Hp).
    rewrite bool_decide_eq_true_2; [done|]. by exists k, p.
  - intros _ Hfree Hparent.
    rewrite bool_decide_eq_false_2.
    2:{ intros (k & p & Hk & Hp). by apply (Hfree k p). }
    assert (match parent with
            | Some q => bool_decide (meta_projects w !! q = None)
                        && negb (q =? next_rowid (meta_projects_seq c) (meta_projects w))
            | None => false
            end = false) as ->.
    { destruct parent as [q|]; [|done].
      rewrite bool_decide_eq_false_2; [done|].
      destruct (Hparent q eq_refl) as [? Hx]. congruence. }
    simpl. set (pid := next_rowid (meta_projects_seq c) (meta_projects w)).
    eexists pid, _, _. split; [reflexivity|].
    split; [intros k Hk; by apply max_rowid_next|].
    split; [intros q Hq; by apply max_rowid_next, Hparent|].
    split; [unfold pid, next_rowid; lia|]. simpl.
    do 7 (split; [reflexivity|]).
    unfold new_project_color, color_or_default.
    split; [|split; [|split]].
    + by destruct (String.eqb_spec (str_strip (if String.eqb color "" then "#4C9AFF"
                                               else color)) "").
    + intros Hc Hs. apply String.eqb_neq in Hc. rewrite Hc.
      apply String.eqb_eq in Hs. by rewrite Hs.
    + intros Hc Hs. apply String.eqb_neq in Hc. rewrite Hc.
      apply String.eqb_neq in Hs. by rewrite Hs.
    + done.
Qed.

End Projects.

(** ** The path of a project in the main window *)

Lemma size_difference_grows (X seen : gset Z) (id : Z) :
  id ∈ X → id ∉ seen → (size (X ∖ ({[ id ]} ∪ seen)) < size (X ∖ seen))%nat.
Proof.
  intros Hin Hnew. apply subset_size. split.
  - intros x. rewrite !elem_of_difference, elem_of_union. tauto.
  - intros Hsub. specialize (Hsub id).
    rewrite !elem_of_difference, elem_of_union, elem_of_singleton in Hsub. tauto.
Qed.

Lemma project_path_loop_returns (m : gmap Z ProjectRow) : ∀ (turns : nat) o seen parts,
  seen ⊆ dom m →
  (size (dom m ∖ seen) < turns)%nat →
  is_Some (project_path_loop turns m (projects_get m o) seen parts).
Proof.
  induction turns as [|turns IH]; intros o seen parts Hseen Hsize; [lia|].
  simpl. destruct (projects_get m o) as [[id p]|] eqn:Hcur; [|eauto].
  destruct (decide (id ∈ seen)) as [|Hnew]; [eauto|].
  assert (m !! id = Some p) as Hid.
  { destruct o as [q|]; [|done]. simpl in Hcur.
    destruct (m !! q) as [r|] eqn:Hq; [|done]. simpl in Hcur. by injection Hcur as <- <-. }
  assert (id ∈ dom m) as Hdom by (apply elem_of_dom; eauto).
  apply IH.
  - apply union_subseteq. split; [by apply singleton_subseteq_l|done].
  - pose proof (size_difference_grows (dom m) seen id Hdom Hnew). lia.
Qed.

Lemma project_path_loop_lineage (m : gmap Z ProjectRow) :
  parents_first m →
  ∀ (turns : nat) o seen parts,
    seen ⊆ dom m →
    (∀ q s, o = Some q → s ∈ seen → q < s) →
    (size (dom m ∖ seen) < turns)%nat →
    ∃ l, lineage m o l
         ∧ project_path_loop turns m (projects_get m o) seen parts
           = Some (parts ++ reverse l).
Proof.
  intros Hpf. induction turns as [|turns IH]; intros o seen parts Hseen Hbelow Hsize;
    [lia|].
  simpl. destruct o as [q|]; simpl.
  2:{ exists []. split; [constructor|]. by rewrite app_nil_r. }
  destruct (m !! q) as [p|] eqn:Hq; simpl.
  2:{ exists []. split; [by constructor|]. by rewrite app_nil_r. }
  assert (q ∉ seen) as Hnew.
  { intros Hin. specialize (Hbelow q q eq_refl Hin). lia. }
  rewrite decide_False by done.
  assert (q ∈ dom m) as Hdom by (apply elem_of_dom; eauto).
  destruct (IH (p_parent_id p) ({[q]} ∪ seen) (parts ++ [p_name p])) as (l & Hl & Hrun).
  - apply union_subseteq. split; [by apply singleton_subseteq_l|done].
  - intros q' s Hq' Hs. assert (q' < q) as Hlt by (by eapply Hpf).
    apply elem_of_union in Hs as [Hs|Hs].
    + apply elem_of_singleton in Hs as ->. done.
    + specialize (Hbelow q s eq_refl Hs). lia.
  - pose proof (size_difference_grows (dom m) seen q Hdom Hnew). lia.
  - exists (l ++ [p_name p]). split; [by econstructor|].
    rewrite Hrun, reverse_app. simpl. by rewrite <-app_assoc.
Qed.

(** X24. [_project_path] returns for every hierarchy of projects, one
    with a cycle included: the loop is through after at most one turn per
    project.  When every parent has a smaller id than its children, as in
    the databases the repository produces, the path it returns is made
    of the names on the way from the root down to the project, the
    project's own name last, joined by [" / "], empty names left out; for
    an id that is no project it is the empty string. *)
Theorem project_path_follows_the_parents :
  ∀ (projects : gmap Z ProjectRow) (pid : Z) (turns : nat),
    (size projects < turns)%nat →
    is_Some (_project_path turns projects pid)
    ∧ (projects !! pid = None → _project_path turns projects pid = Some "")
    ∧ (parents_first projects →
       ∃ l, lineage projects (Some pid) l
            ∧ _project_path turns projects pid
              = Some (str_join " / " (filter (λ s, s ≠ "") l))).
Proof.
  intros m pid turns Hsize. unfold _project_path.
  assert (size (dom m ∖ ∅) < turns)%nat as Hsize'.
  { assert (dom m ∖ ∅ ⊆ dom m) as Hsub.
    { intros x. rewrite elem_of_difference. by intros [? _]. }
    apply subseteq_size in Hsub. rewrite size_dom in Hsub. lia. }
  split; [|split].
  - destruct (project_path_loop_returns m turns (Some pid) ∅ []) as [parts Hparts];
      [apply empty_subseteq|done|].
    rewrite Hparts. simpl. eauto.
  - intros Hnone. destruct turns as [|turns]; [lia|]. simpl. by rewrite Hnone.
  - intros Hpf.
    destruct (project_path_loop_lineage m Hpf turns (Some pid) ∅ []) as (l & Hl & Hrun);
      [apply empty_subseteq| |done|].
    { intros q s _ Hs. by apply elem_of_empty in Hs. }
    exists l. split; [done|]. rewrite Hrun. simpl. by rewrite reverse_involutive.
Qed.

(** ** Adding a field with the data of the dialog *)

Section Panel.
Context `{B : Builtins}.



End Panel.

(** ** The claims at concrete inputs *)

Import Fixtures Examples.

Lemma depth_leb_sound projects n : ∀ p,
  depth_leb projects n p = true → depth_le projects n p.
Proof.
  induction n as [|n IH]; intros p Hp; [done|].
  constructor. intros c Hc. apply IH.
  simpl in Hp. rewrite forallb_forall in Hp. apply Hp.
  by apply list_elem_of_In, elem_of_children.
Qed.

(** C1, at a concrete session: after add, undo, redo the row is back
    under its id with its field value, but its timestamps are those of the
    redo, not the original ones. *)
Lemma C1_counterexample :
  let v1 := step ex_view (EvAdd (Some {[ 1 := PStr "buy milk" ]})) in
  let v3 := step (step v1 EvUndo) EvRedo in
  let added := rows_of (repo v1) 1 !! 1 in
  let redone := rows_of (repo v3) 1 !! 1 in
  (r_created_at <$> added, r_updated_at <$> added) = (Some "t1", Some "t2")
  ∧ (r_created_at <$> redone, r_updated_at <$> redone) = (Some "t3", Some "t4")
  ∧ (r_cells <$> redone) = (r_cells <$> added)
  ∧ redone ≠ added.
Proof.
  intros v1 v3 added redone.
  assert ((r_created_at <$> added, r_updated_at <$> added) = (Some "t1", Some "t2"))
    as Hadded by (vm_compute; reflexivity).
  assert ((r_created_at <$> redone, r_updated_at <$> redone) = (Some "t3", Some "t4"))
    as Hredone by (vm_compute; reflexivity).
  split; [exact Hadded|]. split; [exact Hredone|].
  split; [vm_compute; reflexivity|].
  intros Heq.
  pose proof (f_equal fst Hadded) as Ha. pose proof (f_equal fst Hredone) as Hr.
  cbn [fst] in Ha, Hr. rewrite Heq, Ha in Hr. discriminate.
Qed.

Lemma C1_witness :
  let v := run [EvReload] (new_view ex_tasks_title 1) in
  let values : gmap Z PyVal := {[ 1 := PStr "buy milk" ]} in
  let v1 := step v (EvAdd (Some values)) in
  let v2 := step v1 EvUndo in
  let d1 := step v1 (EvDelete (Some 1) true) in
  let d2 := step d1 EvUndo in
  fst (Repo.add_record (table_id v) values (repo v)) = Ok 1
  ∧ rows_of (repo v2) (table_id v) = rows_of (repo v) (table_id v)
  ∧ is_Some (rows_of (repo v1) (table_id v1) !! 1)
  ∧ Forall (λ f, is_Some (cols_of (repo v1) (table_id v1) !! f.1)) (fields v1)
  ∧ rows_of (repo (step d2 EvRedo)) (table_id v1)
    = delete 1 (rows_of (repo v1) (table_id v1)).
Proof.
  intros v values v1 v2 d1 d2.
  split; [vm_compute; reflexivity|].
  split.
  { destruct (proj1 (C1_undo_redo_round_trip ex_tasks_title 1 [EvReload])
                values 1 (snd (Repo.add_record (table_id v) values (repo v))))
      as (row & row' & _ & _ & Hback & _).
    - vm_compute. reflexivity.
    - exact Hback. }
  assert (rows_of (repo v1) (table_id v1) !! 1
          = Some {| r_created_at := "t1"; r_updated_at := "t2";
                    r_cells := {[ 1 := PStr "buy milk" ]} |}) as Hrow.
  { vm_compute. reflexivity. }
  assert (Forall (λ f, is_Some (cols_of (repo v1) (table_id v1) !! f.1)) (fields v1))
    as Hfs.
  { vm_compute. repeat constructor. eexists. reflexivity. }
  split; [by eexists|]. split; [exact Hfs|].
  destruct (proj2 (C1_undo_redo_round_trip ex_tasks_title 1
                     [EvReload; EvAdd (Some values)]) 1 _ Hrow Hfs)
    as (row' & _ & _ & _ & _ & _ & _ & Hgone).
  exact Hgone.
Defined.

(** C2, at a concrete call: the target table 999 does not exist, and the
    relation field is created all the same. *)
Lemma C2_counterexample :
  meta_tables ex_tasks !! 999 = None
  ∧ fst (add_field 1 "Owner" "relation" false
           (Some [("target_table_id", PInt 999)]) ex_tasks) = Ok 1.
Proof. vm_compute. done. Qed.

Lemma C2_witness :
  relation_options_ok (options_or_empty (Some [("target_table_id", PInt 0)])) = false
  ∧ add_field 1 "Owner" "relation" false (Some [("target_table_id", PInt 0)]) ex_tasks
    = (Raise ValueError, ex_tasks)
  ∧ relation_options_ok (options_or_empty (Some [("target_table_id", PInt 999)])) = true
  ∧ fst (add_field 1 "Owner" "relation" false
           (Some [("target_table_id", PInt 999)]) ex_tasks) ≠ Raise ValueError.
Proof.
  split; [reflexivity|]. split.
  { apply (proj1 (C2_relation_options_validated ex_tasks 1 "Owner" false
                    (Some [("target_table_id", PInt 0)]))).
    reflexivity. }
  split; [reflexivity|].
  apply (proj1 (proj2 (C2_relation_options_validated ex_tasks 1 "Owner" false
                         (Some [("target_table_id", PInt 999)])))).
  - reflexivity.
  - vm_compute. reflexivity.
Defined.



(** C4, as the code runs.  [_relation_label] looks for the target table
    under [field["options"]["table_id"]], while the dictionaries a view
    holds for its fields, the rows of [list_fields], keep the options
    under [options_json] and the target under [target_table_id].  So on
    every field of a view the label of an id that is not blank is the
    stringified id, whatever the options of the target table are, and the
    cache of options is neither read nor filled.  At a concrete view:
    field 2 of "Tasks" is a relation onto "Tasks" with
    [display_field_id = 0], and record 2 holds the id 1 in it; the
    options of "Tasks" have the label "Buy milk" for the id 1; the label
    of the id 1 is ["1"], which is neither the label of the option nor
    [#1], the label [get_display_map] gives; the label of 0 is empty. *)
Theorem C4_relation_label_skips_the_options :
  (∀ (B : Builtins) (E : SqlEngine) (v : TableView) (f : Z * FieldRow) (rid : PyVal),
     _relation_label (field_dict f) rid v
     = (Ok (if is_blank rid then ""
            else match py_int rid with
                 | inl _ => py_str rid
                 | inr n => pretty n
                 end), v))
  ∧ ∃ f row,
      fields ex_linked_view !! 1%nat = Some f
      ∧ f_ftype f.2 = "relation"
      ∧ f_options_json f.2
        = PDict [("target_table_id", PInt 1); ("display_field_id", PInt 0)]
      ∧ rows_of (repo ex_linked_view) 1 !! 2 = Some row
      ∧ r_cells row !! f.1 = Some (PInt 1)
      ∧ fst (get_relation_options 1 ex_linked_view) = Ok [(1, "Buy milk"); (2, "Cook")]
      ∧ _relation_label (field_dict f) (PInt 1) ex_linked_view
        = (Ok "1", ex_linked_view)
      ∧ _relation_label (field_dict f) (PInt 0) ex_linked_view
        = (Ok "", ex_linked_view)
      ∧ fst (get_display_map 1 0 [1] (repo ex_linked_view)) = Ok {[ 1 := "#1" ]}.
Proof.
  split; [intros; apply relation_label_of_row|].
  eexists _, _. split; [vm_compute; reflexivity|]. cbn [snd fst].
  split; [reflexivity|]. split; [reflexivity|].
  split; [vm_compute; reflexivity|]. split; [vm_compute; reflexivity|].
  split; [vm_compute; reflexivity|].
  split; [apply (relation_label_of_row ex_linked_view)|].
  split; [apply (relation_label_of_row ex_linked_view)|].
  vm_compute. reflexivity.
Qed.

(** C5, at a concrete call: with a 0 in front, field 5 is second in the
    list and gets position 1. *)
Lemma C5_counterexample :
  let w' := snd (reorder_fields 1 [0; 5] ex_two_tables) in
  [0; 5] !! 1%nat = Some 5
  ∧ (f_table_id <$> meta_fields ex_two_tables !! 5) = Some 1
  ∧ (f_position <$> meta_fields w' !! 5) = Some (Some 1)
  ∧ (f_position <$> meta_fields w' !! 5) ≠ Some (Some 2).
Proof. vm_compute. repeat split; discriminate. Qed.

Lemma C5_witness :
  let w' := snd (reorder_fields 1 [7; 5] ex_two_tables) in
  Forall (λ x, 0 < x) [7; 5] ∧ NoDup [7; 5]
  ∧ (∃ f', meta_fields w' !! 5 = Some f' ∧ f_position f' = Some 2
           ∧ same_field (ex_field 1 "Title" 5) f')
  ∧ meta_fields w' !! 7 = Some (ex_field 2 "Name" 7).
Proof.
  intros w'.
  assert (Forall (λ x, 0 < x) [7; 5]) as Hpos by (repeat constructor).
  assert (NoDup [7; 5]) as Hnd.
  { constructor; [|constructor; [apply not_elem_of_nil|constructor]].
    rewrite list_elem_of_singleton. lia. }
  split; [exact Hpos|]. split; [exact Hnd|].
  destruct (C5_reorder_fields_rank_and_frame ex_two_tables 1 [7; 5])
    as (_ & _ & _ & Hrank & Hforeign & _).
  split.
  - apply (Hrank Hpos Hnd 1%nat 5 (ex_field 1 "Title" 5)); reflexivity.
  - apply Hforeign; [reflexivity|]. vm_compute. discriminate.
Defined.

(** C6, at a concrete request on "Tasks" with its two records: of the
    three entries only the one for field 1 counts, and the only row
    returned is the one whose title contains the text. *)
Lemma C6_witness :
  let fields := live_fields ex_two_tasks 1 in
  filter (λ e, known_entry ex_two_tasks 1 e = true) ex_filters
  = [(PStr "1", PDict [("contains", PStr "milk")])]
  ∧ ∃ rows w',
      list_records 1 "" (-1) ex_filters None "DESC" ex_two_tasks = (Ok rows, w')
      ∧ rows.*1 = [1]
      ∧ (∀ row, row ∈ rows →
           search_satisfied "" fields row = true
           ∧ ∀ e, e ∈ ex_filters → entry_satisfied fields row e = true)
      ∧ (∀ row, rows_of w' 1 !! row.1 = Some row.2 →
           search_satisfied "" fields row = true →
           (∀ e, e ∈ ex_filters → entry_satisfied fields row e = true) →
           row ∈ rows).
Proof.
  intros fields. split; [vm_compute; reflexivity|].
  destruct (list_records 1 "" (-1) ex_filters None "DESC" ex_two_tasks)
    as [r w'] eqn:Hrun.
  assert (r = Ok [(1, {| r_created_at := "t1"; r_updated_at := "t2";
                         r_cells := {[ 1 := PStr "Buy milk" ]} |})]) as ->.
  { pose proof (f_equal fst Hrun) as Hr. change (fst (r, w')) with r in Hr.
    rewrite <-Hr. vm_compute. reflexivity. }
  eexists _, w'. split; [reflexivity|]. split; [reflexivity|].
  destruct (proj2 (proj2 (C6_filters_conjoined_unknown_ignored ex_two_tasks 1 "" (-1)
                            ex_filters None "DESC")) _ _ Hrun)
    as (s & t & _ & Ht & _ & Hsound & Hcomplete).
  split.
  - intros row Hrow. destruct (Hsound row Hrow) as (_ & Hq & Hf). by split.
  - intros row Hrow. apply Hcomplete; [lia|].
    unfold rows_of in Hrow. by rewrite Ht in Hrow.
Defined.

(** C7, at a concrete request: the direction [asc] is neither [ASC] nor
    [DESC], and the statement sorts ascending. *)
Lemma C7_counterexample :
  "asc" ≠ "ASC" ∧ "asc" ≠ "DESC"
  ∧ normalize_sort_dir "asc" = "ASC"
  ∧ normalize_sort_dir "asc" ≠ "DESC"
  ∧ match list_records_sql 1 (live_fields ex_tasks_title 1) "" 10 [] (Some 1) "asc" with
    | inr s => sel_order s = [(c_f 1, "ASC"); (c_id, "DESC")]
    | inl _ => False
    end.
Proof. vm_compute. repeat split; discriminate. Qed.

Lemma C7_witness :
  filter_clauses (live_fields ex_tasks_title 1) [] = inr []
  ∧ ∃ s, list_records_sql 1 (live_fields ex_tasks_title 1) "" 10 [] (Some 1) "sideways"
         = inr s
         ∧ sel_order s = [(c_f 1, "DESC"); (c_id, "DESC")].
Proof.
  split; [reflexivity|].
  destruct (C7_order_by ex_tasks_title 1 "" 10 [] (Some 1) "sideways" [] eq_refl)
    as (s & Hs & Horder & _).
  exists s. split; [exact Hs|].
  rewrite Horder. vm_compute. reflexivity.
Defined.

Lemma C8_witness :
  let w' := snd (delete_project 3 1 ex_projects) in
  depth_le (meta_projects ex_projects) 3 1
  ∧ fst (delete_project 3 1 ex_projects) = Ok tt
  ∧ meta_projects w' !! 2 = None
  ∧ (∃ row', meta_tables w' !! 2 = Some row'
             ∧ t_project_id row' = None ∧ t_name row' = "Notes")
  ∧ meta_tables w' !! 3 = Some (ex_table "Misc" None).
Proof.
  intros w'.
  assert (depth_le (meta_projects ex_projects) 3 1) as Hdepth.
  { apply depth_leb_sound. vm_compute. reflexivity. }
  split; [exact Hdepth|].
  destruct (proj1 (proj2 (proj2 (C8_delete_project_orphans_tables ex_projects 1 3)))
              Hdepth) as (Hok & Hgone & _ & Hreleased & Hkept & _).
  split; [exact Hok|].
  assert (in_subtree (meta_projects ex_projects) 1 2) as Hsub.
  { eapply subtree_child; [constructor|]. eexists. split; reflexivity. }
  split; [exact (Hgone 2 Hsub)|]. split.
  - exact (Hreleased 2 (ex_table "Notes" (Some 2)) 2 eq_refl eq_refl Hsub).
  - apply Hkept; [reflexivity|]. intros p Hp. discriminate Hp.
Defined.


Lemma C10_witness :
  let v := new_view ex_tasks_title 1 in
  let v1 := step ex_view (EvAdd (Some {[ 1 := PStr "buy milk" ]})) in
  _undo_idx v = 0 ∧ undo v = (Ok tt, v)
  ∧ _undo_idx v1 = Z.of_nat (length (_undo v1)) ∧ redo v1 = (Ok tt, v1)
  ∧ _in_undo_redo (set_in_undo_redo true v1) = true
  ∧ push_cmd "x" (FnDeleteRecord 1 1) (FnDeleteRecord 1 1) (set_in_undo_redo true v1)
    = (Ok tt, set_in_undo_redo true v1).
Proof.
  intros v v1.
  destruct (C10_history_invariant ex_tasks_title 1 []) as (_ & Hundo & Hredo & Hpush).
  split; [reflexivity|]. split; [by apply Hundo|].
  assert (_undo_idx v1 = Z.of_nat (length (_undo v1))) as Hend by (vm_compute; reflexivity).
  split; [exact Hend|]. split; [by apply Hredo|].
  split; [reflexivity|]. by apply Hpush.
Defined.

(** C8, at a concrete database: [create_project], given as parent the id
    the new project is about to get, makes project 1 its own parent, and
    "Tasks" is a table of that project.  With a recursion limit of 1000,
    [delete_project] raises [RecursionError]; the project is still there
    and the table still belongs to it, not to no project. *)
Lemma C8_counterexample :
  let w := world Scenario.ex_loop in
  let w' := snd (delete_project 1000 1 w) in
  fst (create_project "Loop" "" (Some 1) Scenario.ex_db0) = Ok 1
  ∧ (p_parent_id <$> meta_projects w !! 1) = Some (Some 1)
  ∧ (t_project_id <$> meta_tables w !! 1) = Some (Some 1)
  ∧ fst (delete_project 1000 1 w) = Raise RecursionError
  ∧ meta_projects w' !! 1 = meta_projects w !! 1
  ∧ (t_project_id <$> meta_tables w' !! 1) = Some (Some 1).
Proof. vm_compute. repeat split. Qed.

(** ** The further properties at concrete inputs *)

Import Scenario.

Lemma ex_db_reachable : reachable ex_clock ex_db.
Proof.
  apply reach_call; [|done]. apply reach_call; [|done]. apply reach_call; [|done].
  apply reach_call; [|vm_compute; eauto]. apply reach_call; [|done].
  apply reach_empty.
Qed.


Lemma reorder_fields_then_list_fields_witness :
  [2; 1] ≡ₚ (live_fields ex_tasks_due 1).*1
  ∧ Forall (λ x, 0 < x) [2; 1]
  ∧ ∃ w' l,
      reorder_fields 1 [2; 1] ex_tasks_due = (Ok tt, w')
      ∧ list_fields 1 true w' = (Ok l, w')
      ∧ l.*1 = [2; 1]
      ∧ (∀ (i : nat) fid f', l !! i = Some (fid, f') →
           f_position f' = Some (Z.of_nat i + 1)
           ∧ ∃ f, meta_fields ex_tasks_due !! fid = Some f ∧ same_field f f').
Proof.
  assert ([2; 1] ≡ₚ (live_fields ex_tasks_due 1).*1) as Hp.
  { assert ((live_fields ex_tasks_due 1).*1 = [1; 2]) as -> by (vm_compute; reflexivity).
    apply Permutation_swap. }
  assert (Forall (λ x, 0 < x) [2; 1]) as Hpos by (repeat constructor).
  split; [exact Hp|]. split; [exact Hpos|].
  exact (reorder_fields_then_list_fields ex_tasks_due 1 [2; 1] Hp Hpos).
Defined.

Lemma ex_milk_well_typed s :
  well_typed (cols_of ex_tasks_title 1) {[ 1 := PStr s ]}.
Proof.
  intros k v Hk. apply lookup_singleton_Some in Hk as [<- <-].
  exists TEXT_NOT_NULL_DEFAULT_EMPTY. split; [vm_compute; reflexivity|reflexivity].
Qed.

Lemma add_record_then_get_record_by_id_witness :
  let last := snd (add_record_with_id 1 (2 ^ 63 - 1) {[ 1 := PStr "last" ]} None None
                     ex_tasks_title) in
  rowids_used_up (dt_seq (table_of ex_tasks_title 1)) (rows_of ex_tasks_title 1) = false
  ∧ well_typed (cols_of ex_tasks_title 1) {[ 1 := PStr "buy milk" ]}
  ∧ (∃ rid w' row,
       Repo.add_record 1 {[ 1 := PStr "buy milk" ]} ex_tasks_title = (Ok rid, w')
       ∧ rows_of w' 1 = <[rid := row]> (rows_of ex_tasks_title 1)
       ∧ fst (get_record_by_id 1 rid w') = Ok (Some row))
  ∧ rowids_used_up (dt_seq (table_of last 1)) (rows_of last 1) = true
  ∧ fst (Repo.add_record 1 {[ 1 := PStr "buy milk" ]} last) = Raise OperationalError.
Proof.
  intros last.
  assert (rowids_used_up (dt_seq (table_of ex_tasks_title 1)) (rows_of ex_tasks_title 1)
          = false) as Hleft by (vm_compute; reflexivity).
  assert (rowids_used_up (dt_seq (table_of last 1)) (rows_of last 1) = true) as Hfull
    by (vm_compute; reflexivity).
  split; [exact Hleft|]. split; [apply ex_milk_well_typed|]. split.
  - destruct (proj2 (add_record_then_get_record_by_id ex_tasks_title 1
                       {[ 1 := PStr "buy milk" ]} (ex_milk_well_typed "buy milk")) Hleft)
      as (rid & w' & row & Hrun & _ & _ & _ & Hrows & _ & _ & _ & _ & _ & _ & Hget & _).
    exists rid, w', row. split; [exact Hrun|]. split; [exact Hrows|exact Hget].
  - split; [exact Hfull|].
    assert (well_typed (cols_of last 1) {[ 1 := PStr "buy milk" ]}) as Hwt.
    { intros k v Hk. apply lookup_singleton_Some in Hk as [<- <-].
      exists TEXT_NOT_NULL_DEFAULT_EMPTY. split; [vm_compute; reflexivity|reflexivity]. }
    exact (proj1 (proj1 (add_record_then_get_record_by_id last 1
                           {[ 1 := PStr "buy milk" ]} Hwt) Hfull)).
Defined.

Lemma add_record_never_reuses_an_id_witness :
  let w1 := snd (Repo.add_record 1 {[ 1 := PStr "buy milk" ]} ex_tasks_title) in
  let w2 := snd (Repo.add_record 1 {[ 1 := PStr "buy bread" ]}
                   (run_ops [OpDelete 1 1] w1)) in
  Repo.add_record 1 {[ 1 := PStr "buy milk" ]} ex_tasks_title = (Ok 1, w1)
  ∧ Repo.add_record 1 {[ 1 := PStr "buy bread" ]} (run_ops [OpDelete 1 1] w1) = (Ok 2, w2)
  ∧ rows_of (run_ops [OpDelete 1 1] w1) 1 = ∅
  ∧ 1 < 2.
Proof.
  intros w1 w2.
  assert (Repo.add_record 1 {[ 1 := PStr "buy milk" ]} ex_tasks_title = (Ok 1, w1)) as H1
    by (vm_compute; reflexivity).
  assert (Repo.add_record 1 {[ 1 := PStr "buy bread" ]} (run_ops [OpDelete 1 1] w1)
          = (Ok 2, w2)) as H2 by (vm_compute; reflexivity).
  split; [exact H1|]. split; [exact H2|]. split; [vm_compute; reflexivity|].
  exact (proj1 (add_record_never_reuses_an_id ex_tasks_title 1 _ _ [OpDelete 1 1]
                  1 2 w1 w2 H1 H2)).
Defined.

Lemma edit_record_undo_redo_witness :
  let v := ex_view_milk in
  let row := {| r_created_at := "t1"; r_updated_at := "t2";
                r_cells := {[ 1 := PStr "buy milk" ]} |} in
  let data : gmap Z PyVal := {[ 1 := PStr "buy bread" ]} in
  let v1 := step v (EvEdit (Some 1) (Some data)) in
  let v2 := step v1 EvUndo in
  let v3 := step v2 EvRedo in
  history_ok v
  ∧ rows_of (repo v) (table_id v) !! 1 = Some row
  ∧ ∃ row1 row2 row3,
      rows_of (repo v1) (table_id v) = <[1 := row1]> (rows_of (repo v) (table_id v))
      ∧ r_cells row1 = data ∪ r_cells row
      ∧ rows_of (repo v2) (table_id v) = <[1 := row2]> (rows_of (repo v) (table_id v))
      ∧ r_cells row2 = r_cells row
      ∧ rows_of (repo v3) (table_id v) = <[1 := row3]> (rows_of (repo v) (table_id v))
      ∧ r_cells row3 = r_cells row1.
Proof.
  intros v row data v1 v2 v3.
  assert (history_ok v) as Hv.
  { split; [vm_compute; split; discriminate|vm_compute; reflexivity]. }
  assert (rows_of (repo v) (table_id v) !! 1 = Some row) as Hrow
    by (vm_compute; reflexivity).
  assert (data ≠ ∅) as Hne by apply insert_non_empty.
  assert (well_typed (cols_of (repo v) (table_id v)) data) as Hwt.
  { intros k x Hk. apply lookup_singleton_Some in Hk as [<- <-].
    exists TEXT_NOT_NULL_DEFAULT_EMPTY. split; [vm_compute; reflexivity|reflexivity]. }
  assert (∀ k, is_Some (data !! k) → k ∈ (fields v).*1) as Hdom.
  { intros k [x Hk]. apply lookup_singleton_Some in Hk as [<- _].
    assert ((fields v).*1 = [1]) as -> by (vm_compute; reflexivity). left. }
  assert (Forall (λ f, is_Some (cols_of (repo v) (table_id v) !! f.1)
                       ∧ ∃ x, r_cells row !! f.1 = Some x ∧ is_none x = false) (fields v))
    as Hfields.
  { apply Forall_forall. intros f Hf.
    assert (f.1 = 1) as ->.
    { assert (f.1 ∈ (fields v).*1) as Hin by (apply list_elem_of_fmap; eauto).
      assert ((fields v).*1 = [1]) as Heq by (vm_compute; reflexivity).
      rewrite Heq in Hin. by apply list_elem_of_singleton in Hin. }
    split; [eexists; vm_compute; reflexivity|].
    exists (PStr "buy milk"). split; [vm_compute; reflexivity|reflexivity]. }
  split; [exact Hv|]. split; [exact Hrow|].
  destruct (edit_record_undo_redo v 1 row data Hv Hrow Hne Hwt Hdom Hfields)
    as (row1 & row2 & row3 & H1 & Hc1 & _ & _ & H2 & Hc2 & _ & _ & H3 & Hc3 & _).
  exists row1, row2, row3.
  exact (conj H1 (conj Hc1 (conj H2 (conj Hc2 (conj H3 Hc3))))).
Defined.

Lemma push_cmd_discards_redo_witness :
  let v' := snd (push_cmd "Editar" (FnDeleteRecord 1 1) (FnDeleteRecord 1 1) ex_view_milk) in
  history_ok ex_view_milk
  ∧ _undo_idx v' = _undo_idx ex_view_milk + 1
  ∧ redo v' = (Ok tt, v').
Proof.
  intros v'.
  assert (history_ok ex_view_milk) as Hv.
  { split; [vm_compute; split; discriminate|vm_compute; reflexivity]. }
  split; [exact Hv|].
  destruct (push_cmd_discards_redo ex_view_milk "Editar" (FnDeleteRecord 1 1)
              (FnDeleteRecord 1 1) Hv) as (_ & Hidx & _ & _ & Hredo).
  split; [exact Hidx|exact Hredo].
Defined.

Lemma reachable_projects_form_a_forest_witness :
  reachable ex_clock ex_db
  ∧ (p_parent_id <$> meta_projects (world ex_db) !! 2) = Some (Some 1)
  ∧ ∃ w', delete_project (S (size (meta_projects (world ex_db)))) 1 (world ex_db)
          = (Ok tt, w')
          ∧ deleted (in_subtree (meta_projects (world ex_db)) 1) (world ex_db) w'.
Proof.
  split; [exact ex_db_reachable|]. split; [vm_compute; reflexivity|].
  exact (proj2 (proj2 (reachable_projects_form_a_forest ex_clock ex_db ex_db_reachable)) 1).
Defined.


Lemma create_view_appends_witness :
  reachable ex_clock ex_db
  ∧ ∃ vid c' views,
      create_view 1 "Open" [("search", PStr "milk")] ex_db = (Ok vid, c')
      ∧ list_views 1 ex_db = (Ok views, ex_db)
      ∧ views.*1 = [1]
      ∧ list_views 1 c'
        = (Ok (views ++ [(vid, {| vw_table_id := 1; vw_name := "Open";
                                  vw_view_json := [("search", PStr "milk")];
                                  vw_position := None;
                                  vw_created_at := ex_clock 5;
                                  vw_updated_at := ex_clock 5 |})]), c').
Proof.
  split; [exact ex_db_reachable|].
  destruct (proj2 (proj2 (create_view_appends ex_clock ex_db 1 "Open"
                            [("search", PStr "milk")] ex_db_reachable)))
    as (vid & c' & views & Hrun & _ & _ & Hold & Hnew & _).
  - vm_compute. discriminate.
  - intros k v Hk _. apply elem_of_map_to_list in Hk.
    assert (map_to_list (meta_views ex_db)
            = [(1, {| vw_table_id := 1; vw_name := "All"; vw_view_json := [];
                      vw_position := None; vw_created_at := "t4";
                      vw_updated_at := "t4" |})]) as Hl by (vm_compute; reflexivity).
    rewrite Hl in Hk. apply list_elem_of_singleton in Hk. injection Hk as _ ->.
    vm_compute. discriminate.
  - eexists. vm_compute. reflexivity.
  - exists vid, c', views. split; [exact Hrun|]. split; [exact Hold|]. split.
    + pose proof (f_equal fst Hold) as Hv. cbn [fst] in Hv.
      assert (fst (list_views 1 ex_db)
              = Ok [(1, {| vw_table_id := 1; vw_name := "All"; vw_view_json := [];
                           vw_position := None; vw_created_at := "t4";
                           vw_updated_at := "t4" |})]) as Hl by (vm_compute; reflexivity).
      rewrite Hl in Hv. injection Hv as <-. reflexivity.
    + exact Hnew.
Defined.

Lemma project_path_follows_the_parents_witness :
  (size (meta_projects ex_projects) < 3)%nat
  ∧ _project_path 3 (meta_projects ex_projects) 2 = Some "Work / Q3"
  ∧ is_Some (_project_path 3 (meta_projects ex_projects) 2).
Proof.
  assert (size (meta_projects ex_projects) < 3)%nat as Hsize by (vm_compute; lia).
  split; [exact Hsize|]. split; [vm_compute; reflexivity|].
  exact (proj1 (project_path_follows_the_parents (meta_projects ex_projects) 2 3 Hsize)).
Defined.
